(* ===== verification/_CoqProject ===== *)
-Q . S2P
Prelude.v
Memory.v
KString.v
Spinlock.v
Kalloc.v
Vm.v
VmLocks.v
VmTable.v
VmCopy.v
VmSpace.v
VmFork.v
Random.v
Proc.v
Lottery.v
ProcTable.v
ProcLife.v
ProcInv.v
SleepWakeup.v
Grep.v
Sleeplock.v
Ring.v
Bio.v
BioInv.v
BioConc.v
BioSeq.v
Bytes.v
Log.v
LogInv.v
LogCrash.v
LogTx.v
Txn.v
Fs.v
FsBlock.v
Threads.v
Zemaphore.v
Philosophers.v
Shuttles.v
Pipe.v
File.v
SysFile.v
FileRef.v
Shell.v
FsInode.v
FsFile.v
Virtio.v
VirtioInv.v
Console.v
ConsoleInv.v
Umalloc.v
UmallocInv.v
UmallocSpec.v
Ulib.v
Printf.v
PrintfSpec.v
