(* ===== verification/Prelude.v ===== *)
(** * A verification library for the CSCI-320 xv6 tree

    The repository is the xv6 operating system for RISC-V ([src/xv6-riscv]) and
    four course projects on it and beside it ([src/projects]).  This library
    models the kernel's own logic, the user library and two user programs, and the
    concurrent programs of the last project, and proves what makes them correct.

    ** The program and how its parts interact

    At the bottom are byte routines (string.c), spin locks (spinlock.c) and the
    page allocator (kalloc.c).  Page tables and the copies between user and kernel
    memory (vm.c) use the allocator.  The process table with the lottery scheduler
    of project 3 (proc.c, random.c, sysproc.c) uses page tables and locks; sleep
    and wakeup connect it with everything that waits.  The file system is a tower:
    the disk, the buffer cache (bio.c), the write-ahead log (log.c), blocks, inodes,
    directories and paths (fs.c), open files and pipes (file.c, pipe.c), and the
    system calls (sysfile.c, syscall.c).

    ** The files

    Foundations:
    - Prelude: outcomes of kernel code ([M S A]: a value and a state, a panic, a
      sleep, or no fuel), its notation, machine integers as wrap-around on [Z],
      loops, finite sums, the tactics and hints shared by all files.
    - Memory: byte-addressed memory, loads and stores, pointwise equality.
    - Bytes: little-endian fields inside a block.
    - Ring: doubly linked rings.

    Kernel, each file named after what it models:
    - KString: string.c.  Spinlock: spinlock.c; its last part is the class
      [LockView], the interface through which all other files see locks, with the
      theorem that the code implements it.  Sleeplock: sleeplock.c, for any state
      with the class [Thread].
    - Kalloc: kalloc.c.  Vm: vm.c; VmTable (page tables refine a map of
      translations), VmCopy (copyout, copyin, copyinstr), VmLocks (locks given
      back), VmSpace (an address space from uvmcreate to uvmfree), VmFork (its copy
      for fork).
    - Random: random.c.  Proc: proc.c, proc.h, sysproc.c and argument fetching, of
      the project 3 tree; Lottery (the scheduler's draw), ProcTable, ProcLife and
      ProcInv (the table's invariant), SleepWakeup (sleep and wakeup interleaved).
    - Bio: bio.c; BioInv (its invariant), BioConc (concurrent use refines a map of
      blocks), BioSeq (what one process sees).  Log: log.c; LogInv, LogCrash, LogTx
      (crash safety).  Txn: the machine of one transaction, an interface that the
      code of log.c and bio.c is proved to implement and against which fs.c is
      verified.
    - Fs: fs.c; FsBlock (the block allocator), FsInode (inodes on disk), FsFile
      (content of files).  Pipe: pipe.c.  File: file.c.  SysFile: sysfile.c and the
      string arguments of syscall.c.  FileRef: reference counts of open files.
    - Virtio: virtio_disk.c with the device it talks to; VirtioInv (its invariant under
      every interleaving, and progress).  Console: console.c and uart.c; ConsoleInv
      (the line editor and the output queue).  Printf: both printf.c; PrintfSpec
      (numerals and formats).

    User programs and projects:
    - Grep: user/grep.c.  Shell: the parser of user/sh.c.
    - Umalloc: user/umalloc.c; UmallocInv (the ring of free blocks under free),
      UmallocSpec (malloc, and the contract with a program).  Ulib: user/ulib.c.
    - Threads: threads over semaphores; Zemaphore: project_5/zemaphore.h at the level
      of its mutex and condition variable; Philosophers: 1-dp.c, 2-dp.c and 3-dp.c;
      Shuttles: shuttles-problem.c.

    State is a record per component with the source's fields, an operation is a
    definition with the source's name, and a [for] or [while] loop is a recursive
    definition named after the function with the suffix _loop (or _scan, _turn).

    ** What the theorems show

    - Locks and waiting: mutual exclusion and interrupt discipline of spin locks,
      no wakeup lost between sleep and wakeup, Zem_wait and Zem_post a counting
      semaphore.
    - Memory: free and allocated pages partition RAM; mappages, uvmunmap, walk,
      copyout, copyin and copyinstr do to the address space what they promise and
      nothing else; an address space grows with cleared pages, shrinks, is copied for
      fork and gives every page back, failing only when memory is short.
    - Processes: the table stays well formed under every sequence of operations,
      fork and wait do what their callers expect, the lottery gives every RUNNABLE
      process as many winning tickets as it holds.
    - Storage: the buffer cache is a map under any interleaving, a crash at any
      write leaves all of a transaction or none of it, blocks are allocated once,
      what writei stores readi returns, open files are counted, a pipe is a queue.
    - Programs: the pattern matcher decides its language, grep is a line filter,
      the shell's parser always returns and its words are the words of the line,
      two solutions of the dining philosophers are free of deadlock, a third and the
      shuttle are shown to deadlock.
    - Devices: every disk call transfers its block once and the driver is never
      stuck; console input is a line editor, output a queue.
    - Library: malloc and free keep blocks apart and the free list an ordered ring
      without adjacent blocks that, with the blocks in use, partitions the heap; what
      printf prints for an int atoi reads back; the user's string routines agree with
      the kernel's.

    ** Bounds and fuel

    Integers are [Z] with the wrap-around of their width written where the code
    computes ([u8], [u16], [u32], [u64]).  Recursion that is not structural takes
    fuel, and [OutOfFuel] is an outcome different from every result: the loops over
    tables and blocks get one more than their number of turns, a byte count gives one
    turn per byte (readi, writei, copies), the parser four calls per character, and
    the theorems about them conclude that the code returns.  Waiting loops of a
    process end in [Blocked] with the state it sleeps in; the theorems on concurrent
    use continue it from its loop test after any steps of the others.

    ** Not modelled

    Assembly (entry.S, kernelvec.S, swtch.S, trampoline.S, initcode.S, usys.pl), boot
    and the register accesses of riscv.h, start.c, main.c and plic.c have no logic
    that the kernel of a proof assistant could check without a model of the machine.
    trap.c only dispatches on such registers.  kvmmake builds one fixed kernel map.
    uartinit, consoleinit and printfinit program fixed registers and fill tables; exec.c
    is a parameter of sys_exec.
    The other user programs are tests (usertests.c, grind.c, forktest.c, stressfs.c,
    lotteryTest.c) or a few system calls in a row (cat.c, ls.c, ...).  project_2 and
    the plain xv6 copies of proc.c, sysproc.c and syscall.c are subsets of the project 3
    files that are modelled; project_5/old and project_5/templates are earlier versions
    of the modelled programs.  In fs.c the device number is part of every call and only
    one device exists; printing is left out everywhere. *)

From stdpp Require Import base list strings numbers.
From Stdlib Require Export ZArith Lia.

Open Scope Z_scope.

(** ** Outcomes of kernel code

    A C function that reads and writes kernel state is a function of type
    [M S A]: it returns a value and a new state, stops the machine with
    [panic], gives up the CPU inside [sleep] (leaving the state it slept
    with), or exhausts the fuel that bounds one of its loops. *)

Inductive outcome (S A : Type) : Type :=
| Ret (a : A) (s : S)
| Panic (msg : string)
| Blocked (s : S)
| OutOfFuel.
Arguments Ret {S A} a s.
Arguments Panic {S A} msg.
Arguments Blocked {S A} s.
Arguments OutOfFuel {S A}.

Definition M (S A : Type) : Type := S -> outcome S A.

Definition ret {S A} (a : A) : M S A := fun s => Ret a s.

Definition bind {S A B} (c : M S A) (k : A -> M S B) : M S B :=
  fun s =>
    match c s with
    | Ret a s' => k a s'
    | Panic msg => Panic msg
    | Blocked s' => Blocked s'
    | OutOfFuel => OutOfFuel
    end.

Definition panic {S A} (msg : string) : M S A := fun _ => Panic msg.
Definition get {S A} (f : S -> A) : M S A := fun s => Ret (f s) s.
Definition modify {S} (f : S -> S) : M S unit := fun s => Ret tt (f s).
Definition out_of_fuel {S A} : M S A := fun _ => OutOfFuel.

Declare Scope kernel_scope.
Delimit Scope kernel_scope with kernel.
Notation "'let!' x ':=' c 'in' k" := (bind c (fun x => k))
  (at level 200, x pattern, c at level 100, k at level 200, right associativity)
  : kernel_scope.
Notation "c ;;; k" := (bind c (fun _ => k))
  (at level 199, right associativity) : kernel_scope.
Notation "'when' b 'then' c" := (if b then c else ret tt)
  (at level 199, b at level 100, c at level 199) : kernel_scope.
Open Scope kernel_scope.

(** Running a computation to completion: the value and the final state. *)
Definition returns {S A} (c : M S A) (s : S) (a : A) (s' : S) : Prop :=
  c s = Ret a s'.

Section monad_facts.
Context {S A B : Type}.
Implicit Types (c : M S A) (k : A -> M S B) (s : S).

Lemma bind_ret_inv c k s b s'' :
  bind c k s = Ret b s'' ->
  exists a s', c s = Ret a s' /\ k a s' = Ret b s''.
Proof. unfold bind. destruct (c s) eqn:E; intros; try discriminate; eauto. Qed.

Lemma bind_get (f : S -> A) k s : bind (get f) k s = k (f s) s.
Proof. done. Qed.

Lemma bind_ret_intro c k s a s' :
  c s = Ret a s' -> bind c k s = k a s'.
Proof. unfold bind. by intros ->. Qed.
End monad_facts.

(** Weakest preconditions: if [c] returns from [s] then [Q] holds of the value
    and the state, and if it sleeps then [B] holds of the state. *)
Definition wp {S A} (c : M S A) (s : S) (Q : A -> S -> Prop) (B : S -> Prop) : Prop :=
  match c s with Ret a s' => Q a s' | Blocked s' => B s' | _ => True end.

Section wp_facts.
Context {S : Type}.

Lemma wp_ret {A} (a : A) (s : S) (Q : A -> S -> Prop) B : Q a s -> wp (ret a) s Q B.
Proof. done. Qed.

Lemma wp_bind {A C} (c : M S A) (k : A -> M S C) s Q B :
  wp c s (fun a s' => wp (k a) s' Q B) B -> wp (bind c k) s Q B.
Proof. unfold wp, bind. by destruct (c s). Qed.

Lemma wp_mono {A} (c : M S A) s (Q Q' : A -> S -> Prop) (B B' : S -> Prop) :
  wp c s Q B -> (forall a s', Q a s' -> Q' a s') -> (forall s', B s' -> B' s') -> wp c s Q' B'.
Proof. unfold wp. destruct (c s); auto. Qed.

Lemma wp_panic {A} msg (s : S) (Q : A -> S -> Prop) B : wp (panic msg) s Q B.
Proof. done. Qed.

Lemma wp_run {A} (c : M S A) s Q B a s' : wp c s Q B -> c s = Ret a s' -> Q a s'.
Proof. unfold wp. intros H E. by rewrite E in H. Qed.

Lemma wp_blocked {A} (c : M S A) s Q B s' : wp c s Q B -> c s = Blocked s' -> B s'.
Proof. unfold wp. intros H E. by rewrite E in H. Qed.
End wp_facts.

(** A loop over the entries [l] of a table; the second form stops at the first
    entry whose body gives a result, as a return or goto inside the loop does. *)
Fixpoint for_each {S : Type} (l : list nat) (body : nat -> M S unit) : M S unit :=
  match l with
  | [] => ret tt
  | i :: l => bind (body i) (fun _ => for_each l body)
  end.

Fixpoint for_find {S A : Type} (l : list nat) (body : nat -> M S (option A)) : M S (option A) :=
  match l with
  | [] => ret None
  | i :: l => bind (body i) (fun r => match r with Some a => ret (Some a) | None => for_find l body end)
  end.

(** An invariant of every turn is an invariant of the loop. *)
Lemma for_each_inv {S : Type} (P : S -> Prop) l (body : nat -> M S unit) s s' :
  (forall i s s', i ∈ l -> P s -> body i s = Ret tt s' -> P s') ->
  P s -> for_each l body s = Ret tt s' -> P s'.
Proof.
  revert s. induction l as [|i l IH]; intros s Hb Hs H; cbn [for_each] in H.
  - by injection H as <-.
  - apply bind_ret_inv in H as ([] & s1 & H1 & H2). eapply IH; [|eapply Hb; eauto; left|exact H2].
    intros j ? ? ?. apply Hb. by right.
Qed.

(** [minv] splits a hypothesis saying that a sequence of calls returned into
    one hypothesis per call. *)
Ltac minv :=
  repeat match goal with
  | H : bind _ _ _ = Ret _ _ |- _ =>
      let a := fresh "v" in let s := fresh "s" in let E := fresh "E" in
      apply bind_ret_inv in H; destruct H as (a & s & E & H)
  | H : ret _ _ = Ret _ _ |- _ => unfold ret in H
  | H : get _ _ = Ret _ _ |- _ => unfold get in H
  | H : modify _ _ = Ret _ _ |- _ => unfold modify in H
  | H : panic _ _ = Ret _ _ |- _ => discriminate H
  | H : out_of_fuel _ = Ret _ _ |- _ => discriminate H
  | H : Ret _ _ = Ret _ _ |- _ => injection H; clear H; intros; subst
  | H : Panic _ = Ret _ _ |- _ => discriminate H
  | H : Blocked _ = Ret _ _ |- _ => discriminate H
  | H : OutOfFuel = Ret _ _ |- _ => discriminate H
  end.

(** ** Machine-width integers

    C integers are [Z] kept in range by explicit reduction. *)

Definition u8 (x : Z) : Z := x mod 2 ^ 8.
Definition u16 (x : Z) : Z := x mod 2 ^ 16.
Definition u32 (x : Z) : Z := x mod 2 ^ 32.
Definition u64 (x : Z) : Z := x mod 2 ^ 64.

(** Two's complement reading of the low 32 bits, the type [int]. *)
Definition s32 (x : Z) : Z := (x + 2 ^ 31) mod 2 ^ 32 - 2 ^ 31.

Lemma u8_range x : 0 <= u8 x < 256.
Proof. unfold u8. apply (Z.mod_pos_bound x (2 ^ 8)). lia. Qed.
Lemma u16_range x : 0 <= u16 x < 2 ^ 16.
Proof. apply Z.mod_pos_bound; lia. Qed.
Lemma u32_range x : 0 <= u32 x < 2 ^ 32.
Proof. apply Z.mod_pos_bound; lia. Qed.
Lemma u64_range x : 0 <= u64 x < 2 ^ 64.
Proof. apply Z.mod_pos_bound; lia. Qed.

Lemma u8_small x : 0 <= x < 256 -> u8 x = x.
Proof. intros. apply (Z.mod_small x (2 ^ 8)). lia. Qed.
Lemma u16_small x : 0 <= x < 2 ^ 16 -> u16 x = x.
Proof. apply Z.mod_small. Qed.
Lemma u32_small x : 0 <= x < 2 ^ 32 -> u32 x = x.
Proof. apply Z.mod_small. Qed.
Lemma u64_small x : 0 <= x < 2 ^ 64 -> u64 x = x.
Proof. apply Z.mod_small. Qed.
Lemma s32_small x : - 2 ^ 31 <= x < 2 ^ 31 -> s32 x = x.
Proof. intros. unfold s32. rewrite Z.mod_small by lia. lia. Qed.
Lemma s32_range x : - 2 ^ 31 <= s32 x < 2 ^ 31.
Proof.
  unfold s32. pose proof (Z.mod_pos_bound (x + 2 ^ 31) (2 ^ 32)). lia.
Qed.

(** ** Automation shared by the components *)

Create HintDb kernel discriminated.
#[export] Hint Resolve u8_range u16_range u32_range u64_range s32_range : kernel.
#[export] Hint Rewrite u8_small u16_small u32_small u64_small s32_small
  using lia : kernel.

(** Case analysis on a boolean test of the code, in the goal or in [H];
    stdpp's [case_decide] does the same for a [decide]. *)
Ltac case_test :=
  match goal with
  | |- context [if ?b then _ else _] =>
      lazymatch type of b with
      | bool => let E := fresh "E" in destruct b eqn:E
      end
  end.

Ltac case_test_in H :=
  match type of H with
  | context [if ?b then _ else _] =>
      lazymatch type of b with
      | bool => let E := fresh "E" in destruct b eqn:E
      end
  end.

(** Turn boolean comparisons in the context into propositions [lia] reads. *)
Ltac bool_to_prop :=
  repeat match goal with
  | H : negb _ = false |- _ => apply negb_false_iff in H
  | H : negb _ = true |- _ => apply negb_true_iff in H
  | E : orb _ _ = false |- _ => apply orb_false_iff in E as [? ?]
  | E : andb _ _ = true |- _ => apply andb_true_iff in E as [? ?]
  | H : (_ <? _) = true |- _ => apply Z.ltb_lt in H
  | H : (_ <? _) = false |- _ => apply Z.ltb_ge in H
  | H : (_ <=? _) = true |- _ => apply Z.leb_le in H
  | H : (_ <=? _) = false |- _ => apply Z.leb_gt in H
  | H : (_ =? _) = true |- _ => apply Z.eqb_eq in H
  | H : (_ =? _) = false |- _ => apply Z.eqb_neq in H
  end.

(** Split on every range test of the goal and close the arithmetic cases. *)
Ltac range_cases :=
  repeat case_decide; repeat case_test; bool_to_prop; subst;
  try done; try lia; try (f_equal; lia).

(** ** Lists indexed by machine integers *)

Lemma list_insert_same {A} (l : list A) i x :
  l !! i = Some x -> <[i := x]> l = l.
Proof. apply list_insert_id. Qed.

Lemma seq_lookup_Some (n i : nat) : (i < n)%nat -> seq 0 n !! i = Some i.
Proof. intros. rewrite lookup_seq_lt by lia. f_equal. Qed.

Lemma nth_nil {A} (n : nat) (d : A) : nth n [] d = d.
Proof. by destruct n. Qed.

(** A C array of integers, read and written by index. *)
Definition rd (l : list Z) (i : Z) : Z := nth (Z.to_nat i) l 0.
Definition wr (l : list Z) (i v : Z) : list Z := <[Z.to_nat i := v]> l.

Lemma length_wr l i v : length (wr l i v) = length l.
Proof. apply length_insert. Qed.

Lemma rd_wr_same l i v : 0 <= i < Z.of_nat (length l) -> rd (wr l i v) i = v.
Proof.
  intros H. unfold rd, wr. apply nth_lookup_Some. apply list_lookup_insert_eq. lia.
Qed.

Lemma rd_wr_other l i j v : 0 <= i -> 0 <= j -> j <> i -> rd (wr l i v) j = rd l j.
Proof.
  intros Hi Hj Hne. unfold rd, wr. rewrite !nth_lookup, list_lookup_insert_ne; [done|lia].
Qed.

Lemma rd_ext l l' :
  length l = length l' -> (forall i, 0 <= i < Z.of_nat (length l) -> rd l i = rd l' i) -> l = l'.
Proof.
  intros Hl H. apply list_eq_same_length with (length l); [done|done|]. intros i x y Hi Hx Hy.
  specialize (H (Z.of_nat i) ltac:(lia)). unfold rd in H. rewrite Nat2Z.id in H.
  by rewrite (nth_lookup_Some _ _ _ _ Hx), (nth_lookup_Some _ _ _ _ Hy) in H.
Qed.

(** Every entry of an array satisfies [P]. *)
Definition all_entries (P : Z -> Prop) (l : list Z) : Prop :=
  forall i, 0 <= i < Z.of_nat (length l) -> P (rd l i).

Lemma all_entries_wr P l i v : 0 <= i -> all_entries P l -> P v -> all_entries P (wr l i v).
Proof.
  intros Hi Hl Hv j Hj. rewrite length_wr in Hj. destruct (decide (j = i)) as [->|].
  - by rewrite rd_wr_same.
  - rewrite rd_wr_other by lia. by apply Hl.
Qed.

(** [for(i = a; i < a + n; i++)] and [for(i = a; i > a - n; i--)] over a state. *)
Fixpoint for_up {St : Type} (a : Z) (n : nat) (f : Z -> St -> St) (s : St) : St :=
  match n with O => s | S n => for_up (a + 1) n f (f a s) end.

Fixpoint for_down {St : Type} (a : Z) (n : nat) (f : Z -> St -> St) (s : St) : St :=
  match n with O => s | S n => for_down (a - 1) n f (f a s) end.

Lemma for_up_inv {St} (P : Z -> St -> Prop) (f : Z -> St -> St) n a s :
  P a s -> (forall i s, a <= i < a + Z.of_nat n -> P i s -> P (i + 1) (f i s)) ->
  P (a + Z.of_nat n) (for_up a n f s).
Proof.
  revert a s. induction n as [|n IH]; intros a s H0 Hs; cbn [for_up].
  - by rewrite Z.add_0_r.
  - replace (a + Z.of_nat (S n)) with (a + 1 + Z.of_nat n) by lia.
    apply IH; [apply Hs; [lia|done]|]. intros i s' Hi. apply Hs. lia.
Qed.

Lemma for_down_inv {St} (P : St -> Prop) (f : Z -> St -> St) n a s :
  P s -> (forall i s, a - Z.of_nat n < i <= a -> P s -> P (f i s)) -> P (for_down a n f s).
Proof.
  revert a s. induction n as [|n IH]; intros a s H0 Hs; cbn [for_down]; [done|].
  apply IH; [apply Hs; [lia|done]|]. intros i s' Hi. apply Hs. lia.
Qed.

(** ** Filtering *)

Lemma filter_all {A} (Q : A -> Prop) `{forall x, Decision (Q x)} (l : list A) :
  (forall x, x ∈ l -> Q x) -> filter Q l = l.
Proof.
  induction l as [|x l IH]; intros Hl; [done|]. rewrite filter_cons_True by (apply Hl; left).
  f_equal. apply IH. intros. apply Hl. by right.
Qed.

Lemma filter_none {A} (Q : A -> Prop) `{forall x, Decision (Q x)} (l : list A) :
  (forall x, x ∈ l -> ~ Q x) -> filter Q l = [].
Proof.
  induction l as [|x l IH]; intros Hl; [done|]. rewrite filter_cons_False by (apply Hl; left).
  apply IH. intros. apply Hl. by right.
Qed.

Lemma filter_ext_in {A} (Q R : A -> Prop) `{forall x, Decision (Q x)} `{forall x, Decision (R x)} (l : list A) :
  (forall x, x ∈ l -> Q x <-> R x) -> filter Q l = filter R l.
Proof.
  induction l as [|x l IH]; intros Hl; [done|].
  assert (IH' : filter Q l = filter R l) by (apply IH; intros; apply Hl; by right).
  destruct (decide (Q x)) as [E|E].
  - rewrite !filter_cons_True; [by f_equal|by apply Hl; [left|]|done].
  - rewrite !filter_cons_False; [done|intros HR; by apply E, Hl; [left|]|done].
Qed.

(** ** Removing an element *)

Definition remove_one {A} `{EqDecision A} (x : A) (l : list A) : list A :=
  filter (fun y => y <> x) l.

Section remove_facts.
Context {A : Type} `{EqDecision A}.
Implicit Types (x y : A) (l : list A).

Lemma remove_one_id x l : x ∉ l -> remove_one x l = l.
Proof.
  unfold remove_one. induction l as [|y l IH]; intros H; [done|].
  rewrite not_elem_of_cons in H. rewrite filter_cons_True by naive_solver.
  f_equal. naive_solver.
Qed.

Lemma elem_of_remove_one x y l : y ∈ remove_one x l <-> y <> x /\ y ∈ l.
Proof. unfold remove_one. by rewrite list_elem_of_filter. Qed.

Lemma NoDup_remove_one x l : NoDup l -> NoDup (remove_one x l).
Proof. apply list.NoDup_filter. Qed.

Lemma length_remove_one x l :
  NoDup l -> x ∈ l -> S (length (remove_one x l)) = length l.
Proof.
  unfold remove_one. induction 1 as [|y l Hy Hl IH]; [by intros ?%elem_of_nil|].
  intros [->|Hin]%elem_of_cons.
  - rewrite filter_cons_False by naive_solver. simpl. f_equal.
    f_equal. by apply remove_one_id.
  - rewrite filter_cons_True by naive_solver. simpl. f_equal. by apply IH.
Qed.

Lemma remove_one_head x l : x ∉ l -> remove_one x (x :: l) = l.
Proof.
  intros. unfold remove_one. rewrite filter_cons_False by naive_solver.
  by apply remove_one_id.
Qed.
End remove_facts.

(** The test of one bit of a word *)
Lemma land_bit x k : 0 <= k -> (Z.land x (Z.shiftl 1 k) =? 0) = negb (Z.testbit x k).
Proof.
  intros Hk. rewrite Z.shiftl_1_l. destruct (Z.testbit x k) eqn:E; simpl.
  - apply Z.eqb_neq. intros H0. assert (Z.testbit (Z.land x (2 ^ k)) k = true).
    { rewrite Z.land_spec, E, Z.pow2_bits_true by done. done. }
    by rewrite H0, Z.bits_0 in H.
  - apply Z.eqb_eq, Z.bits_inj'. intros i Hi. rewrite Z.land_spec, Z.bits_0.
    destruct (Z.eq_dec i k) as [->|Hne]; [by rewrite E|]. rewrite Z.pow2_bits_false by done. apply andb_false_r.
Qed.

(** ** Functions updated at a point

    Tables indexed by a type with decidable equality (locks, CPUs, threads)
    are functions. *)

Definition upd {A B} `{EqDecision A} (f : A -> B) (a : A) (v : B) : A -> B :=
  fun a' => if decide (a' = a) then v else f a'.

Section upd_facts.
Context {A B : Type} `{EqDecision A}.
Implicit Types (f : A -> B).

Lemma upd_same f a b : upd f a b a = b.
Proof. unfold upd. by rewrite decide_True. Qed.

Lemma upd_other f a b x : x <> a -> upd f a b x = f x.
Proof. unfold upd. intros. by rewrite decide_False. Qed.
End upd_facts.

#[export] Hint Rewrite @upd_same : kernel.
#[export] Hint Rewrite @upd_other using congruence : kernel.

(** Case analysis on which entry of an updated table is read. *)
Ltac upd_at x c :=
  destruct (decide (x = c)) as [->|?];
  [rewrite ?upd_same in * | rewrite ?upd_other in * by congruence]; simpl in *.

(** ** Sums over the entries of a table *)

Fixpoint sum (f : nat -> Z) (n : nat) : Z :=
  match n with
  | O => 0
  | S n => sum f n + f n
  end.

Lemma sum_ext f g n : (forall i, (i < n)%nat -> f i = g i) -> sum f n = sum g n.
Proof. induction n as [|n IH]; intros H; simpl; [done|]. rewrite IH, H by auto with lia. done. Qed.

Lemma sum_point f g n t :
  (t < n)%nat -> (forall i, (i < n)%nat -> i <> t -> g i = f i) -> sum g n = sum f n + g t - f t.
Proof.
  induction n as [|n IH]; intros Ht H; [lia|]. simpl. destruct (decide (n = t)) as [->|Hne].
  - rewrite (sum_ext g f) by (intros; apply H; lia). lia.
  - rewrite IH, (H n) by (auto with lia). lia.
Qed.

(** One entry of the table changes *)
Lemma sum_upd {A} (w : A -> Z) (pc : nat -> A) n t k :
  (t < n)%nat -> sum (fun i => w (upd pc t k i)) n = sum (fun i => w (pc i)) n + w k - w (pc t).
Proof.
  intros Ht. rewrite (sum_point (fun i => w (pc i)) _ n t Ht); [by rewrite upd_same|].
  intros i _ Hi. by rewrite upd_other.
Qed.

Lemma sum_bounds f n lo hi :
  (forall i, (i < n)%nat -> lo <= f i <= hi) -> Z.of_nat n * lo <= sum f n <= Z.of_nat n * hi.
Proof. induction n as [|n IH]; intros H; simpl sum; [lia|]. pose proof (H n). specialize (IH ltac:(auto with lia)). lia. Qed.

Lemma sum_ge f n t : (t < n)%nat -> (forall i, (i < n)%nat -> 0 <= f i) -> f t <= sum f n.
Proof.
  induction n as [|n IH]; intros Ht H; [lia|]. simpl. pose proof (H n ltac:(lia)).
  destruct (decide (n = t)) as [->|Hne]; [|specialize (IH ltac:(lia)); pose proof (IH ltac:(auto with lia)); lia].
  pose proof (sum_bounds f t 0 (sum f t + 1)). assert (0 <= sum f t); [|lia].
  clear -H. induction t as [|t IH]; simpl; [lia|]. pose proof (H t ltac:(lia)). specialize (IH ltac:(auto with lia)). lia.
Qed.

(** Two entries that both count *)
Lemma sum_two f n t u :
  (t < n)%nat -> (u < n)%nat -> t <> u -> (forall i, (i < n)%nat -> 0 <= f i) -> f t + f u <= sum f n.
Proof.
  intros Ht Hu Hne H. rewrite (sum_point (upd f t 0) f n t Ht), upd_same.
  - pose proof (sum_ge (upd f t 0) n u Hu) as E. rewrite upd_other in E by done.
    enough (f u <= sum (upd f t 0) n) by lia. apply E. intros i Hi. unfold upd. case_decide; [lia|auto].
  - intros i _ Hi. by rewrite upd_other.
Qed.

(** ** Sequences of steps *)

Section steps.
Context {St : Type} (step : St -> St -> Prop).

Inductive steps : St -> St -> Prop :=
| steps_refl s : steps s s
| steps_trans s1 s2 s3 : steps s1 s2 -> step s2 s3 -> steps s1 s3.

(** An inductive invariant holds in every reachable state. *)
Lemma steps_invariant (I : St -> Prop) :
  (forall s s', I s -> step s s' -> I s') ->
  forall s s', steps s s' -> I s -> I s'.
Proof. intros Hp s s' Hs. induction Hs; eauto. Qed.

End steps.
