(* ===== verification/Memory.v ===== *)
(** Byte-addressed memory, the accesses the kernel makes to it, and the
    pointwise equivalence of memories. *)

From stdpp Require Import base list.
From S2P Require Import Prelude.

(** Memory maps an address to the byte stored there. *)
Definition mem : Type := Z -> Z.

Definition store8 (m : mem) (a v : Z) : mem :=
  fun x => if x =? a then u8 v else m x.

(** Little-endian 64-bit accesses, the width of a pointer and of a PTE. *)
Fixpoint load_le (m : mem) (a : Z) (n : nat) : Z :=
  match n with
  | O => 0
  | S n => m a + 256 * load_le m (a + 1) n
  end.

Fixpoint store_le (m : mem) (a v : Z) (n : nat) : mem :=
  match n with
  | O => m
  | S n => store_le (store8 m a v) (a + 1) (v / 256) n
  end.

Definition load64 (m : mem) (a : Z) : Z := load_le m a 8.
Definition store64 (m : mem) (a v : Z) : mem := store_le m a v 8.

(** Every cell of the memory holds a byte. *)
Definition bytes (m : mem) : Prop := forall a, 0 <= m a < 256.

(** Two memories are equal when they agree at every address. *)
Definition mem_eq : relation mem := pointwise_relation Z eq.

#[export] Instance mem_eq_equivalence : Equivalence mem_eq.
Proof. unfold mem_eq. apply _. Qed.

#[export] Instance store8_proper : Proper (mem_eq ==> eq ==> eq ==> mem_eq) store8.
Proof. intros m m' H a ? <- v ? <- x. unfold store8. case_test; auto. Qed.

#[export] Instance load_le_proper : Proper (mem_eq ==> eq ==> eq ==> eq) load_le.
Proof.
  intros m m' H a ? <- n ? <-. revert a. induction n as [|n IH]; intros a; simpl; auto.
  by rewrite IH, (H a).
Qed.

Lemma store_le_ext n m m' a v :
  mem_eq m m' -> mem_eq (store_le m a v n) (store_le m' a v n).
Proof.
  revert m m' a v. induction n as [|n IH]; intros m m' a v H; simpl; auto.
  apply IH. by rewrite H.
Qed.

#[export] Instance store64_proper : Proper (mem_eq ==> eq ==> eq ==> mem_eq) store64.
Proof. intros m m' H a ? <- v ? <-. by apply store_le_ext. Qed.

#[export] Instance load64_proper : Proper (mem_eq ==> eq ==> eq) load64.
Proof. intros m m' H a ? <-. unfold load64. by rewrite H. Qed.

(** ** Reads over writes *)

Lemma store8_same m a v : store8 m a v a = u8 v.
Proof. unfold store8. by rewrite Z.eqb_refl. Qed.

Lemma store8_other m a v x : x <> a -> store8 m a v x = m x.
Proof. unfold store8. intros. by rewrite (proj2 (Z.eqb_neq _ _)). Qed.

Lemma store8_bytes m a v : bytes m -> bytes (store8 m a v).
Proof.
  intros H x. unfold store8. case_test; [apply u8_range | apply H].
Qed.

Lemma store_le_other n m a v x :
  ~ (a <= x < a + Z.of_nat n) -> store_le m a v n x = m x.
Proof.
  revert m a v. induction n as [|n IH]; intros m a v Hx; simpl; auto.
  rewrite IH by lia. apply store8_other. lia.
Qed.

Lemma store_le_bytes n m a v : bytes m -> bytes (store_le m a v n).
Proof.
  revert m a v. induction n as [|n IH]; intros; simpl; auto using store8_bytes.
Qed.

Lemma load_le_frame n m m' a :
  (forall x, a <= x < a + Z.of_nat n -> m x = m' x) -> load_le m a n = load_le m' a n.
Proof.
  revert a. induction n as [|n IH]; intros a H; simpl; auto.
  rewrite (H a) by lia. f_equal. f_equal. apply IH. intros. apply H. lia.
Qed.

Lemma load_le_range n m a : bytes m -> 0 <= load_le m a n < 256 ^ Z.of_nat n.
Proof.
  intros Hb. revert a. induction n as [|n IH]; intros a; simpl load_le.
  - simpl. lia.
  - rewrite Nat2Z.inj_succ, Z.pow_succ_r by lia.
    pose proof (Hb a). specialize (IH (a + 1)). lia.
Qed.

Lemma load_store_le n m a v :
  load_le (store_le m a v n) a n = v mod 256 ^ Z.of_nat n.
Proof.
  revert m a v. induction n as [|n IH]; intros m a v; simpl load_le; simpl store_le.
  - by rewrite Z.mod_1_r.
  - rewrite IH, store_le_other, store8_same by lia.
    rewrite Nat2Z.inj_succ, Z.pow_succ_r by lia.
    rewrite Z.rem_mul_r by lia. done.
Qed.

Lemma load64_range m a : bytes m -> 0 <= load64 m a < 2 ^ 64.
Proof. apply (load_le_range 8). Qed.

Lemma load64_store64_same m a v : load64 (store64 m a v) a = u64 v.
Proof. apply (load_store_le 8). Qed.

Lemma load64_store64_other m a b v :
  b + 8 <= a \/ a + 8 <= b -> load64 (store64 m a v) b = load64 m b.
Proof.
  intros. apply load_le_frame. intros x Hx. apply store_le_other. lia.
Qed.

Lemma store64_other m a v x : ~ (a <= x < a + 8) -> store64 m a v x = m x.
Proof. apply (store_le_other 8). Qed.

Lemma store64_bytes m a v : bytes m -> bytes (store64 m a v).
Proof. apply store_le_bytes. Qed.

#[export] Hint Resolve store8_bytes store64_bytes load64_range : kernel.

(** ** Regions *)

(** The [n] bytes at [a], as a list. *)
Definition region (m : mem) (a : Z) (n : nat) : list Z :=
  (fun i => m (a + Z.of_nat i)) <$> seq 0 n.

Lemma region_lookup m a n i :
  (i < n)%nat -> region m a n !! i = Some (m (a + Z.of_nat i)).
Proof. intros. unfold region. by rewrite list_lookup_fmap, seq_lookup_Some. Qed.

Lemma region_ext m m' a a' n :
  (forall i, (i < n)%nat -> m (a + Z.of_nat i) = m' (a' + Z.of_nat i)) ->
  region m a n = region m' a' n.
Proof.
  intros H. apply list_fmap_ext. intros i x Hx. apply lookup_seq in Hx as [-> ?]. by apply H.
Qed.

(** A memory that holds the bytes [bs] at [a] and zeros elsewhere. *)
Definition mem_of (a : Z) (bs : list Z) : mem :=
  fun x => if (a <=? x) && (x <? a + Z.of_nat (length bs))
           then u8 (nth (Z.to_nat (x - a)) bs 0) else 0.

Lemma mem_of_bytes a bs : bytes (mem_of a bs).
Proof. intros x. unfold mem_of. case_test; [apply u8_range | lia]. Qed.
#[export] Hint Resolve mem_of_bytes : kernel.
