(* ===== verification/KString.v ===== *)
(** The kernel's byte and string routines, [src/xv6-riscv/kernel/string.c].

    A routine that writes through a pointer maps the memory it starts with to
    the memory it leaves; the pointer such a routine returns is always its
    first argument and is left out.  [char] is unsigned on RISC-V. *)

From stdpp Require Import base list sets.
From S2P Require Import Prelude Memory.

(** ** The routines *)

(** for(i = 0; i < n; i++) cdst[i] = c *)
Fixpoint memset_loop (m : mem) (cdst c i : Z) (k : nat) : mem :=
  match k with
  | O => m
  | S k => memset_loop (store8 m (cdst + i) c) cdst c (i + 1) k
  end.

Definition memset (m : mem) (dst c n : Z) : mem :=
  memset_loop m dst c 0 (Z.to_nat n).

Fixpoint memcmp_loop (m : mem) (s1 s2 : Z) (n : nat) : Z :=
  match n with
  | O => 0
  | S n => if negb (m s1 =? m s2) then m s1 - m s2
           else memcmp_loop m (s1 + 1) (s2 + 1) n
  end.

Definition memcmp (m : mem) (v1 v2 n : Z) : Z := memcmp_loop m v1 v2 (Z.to_nat n).

(** while(n-- > 0) *--d = *--s *)
Fixpoint copy_backward (m : mem) (d s : Z) (n : nat) : mem :=
  match n with
  | O => m
  | S n => copy_backward (store8 m (d - 1) (m (s - 1))) (d - 1) (s - 1) n
  end.

(** while(n-- > 0) *d++ = *s++ *)
Fixpoint copy_forward (m : mem) (d s : Z) (n : nat) : mem :=
  match n with
  | O => m
  | S n => copy_forward (store8 m d (m s)) (d + 1) (s + 1) n
  end.

Definition memmove (m : mem) (dst src n : Z) : mem :=
  if n =? 0 then m
  else if (src <? dst) && (dst <? src + n) then
    copy_backward m (dst + n) (src + n) (Z.to_nat n)
  else copy_forward m dst src (Z.to_nat n).

Definition memcpy (m : mem) (dst src n : Z) : mem := memmove m dst src n.

Fixpoint strncmp_loop (m : mem) (p q : Z) (n : nat) : Z :=
  match n with
  | O => 0
  | S n' =>
      if negb (m p =? 0) && (m p =? m q) then strncmp_loop m (p + 1) (q + 1) n'
      else m p - m q
  end.

Definition strncmp (m : mem) (p q n : Z) : Z := strncmp_loop m p q (Z.to_nat n).

(** while(n-- > 0) *s++ = 0 *)
Fixpoint zero_fill (m : mem) (s : Z) (n : nat) : mem :=
  match n with
  | O => m
  | S n => zero_fill (store8 m s 0) (s + 1) n
  end.

(** while(n-- > 0 && ( *s++ = *t++) != 0), then the zero fill *)
Fixpoint strncpy_loop (m : mem) (s t : Z) (n : nat) : mem :=
  match n with
  | O => m
  | S n =>
      let c := m t in
      let m := store8 m s c in
      if u8 c =? 0 then zero_fill m (s + 1) n else strncpy_loop m (s + 1) (t + 1) n
  end.

Definition strncpy (m : mem) (s t n : Z) : mem := strncpy_loop m s t (Z.to_nat n).

(** while(--n > 0 && ( *s++ = *t++) != 0), then *s = 0; [k] counts the
    iterations the test --n > 0 still allows.  When the terminator itself was
    copied, [s] already points past it and a second NUL is written there. *)
Fixpoint safestrcpy_loop (m : mem) (s t : Z) (k : nat) : mem :=
  match k with
  | O => store8 m s 0
  | S k =>
      let c := m t in
      let m := store8 m s c in
      if u8 c =? 0 then store8 m (s + 1) 0 else safestrcpy_loop m (s + 1) (t + 1) k
  end.

Definition safestrcpy (m : mem) (s t n : Z) : mem :=
  if n <=? 0 then m else safestrcpy_loop m s t (Z.to_nat (n - 1)).

(** for(n = 0; s[n]; n++) with [fuel] iterations allowed. *)
Fixpoint strlen_loop (m : mem) (s n : Z) (fuel : nat) : option Z :=
  match fuel with
  | O => None
  | S fuel => if m (s + n) =? 0 then Some n else strlen_loop m s (n + 1) fuel
  end.

Definition strlen (fuel : nat) (m : mem) (s : Z) : option Z := strlen_loop m s 0 fuel.

(** ** What the routines mean

    [strn m t n] is the string at [t] read as the C code reads a string
    bounded by [n]: the bytes before the first NUL, at most [n] of them. *)

Fixpoint strn (m : mem) (t : Z) (n : nat) : list Z :=
  match n with
  | O => []
  | S n => if m t =? 0 then [] else m t :: strn m (t + 1) n
  end.

(** The string [bs] stored at [a] with its terminator. *)
Definition cstring (m : mem) (a : Z) (bs : list Z) : Prop :=
  (forall i b, bs !! i = Some b -> b <> 0 /\ m (a + Z.of_nat i) = b) /\
  m (a + Z.of_nat (length bs)) = 0.

(** ** Lemmas *)

Lemma memset_loop_at k m d c i x :
  memset_loop m d c i k x =
  if decide (d + i <= x < d + i + Z.of_nat k) then u8 c else m x.
Proof.
  revert m i. induction k as [|k IH]; intros m i; cbn [memset_loop].
  - rewrite decide_False by lia. done.
  - rewrite IH. unfold store8.
    range_cases.
Qed.

Lemma memset_at m d c n x :
  memset m d c n x = if decide (d <= x < d + n) then u8 c else m x.
Proof.
  unfold memset. rewrite memset_loop_at.
  range_cases.
Qed.

Lemma memset_bytes m d c n : bytes m -> bytes (memset m d c n).
Proof. intros H x. rewrite memset_at. case_decide; [apply u8_range | apply H]. Qed.

Lemma copy_forward_at n m d s x :
  bytes m -> d <= s \/ s + Z.of_nat n <= d ->
  copy_forward m d s n x =
  if decide (d <= x < d + Z.of_nat n) then m (s + (x - d)) else m x.
Proof.
  revert m d s. induction n as [|n IH]; intros m d s Hb Hov; cbn [copy_forward].
  - rewrite decide_False by lia. done.
  - rewrite IH by (auto with kernel; lia).
    destruct (Z.eq_dec x d) as [->|Hx].
    + rewrite decide_False, decide_True, store8_same by lia.
      rewrite u8_small by apply Hb. f_equal. lia.
    + range_cases; rewrite store8_other by lia; range_cases.
Qed.

Lemma copy_backward_at n m d s x :
  bytes m -> s <= d \/ d <= s - Z.of_nat n ->
  copy_backward m d s n x =
  if decide (d - Z.of_nat n <= x < d) then m (s - (d - x)) else m x.
Proof.
  revert m d s. induction n as [|n IH]; intros m d s Hb Hov; cbn [copy_backward].
  - rewrite decide_False by lia. done.
  - rewrite IH by (auto with kernel; lia).
    destruct (Z.eq_dec x (d - 1)) as [->|Hx].
    + rewrite decide_False, decide_True, store8_same by lia.
      rewrite u8_small by apply Hb. f_equal. lia.
    + range_cases; rewrite store8_other by lia; range_cases.
Qed.

Lemma memmove_at m dst src n x :
  bytes m -> 0 <= n ->
  memmove m dst src n x =
  if decide (dst <= x < dst + n) then m (src + (x - dst)) else m x.
Proof.
  intros Hb Hn. unfold memmove. case_test; bool_to_prop.
  { subst. rewrite decide_False by lia. done. }
  case_test.
  - bool_to_prop. rewrite copy_backward_at by (auto; lia).
    rewrite Z2Nat.id by lia. range_cases.
  - apply andb_false_iff in E0. rewrite copy_forward_at; rewrite ?Z2Nat.id by lia; auto.
    destruct E0; bool_to_prop; lia.
Qed.

Lemma memmove_bytes m dst src n : bytes m -> 0 <= n -> bytes (memmove m dst src n).
Proof. intros Hb Hn x. rewrite memmove_at by auto. case_decide; apply Hb. Qed.

Lemma zero_fill_at n m s x :
  zero_fill m s n x = if decide (s <= x < s + Z.of_nat n) then 0 else m x.
Proof.
  revert m s. induction n as [|n IH]; intros m s; cbn [zero_fill].
  - rewrite decide_False by lia. done.
  - rewrite IH. unfold store8. change (u8 0) with 0.
    range_cases.
Qed.

Lemma strn_length m t n : (length (strn m t n) <= n)%nat.
Proof.
  revert t. induction n as [|n IH]; intros t; simpl; [lia|].
  case_test; simpl; [lia|]. specialize (IH (t + 1)). lia.
Qed.

Lemma strn_nonzero m t n b : b ∈ strn m t n -> b <> 0.
Proof.
  revert t. induction n as [|n IH]; intros t; simpl; [set_solver|].
  case_test; [set_solver|]. bool_to_prop. set_solver.
Qed.

Lemma strn_frame n m m' t :
  (forall x, t <= x < t + Z.of_nat n -> m x = m' x) -> strn m t n = strn m' t n.
Proof.
  revert t. induction n as [|n IH]; intros t H; simpl; auto.
  rewrite (H t) by lia. case_test; auto. f_equal. apply IH. intros. apply H. lia.
Qed.

(** A region whose cells spell [bs] and then zeros reads back as [bs]. *)
Lemma strn_of_cells n m s (bs : list Z) :
  (length bs <= n)%nat -> (forall b, b ∈ bs -> b <> 0) ->
  (forall i : nat, (i < n)%nat -> m (s + Z.of_nat i) = nth i bs 0) ->
  strn m s n = bs.
Proof.
  revert s bs. induction n as [|n IH]; intros s bs Hl Hnz Hc.
  - destruct bs; [done | simpl in Hl; lia].
  - cbn [strn]. pose proof (Hc O ltac:(lia)) as H0. rewrite Z.add_0_r in H0. rewrite H0.
    destruct bs as [|b bs]; simpl; [done|].
    rewrite (proj2 (Z.eqb_neq b 0)) by (apply Hnz; set_solver).
    f_equal. apply IH; [simpl in Hl; lia | set_solver |].
    intros i Hi. specialize (Hc (S i) ltac:(lia)). simpl in Hc.
    rewrite <- Hc. f_equal. lia.
Qed.

Lemma strncpy_loop_at n m s t x :
  bytes m -> s + Z.of_nat n <= t \/ t + Z.of_nat n <= s ->
  strncpy_loop m s t n x =
  if decide (s <= x < s + Z.of_nat n) then nth (Z.to_nat (x - s)) (strn m t n) 0 else m x.
Proof.
  revert m s t. induction n as [|n IH]; intros m s t Hb Hd; cbn [strncpy_loop strn].
  - rewrite decide_False by lia. done.
  - rewrite u8_small by apply Hb. case_test; bool_to_prop.
    + rewrite zero_fill_at, nth_nil, E. unfold store8. change (u8 0) with 0.
      range_cases.
    + rewrite IH by (auto with kernel; lia).
      rewrite (strn_frame n (store8 m s (m t)) m) by (intros; apply store8_other; lia).
      destruct (Z.eq_dec x s) as [->|Hx].
      * rewrite decide_False, decide_True, store8_same, u8_small by (lia || apply Hb).
        by rewrite Z.sub_diag.
      * repeat case_decide; try lia; [|by rewrite store8_other].
        replace (Z.to_nat (x - s)) with (S (Z.to_nat (x - (s + 1)))) by lia. done.
Qed.

Lemma safestrcpy_loop_at k m s t x :
  bytes m -> s + Z.of_nat k < t \/ t + Z.of_nat k <= s ->
  safestrcpy_loop m s t k x =
  let bs := strn m t k in
  if decide (s <= x <= s + Z.of_nat (length bs)) then nth (Z.to_nat (x - s)) bs 0
  else if decide (x = s + Z.of_nat (length bs) + 1 /\ (length bs < k)%nat) then 0 else m x.
Proof.
  cbv zeta. revert m s t. induction k as [|k IH]; intros m s t Hb Hd; cbn [safestrcpy_loop strn].
  - simpl length. unfold store8. change (u8 0) with 0. rewrite nth_nil. range_cases.
  - rewrite u8_small by apply Hb. case_test; bool_to_prop.
    + rewrite E, nth_nil. unfold store8. change (u8 0) with 0. simpl length. range_cases.
    + rewrite IH by (auto with kernel; lia).
      rewrite (strn_frame k (store8 m s (m t)) m) by (intros; apply store8_other; lia).
      simpl length. destruct (Z.eq_dec x s) as [->|Hx].
      * rewrite !decide_False by lia.
        rewrite decide_True, store8_same, u8_small by (lia || apply Hb).
        by rewrite Z.sub_diag.
      * repeat case_decide; try done; try lia; [|by rewrite store8_other].
        replace (Z.to_nat (x - s)) with (S (Z.to_nat (x - (s + 1)))) by lia. done.
Qed.

#[export] Hint Resolve memset_bytes memmove_bytes : kernel.

(** The value [strncmp] computes, on the two bounded strings: the difference
    of the first bytes that differ, a string that has ended counting as 0. *)
Fixpoint cmp_bytes (l1 l2 : list Z) : Z :=
  match l1, l2 with
  | [], [] => 0
  | [], b :: _ => - b
  | a :: _, [] => a
  | a :: l1, b :: l2 => if a =? b then cmp_bytes l1 l2 else a - b
  end.

Lemma cmp_bytes_zero l1 l2 :
  (forall b, b ∈ l1 -> b <> 0) -> (forall b, b ∈ l2 -> b <> 0) ->
  cmp_bytes l1 l2 = 0 <-> l1 = l2.
Proof.
  revert l2. induction l1 as [|a l1 IH]; intros [|b l2] H1 H2; simpl; try done.
  - split; [|done]. intros. exfalso. apply (H2 b); [set_solver | lia].
  - split; [|done]. intros. exfalso. apply (H1 a); [set_solver | lia].
  - case_test; bool_to_prop.
    + subst. rewrite IH by set_solver. split; congruence.
    + split; [lia | congruence].
Qed.

Lemma strncmp_loop_spec n m p q :
  strncmp_loop m p q n = cmp_bytes (strn m p n) (strn m q n).
Proof.
  revert p q. induction n as [|n IH]; intros p q; cbn [strncmp_loop strn]; auto.
  destruct (m p =? 0) eqn:Ep, (m q =? 0) eqn:Eq; bool_to_prop; simpl.
  - lia.
  - lia.
  - rewrite (proj2 (Z.eqb_neq (m p) (m q))) by lia. lia.
  - case_test; auto.
Qed.

Lemma memcmp_loop_spec n m s1 s2 :
  memcmp_loop m s1 s2 n = 0 <-> region m s1 n = region m s2 n.
Proof.
  assert (Hc : forall s n, region m s (S n) = m s :: region m (s + 1) n).
  { intros s k. unfold region. rewrite <- cons_seq, fmap_cons, <- fmap_S_seq, <- list_fmap_compose.
    rewrite Z.add_0_r. f_equal. apply list_fmap_ext. intros. simpl. f_equal. lia. }
  revert s1 s2. induction n as [|n IH]; intros s1 s2; cbn [memcmp_loop]; [done|].
  rewrite !Hc. case_test; bool_to_prop.
  - split; [lia | congruence].
  - rewrite IH, E. split; congruence.
Qed.

Lemma strlen_loop_spec fuel m s (bs : list Z) n :
  0 <= n <= Z.of_nat (length bs) -> cstring m s bs ->
  (Z.to_nat (Z.of_nat (length bs) - n) < fuel)%nat ->
  strlen_loop m s n fuel = Some (Z.of_nat (length bs)).
Proof.
  intros Hn [Hc Hz]. revert n Hn. induction fuel as [|fuel IH]; intros n Hn Hf; [lia|].
  simpl. destruct (Z.eq_dec n (Z.of_nat (length bs))) as [->|Hne].
  - by rewrite Hz.
  - destruct (lookup_lt_is_Some_2 bs (Z.to_nat n)) as [b Hb]; [lia|].
    destruct (Hc _ _ Hb) as [Hb0 Hm]. rewrite Z2Nat.id in Hm by lia.
    rewrite Hm, (proj2 (Z.eqb_neq _ _)) by done. apply IH; lia.
Qed.

(** ** Properties *)

(** [memmove] copies correctly for every overlap of source and
    destination: afterwards the destination holds exactly the bytes the source
    held before, and no other byte of memory has changed. *)
Theorem memmove_correct m dst src n :
  bytes m ->
  region (memmove m dst src (Z.of_nat n)) dst n = region m src n /\
  (forall x, ~ (dst <= x < dst + Z.of_nat n) -> memmove m dst src (Z.of_nat n) x = m x).
Proof.
  intros Hb. split.
  - apply region_ext. intros i Hi. rewrite memmove_at, decide_True by (auto; lia). f_equal. lia.
  - intros x Hx. by rewrite memmove_at, decide_False by (auto; lia).
Qed.

Lemma memmove_correct_witness :
  region (memmove (mem_of 100 [1; 2; 3; 4; 5]) 102 100 (Z.of_nat 4)) 102 4 = [1; 2; 3; 4].
Proof.
  rewrite (proj1 (memmove_correct (mem_of 100 [1; 2; 3; 4; 5]) 102 100 4
                    (mem_of_bytes _ _))).
  reflexivity.
Defined.

(** Copying a name with [strncpy] into a fixed-size field that does not
    overlap it stores a name that [strncmp] of that size finds equal, leaves
    every byte of the field after the name zero, and touches nothing outside
    the field. *)
Theorem strncpy_strncmp_roundtrip m s t n :
  bytes m -> 0 <= n -> s + n <= t \/ t + n <= s ->
  strncmp (strncpy m s t n) s t n = 0 /\
  strn (strncpy m s t n) s (Z.to_nat n) = strn m t (Z.to_nat n) /\
  (forall x, s + Z.of_nat (length (strn m t (Z.to_nat n))) <= x < s + n ->
     strncpy m s t n x = 0) /\
  (forall x, ~ (s <= x < s + n) -> strncpy m s t n x = m x).
Proof.
  intros Hb Hn Hd. unfold strncpy, strncmp.
  set (k := Z.to_nat n). assert (Hk : n = Z.of_nat k) by lia. clearbody k. subst n.
  assert (Hat := fun x => strncpy_loop_at k m s t x Hb ltac:(lia)).
  assert (Hs : strn (strncpy_loop m s t k) s k = strn m t k).
  { apply strn_of_cells; [apply strn_length | intros b; apply strn_nonzero |].
    intros i Hi. rewrite Hat, decide_True by lia. f_equal. lia. }
  split_and!.
  - rewrite strncmp_loop_spec, Hs.
    rewrite (strn_frame k (strncpy_loop m s t k) m t)
      by (intros; rewrite Hat, decide_False by lia; done).
    apply cmp_bytes_zero; [..|done]; intros b; apply strn_nonzero.
  - done.
  - intros x Hx. rewrite Hat, decide_True by lia. apply nth_overflow. lia.
  - intros x Hx. by rewrite Hat, decide_False by lia.
Qed.

Lemma strncpy_strncmp_roundtrip_witness :
  strncmp (strncpy (mem_of 100 [99; 97; 116; 0; 7]) 200 100 14) 200 100 14 = 0.
Proof.
  refine (proj1 (strncpy_strncmp_roundtrip (mem_of 100 [99; 97; 116; 0; 7]) 200 100 14
                   (mem_of_bytes _ _) _ _)); lia.
Defined.

(** [strncmp] is the byte-wise lexicographic comparison of the two strings
    bounded by [n]: zero exactly when they are equal, and otherwise the
    difference of the first bytes that differ. *)
Theorem strncmp_correct m p q n :
  strncmp m p q n = cmp_bytes (strn m p (Z.to_nat n)) (strn m q (Z.to_nat n)) /\
  (strncmp m p q n = 0 <-> strn m p (Z.to_nat n) = strn m q (Z.to_nat n)).
Proof.
  unfold strncmp. rewrite strncmp_loop_spec. split; [done|].
  apply cmp_bytes_zero; intros b; apply strn_nonzero.
Qed.

(** [safestrcpy] always leaves a NUL-terminated string that fits the
    destination: its first [n-1] source characters, with the terminator inside
    the [n] bytes of the buffer and nothing outside them written. *)
Theorem safestrcpy_terminates m s t n :
  bytes m -> 0 < n -> s + n <= t \/ t + n <= s ->
  let m' := safestrcpy m s t n in
  cstring m' s (strn m t (Z.to_nat (n - 1))) /\
  Z.of_nat (length (strn m t (Z.to_nat (n - 1)))) < n /\
  (forall x, ~ (s <= x < s + n) -> m' x = m x).
Proof.
  intros Hb Hn Hd. cbv zeta. unfold safestrcpy.
  rewrite (proj2 (Z.leb_gt n 0)) by lia.
  set (k := Z.to_nat (n - 1)). assert (Hk : n = Z.of_nat k + 1) by lia. clearbody k. subst n.
  assert (Hat := fun x => safestrcpy_loop_at k m s t x Hb ltac:(lia)). cbv zeta in Hat.
  pose proof (strn_length m t k) as Hl.
  split_and!; [split | lia |].
  - intros i b Hi. pose proof (lookup_lt_Some _ _ _ Hi).
    split; [apply (strn_nonzero m t k), list_elem_of_lookup; eauto|].
    rewrite Hat, decide_True by lia. apply nth_lookup_Some.
    rewrite <- Hi. f_equal. lia.
  - rewrite Hat, decide_True by lia. apply nth_overflow. lia.
  - intros x Hx. by rewrite Hat, !decide_False by lia.
Qed.

Lemma safestrcpy_terminates_witness :
  cstring (safestrcpy (mem_of 100 [105; 110; 105; 116; 0]) 200 100 4) 200 [105; 110; 105].
Proof.
  refine (proj1 (safestrcpy_terminates (mem_of 100 [105; 110; 105; 116; 0]) 200 100 4
                   (mem_of_bytes _ _) _ _)); lia.
Defined.
