(* ===== verification/Spinlock.v ===== *)
(** Spin locks and interrupt nesting, [src/xv6-riscv/kernel/spinlock.c].

    The file has three layers.  The first transcribes the C functions, with
    the memory operations that other CPUs can observe between (the atomic
    swap, the store to [lk->cpu], the releasing store) as separate functions.
    The second runs any number of CPUs over those functions in any
    interleaving.  The third is the view the rest of the kernel has of a lock:
    the list of locks its CPU holds. *)

From stdpp Require Import base list strings.
From S2P Require Import Prelude.

(** ** Locks of the kernel *)

Inductive lockid :=
| LKmem | LPid | LWait | LLog | LBcache | LItable | LFtable | LCons | LUart
| LVdisk | LTicks | LPr
| LProc (i : nat)
| LPipe (pi : Z)
| LSleep (l : Z).

#[export] Instance lockid_eq_dec : EqDecision lockid.
Proof. solve_decision. Defined.

(** The objects kernel code sleeps on; distinct objects have distinct addresses. *)
Inductive chan :=
| CNull | CProc (i : nat) | CTicks | CLog | CSleepLock (l : Z) | CPipeRead (pi : Z)
| CPipeWrite (pi : Z) | CConsRead | CUartTx | CDisk (b : Z) | CDesc.
#[export] Instance chan_eq_dec : EqDecision chan.
Proof. solve_decision. Defined.

(** ** The C state *)

(** struct spinlock; the debugging name is constant and left out.  [cpu] is
    the CPU recorded by the holder, [None] for a null pointer. *)
Record spinlock := MkLock { locked : Z; cpu : option nat }.

(** The part of struct cpu the locks use, with the SIE bit of sstatus. *)
Record cpustate := MkCpu { noff : Z; intena : bool; sie : bool }.

Record lockstate := MkLs { locks : lockid -> spinlock; cpus : nat -> cpustate }.

Definition set_lock (l : lockid) (k : spinlock) (s : lockstate) : lockstate :=
  MkLs (upd (locks s) l k) (cpus s).
Definition set_cpu (c : nat) (k : cpustate) (s : lockstate) : lockstate :=
  MkLs (locks s) (upd (cpus s) c k).

(** ** The C functions; [c] is the CPU that runs them, mycpu() *)

Definition initlock (l : lockid) : M lockstate unit :=
  modify (set_lock l (MkLock 0 None)).

Definition holding (c : nat) (l : lockid) : M lockstate bool :=
  get (fun s => negb (locked (locks s l) =? 0) && bool_decide (cpu (locks s l) = Some c)).

Definition push_off (c : nat) : M lockstate unit :=
  let! k := get (fun s => cpus s c) in
  let old := sie k in
  let k := MkCpu (noff k) (intena k) false in
  let k := if noff k =? 0 then MkCpu (noff k) old (sie k) else k in
  modify (set_cpu c (MkCpu (noff k + 1) (intena k) (sie k))).

Definition pop_off (c : nat) : M lockstate unit :=
  let! k := get (fun s => cpus s c) in
  if sie k then panic "pop_off - interruptible"
  else if noff k <? 1 then panic "pop_off"
  else
    let n := noff k - 1 in
    modify (set_cpu c (MkCpu n (intena k) (if (n =? 0) && intena k then true else sie k))).

(** push_off and the holding check at the head of acquire *)
Definition acquire_enter (c : nat) (l : lockid) : M lockstate unit :=
  push_off c ;;;
  let! h := holding c l in
  if h then panic "acquire" else ret tt.

(** __sync_lock_test_and_set(&lk->locked, 1): the old value *)
Definition acquire_swap (l : lockid) : M lockstate Z :=
  let! k := get (fun s => locks s l) in
  modify (set_lock l (MkLock 1 (cpu k))) ;;;
  ret (locked k).

(** lk->cpu = mycpu() *)
Definition acquire_done (c : nat) (l : lockid) : M lockstate unit :=
  modify (fun s => set_lock l (MkLock (locked (locks s l)) (Some c)) s).

(** The whole of acquire; a CPU that finds the lock taken spins, which is
    reported as blocked. *)
Definition acquire (c : nat) (l : lockid) : M lockstate unit :=
  acquire_enter c l ;;;
  let! old := acquire_swap l in
  if negb (old =? 0) then (fun s => Blocked s) else acquire_done c l.

(** The holding check of release and lk->cpu = 0 *)
Definition release_enter (c : nat) (l : lockid) : M lockstate unit :=
  let! h := holding c l in
  if negb h then panic "release"
  else modify (fun s => set_lock l (MkLock (locked (locks s l)) None) s).

(** __sync_lock_release(&lk->locked) *)
Definition release_store (l : lockid) : M lockstate unit :=
  modify (fun s => set_lock l (MkLock 0 (cpu (locks s l))) s).

Definition release (c : nat) (l : lockid) : M lockstate unit :=
  release_enter c l ;;; release_store l ;;; pop_off c.

(** ** CPUs running concurrently

    Where each CPU is inside acquire or release.  Between the steps of one
    CPU any other CPU may take steps. *)

Inductive pc :=
| Run                      (* in none of the functions *)
| Spin (l : lockid)        (* past acquire_enter, swapping *)
| Acquired (l : lockid)    (* the swap returned 0 *)
| Releasing (l : lockid)   (* lk->cpu cleared *)
| Unlocked (l : lockid).   (* lk->locked cleared, pop_off to come *)

(** [owned] records, for the statements only, the locks a CPU has taken with
    acquire and not yet passed to release. *)
Record machine := MkMachine {
  ls : lockstate;
  pcs : nat -> pc;
  owned : nat -> list lockid
}.

Inductive cpu_step : machine -> machine -> Prop :=
| step_acquire_enter m c l s' :
    pcs m c = Run -> acquire_enter c l (ls m) = Ret tt s' ->
    cpu_step m (MkMachine s' (upd (pcs m) c (Spin l)) (owned m))
| step_swap m c l old s' :
    pcs m c = Spin l -> acquire_swap l (ls m) = Ret old s' ->
    cpu_step m (MkMachine s' (if old =? 0 then upd (pcs m) c (Acquired l) else pcs m) (owned m))
| step_acquire_done m c l s' :
    pcs m c = Acquired l -> acquire_done c l (ls m) = Ret tt s' ->
    cpu_step m (MkMachine s' (upd (pcs m) c Run) (upd (owned m) c (l :: owned m c)))
| step_release_enter m c l s' :
    pcs m c = Run -> release_enter c l (ls m) = Ret tt s' ->
    cpu_step m (MkMachine s' (upd (pcs m) c (Releasing l))
                  (upd (owned m) c (remove_one l (owned m c))))
| step_release_store m c l s' :
    pcs m c = Releasing l -> release_store l (ls m) = Ret tt s' ->
    cpu_step m (MkMachine s' (upd (pcs m) c (Unlocked l)) (owned m))
| step_pop_off m c l s' :
    pcs m c = Unlocked l -> pop_off c (ls m) = Ret tt s' ->
    cpu_step m (MkMachine s' (upd (pcs m) c Run) (owned m)).

(** Every lock initialised, every CPU outside the functions with interrupts
    as [sie0] says. *)
Definition machine_init (sie0 : nat -> bool) : machine :=
  MkMachine (MkLs (fun _ => MkLock 0 None) (fun c => MkCpu 0 false (sie0 c)))
            (fun _ => Run) (fun _ => []).

(** ** The invariant of the machine *)

(** CPU [c] is between the successful swap of [l] and the releasing store. *)
Definition claims (m : machine) (l : lockid) (c : nat) : Prop :=
  l ∈ owned m c \/ pcs m c = Acquired l \/ pcs m c = Releasing l.

(** The push_off calls of the acquire or release in progress. *)
Definition pending (p : pc) : Z := match p with Run => 0 | _ => 1 end.

Record machine_inv (m : machine) : Prop := {
  inv_cpu : forall l c, cpu (locks (ls m) l) = Some c <-> l ∈ owned m c;
  inv_nodup : forall c, NoDup (owned m c);
  inv_free : forall l c, locked (locks (ls m) l) = 0 -> ~ claims m l c;
  inv_taken : forall l, locked (locks (ls m) l) <> 0 -> exists c, claims m l c;
  inv_unique : forall l c1 c2, claims m l c1 -> claims m l c2 -> c1 = c2;
  inv_mid : forall l c, pcs m c = Acquired l \/ pcs m c = Releasing l -> l ∉ owned m c;
  inv_noff : forall c, noff (cpus (ls m) c) = Z.of_nat (length (owned m c)) + pending (pcs m c);
  inv_sie : forall c, 0 < noff (cpus (ls m) c) -> sie (cpus (ls m) c) = false
}.

Lemma holding_spec m c l :
  machine_inv m ->
  holding c l (ls m) = Ret (bool_decide (l ∈ owned m c)) (ls m).
Proof.
  intros I. unfold holding, get. f_equal.
  destruct (decide (l ∈ owned m c)) as [Hin|Hin].
  - rewrite (bool_decide_eq_true_2 _ Hin). apply andb_true_iff. split.
    + apply negb_true_iff, Z.eqb_neq. intros Hz. apply (inv_free m I l c Hz). by left.
    + apply bool_decide_eq_true_2. by apply (inv_cpu m I).
  - rewrite (bool_decide_eq_false_2 _ Hin). apply andb_false_iff. right.
    apply bool_decide_eq_false_2. by rewrite (inv_cpu m I).
Qed.

Lemma push_off_spec c s :
  push_off c s =
  Ret tt (set_cpu c (MkCpu (noff (cpus s c) + 1)
            (if noff (cpus s c) =? 0 then sie (cpus s c) else intena (cpus s c)) false) s).
Proof. unfold push_off, bind, get, modify. simpl. by case_test. Qed.

Lemma machine_init_inv sie0 : machine_inv (machine_init sie0).
Proof.
  constructor; simpl; try done.
  - intros l c. split; [done | by intros ?%elem_of_nil].
  - intros. constructor.
  - intros l c _ [H|[H|H]]; [by apply elem_of_nil in H | done | done].
  - intros l c1 c2 [H|[H|H]]; [by apply elem_of_nil in H | done | done].
  - by intros l c [?|?].
Qed.

(** One lemma per kind of step. *)

Lemma acquire_enter_inv m c l s' :
  machine_inv m -> pcs m c = Run -> acquire_enter c l (ls m) = Ret tt s' ->
  machine_inv (MkMachine s' (upd (pcs m) c (Spin l)) (owned m)).
Proof.
  intros I Hpc H. unfold acquire_enter in H. rewrite (bind_ret_intro _ _ _ _ _ (push_off_spec _ _)) in H.
  minv. case_test_in H; [done|]. unfold holding in *. minv.
  assert (Hcl : forall l' c', claims (MkMachine (ls m) (upd (pcs m) c (Spin l)) (owned m)) l' c'
                 <-> claims m l' c').
  { intros l' c'. unfold claims; simpl. destruct (decide (c' = c)) as [->|?];
      [rewrite upd_same, Hpc | by rewrite upd_other]. naive_solver. }
  unfold claims in Hcl; simpl in Hcl.
  destruct I as [I1 I2 I3 I4 I5 I6 I7 I8].
  constructor; unfold claims; simpl; auto.
  - intros l' c' Hz. rewrite Hcl. by apply I3.
  - intros l' Hz. destruct (I4 l' Hz) as [c' Hc']. exists c'. by rewrite Hcl.
  - intros l' c1 c2. rewrite !Hcl. apply I5.
  - intros l' c' Hm. apply I6. destruct (decide (c' = c)) as [->|?];
      [rewrite upd_same in Hm | rewrite upd_other in Hm by done]; naive_solver.
  - intros c'. upd_at c' c; auto. rewrite I7, Hpc. simpl. lia.
  - intros c'. upd_at c' c; auto.
Qed.

Lemma swap_inv m c l old s' :
  machine_inv m -> pcs m c = Spin l -> acquire_swap l (ls m) = Ret old s' ->
  machine_inv (MkMachine s' (if old =? 0 then upd (pcs m) c (Acquired l) else pcs m) (owned m)).
Proof.
  intros I Hpc H. unfold acquire_swap in H. minv. bool_to_prop.
  assert (Hcpu : forall l', cpu (upd (locks (ls m)) l (MkLock 1 (cpu (locks (ls m) l))) l')
                       = cpu (locks (ls m) l')) by (intros l'; by upd_at l' l).
  destruct I as [I1 I2 I3 I4 I5 I6 I7 I8].
  destruct (locked (locks (ls m) l) =? 0) eqn:E; bool_to_prop.
  - assert (Hcl : forall l' c', (l' ∈ owned m c' \/ upd (pcs m) c (Acquired l) c' = Acquired l' \/
                                 upd (pcs m) c (Acquired l) c' = Releasing l')
                   <-> claims m l' c' \/ (l' = l /\ c' = c)).
    { intros l' c'. unfold claims. destruct (decide (c' = c)) as [->|?];
        [rewrite upd_same, Hpc | rewrite upd_other by done]; naive_solver. }
    constructor; unfold claims; simpl; auto.
    + intros l' c'. by rewrite Hcpu.
    + intros l' c' Hz. rewrite Hcl. intros [Hc|[-> ->]].
      * upd_at l' l; [done | by apply (I3 l' c')].
      * by rewrite upd_same in Hz.
    + intros l' Hz. destruct (decide (l' = l)) as [->|?].
      * exists c. rewrite Hcl. by right.
      * rewrite upd_other in Hz by done. destruct (I4 l' Hz) as [c' ?].
        exists c'. rewrite Hcl. by left.
    + intros l' c1 c2. rewrite !Hcl. intros [H1|[-> ->]] [H2|[? ->]]; subst; eauto;
        exfalso; eapply I3; eauto.
    + intros l' c' Hm Hin. destruct (decide (c' = c)) as [->|?].
      * rewrite upd_same in Hm. assert (l' = l) as -> by naive_solver.
        apply (I3 l c E). by left.
      * rewrite upd_other in Hm by done. by apply (I6 l' c').
    + intros c'. rewrite I7. upd_at c' c; [by rewrite Hpc | done].
  - constructor; unfold claims; simpl; auto.
    + intros l' c'. by rewrite Hcpu.
    + intros l' c' Hz. upd_at l' l; [done | by apply I3].
    + intros l' Hz. upd_at l' l; apply I4; auto.
Qed.

Lemma acquire_done_inv m c l s' :
  machine_inv m -> pcs m c = Acquired l -> acquire_done c l (ls m) = Ret tt s' ->
  machine_inv (MkMachine s' (upd (pcs m) c Run) (upd (owned m) c (l :: owned m c))).
Proof.
  intros I Hpc H. unfold acquire_done in H. minv.
  destruct I as [I1 I2 I3 I4 I5 I6 I7 I8].
  assert (Hl : claims m l c) by (right; by left).
  assert (Hlk : locked (locks (ls m) l) <> 0) by (intros Hz; by apply (I3 l c Hz)).
  assert (Hnin : l ∉ owned m c) by (apply I6; by left).
  assert (Hcl : forall l' c', (l' ∈ upd (owned m) c (l :: owned m c) c' \/
                  upd (pcs m) c Run c' = Acquired l' \/ upd (pcs m) c Run c' = Releasing l')
                 <-> claims m l' c').
  { intros l' c'. unfold claims. destruct (decide (c' = c)) as [->|?];
      [rewrite !upd_same, Hpc, elem_of_cons | by rewrite !upd_other]; naive_solver. }
  constructor; unfold claims; simpl; auto.
  - intros l' c'. destruct (decide (l' = l)) as [->|?].
    + rewrite upd_same. simpl. destruct (decide (c' = c)) as [->|?].
      * rewrite upd_same, elem_of_cons. naive_solver.
      * rewrite upd_other by done. split; [naive_solver|]. intros Hin. exfalso.
        apply n, (I5 l); [by left | done].
    + rewrite upd_other by done. rewrite I1. destruct (decide (c' = c)) as [->|?];
        [rewrite upd_same, elem_of_cons; naive_solver | by rewrite upd_other].
  - intros c'. upd_at c' c; [by constructor | done].
  - intros l' c'. rewrite Hcl. intros Hz. apply I3. by upd_at l' l.
  - intros l' Hz. destruct (I4 l') as [c' Hc']; [by upd_at l' l|]. exists c'. by rewrite Hcl.
  - intros l' c1 c2. rewrite !Hcl. apply I5.
  - intros l' c' Hm. destruct (decide (c' = c)) as [->|?].
    + rewrite upd_same in Hm. naive_solver.
    + rewrite !upd_other in * by done. by apply I6.
  - intros c'. rewrite I7. upd_at c' c; auto. rewrite Hpc. simpl. lia.
Qed.

Lemma release_enter_inv m c l s' :
  machine_inv m -> pcs m c = Run -> release_enter c l (ls m) = Ret tt s' ->
  machine_inv (MkMachine s' (upd (pcs m) c (Releasing l))
                 (upd (owned m) c (remove_one l (owned m c)))).
Proof.
  intros I Hpc H. unfold release_enter in H.
  rewrite (bind_ret_intro _ _ _ _ _ (holding_spec m c l I)) in H.
  case_test_in H; [done|]. bool_to_prop. apply bool_decide_eq_true_1 in E as Hin. minv.
  destruct I as [I1 I2 I3 I4 I5 I6 I7 I8].
  assert (Hl : claims m l c) by (by left).
  assert (Hcl : forall l' c', (l' ∈ upd (owned m) c (remove_one l (owned m c)) c' \/
                  upd (pcs m) c (Releasing l) c' = Acquired l' \/
                  upd (pcs m) c (Releasing l) c' = Releasing l')
                 <-> claims m l' c').
  { intros l' c'. unfold claims. upd_at c' c; [|done].
    rewrite Hpc, elem_of_remove_one. destruct (decide (l' = l)); naive_solver. }
  constructor; unfold claims; simpl; auto.
  - intros l' c'. upd_at l' l.
    + split; [done|]. upd_at c' c; [rewrite elem_of_remove_one; naive_solver|].
      intros Hin'. exfalso. apply n, (I5 l); [by left | done].
    + rewrite I1. upd_at c' c; [|done]. rewrite elem_of_remove_one. naive_solver.
  - intros c'. upd_at c' c; [by apply NoDup_remove_one | done].
  - intros l' c'. rewrite Hcl. intros Hz. apply I3. by upd_at l' l.
  - intros l' Hz. destruct (I4 l') as [c' Hc']; [by upd_at l' l|]. exists c'. by rewrite Hcl.
  - intros l' c1 c2. rewrite !Hcl. apply I5.
  - intros l' c' Hm. upd_at c' c; [|by apply I6].
    rewrite elem_of_remove_one. naive_solver.
  - intros c'. rewrite I7. upd_at c' c; auto. rewrite Hpc. simpl.
    pose proof (length_remove_one l (owned m c) (I2 c) Hin). lia.
Qed.

Lemma release_store_inv m c l s' :
  machine_inv m -> pcs m c = Releasing l -> release_store l (ls m) = Ret tt s' ->
  machine_inv (MkMachine s' (upd (pcs m) c (Unlocked l)) (owned m)).
Proof.
  intros I Hpc H. unfold release_store in H. minv.
  destruct I as [I1 I2 I3 I4 I5 I6 I7 I8].
  assert (Hl : claims m l c) by (right; by right).
  assert (Hnin : l ∉ owned m c) by (apply I6; by right).
  assert (Hcl : forall l' c', (l' ∈ owned m c' \/
                  upd (pcs m) c (Unlocked l) c' = Acquired l' \/
                  upd (pcs m) c (Unlocked l) c' = Releasing l')
                 <-> claims m l' c' /\ l' <> l).
  { intros l' c'. unfold claims in *. upd_at c' c.
    - rewrite Hpc. destruct (decide (l' = l)); naive_solver.
    - split; [|naive_solver]. intros Hc. split; [done|]. intros ->. apply n, (I5 l); done. }
  constructor; unfold claims; simpl; auto.
  - intros l' c'. rewrite <- I1. by upd_at l' l.
  - intros l' c'. rewrite Hcl. intros Hz [Hc Hne]. rewrite upd_other in Hz by done.
    by apply (I3 l' c').
  - intros l' Hz. upd_at l' l; [done|]. destruct (I4 l' Hz) as [c' Hc']. exists c'. by rewrite Hcl.
  - intros l' c1 c2. rewrite !Hcl. intros [? _] [? _]. by apply (I5 l').
  - intros l' c' Hm. upd_at c' c; [naive_solver | by apply I6].
  - intros c'. rewrite I7. upd_at c' c; auto. by rewrite Hpc.
Qed.

Lemma pop_off_ret m c s' :
  machine_inv m -> pop_off c (ls m) = Ret tt s' ->
  let k := cpus (ls m) c in
  s' = set_cpu c (MkCpu (noff k - 1) (intena k)
                    (if (noff k - 1 =? 0) && intena k then true else sie k)) (ls m)
  /\ sie k = false /\ 1 <= noff k.
Proof.
  intros I H. unfold pop_off in H. minv. case_test_in H; [done|].
  case_test_in H; [done|]. bool_to_prop. minv. subst k. by rewrite E.
Qed.

Lemma pop_off_inv m c l s' :
  machine_inv m -> pcs m c = Unlocked l -> pop_off c (ls m) = Ret tt s' ->
  machine_inv (MkMachine s' (upd (pcs m) c Run) (owned m)).
Proof.
  intros I Hpc H. apply pop_off_ret in H as (-> & Hsie & Hn); [|done].
  destruct I as [I1 I2 I3 I4 I5 I6 I7 I8].
  assert (Hcl : forall l' c', (l' ∈ owned m c' \/
                  upd (pcs m) c Run c' = Acquired l' \/ upd (pcs m) c Run c' = Releasing l')
                 <-> claims m l' c').
  { intros l' c'. unfold claims. upd_at c' c; [rewrite Hpc; naive_solver | done]. }
  constructor; unfold claims; simpl; auto.
  - intros l' c' Hz. rewrite Hcl. by apply I3.
  - intros l' Hz. destruct (I4 l' Hz) as [c' Hc']. exists c'. by rewrite Hcl.
  - intros l' c1 c2. rewrite !Hcl. apply I5.
  - intros l' c' Hm. upd_at c' c; [naive_solver | by apply I6].
  - intros c'. upd_at c' c; auto. rewrite I7, Hpc. simpl. lia.
  - intros c'. upd_at c' c; auto. intros Hpos.
    rewrite (proj2 (Z.eqb_neq _ _)) by lia. done.
Qed.

Lemma cpu_step_inv m m' : machine_inv m -> cpu_step m m' -> machine_inv m'.
Proof.
  intros I Hs. destruct Hs;
    [ eapply acquire_enter_inv | eapply swap_inv | eapply acquire_done_inv
    | eapply release_enter_inv | eapply release_store_inv | eapply pop_off_inv ]; eauto.
Qed.

Lemma reachable_inv sie0 m : steps cpu_step (machine_init sie0) m -> machine_inv m.
Proof.
  intros Hs. eapply (steps_invariant cpu_step machine_inv); eauto using cpu_step_inv, machine_init_inv.
Qed.

(** ** The view of a lock the rest of the kernel has

    A component whose code takes locks keeps the list of locks its CPU holds;
    [lock_acquire] and [lock_release] stop the machine exactly when acquire
    and release do. *)

Class LockView (S : Type) := {
  held : S -> list lockid;
  set_held : list lockid -> S -> S;
  held_set_held : forall h s, held (set_held h s) = h;
  set_held_twice : forall h h' s, set_held h (set_held h' s) = set_held h s;
  set_held_id : forall s, set_held (held s) s = s
}.

Section lock_view.
Context {S : Type} `{LockView S}.

Definition lock_acquire (l : lockid) : M S unit :=
  fun s => if bool_decide (l ∈ held s) then Panic "acquire"
           else Ret tt (set_held (l :: held s) s).

Definition lock_release (l : lockid) : M S unit :=
  fun s => if bool_decide (l ∈ held s) then Ret tt (set_held (remove_one l (held s)) s)
           else Panic "release".

Lemma lock_acquire_free l s :
  l ∉ held s -> lock_acquire l s = Ret tt (set_held (l :: held s) s).
Proof. intros. unfold lock_acquire. by rewrite bool_decide_eq_false_2. Qed.

Lemma lock_release_top l s h :
  held s = l :: h -> l ∉ h -> lock_release l s = Ret tt (set_held h s).
Proof.
  intros Hh Hl. unfold lock_release. rewrite bool_decide_eq_true_2 by (rewrite Hh; left).
  by rewrite Hh, remove_one_head.
Qed.

(** A matched pair gives the state back. *)
Lemma lock_pair l s :
  l ∉ held s ->
  lock_acquire l s = Ret tt (set_held (l :: held s) s) /\
  lock_release l (set_held (l :: held s) s) = Ret tt s.
Proof.
  intros Hl. split; [by apply lock_acquire_free|].
  rewrite (lock_release_top _ _ (held s)); [|apply held_set_held|done].
  by rewrite set_held_twice, set_held_id.
Qed.

Lemma lock_acquire_inv l s s' :
  lock_acquire l s = Ret tt s' -> l ∉ held s /\ s' = set_held (l :: held s) s.
Proof. unfold lock_acquire. case_bool_decide; [done|]. intros E. split; [done|]. congruence. Qed.
End lock_view.

Arguments lock_acquire : simpl never.
Arguments lock_release : simpl never.

#[export] Instance held_list_view : LockView (list lockid) := {
  held := fun h => h; set_held := fun h _ => h;
  held_set_held := fun _ _ => eq_refl; set_held_twice := fun _ _ _ => eq_refl;
  set_held_id := fun _ => eq_refl }.

(** The list [h] is what CPU [c] holds in the C state [s]. *)
Record holds_list (c : nat) (s : lockstate) (h : list lockid) : Prop := {
  hl_nodup : NoDup h;
  hl_in : forall l, l ∈ h <-> cpu (locks s l) = Some c /\ locked (locks s l) <> 0;
  hl_noff : noff (cpus s c) = Z.of_nat (length h);
  hl_sie : h <> [] -> sie (cpus s c) = false
}.

Lemma holding_holds_list c s h l :
  holds_list c s h -> holding c l s = Ret (bool_decide (l ∈ h)) s.
Proof.
  intros R. unfold holding, get. f_equal.
  destruct (decide (l ∈ h)) as [Hin|Hin].
  - rewrite (bool_decide_eq_true_2 _ Hin). apply (hl_in _ _ _ R) in Hin as [? ?].
    by rewrite bool_decide_eq_true_2, (proj2 (Z.eqb_neq _ _)).
  - rewrite (bool_decide_eq_false_2 _ Hin). rewrite (hl_in _ _ _ R) in Hin.
    destruct (Z.eqb_spec (locked (locks s l)) 0); [done|]. simpl.
    apply bool_decide_eq_false_2. naive_solver.
Qed.

Lemma holding_push_off c l s k : holding c l (set_cpu c k s) =
  match holding c l s with Ret b _ => Ret b (set_cpu c k s) | _ => OutOfFuel end.
Proof. done. Qed.

Lemma acquire_eq c l s h :
  holds_list c s h ->
  acquire c l s =
  if bool_decide (l ∈ h) then Panic "acquire"
  else
    let k := cpus s c in
    let s1 := set_cpu c (MkCpu (noff k + 1) (if noff k =? 0 then sie k else intena k) false) s in
    if locked (locks s l) =? 0 then Ret tt (set_lock l (MkLock 1 (Some c)) (set_lock l (MkLock 1 (cpu (locks s l))) s1))
    else Blocked (set_lock l (MkLock 1 (cpu (locks s l))) s1).
Proof.
  intros R. unfold acquire, acquire_enter.
  unfold bind. rewrite push_off_spec. cbn beta iota.
  rewrite holding_push_off, (holding_holds_list c s h l R). case_bool_decide; [done|].
  unfold acquire_swap, acquire_done, bind, get, modify, ret. simpl.
  destruct (locked (locks s l) =? 0); simpl; [by rewrite upd_same | done].
Qed.

Lemma set_lock_other l k s l' : l' <> l -> locks (set_lock l k s) l' = locks s l'.
Proof. apply upd_other. Qed.

Lemma acquire_holds_list c l s h s' :
  holds_list c s h -> acquire c l s = Ret tt s' -> holds_list c s' (l :: h).
Proof.
  intros R H. rewrite (acquire_eq _ _ _ _ R) in H.
  case_bool_decide as Hin; [done|]. simpl in H. case_test_in H; [|done]. bool_to_prop. minv.
  destruct R as [R1 R2 R3 R4]. constructor; simpl.
  - by constructor.
  - intros l'. rewrite elem_of_cons. upd_at l' l; [naive_solver|]. rewrite R2. naive_solver.
  - rewrite upd_same. simpl. rewrite R3. lia.
  - by rewrite upd_same.
Qed.

Lemma release_eq c l s h :
  holds_list c s h ->
  release c l s =
  if bool_decide (l ∈ h) then
    let k := cpus s c in
    Ret tt (set_cpu c (MkCpu (noff k - 1) (intena k) ((noff k - 1 =? 0) && intena k))
             (set_lock l (MkLock 0 None) (set_lock l (MkLock (locked (locks s l)) None) s)))
  else Panic "release".
Proof.
  intros R. unfold release, release_enter, bind. rewrite (holding_holds_list c s h l R).
  case_bool_decide as Hin; [|done].
  unfold release_store, pop_off, bind, get, modify. simpl. rewrite upd_same. simpl.
  destruct R as [R1 R2 R3 R4]. rewrite R4 by (by intros ->; apply elem_of_nil in Hin).
  assert (length h <> O) by (destruct h; [by apply elem_of_nil in Hin | done]).
  rewrite (proj2 (Z.ltb_ge _ _)) by lia. by destruct (_ && _)%bool.
Qed.

Lemma release_holds_list c l s h s' :
  holds_list c s h -> release c l s = Ret tt s' -> holds_list c s' (remove_one l h).
Proof.
  intros R H. rewrite (release_eq _ _ _ _ R) in H. case_bool_decide as Hin; [|done]. simpl in H. minv.
  destruct R as [R1 R2 R3 R4]. pose proof (length_remove_one l h R1 Hin) as Hl.
  constructor; simpl.
  - by apply NoDup_remove_one.
  - intros l'. rewrite elem_of_remove_one. upd_at l' l; [naive_solver|]. rewrite R2. naive_solver.
  - rewrite upd_same. simpl. lia.
  - intros Hne. rewrite upd_same. simpl. rewrite (proj2 (Z.eqb_neq _ _)); [done|].
    destruct (remove_one l h); [done | simpl in *; lia].
Qed.

(** ** Properties *)

(** C17: mutual exclusion.  However the CPUs interleave inside acquire and
    release, at most one CPU is between the successful swap of a lock and its
    releasing store; in particular two CPUs never both hold the lock. *)
Theorem spinlock_mutual_exclusion sie0 m l c1 c2 :
  steps cpu_step (machine_init sie0) m ->
  claims m l c1 -> claims m l c2 -> c1 = c2.
Proof. intros Hs. apply inv_unique. by eapply reachable_inv. Qed.

(** CPUs 0 and 1 race for the same lock, and CPU 0's swap comes first. *)
Definition race0 : machine := machine_init (fun _ => true).
Definition race1 : machine :=
  MkMachine (set_cpu 0 (MkCpu 1 true false) (ls race0)) (upd (pcs race0) 0%nat (Spin LKmem)) (owned race0).
Definition race2 : machine :=
  MkMachine (set_cpu 1 (MkCpu 1 true false) (ls race1)) (upd (pcs race1) 1%nat (Spin LKmem)) (owned race1).
Definition race3 : machine :=
  MkMachine (set_lock LKmem (MkLock 1 None) (ls race2)) (upd (pcs race2) 0%nat (Acquired LKmem)) (owned race2).

Lemma race_steps : steps cpu_step (machine_init (fun _ => true)) race3.
Proof.
  apply (steps_trans _ _ race2 _); [apply (steps_trans _ _ race1 _);
    [apply (steps_trans _ _ race0 _); [apply steps_refl|]|]|].
  - exact (step_acquire_enter race0 0 LKmem _ eq_refl eq_refl).
  - exact (step_acquire_enter race1 1 LKmem _ eq_refl eq_refl).
  - exact (step_swap race2 0 LKmem 0 _ eq_refl eq_refl).
Qed.

Lemma spinlock_mutual_exclusion_witness : claims race3 LKmem 0 /\ ~ claims race3 LKmem 1.
Proof.
  assert (H0 : claims race3 LKmem 0) by (right; left; reflexivity).
  split; [exact H0|]. intros H1.
  discriminate (spinlock_mutual_exclusion (fun _ => true) race3 LKmem 0%nat 1%nat race_steps H0 H1).
Defined.

(** C33: no CPU ever panics in the lock code it uses correctly, and interrupts
    are off while it holds a lock: in every reachable state a CPU that holds
    [l] runs with interrupts disabled, its release of [l] passes the holding
    check, a second acquire of [l] is caught by the self-deadlock panic, and
    the pop_off that ends a release never panics. *)
Theorem spinlock_discipline sie0 m l c :
  steps cpu_step (machine_init sie0) m ->
  (l ∈ owned m c ->
     sie (cpus (ls m) c) = false /\
     acquire c l (ls m) = Panic "acquire" /\
     exists s', release_enter c l (ls m) = Ret tt s') /\
  (pcs m c = Unlocked l -> exists s', pop_off c (ls m) = Ret tt s').
Proof.
  intros Hs. apply reachable_inv in Hs as I. split.
  - intros Hin. pose proof (inv_noff m I c) as Hn.
    assert (0 < noff (cpus (ls m) c)).
    { rewrite Hn. destruct (owned m c); [by apply elem_of_nil in Hin|]. simpl.
      destruct (pcs m c); simpl; lia. }
    split_and!; [by apply (inv_sie m I)|..].
    + unfold acquire, acquire_enter, bind. rewrite push_off_spec. cbn beta iota.
      rewrite holding_push_off, holding_spec by done. by rewrite bool_decide_eq_true_2.
    + unfold release_enter, bind. rewrite holding_spec by done.
      rewrite bool_decide_eq_true_2 by done. simpl. unfold modify. eauto.
  - intros Hpc. pose proof (inv_noff m I c) as Hn. rewrite Hpc in Hn. simpl in Hn.
    unfold pop_off, bind, get. rewrite (inv_sie m I) by lia.
    rewrite (proj2 (Z.ltb_ge _ _)) by lia. unfold modify. eauto.
Qed.

(** CPU 0 goes on to hold the lock. *)
Definition race4 : machine :=
  MkMachine (set_lock LKmem (MkLock 1 (Some 0%nat)) (ls race3)) (upd (pcs race3) 0%nat Run)
            (upd (owned race3) 0%nat [LKmem]).

Lemma spinlock_discipline_witness :
  LKmem ∈ owned race4 0%nat /\ acquire 0 LKmem (ls race4) = Panic "acquire".
Proof.
  assert (Hin : LKmem ∈ owned race4 0%nat) by (apply list_elem_of_here).
  assert (Hs : steps cpu_step (machine_init (fun _ => true)) race4).
  { eapply steps_trans; [apply race_steps|].
    exact (step_acquire_done race3 0 LKmem _ eq_refl eq_refl). }
  split; [exact Hin|].
  exact (proj1 (proj2 (proj1 (spinlock_discipline _ race4 LKmem 0 Hs) Hin))).
Defined.

(** C34: the held-list view is what the C code implements.  On a CPU that holds
    the locks [h], acquire and release panic exactly when the view does; when
    the view succeeds, acquire succeeds as soon as the lock word is free and
    otherwise spins, release succeeds at once, and the lock words and the CPU
    state afterwards describe the list the view computes.  A matched pair
    started with no lock held gives back the interrupt state it found. *)
Theorem spinlock_refines_view c l s h :
  holds_list c s h ->
  (forall msg, lock_acquire l h = Panic msg <-> acquire c l s = Panic msg) /\
  (forall h', lock_acquire l h = Ret tt h' ->
     if locked (locks s l) =? 0 then
       exists s', acquire c l s = Ret tt s' /\ holds_list c s' h' /\
         (h = [] -> exists s'', release c l s' = Ret tt s'' /\
                      holds_list c s'' [] /\ sie (cpus s'' c) = sie (cpus s c))
     else exists s', acquire c l s = Blocked s') /\
  (forall msg, lock_release l h = Panic msg <-> release c l s = Panic msg) /\
  (forall h', lock_release l h = Ret tt h' ->
     exists s', release c l s = Ret tt s' /\ holds_list c s' h').
Proof.
  intros R. unfold lock_acquire, lock_release. simpl. split_and!.
  - intros msg. rewrite (acquire_eq _ _ _ _ R). case_bool_decide; [split; by intros [= <-]|].
    simpl. by case_test.
  - intros h' Hh. pose proof (acquire_eq c l s h R) as Ha.
    case_bool_decide as Hin; [done|]. minv. simpl in Ha. case_test; [|by eauto].
    pose proof (acquire_holds_list c l s h _ R Ha) as R'.
    eexists. split_and!; [done..|]. intros ->. bool_to_prop.
    pose proof (release_eq c l _ _ R') as Hr. rewrite bool_decide_eq_true_2 in Hr by left.
    simpl in Hr. eexists. split_and!; [done| |].
    + apply (release_holds_list c l _ _ _ R') in Hr.
      by rewrite remove_one_head in Hr by apply not_elem_of_nil.
    + simpl. rewrite !upd_same. simpl. rewrite (hl_noff _ _ _ R). simpl. by destruct (sie _).
  - intros msg. rewrite (release_eq _ _ _ _ R). case_bool_decide; [done|]. split; by intros [= <-].
  - intros h' Hh. pose proof (release_eq c l s h R) as Hr. case_bool_decide; [|done]. minv.
    eauto using release_holds_list.
Qed.

Lemma spinlock_refines_view_witness :
  exists s', acquire 0 LKmem (ls (machine_init (fun _ => true))) = Ret tt s' /\
             holds_list 0 s' [LKmem].
Proof.
  assert (R : holds_list 0 (ls (machine_init (fun _ => true))) []).
  { constructor; simpl; [constructor | | done | done].
    intros l. split; [by intros ?%elem_of_nil | by intros []]. }
  destruct (proj1 (proj2 (spinlock_refines_view 0 LKmem _ [] R)) [LKmem] eq_refl)
    as (s' & H1 & H2 & _).
  exists s'. by split.
Defined.
