(* ===== verification/Kalloc.v ===== *)
(** The physical page allocator, [src/xv6-riscv/kernel/kalloc.c], on
    byte-addressed memory: the free list is threaded through the free pages
    themselves. *)

From stdpp Require Import base list sets strings.
From S2P Require Import Prelude Memory KString Spinlock.

(** Constants of riscv.h and memlayout.h *)
Definition PGSIZE : Z := 4096.
Definition KERNBASE : Z := 2147483648.            (* 0x80000000 *)
Definition PHYSTOP : Z := KERNBASE + 128 * 1024 * 1024.

Definition PGROUNDUP (sz : Z) : Z :=
  Z.land (u64 (sz + PGSIZE - 1)) (Z.lnot (PGSIZE - 1)).
Definition PGROUNDDOWN (a : Z) : Z := Z.land a (Z.lnot (PGSIZE - 1)).

(** Physical memory, kmem.freelist and the locks the CPU holds. *)
Record kstate := MkK { phys : mem; freelist : Z; kheld : list lockid }.

#[export] Instance kstate_locks : LockView kstate := {
  held := kheld;
  set_held := fun h s => MkK (phys s) (freelist s) h;
  held_set_held := fun _ _ => eq_refl;
  set_held_twice := fun _ _ _ => eq_refl;
  set_held_id := fun s => match s with MkK _ _ _ => eq_refl end }.

Definition set_phys (f : mem -> mem) (s : kstate) : kstate := MkK (f (phys s)) (freelist s) (kheld s).
Definition set_freelist (p : Z) (s : kstate) : kstate := MkK (phys s) p (kheld s).

(** ** The allocator; [kend] is the linker symbol [end], the first address
    after the kernel *)

Section kalloc.
Context (kend : Z).

Definition kfree (pa : Z) : M kstate unit :=
  if negb (pa mod PGSIZE =? 0) || (pa <? kend) || (PHYSTOP <=? pa) then panic "kfree"
  else
    modify (set_phys (fun m => memset m pa 1 PGSIZE)) ;;;
    let r := pa in
    lock_acquire LKmem ;;;
    modify (fun s => set_phys (fun m => store64 m r (freelist s)) s) ;;;
    modify (set_freelist r) ;;;
    lock_release LKmem.

Definition kalloc : M kstate Z :=
  lock_acquire LKmem ;;;
  let! r := get freelist in
  (when negb (r =? 0) then modify (fun s => set_freelist (load64 (phys s) r) s)) ;;;
  lock_release LKmem ;;;
  (when negb (r =? 0) then modify (set_phys (fun m => memset m r 5 PGSIZE))) ;;;
  ret r.

(** for(; p + PGSIZE <= pa_end; p += PGSIZE) kfree(p) *)
Fixpoint freerange_loop (fuel : nat) (p pa_end : Z) : M kstate unit :=
  match fuel with
  | O => if p + PGSIZE <=? pa_end then out_of_fuel else ret tt
  | S fuel =>
      if p + PGSIZE <=? pa_end then
        kfree p ;;; freerange_loop fuel (p + PGSIZE) pa_end
      else ret tt
  end.

Definition freerange (pa_start pa_end : Z) : M kstate unit :=
  let p := PGROUNDUP pa_start in
  freerange_loop (Z.to_nat ((pa_end - p) / PGSIZE)) p pa_end.

(** initlock leaves the lock free; kmem.freelist is zero at boot. *)
Definition kinit : M kstate unit :=
  modify (fun s => set_held (remove_one LKmem (held s)) s) ;;;
  freerange kend PHYSTOP.

(** ** The invariant *)

Definition valid_page (pa : Z) : Prop := pa mod PGSIZE = 0 /\ kend <= pa < PHYSTOP.

(** The list of pages reached from [p] through the next pointers. *)
Fixpoint chain (m : mem) (p : Z) (l : list Z) : Prop :=
  match l with
  | [] => p = 0
  | x :: l => p = x /\ valid_page x /\ chain m (load64 m x) l
  end.

(** The free list holds exactly the pages [free]. *)
Record kinv (s : kstate) (free : list Z) : Prop := {
  kinv_bytes : bytes (phys s);
  kinv_chain : chain (phys s) (freelist s) free;
  kinv_nodup : NoDup free;
  kinv_unlocked : LKmem ∉ held s
}.

End kalloc.

(** Address [x] lies in the page at [pa]. *)
Definition in_page (pa x : Z) : Prop := pa <= x < pa + PGSIZE.

(** ** Pages and rounding *)

Lemma PGROUNDDOWN_eq a : PGROUNDDOWN a = a - a mod PGSIZE.
Proof.
  unfold PGROUNDDOWN. change (PGSIZE - 1) with (Z.ones 12).
  rewrite <- Z.ldiff_land, Z.ldiff_ones_r, Z.shiftl_mul_pow2, Z.shiftr_div_pow2 by lia.
  change (2 ^ 12) with PGSIZE. pose proof (Z.div_mod a PGSIZE). unfold PGSIZE in *. lia.
Qed.

Lemma PGROUNDUP_eq sz :
  0 <= sz <= 2 ^ 64 - PGSIZE -> PGROUNDUP sz = sz + (- sz) mod PGSIZE.
Proof.
  unfold PGROUNDUP. intros H. rewrite u64_small by (unfold PGSIZE in *; lia).
  change (Z.land ?a (Z.lnot (PGSIZE - 1))) with (PGROUNDDOWN a). rewrite PGROUNDDOWN_eq.
  unfold PGSIZE. pose proof (Z.mod_pos_bound (sz + 4096 - 1) 4096).
  pose proof (Z.mod_pos_bound (- sz) 4096).
  pose proof (Z.div_mod (sz + 4096 - 1) 4096). pose proof (Z.div_mod (- sz) 4096). lia.
Qed.

Lemma pages_disjoint pa pb x :
  pa mod PGSIZE = 0 -> pb mod PGSIZE = 0 -> in_page pa x -> in_page pb x -> pa = pb.
Proof.
  unfold in_page, PGSIZE. intros Ha Hb H1 H2.
  pose proof (Z.div_mod pa 4096). pose proof (Z.div_mod pb 4096). lia.
Qed.

Lemma memset_zero_load64 m pa i :
  0 <= i <= PGSIZE - 8 -> load64 (memset m pa 0 PGSIZE) (pa + i) = 0.
Proof.
  intros Hi. transitivity (load64 (fun _ => 0) (pa + i)); [|done].
  apply load_le_frame. intros x Hx. rewrite memset_at, decide_True by lia. done.
Qed.

Section kalloc_facts.
Context (kend : Z).
Hypothesis kend_pos : 0 < kend.
Implicit Types (s : kstate) (free : list Z).

Lemma valid_page_pos pa : valid_page kend pa -> 0 < pa < PHYSTOP.
Proof. intros [_ ?]. lia. Qed.

Lemma chain_frame m m' p free :
  (forall x y, x ∈ free -> in_page x y -> m y = m' y) ->
  chain kend m p free -> chain kend m' p free.
Proof.
  revert p. induction free as [|x free IH]; intros p Hm; simpl; [done|].
  intros (-> & Hv & Hc). split_and!; [done..|].
  assert (load64 m' x = load64 m x) as ->.
  { apply load_le_frame. intros y Hy. symmetry. apply (Hm x); [left|].
    unfold in_page, PGSIZE. lia. }
  apply IH; [|done]. intros x' y Hx. apply Hm. by right.
Qed.

Lemma kinv_frame s s' free :
  kinv kend s free -> bytes (phys s') -> freelist s' = freelist s -> held s' = held s ->
  (forall x y, x ∈ free -> in_page x y -> phys s' y = phys s y) -> kinv kend s' free.
Proof.
  intros [Ib Ic In Iu] Hb Hf Hh Hm. constructor; [done| |done|by rewrite Hh].
  rewrite Hf. eapply chain_frame; [|exact Ic]. intros x y Hx Hy. symmetry. by apply (Hm x).
Qed.

Lemma chain_valid m p free pa : chain kend m p free -> pa ∈ free -> valid_page kend pa.
Proof.
  revert p. induction free as [|x free IH]; intros p; simpl; [by intros _ ?%elem_of_nil|].
  intros (-> & Hv & Hc) [->|Hin]%elem_of_cons; eauto.
Qed.

Lemma chain_head m p free : chain kend m p free -> p = 0 <-> free = [].
Proof.
  destruct free as [|x free]; simpl; [done|].
  intros (-> & Hv & _). apply valid_page_pos in Hv. split; [lia | done].
Qed.

(** kfree puts a page it is given in front of the free list and writes only
    inside that page. *)
Lemma kfree_spec s free pa :
  kinv kend s free -> valid_page kend pa -> pa ∉ free ->
  exists s', kfree kend pa s = Ret tt s' /\ kinv kend s' (pa :: free) /\ held s' = held s /\
    (forall x, ~ in_page pa x -> phys s' x = phys s x).
Proof.
  intros [Ib Ic In Iu] Hv Hf. unfold kfree.
  destruct Hv as [Hal Hr]. rewrite (proj2 (Z.eqb_eq _ _) Hal). simpl.
  rewrite (proj2 (Z.ltb_ge _ _)), (proj2 (Z.leb_gt _ _)) by lia. simpl.
  unfold bind, modify. rewrite lock_acquire_free by done. simpl.
  erewrite lock_release_top by (simpl; eauto).
  eexists. split; [done|].
  assert (Hsame : forall x, ~ in_page pa x ->
            store64 (memset (phys s) pa 1 PGSIZE) pa (freelist s) x = phys s x).
  { intros x Hx. rewrite store64_other by (unfold in_page, PGSIZE in *; lia).
    rewrite memset_at, decide_False; auto. }
  split_and!; [|done|exact Hsame].
  constructor; simpl; auto with kernel.
  - split_and!; [done|done|]. rewrite load64_store64_same.
    assert (0 <= freelist s < 2 ^ 64).
    { destruct free as [|x free]; simpl in Ic; [subst; lia|].
      destruct Ic as (-> & Hx%valid_page_pos & _). unfold PHYSTOP, KERNBASE in *. lia. }
    rewrite u64_small by done. eapply chain_frame; [|exact Ic].
    intros x y Hx Hy. symmetry. apply Hsame. intros Hy'.
    assert (pa = x) as ->; [|done]. apply (pages_disjoint pa x y); auto.
    by destruct (chain_valid _ _ _ _ Ic Hx).
  - by constructor.
Qed.

(** kalloc takes the first free page, filled with junk, or reports that there
    is none. *)
Lemma kalloc_spec s free :
  kinv kend s free ->
  match free with
  | [] => kalloc s = Ret 0 s
  | pa :: rest =>
      exists s', kalloc s = Ret pa s' /\ kinv kend s' rest /\ held s' = held s /\
        (forall x, phys s' x = if decide (in_page pa x) then 5 else phys s x)
  end.
Proof.
  intros [Ib Ic In Iu]. unfold kalloc, bind, get, modify, ret.
  rewrite lock_acquire_free by done. destruct s as [m fl h]; simpl in *.
  destruct free as [|pa rest]; simpl in Ic.
  - subst fl. simpl. by rewrite remove_one_head.
  - destruct Ic as (-> & Hv & Hc). pose proof (valid_page_pos _ Hv).
    rewrite (proj2 (Z.eqb_neq pa 0)) by lia. simpl.
    rewrite remove_one_head by done.
    eexists. split; [done|]. inversion_clear In as [|? ? Hnin Hnd].
    split_and!; [|done|].
    + constructor; simpl; auto with kernel.
      eapply chain_frame; [|exact Hc]. intros x y Hx Hy.
      rewrite memset_at, decide_False; [done|]. intros Hy'.
      assert (pa = x) as ->; [|done]. apply (pages_disjoint pa x y); [apply Hv | | done | done].
      by destruct (chain_valid _ _ _ _ Hc Hx).
    + intros x. simpl. rewrite memset_at. unfold in_page. by repeat case_decide.
Qed.

(** ** Initialisation *)

(** The pages freerange frees, first freed first. *)
Fixpoint pages_from (n : nat) (p : Z) : list Z :=
  match n with
  | O => []
  | S n => p :: pages_from n (p + PGSIZE)
  end.

Lemma elem_of_pages_from n p x :
  x ∈ pages_from n p <-> exists i : nat, (i < n)%nat /\ x = p + Z.of_nat i * PGSIZE.
Proof.
  revert p. induction n as [|n IH]; intros p; simpl.
  - split; [by intros ?%elem_of_nil | intros (i & ? & _); lia].
  - rewrite elem_of_cons, IH. split.
    + intros [->|(i & Hi & ->)]; [exists O | exists (S i)]; split; lia.
    + intros ([|i] & Hi & ->); [left; lia | right; exists i; split; lia].
Qed.

Lemma freerange_loop_spec n s free p pa_end :
  kinv kend s free -> p mod PGSIZE = 0 -> kend <= p -> pa_end <= PHYSTOP ->
  n = Z.to_nat ((pa_end - p) / PGSIZE) ->
  (forall x, x ∈ pages_from n p -> x ∉ free) ->
  exists s', freerange_loop kend n p pa_end s = Ret tt s' /\
    kinv kend s' (reverse (pages_from n p) ++ free) /\ held s' = held s.
Proof.
  revert s free p. induction n as [|n IH]; intros s free p I Hal Hp He Hn Hf; simpl.
  - rewrite (proj2 (Z.leb_gt _ _)); [by exists s|].
    assert ((pa_end - p) / PGSIZE <= 0) by lia.
    pose proof (Z.div_mod (pa_end - p) PGSIZE).
    pose proof (Z.mod_pos_bound (pa_end - p) PGSIZE). unfold PGSIZE in *. lia.
  - assert (Hge : p + PGSIZE <= pa_end).
    { assert (1 <= (pa_end - p) / PGSIZE) by lia.
      pose proof (Z.div_mod (pa_end - p) PGSIZE).
      pose proof (Z.mod_pos_bound (pa_end - p) PGSIZE). unfold PGSIZE in *. lia. }
    rewrite (proj2 (Z.leb_le _ _)) by done.
    destruct (kfree_spec s free p I) as (s1 & Hk & I1 & Hh & _).
    { split; [done|]. unfold PGSIZE in *. lia. }
    { apply Hf. simpl. left. }
    rewrite (bind_ret_intro _ _ _ _ _ Hk).
    destruct (IH s1 (p :: free) (p + PGSIZE)) as (s' & Hl & I' & Hh'); auto.
    + rewrite <- Zplus_mod_idemp_l, Hal. done.
    + unfold PGSIZE in *. lia.
    + replace (pa_end - (p + PGSIZE)) with ((pa_end - p) + (-1) * PGSIZE) by lia.
      rewrite Z.div_add by (unfold PGSIZE; lia). lia.
    + intros x Hx. rewrite not_elem_of_cons. split.
      * apply elem_of_pages_from in Hx as (i & _ & ->). unfold PGSIZE. lia.
      * apply Hf. simpl. by right.
    + exists s'. split_and!; [done| |by transitivity (held s1)].
      rewrite reverse_cons, <- app_assoc. exact I'.
Qed.

End kalloc_facts.

(** ** Clients of the allocator

    The rest of the kernel allocates pages, writes into pages it was given,
    and frees them, in any order. *)

Record client := MkClient { ck : kstate; cowned : list Z }.

Section clients.
Context (kend : Z).

Inductive client_step : client -> client -> Prop :=
| client_alloc c pa s' :
    kalloc (ck c) = Ret pa s' -> pa <> 0 ->
    client_step c (MkClient s' (pa :: cowned c))
| client_alloc_fails c s' :
    kalloc (ck c) = Ret 0 s' -> client_step c (MkClient s' (cowned c))
| client_write c pa x v :
    pa ∈ cowned c -> in_page pa x ->
    client_step c (MkClient (set_phys (fun m => store8 m x v) (ck c)) (cowned c))
| client_free c pa s' :
    pa ∈ cowned c -> kfree kend pa (ck c) = Ret tt s' ->
    client_step c (MkClient s' (remove_one pa (cowned c))).

(** All pages between [kend] and PHYSTOP, split between the clients and the
    free list. *)
Definition client_inv (c : client) : Prop :=
  exists free, kinv kend (ck c) free /\ NoDup (cowned c ++ free) /\
    (forall x, x ∈ cowned c ++ free <-> valid_page kend x).

Hypothesis kend_ok : KERNBASE <= kend <= PHYSTOP.

Lemma client_step_inv c c' : client_inv c -> client_step c c' -> client_inv c'.
Proof.
  assert (Hk : 0 < kend) by (unfold KERNBASE in *; lia).
  intros (free & I & Hnd & Hall) Hs. destruct Hs as [c pa s' Ha Hz|c s' Ha|c pa x v Hp Hx|c pa s' Hp Hf].
  - pose proof (kalloc_spec kend Hk _ _ I) as Hspec. destruct free as [|p rest].
    { rewrite Hspec in Ha. naive_solver. }
    destruct Hspec as (s1 & Ha' & I' & _ & _). rewrite Ha' in Ha. minv.
    exists rest. simpl. split_and!; [done| |].
    + by rewrite Permutation_middle.
    + intros x. rewrite <- Hall. by rewrite Permutation_middle.
  - pose proof (kalloc_spec kend Hk _ _ I) as Hspec. destruct free as [|p rest].
    { rewrite Hspec in Ha. minv. by exists []. }
    destruct Hspec as (s1 & Ha' & I' & _ & _). rewrite Ha' in Ha. minv.
    assert (Hv : valid_page kend 0) by (apply Hall; set_solver).
    apply valid_page_pos in Hv; [lia|done].
  - exists free. simpl. split_and!; [|done|done].
    destruct I as [Ib Ic In Iu]. constructor; simpl; auto with kernel.
    eapply chain_frame; [|exact Ic]. intros y z Hy Hz. symmetry. apply store8_other. intros ->.
    assert (Hpy : pa = y).
    { apply (pages_disjoint pa y x); auto; [apply Hall; set_solver|].
      apply (chain_valid kend _ _ _ _ Ic Hy). }
    subst y. apply NoDup_app in Hnd as (_ & Hd & _). by apply (Hd pa).
  - apply NoDup_app in Hnd as Hnd'. destruct Hnd' as (Hno & Hd & Hnf).
    destruct (kfree_spec kend Hk _ _ pa I) as (s1 & Hf' & I' & _ & _);
      [apply Hall; set_solver | by apply Hd |].
    rewrite Hf' in Hf. minv. exists (pa :: free). simpl. split_and!; [done| |].
    + apply NoDup_app. split_and!; [by apply NoDup_remove_one| |constructor; auto].
      intros x Hx. apply elem_of_remove_one in Hx as [? ?]. rewrite not_elem_of_cons. auto.
    + intros x. rewrite elem_of_app, elem_of_remove_one, elem_of_cons, <- Hall, elem_of_app.
      destruct (decide (x = pa)); naive_solver.
Qed.

Lemma pages_from_NoDup n p : NoDup (pages_from n p).
Proof.
  revert p. induction n as [|n IH]; intros p; constructor; auto.
  intros (i & _ & Hi)%elem_of_pages_from. unfold PGSIZE in Hi. lia.
Qed.

(** What kinit leaves: every whole page of RAM after the kernel is free. *)
Lemma kinit_spec s :
  bytes (phys s) -> freelist s = 0 ->
  exists s', kinit kend s = Ret tt s' /\ client_inv (MkClient s' []) /\
    kinv kend s' (reverse (pages_from (Z.to_nat ((PHYSTOP - PGROUNDUP kend) / PGSIZE)) (PGROUNDUP kend))).
Proof.
  assert (Hk : 0 < kend) by (unfold KERNBASE in *; lia).
  intros Hb Hf. unfold kinit, freerange. unfold bind at 1, modify at 1.
  set (s0 := set_held _ s).
  assert (I0 : kinv kend s0 []).
  { subst s0. constructor; simpl; auto; [constructor|].
    rewrite elem_of_remove_one. naive_solver. }
  assert (Hup : PGROUNDUP kend = kend + (- kend) mod PGSIZE).
  { apply PGROUNDUP_eq. unfold PHYSTOP, KERNBASE, PGSIZE in *. lia. }
  set (p := PGROUNDUP kend) in *.
  assert (Hp : p mod PGSIZE = 0 /\ kend <= p < kend + PGSIZE).
  { rewrite Hup. unfold PGSIZE. pose proof (Z.mod_pos_bound (- kend) 4096).
    pose proof (Z.div_mod (- kend) 4096). split; [|lia].
    replace (kend + (- kend) mod 4096) with ((- (- kend / 4096)) * 4096) by lia.
    apply Z.mod_mul. lia. }
  clearbody p. clear Hup.
  destruct (freerange_loop_spec kend Hk (Z.to_nat ((PHYSTOP - p) / PGSIZE)) s0 [] p PHYSTOP I0) as (s' & Hl & I' & Hh);
    [tauto | lia | lia | done | intros ? _; apply not_elem_of_nil |].
  rewrite app_nil_r in I'. exists s'. split_and!; [done| |done].
  eexists. simpl. split_and!; [exact I'| |].
  - rewrite reverse_Permutation. apply pages_from_NoDup.
  - intros x. rewrite elem_of_reverse, elem_of_pages_from. unfold valid_page.
    assert (HS : PHYSTOP = PHYSTOP / PGSIZE * PGSIZE) by reflexivity.
    unfold PGSIZE in *. split.
    + intros (i & Hi & ->). rewrite Z.mod_add by lia. split; [tauto|].
      pose proof (Z.div_mod (PHYSTOP - p) 4096). pose proof (Z.mod_pos_bound (PHYSTOP - p) 4096). lia.
    + intros [Hx Hr]. exists (Z.to_nat ((x - p) / 4096)).
      pose proof (Z.div_mod x 4096). pose proof (Z.div_mod p 4096).
      destruct Hp as [Hp0 Hp1].
      assert (Hxp : x - p = (x / 4096 - p / 4096) * 4096) by lia.
      rewrite Hxp, Z.div_mul by lia.
      assert (HSp : PHYSTOP - p = (PHYSTOP / 4096 - p / 4096) * 4096) by lia.
      rewrite HSp, Z.div_mul by lia. split; lia.
Qed.

(** ** Properties *)

(** C14: after kinit on a machine that has just booted, and after any sequence
    of allocations, writes into allocated pages and frees, the whole pages
    between the end of the kernel and PHYSTOP are split, without overlap and
    without loss, between the pages handed out and the free list: kalloc never
    hands out a page that is in use, it reports failure only when every page
    is in use, and freeing an allocated page never panics. *)
Theorem kalloc_kfree_safe s0 s1 c :
  bytes (phys s0) -> freelist s0 = 0 ->
  kinit kend s0 = Ret tt s1 ->
  steps client_step (MkClient s1 []) c ->
  NoDup (cowned c) /\ Forall (valid_page kend) (cowned c) /\
  (exists pa s', kalloc (ck c) = Ret pa s' /\
     (pa = 0 /\ (forall x, x ∈ cowned c <-> valid_page kend x) \/
      valid_page kend pa /\ pa ∉ cowned c /\
        (forall x, phys s' x = if decide (in_page pa x) then 5 else phys (ck c) x))) /\
  (forall pa, pa ∈ cowned c -> exists s', kfree kend pa (ck c) = Ret tt s').
Proof.
  assert (Hk : 0 < kend) by (unfold KERNBASE in *; lia).
  intros Hb Hf Hi Hs. destruct (kinit_spec s0 Hb Hf) as (s1' & Hi' & Ic & _).
  rewrite Hi' in Hi. minv.
  assert (I : client_inv c) by (eapply steps_invariant; eauto using client_step_inv).
  destruct I as (free & I & Hnd & Hall). apply NoDup_app in Hnd as (Hno & Hd & Hnf).
  split_and!; [done| | |].
  - apply Forall_forall. intros x Hx. apply Hall. set_solver.
  - pose proof (kalloc_spec kend Hk _ _ I) as Hspec. destruct free as [|p rest].
    + exists 0, (ck c). split; [done|]. left. split; [done|]. intros x. rewrite <- Hall.
      by rewrite app_nil_r.
    + destruct Hspec as (s' & Ha & _ & _ & Hm). exists p, s'. split; [done|]. right.
      split_and!; [apply Hall; set_solver | intros Hp; apply (Hd p Hp); set_solver | done].
  - intros pa Hp. destruct (kfree_spec kend Hk _ _ pa I) as (s' & ? & _);
      [apply Hall; set_solver | by apply Hd | eauto].
Qed.

End clients.

(** The kernel ends one page below PHYSTOP, so one page is available. *)
Lemma kalloc_kfree_safe_witness :
  let kend := PHYSTOP - PGSIZE in
  let s0 := MkK (fun _ => 0) 0 [] in
  exists s1, kinit kend s0 = Ret tt s1 /\
    exists pa s', kalloc s1 = Ret pa s' /\ (pa = 0 \/ valid_page kend pa).
Proof.
  cbv zeta.
  assert (Hk : KERNBASE <= PHYSTOP - PGSIZE <= PHYSTOP) by (unfold PHYSTOP, KERNBASE, PGSIZE; lia).
  assert (Hb : bytes (phys (MkK (fun _ => 0) 0 []))) by (intros x; simpl; lia).
  destruct (kinit_spec _ Hk (MkK (fun _ => 0) 0 []) Hb eq_refl) as (s1 & Hi & _).
  exists s1. split; [exact Hi|].
  destruct (kalloc_kfree_safe _ Hk _ s1 (MkClient s1 []) Hb eq_refl Hi (steps_refl _ _))
    as (_ & _ & (pa & s' & Ha & Hd) & _).
  exists pa, s'. split; [exact Ha|]. destruct Hd as [[-> _]|[Hv _]]; [by left | by right].
Defined.
