(* ===== verification/Vm.v ===== *)
(** Virtual memory, [src/xv6-riscv/kernel/vm.c]: Sv39 page tables stored in
    physical memory, and the copies between user and kernel memory.

    A pagetable_t is the physical address of a page of 512 PTEs; the kernel
    maps physical memory at its own addresses, so kernel pointers and physical
    addresses are the same. *)

From stdpp Require Import base list sets strings.
From S2P Require Import Prelude Memory KString Spinlock Kalloc.

(** ** Page-table entries and addresses (riscv.h, memlayout.h) *)

Definition PTE_V : Z := 1.
Definition PTE_R : Z := 2.
Definition PTE_W : Z := 4.
Definition PTE_X : Z := 8.
Definition PTE_U : Z := 16.

Definition PA2PTE (pa : Z) : Z := u64 (Z.shiftl (Z.shiftr pa 12) 10).
Definition PTE2PA (pte : Z) : Z := u64 (Z.shiftl (Z.shiftr pte 10) 12).
Definition PTE_FLAGS (pte : Z) : Z := Z.land pte 1023.
Definition PXSHIFT (level : Z) : Z := 12 + 9 * level.
Definition PX (level va : Z) : Z := Z.land (Z.shiftr va (PXSHIFT level)) 511.
Definition MAXVA : Z := 2 ^ 38.
Definition TRAMPOLINE : Z := MAXVA - PGSIZE.
Definition TRAPFRAME : Z := TRAMPOLINE - PGSIZE.

(** x & flag, as a condition *)
Definition has (v flag : Z) : bool := negb (Z.land v flag =? 0).

(** &pagetable[i] *)
Definition pte_at (pagetable i : Z) : Z := pagetable + 8 * i.

Definition load_pte (pte : Z) : M kstate Z := get (fun s => load64 (phys s) pte).
Definition store_pte (pte v : Z) : M kstate unit := modify (set_phys (fun m => store64 m pte v)).

Section vm.
Context (kend : Z).

(** for(int level = 2; level > 0; level--), then &pagetable[PX(0, va)] *)
Fixpoint walk_levels (level : nat) (pagetable va : Z) (alloc : bool) : M kstate Z :=
  match level with
  | O => ret (pte_at pagetable (PX 0 va))
  | S l =>
      let pte := pte_at pagetable (PX (Z.of_nat level) va) in
      let! v := load_pte pte in
      if has v PTE_V then walk_levels l (PTE2PA v) va alloc
      else if negb alloc then ret 0
      else
        let! pt := kalloc in
        if pt =? 0 then ret 0
        else
          modify (set_phys (fun m => memset m pt 0 PGSIZE)) ;;;
          store_pte pte (Z.lor (PA2PTE pt) PTE_V) ;;;
          walk_levels l pt va alloc
  end.

Definition walk (pagetable va : Z) (alloc : bool) : M kstate Z :=
  if MAXVA <=? va then panic "walk" else walk_levels 2 pagetable va alloc.

Definition walkaddr (pagetable va : Z) : M kstate Z :=
  if MAXVA <=? va then ret 0
  else
    let! pte := walk pagetable va false in
    if pte =? 0 then ret 0
    else
      let! v := load_pte pte in
      if negb (has v PTE_V) then ret 0
      else if negb (has v PTE_U) then ret 0
      else ret (PTE2PA v).

(** The for(;;) of mappages; [a] reaches [last] after u64 (last - a) / PGSIZE
    steps, which is the fuel it is given. *)
Fixpoint mappages_loop (fuel : nat) (pagetable a last pa perm : Z) : M kstate Z :=
  let! pte := walk pagetable a true in
  if pte =? 0 then ret (-1)
  else
    let! v := load_pte pte in
    if has v PTE_V then panic "mappages: remap"
    else
      store_pte pte (Z.lor (Z.lor (PA2PTE pa) perm) PTE_V) ;;;
      if a =? last then ret 0
      else
        match fuel with
        | O => out_of_fuel
        | S fuel => mappages_loop fuel pagetable (u64 (a + PGSIZE)) last (u64 (pa + PGSIZE)) perm
        end.

Definition mappages (pagetable va size pa perm : Z) : M kstate Z :=
  if size =? 0 then panic "mappages: size"
  else
    let a := PGROUNDDOWN va in
    let last := PGROUNDDOWN (u64 (va + size - 1)) in
    mappages_loop (Z.to_nat (u64 (last - a) / PGSIZE)) pagetable a last pa perm.

Definition kvmmap (kpgtbl va pa sz perm : Z) : M kstate unit :=
  let! r := mappages kpgtbl va sz pa perm in
  if negb (r =? 0) then panic "kvmmap" else ret tt.

(** for(a = va; a < va + npages*PGSIZE; a += PGSIZE) *)
Fixpoint uvmunmap_loop (fuel : nat) (pagetable a aend : Z) (do_free : bool) : M kstate unit :=
  if a <? aend then
    match fuel with
    | O => out_of_fuel
    | S fuel =>
        let! pte := walk pagetable a false in
        if pte =? 0 then panic "uvmunmap: walk"
        else
          let! v := load_pte pte in
          if negb (has v PTE_V) then panic "uvmunmap: not mapped"
          else if PTE_FLAGS v =? PTE_V then panic "uvmunmap: not a leaf"
          else
            (when do_free then kfree kend (PTE2PA v)) ;;;
            store_pte pte 0 ;;;
            uvmunmap_loop fuel pagetable (u64 (a + PGSIZE)) aend do_free
    end
  else ret tt.

Definition uvmunmap (pagetable va npages : Z) (do_free : bool) : M kstate unit :=
  if negb (va mod PGSIZE =? 0) then panic "uvmunmap: not aligned"
  else uvmunmap_loop (Z.to_nat npages) pagetable va (u64 (va + npages * PGSIZE)) do_free.

Definition uvmcreate : M kstate Z :=
  let! pagetable := kalloc in
  if pagetable =? 0 then ret 0
  else
    modify (set_phys (fun m => memset m pagetable 0 PGSIZE)) ;;;
    ret pagetable.

(** [src] is the kernel address of the initial program; the result of mappages
    is not examined. *)
Definition uvmfirst (pagetable src sz : Z) : M kstate unit :=
  if PGSIZE <=? sz then panic "uvmfirst: more than a page"
  else
    let! mem := kalloc in
    modify (set_phys (fun m => memset m mem 0 PGSIZE)) ;;;
    mappages pagetable 0 PGSIZE mem (Z.lor PTE_W (Z.lor PTE_R (Z.lor PTE_X PTE_U))) ;;;
    modify (set_phys (fun m => memmove m mem src sz)).

Definition uvmdealloc (pagetable oldsz newsz : Z) : M kstate Z :=
  if oldsz <=? newsz then ret oldsz
  else
    (when PGROUNDUP newsz <? PGROUNDUP oldsz then
       let npages := s32 ((PGROUNDUP oldsz - PGROUNDUP newsz) / PGSIZE) in
       uvmunmap pagetable (PGROUNDUP newsz) (u64 npages) true) ;;;
    ret newsz.

(** for(a = oldsz; a < newsz; a += PGSIZE), [oldsz] already rounded up *)
Fixpoint uvmalloc_loop (fuel : nat) (pagetable oldsz newsz a xperm : Z) : M kstate Z :=
  if a <? newsz then
    match fuel with
    | O => out_of_fuel
    | S fuel =>
        let! mem := kalloc in
        if mem =? 0 then
          uvmdealloc pagetable a oldsz ;;; ret 0
        else
          modify (set_phys (fun m => memset m mem 0 PGSIZE)) ;;;
          let! r := mappages pagetable a PGSIZE mem (Z.lor (Z.lor PTE_R PTE_U) xperm) in
          if negb (r =? 0) then
            kfree kend mem ;;; uvmdealloc pagetable a oldsz ;;; ret 0
          else uvmalloc_loop fuel pagetable oldsz newsz (u64 (a + PGSIZE)) xperm
    end
  else ret newsz.

Definition uvmalloc (pagetable oldsz newsz xperm : Z) : M kstate Z :=
  if newsz <? oldsz then ret oldsz
  else
    let oldsz := PGROUNDUP oldsz in
    uvmalloc_loop (Z.to_nat ((newsz - oldsz + PGSIZE - 1) / PGSIZE)) pagetable oldsz newsz oldsz xperm.

(** for(int i = 0; i < 512; i++) in freewalk; [i] counts the entries still to
    visit, from entry 512 - i, and [rec] is the recursive call. *)
Fixpoint freewalk_entries (rec : Z -> M kstate unit) (pagetable : Z) (i : nat) : M kstate unit :=
  match i with
  | O => ret tt
  | S i' =>
      let pte := pte_at pagetable (512 - Z.of_nat i) in
      let! v := load_pte pte in
      if has v PTE_V && negb (has v (Z.lor (Z.lor PTE_R PTE_W) PTE_X)) then
        rec (PTE2PA v) ;;; store_pte pte 0 ;;; freewalk_entries rec pagetable i'
      else if has v PTE_V then panic "freewalk: leaf"
      else freewalk_entries rec pagetable i'
  end.

(** The recursion of freewalk follows the page table; [depth] bounds it. *)
Fixpoint freewalk (depth : nat) (pagetable : Z) : M kstate unit :=
  match depth with
  | O => out_of_fuel
  | S depth =>
      freewalk_entries (freewalk depth) pagetable 512 ;;;
      kfree kend pagetable
  end.

Definition uvmfree (pagetable sz : Z) : M kstate unit :=
  (when 0 <? sz then uvmunmap pagetable 0 (PGROUNDUP sz / PGSIZE) true) ;;;
  freewalk 3 pagetable.

(** for(i = 0; i < sz; i += PGSIZE), and the code at err *)
Fixpoint uvmcopy_loop (fuel : nat) (old new i sz : Z) : M kstate Z :=
  if i <? sz then
    match fuel with
    | O => out_of_fuel
    | S fuel =>
        let! pte := walk old i false in
        if pte =? 0 then panic "uvmcopy: pte should exist"
        else
          let! v := load_pte pte in
          if negb (has v PTE_V) then panic "uvmcopy: page not present"
          else
            let pa := PTE2PA v in
            let flags := PTE_FLAGS v in
            let! mem := kalloc in
            if mem =? 0 then uvmunmap new 0 (i / PGSIZE) true ;;; ret (-1)
            else
              modify (set_phys (fun m => memmove m mem pa PGSIZE)) ;;;
              let! r := mappages new i PGSIZE mem flags in
              if negb (r =? 0) then
                kfree kend mem ;;; uvmunmap new 0 (i / PGSIZE) true ;;; ret (-1)
              else uvmcopy_loop fuel old new (u64 (i + PGSIZE)) sz
    end
  else ret 0.

Definition uvmcopy (old new sz : Z) : M kstate Z :=
  uvmcopy_loop (Z.to_nat ((sz + PGSIZE - 1) / PGSIZE)) old new 0 sz.

Definition uvmclear (pagetable va : Z) : M kstate unit :=
  let! pte := walk pagetable va false in
  if pte =? 0 then panic "uvmclear"
  else
    let! v := load_pte pte in
    store_pte pte (Z.land v (Z.lnot PTE_U)).

(** while(len > 0): one page of the user range per turn *)
Fixpoint copyout_loop (fuel : nat) (pagetable dstva src len : Z) : M kstate Z :=
  if 0 <? len then
    match fuel with
    | O => out_of_fuel
    | S fuel =>
        let va0 := PGROUNDDOWN dstva in
        let! pa0 := walkaddr pagetable va0 in
        if pa0 =? 0 then ret (-1)
        else
          let n := PGSIZE - (dstva - va0) in
          let n := if len <? n then len else n in
          modify (set_phys (fun m => memmove m (pa0 + (dstva - va0)) src n)) ;;;
          copyout_loop fuel pagetable (u64 (va0 + PGSIZE)) (src + n) (len - n)
    end
  else ret 0.

Definition copyout (pagetable dstva src len : Z) : M kstate Z :=
  copyout_loop (Z.to_nat (len / PGSIZE) + 2) pagetable dstva src len.

Fixpoint copyin_loop (fuel : nat) (pagetable dst srcva len : Z) : M kstate Z :=
  if 0 <? len then
    match fuel with
    | O => out_of_fuel
    | S fuel =>
        let va0 := PGROUNDDOWN srcva in
        let! pa0 := walkaddr pagetable va0 in
        if pa0 =? 0 then ret (-1)
        else
          let n := PGSIZE - (srcva - va0) in
          let n := if len <? n then len else n in
          modify (set_phys (fun m => memmove m dst (pa0 + (srcva - va0)) n)) ;;;
          copyin_loop fuel pagetable (dst + n) (u64 (va0 + PGSIZE)) (len - n)
    end
  else ret 0.

Definition copyin (pagetable dst srcva len : Z) : M kstate Z :=
  copyin_loop (Z.to_nat (len / PGSIZE) + 2) pagetable dst srcva len.

(** The inner while(n > 0) of copyinstr: copies bytes from [p] to [dst];
    reports whether the NUL was found, and how many bytes were copied. *)
Fixpoint copyinstr_page (n : nat) (dst p : Z) (m : mem) : mem * bool * Z :=
  match n with
  | O => (m, false, 0)
  | S n =>
      if m p =? 0 then (store8 m dst 0, true, 0)
      else
        let '(m', got, k) := copyinstr_page n (dst + 1) (p + 1) (store8 m dst (m p)) in
        (m', got, k + 1)
  end.

Fixpoint copyinstr_loop (fuel : nat) (pagetable dst srcva max : Z) : M kstate Z :=
  if 0 <? max then
    match fuel with
    | O => out_of_fuel
    | S fuel =>
        let va0 := PGROUNDDOWN srcva in
        let! pa0 := walkaddr pagetable va0 in
        if pa0 =? 0 then ret (-1)
        else
          let n := PGSIZE - (srcva - va0) in
          let n := if max <? n then max else n in
          let p := pa0 + (srcva - va0) in
          let! r := get (fun s => copyinstr_page (Z.to_nat n) dst p (phys s)) in
          let '(m', got_null, k) := r in
          modify (set_phys (fun _ => m')) ;;;
          if (got_null : bool) then ret 0
          else copyinstr_loop fuel pagetable (dst + k) (u64 (va0 + PGSIZE)) (max - k)
    end
  else ret (-1).

Definition copyinstr (pagetable dst srcva max : Z) : M kstate Z :=
  copyinstr_loop (Z.to_nat (max / PGSIZE) + 2) pagetable dst srcva max.

End vm.
