(* ===== verification/VmLocks.v ===== *)
(** The code of kalloc.c and vm.c gives back the locks it takes and never
    sleeps: what callers that hold locks rely on. *)

From stdpp Require Import base list sets strings.
From S2P Require Import Prelude Memory KString Spinlock Kalloc Vm.

(** A computation that returns with the locks it was entered with, and does
    not block. *)
Definition keeps {S A} `{LockView S} (c : M S A) : Prop :=
  forall s, match c s with Ret _ s' => held s' = held s | Blocked _ => False | _ => True end.

Section keeps.
Context {S : Type} `{LockView S}.

Lemma keeps_ret {A} (a : A) : keeps (ret a).
Proof. done. Qed.

Lemma keeps_panic {A} msg : keeps (panic (A := A) msg).
Proof. done. Qed.

Lemma keeps_out_of_fuel {A} : keeps (out_of_fuel (A := A)).
Proof. done. Qed.

Lemma keeps_get {A} (f : S -> A) : keeps (get f).
Proof. done. Qed.

Lemma keeps_modify (f : S -> S) : (forall s, held (f s) = held s) -> keeps (modify f).
Proof. intros Hf s. apply Hf. Qed.

Lemma keeps_bind {A B} (c : M S A) (k : A -> M S B) :
  keeps c -> (forall a, keeps (k a)) -> keeps (bind c k).
Proof.
  intros Hc Hk s. unfold bind. specialize (Hc s). destruct (c s) as [a s1|m|s1|]; try done.
  specialize (Hk a s1). destruct (k a s1); try done. congruence.
Qed.

(** acquire(l); c; release(l) *)
Lemma keeps_locked {A B} l (c : M S A) (k : A -> M S B) :
  keeps c -> (forall a, keeps (k a)) ->
  keeps (bind (lock_acquire l) (fun _ => bind c (fun a => bind (lock_release l) (fun _ => k a)))).
Proof.
  intros Hc Hk s. unfold bind, lock_acquire. case_bool_decide as Hin; [done|].
  specialize (Hc (set_held (l :: held s) s)). destruct (c _) as [a s1|m|s1|]; try done.
  rewrite held_set_held in Hc. rewrite (lock_release_top l s1 (held s)) by done.
  specialize (Hk a (set_held (held s) s1)). destruct (k a _); try done. by rewrite held_set_held in Hk.
Qed.

Lemma keeps_run {A} (c : M S A) s a s' : keeps c -> c s = Ret a s' -> held s' = held s.
Proof. intros Hc E. specialize (Hc s). by rewrite E in Hc. Qed.
End keeps.

(** Follow the structure of a computation. *)
Ltac keeps_tac :=
  repeat first
  [ assumption
  | apply keeps_ret | apply keeps_panic | apply keeps_out_of_fuel | apply keeps_get
  | apply keeps_modify; done
  | solve [eauto 2 with keeps]
  | apply keeps_bind; [|intros]
  | progress case_test ].

Create HintDb keeps.

Lemma kfree_keeps kend pa : keeps (kfree kend pa).
Proof.
  unfold kfree. case_test; [apply keeps_panic|]. apply keeps_bind; [by apply keeps_modify|intros _].
  cbv zeta. intros s. unfold bind, lock_acquire. case_bool_decide; [done|]. cbn.
  rewrite (lock_release_top LKmem _ (held s)); done.
Qed.

Lemma kalloc_keeps : keeps kalloc.
Proof.
  unfold kalloc. intros s. unfold bind at 1, lock_acquire. case_bool_decide as Hin; [done|].
  unfold bind at 1, get at 1. change (freelist (set_held _ s)) with (freelist s).
  destruct (negb (freelist s =? 0)); unfold modify, ret, bind at 1; cbn beta iota;
    unfold bind at 1; (rewrite (lock_release_top LKmem _ (held s)); [|done|done]); done.
Qed.
#[export] Hint Resolve kfree_keeps kalloc_keeps : keeps.

Section vm.
Context (kend : Z).

Lemma walk_keeps pagetable va alloc : keeps (walk pagetable va alloc).
Proof.
  unfold walk. case_test; [apply keeps_panic|]. generalize 2%nat as L. intros L.
  revert pagetable. induction L as [|L IH]; intros pt; cbn [walk_levels]; unfold load_pte, store_pte; keeps_tac.
Qed.
#[local] Hint Resolve walk_keeps : keeps.

Lemma walkaddr_keeps pagetable va : keeps (walkaddr pagetable va).
Proof. unfold walkaddr, load_pte. keeps_tac. Qed.
#[local] Hint Resolve walkaddr_keeps : keeps.

Lemma mappages_keeps pagetable va size pa perm : keeps (mappages pagetable va size pa perm).
Proof.
  unfold mappages. case_test; [apply keeps_panic|]. generalize (PGROUNDDOWN va), (PGROUNDDOWN (u64 (va + size - 1))).
  intros a last. generalize (Z.to_nat (u64 (last - a) / PGSIZE)). intros n. revert a pa.
  induction n as [|n IH]; intros a pa'; cbn [mappages_loop]; unfold load_pte, store_pte; keeps_tac.
Qed.
#[local] Hint Resolve mappages_keeps : keeps.

Lemma uvmunmap_keeps pagetable va n do_free : keeps (uvmunmap kend pagetable va n do_free).
Proof.
  unfold uvmunmap. case_test; [apply keeps_panic|]. generalize (Z.to_nat n), (u64 (va + n * PGSIZE)).
  intros fuel e. clear E. revert va. induction fuel as [|fuel IH]; intros va; cbn [uvmunmap_loop];
    unfold load_pte, store_pte; keeps_tac.
Qed.
#[local] Hint Resolve uvmunmap_keeps : keeps.

Lemma uvmdealloc_keeps pagetable o n : keeps (uvmdealloc kend pagetable o n).
Proof. unfold uvmdealloc. keeps_tac. Qed.
#[local] Hint Resolve uvmdealloc_keeps : keeps.

Lemma uvmalloc_keeps pagetable o n x : keeps (uvmalloc kend pagetable o n x).
Proof.
  unfold uvmalloc. case_test; [apply keeps_ret|]. cbv zeta. generalize (PGROUNDUP o) as o'. intros o'.
  generalize (Z.to_nat ((n - o' + PGSIZE - 1) / PGSIZE)). intros fuel. generalize o' at 2 as a. clear E.
  induction fuel as [|fuel IH]; intros a; cbn [uvmalloc_loop]; keeps_tac.
Qed.

Lemma freewalk_entries_keeps rec pagetable n :
  (forall p, keeps (rec p)) -> keeps (freewalk_entries rec pagetable n).
Proof.
  intros Hr. induction n as [|n IH]; cbn [freewalk_entries]; cbv zeta; unfold load_pte, store_pte; keeps_tac.
Qed.

Lemma freewalk_keeps depth pagetable : keeps (freewalk kend depth pagetable).
Proof.
  revert pagetable. induction depth as [|depth IH]; intros pagetable; cbn [freewalk]; [apply keeps_out_of_fuel|].
  apply keeps_bind; [by apply freewalk_entries_keeps|intros _; apply kfree_keeps].
Qed.
#[local] Hint Resolve freewalk_keeps : keeps.

Lemma uvmfree_keeps pagetable size : keeps (uvmfree kend pagetable size).
Proof. unfold uvmfree. keeps_tac. Qed.

Lemma uvmcreate_keeps : keeps uvmcreate.
Proof. unfold uvmcreate. keeps_tac. Qed.

Lemma uvmcopy_keeps old new size : keeps (uvmcopy kend old new size).
Proof.
  unfold uvmcopy. generalize (Z.to_nat ((size + PGSIZE - 1) / PGSIZE)) as fuel, 0 as i. intros fuel.
  induction fuel as [|fuel IH]; intros i; cbn [uvmcopy_loop]; unfold load_pte; cbv zeta; keeps_tac.
Qed.

Lemma copyout_keeps pagetable dstva src len : keeps (copyout pagetable dstva src len).
Proof.
  unfold copyout. generalize (Z.to_nat (len / PGSIZE) + 2)%nat as fuel. intros fuel. revert dstva src len.
  induction fuel as [|fuel IH]; intros dstva src len; cbn [copyout_loop]; cbv zeta; keeps_tac.
Qed.
End vm.

#[export] Hint Resolve walk_keeps walkaddr_keeps mappages_keeps uvmunmap_keeps uvmdealloc_keeps uvmalloc_keeps
  uvmfree_keeps uvmcreate_keeps uvmcopy_keeps copyout_keeps : keeps.
