(* ===== verification/VmTable.v ===== *)
(** The page-table routines of [src/xv6-riscv/kernel/vm.c] refine an abstract
    address space.

    The abstract address space of a page table maps a virtual page to the PTE
    that translates it, zero when there is none.  A description [D] of the
    table says which physical page holds the table page of each level and
    prefix of the virtual address; [ptable] says that memory holds a table
    shaped as [D] describes, without sharing.  The theorems say how walk,
    mappages and uvmunmap act on the address space. *)

From stdpp Require Import base list sets strings.
From S2P Require Import Prelude Memory KString Spinlock Kalloc Vm.

(** ** Bit fields *)

(** The part of a virtual address that selects the table page of a level. *)
Definition key (level va : Z) : Z := va / 2 ^ (21 + 9 * level).

Lemma PX_eq level va : 0 <= level -> PX level va = (va / 2 ^ (12 + 9 * level)) mod 512.
Proof.
  intros. unfold PX, PXSHIFT. change 511 with (Z.ones 9).
  rewrite Z.land_ones, Z.shiftr_div_pow2 by lia. done.
Qed.

Lemma PX_range level va : 0 <= level -> 0 <= PX level va < 512.
Proof. intros. rewrite PX_eq by done. apply Z.mod_pos_bound. lia. Qed.

Lemma key_step level va :
  0 <= level -> key level va = key (level + 1) va * 512 + PX (level + 1) va.
Proof.
  intros. rewrite PX_eq by lia. unfold key.
  replace (12 + 9 * (level + 1)) with (21 + 9 * level) by lia.
  replace (21 + 9 * (level + 1)) with ((21 + 9 * level) + 9) by lia.
  assert (0 < 2 ^ (21 + 9 * level)) by (apply Z.pow_pos_nonneg; lia).
  rewrite (Z.pow_add_r 2 (21 + 9 * level) 9), <- Z.div_div by lia. change (2 ^ 9) with 512.
  pose proof (Z.div_mod (va / 2 ^ (21 + 9 * level)) 512). lia.
Qed.

Lemma key_top va : 0 <= va < MAXVA -> key 2 va = 0.
Proof. intros H. unfold key. apply Z.div_small. unfold MAXVA in *. lia. Qed.

Lemma has_V v : has v PTE_V = Z.odd v.
Proof.
  unfold has, PTE_V. change 1 with (Z.ones 1). rewrite Z.land_ones by lia.
  change (2 ^ 1) with 2. rewrite Zmod_odd. by destruct (Z.odd v).
Qed.

Lemma has_V_lor v : has (Z.lor v PTE_V) PTE_V = true.
Proof.
  rewrite has_V, <- Z.bit0_odd, Z.lor_spec. rewrite (Z.bit0_odd PTE_V).
  apply orb_true_r.
Qed.

Lemma PTE2PA_PA2PTE pa f :
  pa mod PGSIZE = 0 -> 0 <= pa < 2 ^ 56 -> 0 <= f < 1024 ->
  PTE2PA (Z.lor (PA2PTE pa) f) = pa.
Proof.
  intros Hal Hr Hf. unfold PTE2PA, PA2PTE. rewrite (Z.shiftr_div_pow2 pa) by lia.
  assert (Hq : 0 <= pa / 2 ^ 12 < 2 ^ 44).
  { split; [apply Z.div_pos; lia | apply Z.div_lt_upper_bound; lia]. }
  assert (Hpa : pa / 2 ^ 12 * 2 ^ 12 = pa).
  { unfold PGSIZE in Hal. pose proof (Z.div_mod pa (2 ^ 12)). change (2 ^ 12) with 4096 in *. lia. }
  set (q := pa / 2 ^ 12) in *. clearbody q.
  rewrite (u64_small (Z.shiftl q 10)) by (rewrite Z.shiftl_mul_pow2; lia).
  rewrite Z.shiftr_lor, Z.shiftr_shiftl_l, Z.sub_diag, Z.shiftl_0_r by lia.
  rewrite (Z.shiftr_div_pow2 f), (Z.div_small f), Z.lor_0_r, Z.shiftl_mul_pow2 by lia.
  rewrite u64_small; lia.
Qed.

Lemma PA2PTE_range pa : 0 <= pa < 2 ^ 56 -> 0 <= PA2PTE pa < 2 ^ 54.
Proof.
  intros H. unfold PA2PTE. rewrite Z.shiftr_div_pow2, Z.shiftl_mul_pow2 by lia.
  assert (Hq : 0 <= pa / 2 ^ 12 < 2 ^ 44).
  { split; [apply Z.div_pos; lia | apply Z.div_lt_upper_bound; lia]. }
  rewrite u64_small by lia. lia.
Qed.

Lemma lor_range a b n : 0 <= n -> 0 <= a < 2 ^ n -> 0 <= b < 2 ^ n -> 0 <= Z.lor a b < 2 ^ n.
Proof.
  intros Hn Ha Hb. split; [apply Z.lor_nonneg; lia|].
  destruct (Z.eq_dec (Z.lor a b) 0) as [->|Hne]; [lia|].
  assert (0 <= Z.lor a b) by (apply Z.lor_nonneg; lia).
  apply Z.log2_lt_pow2; [lia|]. rewrite Z.log2_lor by lia.
  apply Z.max_lub_lt.
  - destruct (Z.eq_dec a 0) as [->|]; [|apply Z.log2_lt_pow2; lia].
    simpl. destruct (Z.eq_dec n 0) as [->|]; [|lia].
    change (2 ^ 0) with 1 in *. assert (b = 0) by lia. subst. done.
  - destruct (Z.eq_dec b 0) as [->|]; [|apply Z.log2_lt_pow2; lia].
    simpl. destruct (Z.eq_dec n 0) as [->|]; [|lia].
    change (2 ^ 0) with 1 in *. assert (a = 0) by lia. subst. done.
Qed.

(** A PTE with one of these bits is a leaf. *)
Definition PTE_RWX : Z := Z.lor (Z.lor PTE_R PTE_W) PTE_X.

Lemma has_RWX_dir pa : has (Z.lor (PA2PTE pa) PTE_V) PTE_RWX = false.
Proof.
  unfold has. rewrite Z.land_lor_distr_l. change (Z.land PTE_V PTE_RWX) with 0. rewrite Z.lor_0_r.
  change PTE_RWX with (Z.land (Z.ones 10) 14). rewrite Z.land_assoc, Z.land_ones by lia. unfold PA2PTE, u64.
  rewrite Z.shiftl_mul_pow2 by lia. change (2 ^ 64) with (2 ^ 54 * 2 ^ 10). rewrite Z.mul_mod_distr_r, Z.mod_mul by lia. reflexivity.
Qed.

(** ** Table pages *)

Definition shape : Type := nat -> Z -> option Z.

(** The physical pages that hold the table. *)
Definition in_shape (D : shape) (pt : Z) : Prop := exists L k, D L k = Some pt.

(** The PTE of a virtual address: where it is, and its value. *)
Definition leaf_addr (D : shape) (va : Z) : Z :=
  match D O (key 0 va) with Some pt => pte_at pt (PX 0 va) | None => 0 end.

Definition leaf (m : mem) (D : shape) (va : Z) : Z :=
  match D O (key 0 va) with Some pt => load64 m (pte_at pt (PX 0 va)) | None => 0 end.

Section tables.
Context (kend : Z).

Record ptable (m : mem) (root : Z) (D : shape) : Prop := {
  pt_root : D 2%nat 0 = Some root;
  pt_child : forall L k pt i, D (S L) k = Some pt -> 0 <= i < 512 ->
    let v := load64 m (pte_at pt i) in
    D L (k * 512 + i) = if has v PTE_V then Some (PTE2PA v) else None;
  pt_none : forall L k i, (L < 2)%nat -> D (S L) k = None -> 0 <= i < 512 -> D L (k * 512 + i) = None;
  pt_inj : forall L k L' k' pt, D L k = Some pt -> D L' k' = Some pt -> L = L' /\ k = k';
  pt_valid : forall L k pt, D L k = Some pt -> (L <= 2)%nat /\ valid_page kend pt;
  pt_dir : forall L k pt i, D (S L) k = Some pt -> 0 <= i < 512 ->
    has (load64 m (pte_at pt i)) PTE_V = true -> has (load64 m (pte_at pt i)) PTE_RWX = false;
  pt_top : forall k pt, D 2%nat k = Some pt -> k = 0
}.

Hypothesis kend_ok : KERNBASE <= kend <= PHYSTOP.

Lemma valid_page_range pa : valid_page kend pa -> 0 < pa < PHYSTOP /\ pa mod PGSIZE = 0.
Proof. intros [? ?]. split; [unfold KERNBASE in *; lia | done]. Qed.

Lemma PHYSTOP_small : PHYSTOP < 2 ^ 32.
Proof. unfold PHYSTOP, KERNBASE. lia. Qed.

(** Distinct PTE slots are disjoint words, and a slot lies in its page. *)
Lemma pte_at_in_page pt i x : 0 <= i < 512 -> pte_at pt i <= x < pte_at pt i + 8 -> in_page pt x.
Proof. unfold pte_at, in_page, PGSIZE. lia. Qed.

Lemma pte_at_disjoint pt i pt' i' :
  valid_page kend pt -> valid_page kend pt' -> 0 <= i < 512 -> 0 <= i' < 512 ->
  pt <> pt' \/ i <> i' ->
  pte_at pt i + 8 <= pte_at pt' i' \/ pte_at pt' i' + 8 <= pte_at pt i.
Proof.
  intros [Ha _] [Hb _] Hi Hi' Hne. unfold pte_at, PGSIZE in *.
  pose proof (Z.div_mod pt 4096). pose proof (Z.div_mod pt' 4096). lia.
Qed.

Lemma load64_page_frame m m' pt i :
  0 <= i < 512 -> (forall x, in_page pt x -> m' x = m x) ->
  load64 m' (pte_at pt i) = load64 m (pte_at pt i).
Proof.
  intros Hi Hm. apply load_le_frame. intros x Hx. apply Hm. by apply (pte_at_in_page pt i).
Qed.

(** A table only depends on the contents of its own pages. *)
Lemma ptable_frame m m' root D :
  ptable m root D -> (forall pt x, in_shape D pt -> in_page pt x -> m' x = m x) -> ptable m' root D.
Proof.
  intros [P1 P2 P3 P4 P5 P6 P7] Hm.
  assert (Hl : forall L k pt i, D (S L) k = Some pt -> 0 <= i < 512 -> load64 m' (pte_at pt i) = load64 m (pte_at pt i)).
  { intros L k pt i HD Hi. apply load64_page_frame; [done|]. intros x. apply Hm. by exists (S L), k. }
  constructor; auto; intros L k pt i HD Hi; rewrite (Hl L k) by done; [by apply P2|by apply (P6 L k)].
Qed.

Lemma leaf_frame m m' root D va :
  ptable m root D -> (forall pt x, in_shape D pt -> in_page pt x -> m' x = m x) ->
  leaf m' D va = leaf m D va.
Proof.
  intros P Hm. unfold leaf. destruct (D O (key 0 va)) as [pt|] eqn:E; [|done].
  apply load64_page_frame; [by apply PX_range|]. intros x. apply Hm. by exists O, (key 0 va).
Qed.

(** ** walk without allocation *)

Lemma key_step_nat L va :
  key (Z.of_nat L) va = key (Z.of_nat (S L)) va * 512 + PX (Z.of_nat (S L)) va.
Proof. rewrite Nat2Z.inj_succ, <- Z.add_1_r. apply key_step. lia. Qed.

Lemma no_leaf_below m root D va L :
  ptable m root D -> (L <= 2)%nat -> D L (key (Z.of_nat L) va) = None -> D O (key 0 va) = None.
Proof.
  intros P. induction L as [|L IH]; intros HL HD; [done|].
  apply IH; [lia|]. rewrite key_step_nat. apply (pt_none _ _ _ P); [lia|done|].
  apply PX_range. lia.
Qed.

Lemma child_of_path m root D va L pt :
  ptable m root D -> D (S L) (key (Z.of_nat (S L)) va) = Some pt ->
  let v := load64 m (pte_at pt (PX (Z.of_nat (S L)) va)) in
  D L (key (Z.of_nat L) va) = if has v PTE_V then Some (PTE2PA v) else None.
Proof.
  intros P HD. rewrite key_step_nat. apply (pt_child _ _ _ P); [done|]. apply PX_range. lia.
Qed.

Lemma walk_levels_lookup s root D va L pt :
  ptable (phys s) root D -> (L <= 2)%nat -> D L (key (Z.of_nat L) va) = Some pt ->
  walk_levels L pt va false s = Ret (leaf_addr D va) s.
Proof.
  intros P. revert pt. induction L as [|L IH]; intros pt HL HD.
  - simpl. unfold ret, leaf_addr. change (Z.of_nat 0) with 0 in HD. by rewrite HD.
  - pose proof (child_of_path _ _ _ va _ _ P HD) as Hc.
    cbn [walk_levels]. unfold load_pte, bind, get. cbv zeta in Hc.
    case_test; [apply IH; [lia|done]|]. simpl. unfold ret, leaf_addr. f_equal.
    by rewrite (no_leaf_below (phys s) root D va L P ltac:(lia) Hc).
Qed.

Lemma walk_lookup s root D va :
  ptable (phys s) root D -> 0 <= va < MAXVA ->
  walk root va false s = Ret (leaf_addr D va) s.
Proof.
  intros P Hva. unfold walk. rewrite (proj2 (Z.leb_gt _ _)) by lia.
  apply (walk_levels_lookup s root D va 2 root P); [lia|].
  change (Z.of_nat 2) with 2. rewrite key_top by done. apply (pt_root _ _ _ P).
Qed.

Lemma leaf_addr_zero m root D va :
  ptable m root D -> leaf_addr D va = 0 <-> D O (key 0 va) = None.
Proof.
  intros P. unfold leaf_addr. destruct (D O (key 0 va)) as [pt|] eqn:E; [|done].
  apply (pt_valid _ _ _ P) in E as [_ Hv%valid_page_range].
  pose proof (PX_range 0 va). unfold pte_at. split; [lia | done].
Qed.

(** ** Adding a table page *)

Definition shape_set (D : shape) (L : nat) (k pt : Z) : shape :=
  fun L' k' => if decide (L' = L /\ k' = k) then Some pt else D L' k'.

Definition shape_le (D D' : shape) : Prop :=
  forall L k pt, D L k = Some pt -> D' L k = Some pt.

Lemma ptable_extend m m' root D L k pt i p :
  ptable m root D -> D (S L) k = Some pt -> 0 <= i < 512 ->
  has (load64 m (pte_at pt i)) PTE_V = false ->
  valid_page kend p -> ~ in_shape D p ->
  load64 m' (pte_at pt i) = Z.lor (PA2PTE p) PTE_V ->
  (forall j, 0 <= j < 512 -> load64 m' (pte_at p j) = 0) ->
  (forall pt' j, in_shape D pt' -> 0 <= j < 512 -> pt' <> pt \/ j <> i ->
     load64 m' (pte_at pt' j) = load64 m (pte_at pt' j)) ->
  let D' := shape_set D L (k * 512 + i) p in
  ptable m' root D' /\ shape_le D D' /\ (forall va, leaf m' D' va = leaf m D va).
Proof.
  intros P HD Hi Hinv Hp Hfresh Hnew Hzero Hold. cbv zeta.
  pose proof (pt_child _ _ _ P L _ _ _ HD Hi) as Hnone. cbv zeta in Hnone. rewrite Hinv in Hnone.
  destruct (pt_valid _ _ _ P _ _ _ HD) as [HL Hptv].
  pose proof PHYSTOP_small as Hps. pose proof (valid_page_range p Hp) as [Hpr Hpal].
  assert (Hsame : forall L' k' pt', D L' k' = Some pt' -> ~ (L' = L /\ k' = k * 512 + i)).
  { intros L' k' pt' H [-> ->]. congruence. }
  split_and!.
  - constructor.
    + unfold shape_set. rewrite decide_False; [apply (pt_root _ _ _ P)|].
      apply (Hsame _ _ root), (pt_root _ _ _ P).
    + intros L' k' pt' j HD' Hj. unfold shape_set in HD'.
      case_decide as Hd.
      * destruct Hd as [? ->]. subst L. injection HD' as <-. rewrite Hzero by done. simpl.
        unfold shape_set. rewrite decide_False by lia.
        apply (pt_none _ _ _ P); [lia|done|done].
      * unfold shape_set. destruct (decide (L' = L /\ k' * 512 + j = k * 512 + i)) as [[-> Hk]|Hne].
        -- assert (k' = k /\ j = i) as [-> ->] by lia. rewrite HD in HD'. injection HD' as <-.
           rewrite Hnew, has_V_lor. f_equal. symmetry. apply PTE2PA_PA2PTE; [done|lia|].
           unfold PTE_V. lia.
        -- rewrite Hold; [by apply (pt_child _ _ _ P)|by exists (S L'), k'|done|].
           destruct (decide (pt' = pt)) as [->|]; [|by left]. right. intros ->.
           destruct (pt_inj _ _ _ P _ _ _ _ _ HD HD') as [? ?]. apply Hne. split; [lia|]. lia.
    + intros L' k' j HL' HD' Hj. unfold shape_set in *. case_decide; [done|].
      rewrite decide_False; [by apply (pt_none _ _ _ P)|].
      intros [-> Hk]. assert (k' = k) by lia. subst. congruence.
    + intros L1 k1 L2 k2 q H1 H2. unfold shape_set in *.
      repeat case_decide; simplify_eq; [naive_solver| | |by eapply (pt_inj _ _ _ P)];
        exfalso; apply Hfresh; by eexists _, _.
    + intros L' k' q H. unfold shape_set in H. case_decide as Hd; simplify_eq.
      * destruct Hd as [-> _]. split; [lia|done].
      * by apply (pt_valid _ _ _ P) in H.
    + intros L' k' pt' j HD' Hj. unfold shape_set in HD'. case_decide as Hd; [simplify_eq; by rewrite Hzero|].
      destruct (decide (pt' = pt /\ j = i)) as [[-> ->]|Hne]; [by rewrite Hnew, has_RWX_dir|].
      rewrite Hold; [by apply (pt_dir _ _ _ P L' k')|by exists (S L'), k'|done|]. destruct (decide (pt' = pt)); [right|by left]. by intros ->; apply Hne.
    + intros k' pt' HD'. unfold shape_set in HD'. case_decide as Hd; [destruct Hd; lia|by apply (pt_top _ _ _ P) in HD'].
  - intros L' k' pt' H. unfold shape_set. rewrite decide_False; [done|]. by eapply Hsame.
  - intros va. unfold leaf, shape_set. pose proof (PX_range 0 va ltac:(lia)) as Hx.
    case_decide as Hd.
    + destruct Hd as [<- Hk]. rewrite Hk, Hnone. by apply Hzero.
    + destruct (D O (key 0 va)) as [q|] eqn:Eq; [|done].
      apply Hold; [by exists O, (key 0 va)|done|]. left. intros ->.
      destruct (pt_inj _ _ _ P _ _ _ _ _ HD Eq) as [? _]. lia.
Qed.

(** ** walk with allocation *)

Record vm_inv (s : kstate) (root : Z) (D : shape) (free : list Z) : Prop := {
  vi_k : kinv kend s free;
  vi_pt : ptable (phys s) root D;
  vi_sep : forall pt, in_shape D pt -> pt ∉ free
}.

(** What a routine that may allocate table pages has done to the table: it
    used the first free pages [new] as table pages, changed no translation,
    and wrote only to table pages. *)
Record grown (s : kstate) (D : shape) (free : list Z) (s' : kstate) (D' : shape) (new : list Z) : Prop := {
  gr_le : shape_le D D';
  gr_new : forall p, in_shape D' p <-> in_shape D p \/ p ∈ new;
  gr_leaf : forall va, leaf (phys s') D' va = leaf (phys s) D va;
  gr_mem : forall x, (forall p, in_shape D' p -> ~ in_page p x) -> phys s' x = phys s x;
  gr_held : held s' = held s
}.

Lemma grown_refl s D free : grown s D free s D [].
Proof. constructor; [by intros ? | intros p; rewrite elem_of_nil; tauto | done..]. Qed.

Lemma grown_trans s1 D1 f1 n1 s2 D2 f2 n2 s3 D3 :
  grown s1 D1 f1 s2 D2 n1 -> grown s2 D2 f2 s3 D3 n2 -> grown s1 D1 f1 s3 D3 (n1 ++ n2).
Proof.
  intros [A1 A2 A3 A4 A5] [B1 B2 B3 B4 B5]. constructor.
  - intros L k pt H. by apply B1, A1.
  - intros p. rewrite elem_of_app, B2, A2. tauto.
  - intros va. by rewrite B3.
  - intros x Hx. rewrite B4 by done. apply A4. intros p (L & k & Hp). apply Hx.
    exists L, k. by apply B1.
  - by rewrite B5.
Qed.

(** One missing table page is allocated, zeroed and linked. *)
Lemma alloc_level s root D free L k pt i :
  vm_inv s root D free -> D (S L) k = Some pt -> 0 <= i < 512 ->
  has (load64 (phys s) (pte_at pt i)) PTE_V = false ->
  match free with
  | [] => kalloc s = Ret 0 s
  | p :: rest =>
      exists s1, kalloc s = Ret p s1 /\ p <> 0 /\
        let s2 := set_phys (fun m => store64 m (pte_at pt i) (Z.lor (PA2PTE p) PTE_V))
                    (set_phys (fun m => memset m p 0 PGSIZE) s1) in
        let D' := shape_set D L (k * 512 + i) p in
        vm_inv s2 root D' rest /\ grown s D free s2 D' [p]
  end.
Proof.
  assert (Hk : 0 < kend) by (unfold KERNBASE in *; lia).
  intros [I P Hsep] HD Hi Hinv. pose proof (kalloc_spec kend Hk _ _ I) as Hka.
  destruct free as [|p rest]; [done|].
  destruct Hka as (s1 & Ha & I1 & Hh & Hm1). exists s1.
  assert (Hv : valid_page kend p) by (eapply (chain_valid kend); [apply I|left]).
  pose proof (valid_page_range p Hv) as [Hpr Hpal]. pose proof PHYSTOP_small.
  split_and!; [done|lia|]. cbv zeta.
  assert (Hpt : in_shape D pt) by (by exists (S L), k).
  assert (Hfresh : ~ in_shape D p) by (intros Hp; apply (Hsep p Hp); left).
  assert (Hptv : valid_page kend pt) by (by destruct (pt_valid _ _ _ P _ _ _ HD)).
  assert (Hmem : forall x, ~ in_page pt x -> ~ in_page p x ->
     store64 (memset (phys s1) p 0 PGSIZE) (pte_at pt i) (Z.lor (PA2PTE p) PTE_V) x = phys s x).
  { intros x Hx Hxp. rewrite store64_other by (intros Hy; by apply Hx, (pte_at_in_page pt i)).
    rewrite memset_at, decide_False by done. rewrite Hm1. by rewrite decide_False. }
  destruct (ptable_extend (phys s)
     (store64 (memset (phys s1) p 0 PGSIZE) (pte_at pt i) (Z.lor (PA2PTE p) PTE_V))
     root D L k pt i p) as (P' & Hle & Hleaf); auto.
  { rewrite load64_store64_same. apply u64_small.
    pose proof (PA2PTE_range p ltac:(lia)).
    pose proof (lor_range (PA2PTE p) PTE_V 54). unfold PTE_V in *. lia. }
  { intros j Hj. rewrite load64_store64_other by
      (apply pte_at_disjoint; auto; left; congruence).
    apply memset_zero_load64. unfold PGSIZE. lia. }
  { intros pt' j Hpt' Hj Hne. rewrite load64_store64_other.
    - apply load64_page_frame; [done|]. intros x Hx.
      assert (~ in_page p x).
      { intros Hxp. assert (p = pt') as ->; [|done]. apply (pages_disjoint p pt' x); auto.
        destruct Hpt' as (L' & k' & Hp'). by destruct (pt_valid _ _ _ P _ _ _ Hp') as [_ []]. }
      rewrite memset_at, decide_False by done. rewrite Hm1. by rewrite decide_False.
    - destruct Hpt' as (L' & k' & Hp'). destruct (pt_valid _ _ _ P _ _ _ Hp') as [_ ?].
      apply pte_at_disjoint; naive_solver. }
  split.
  - constructor.
    + apply (kinv_frame kend s1); [done| |done|done|].
      * simpl. apply store64_bytes, memset_bytes, I1.
      * intros x y Hx Hy. simpl.
        assert (Hxv : valid_page kend x) by (eapply (chain_valid kend); [apply I1|done]).
        assert (x <> p).
        { intros ->. pose proof (kinv_nodup _ _ _ I) as Hnd. inversion_clear Hnd. done. }
        assert (x <> pt) by (intros ->; apply (Hsep pt Hpt); by right).
        assert (~ in_page p y) by (intros Hp; apply H0; symmetry; apply (pages_disjoint p x y); auto; apply Hxv).
        assert (~ in_page pt y) by (intros Hp; apply H1; symmetry; apply (pages_disjoint pt x y); auto; [apply Hptv|apply Hxv]).
        rewrite Hmem by done. rewrite Hm1. by rewrite decide_False.
    + done.
    + intros q (L' & k' & Hq). unfold shape_set in Hq. case_decide; simplify_eq.
      * pose proof (kinv_nodup _ _ _ I) as Hnd. by inversion_clear Hnd.
      * intros Hin. apply (Hsep q); [by exists L', k'|by right].
  - constructor; [done| |done| |exact Hh].
    + intros q. rewrite list_elem_of_singleton. split.
      * intros (L' & k' & Hq). unfold shape_set in Hq. case_decide; simplify_eq; [by right|]. left. by exists L', k'.
      * intros [(L' & k' & Hq)| ->]; [exists L', k'; by apply Hle|]. exists L, (k * 512 + i). unfold shape_set. by rewrite decide_True.
    + intros x Hx. simpl. apply Hmem; apply Hx; [|exists L, (k * 512 + i); unfold shape_set; by rewrite decide_True].
      exists (S L), k. by apply Hle.
Qed.

Lemma walk_levels_alloc L s root D free pt va :
  vm_inv s root D free -> (L <= 2)%nat -> D L (key (Z.of_nat L) va) = Some pt ->
  exists a s' D' new free', walk_levels L pt va true s = Ret a s' /\ free = new ++ free' /\
    vm_inv s' root D' free' /\ grown s D free s' D' new /\
    (a = 0 /\ free' = [] /\ (length new < L)%nat \/ a = leaf_addr D' va /\ a <> 0 /\ (length new <= L)%nat).
Proof.
  revert s D free pt. induction L as [|L IH]; intros s D free pt V HL HD.
  - exists (pte_at pt (PX 0 va)), s, D, [], free. split_and!; auto using grown_refl.
    right. unfold leaf_addr. change (Z.of_nat 0) with 0 in HD. rewrite HD. split; [done|].
    destruct (pt_valid _ _ _ (vi_pt _ _ _ _ V) _ _ _ HD) as [_ Hv%valid_page_range].
    pose proof (PX_range 0 va). unfold pte_at. split; [lia|done].
  - pose proof (child_of_path _ _ _ va _ _ (vi_pt _ _ _ _ V) HD) as Hc. cbv zeta in Hc.
    pose proof (PX_range (Z.of_nat (S L)) va ltac:(lia)) as Hi.
    pose proof (alloc_level s root D free L _ pt _ V HD Hi) as Hal.
    cbn [walk_levels]. unfold load_pte. unfold bind at 1, get at 1. cbv beta iota.
    case_test.
    { destruct (IH s D free _ V ltac:(lia) Hc) as (a & s' & D' & new & free' & Hw & Hf & V' & G & Ho). exists a, s', D', new, free'. split_and!; [done..|].
      destruct Ho as [(? & ? & ?)|(? & ? & ?)]; [left|right]; split_and!; (done || lia). }
    specialize (Hal eq_refl). change (negb true) with false. cbv iota.
    destruct free as [|p rest].
    + unfold bind. rewrite Hal. simpl. exists 0, s, D, [], []. split_and!; auto using grown_refl.
      left. split_and!; [done|done|simpl; lia].
    + destruct Hal as (s1 & Ha & Hp0 & V' & G).
      rewrite (bind_ret_intro _ _ _ _ _ Ha), (proj2 (Z.eqb_neq _ _) Hp0).
      unfold store_pte, modify. unfold bind at 1 2. rewrite <- key_step_nat in V', G.
      destruct (IH _ _ _ p V') as (a & s' & D' & new & free' & Hw & Hf & V'' & G' & Ho);
        [lia|unfold shape_set; by rewrite decide_True|].
      exists a, s', D', (p :: new), free'. split_and!; auto; [by rewrite Hf|by eapply (grown_trans _ _ _ [p])|].
      destruct Ho as [(? & ? & ?)|(? & ? & ?)]; [left|right]; (split_and!; [done|done|simpl; lia]).
Qed.

Lemma walk_alloc s root D free va :
  vm_inv s root D free -> 0 <= va < MAXVA ->
  exists a s' D' new free', walk root va true s = Ret a s' /\ free = new ++ free' /\
    vm_inv s' root D' free' /\ grown s D free s' D' new /\
    (a = 0 /\ free' = [] /\ (length new < 2)%nat \/ a = leaf_addr D' va /\ a <> 0 /\ (length new <= 2)%nat).
Proof.
  intros V Hva. unfold walk. rewrite (proj2 (Z.leb_gt _ _)) by lia.
  apply walk_levels_alloc; [done|lia|]. change (Z.of_nat 2) with 2. rewrite key_top by done.
  apply (pt_root _ _ _ (vi_pt _ _ _ _ V)).
Qed.

(** ** Writing a PTE *)

(** The virtual page of an address. *)
Definition vpn (va : Z) : Z := va / PGSIZE.

Lemma vpn_key va : vpn va = key 0 va * 512 + PX 0 va.
Proof.
  rewrite PX_eq by lia. unfold vpn, key, PGSIZE. change (2 ^ (21 + 9 * 0)) with (4096 * 512).
  change (2 ^ (12 + 9 * 0)) with 4096. rewrite <- Z.div_div by lia.
  pose proof (Z.div_mod (va / 4096) 512). lia.
Qed.

Lemma vpn_eq va va' : vpn va = vpn va' <-> key 0 va = key 0 va' /\ PX 0 va = PX 0 va'.
Proof.
  rewrite !vpn_key. pose proof (PX_range 0 va ltac:(lia)). pose proof (PX_range 0 va' ltac:(lia)).
  split; [lia | intros [-> ->]; done].
Qed.

Lemma leaf_vpn m D va va' : vpn va = vpn va' -> leaf m D va = leaf m D va'.
Proof. intros [H1 H2]%vpn_eq. unfold leaf. by rewrite H1, H2. Qed.

Lemma leaf_load m D va pt :
  D O (key 0 va) = Some pt -> leaf m D va = load64 m (leaf_addr D va).
Proof. unfold leaf, leaf_addr. by intros ->. Qed.

Lemma set_leaf s root D free va pt v :
  vm_inv s root D free -> D O (key 0 va) = Some pt -> 0 <= v < 2 ^ 64 ->
  let s' := set_phys (fun m => store64 m (leaf_addr D va) v) s in
  vm_inv s' root D free /\
  (forall va', leaf (phys s') D va' = if decide (vpn va' = vpn va) then v else leaf (phys s) D va') /\
  (forall x, (forall p, in_shape D p -> ~ in_page p x) -> phys s' x = phys s x).
Proof.
  intros [I P Hsep] HD Hv. cbv zeta. pose proof (PX_range 0 va ltac:(lia)) as Hi.
  assert (Haddr : leaf_addr D va = pte_at pt (PX 0 va)) by (unfold leaf_addr; by rewrite HD).
  destruct (pt_valid _ _ _ P _ _ _ HD) as [_ Hptv].
  assert (Hmem : forall x, ~ in_page pt x -> store64 (phys s) (leaf_addr D va) v x = phys s x).
  { intros x Hx. rewrite Haddr. apply store64_other. intros Hy. by apply Hx, (pte_at_in_page pt (PX 0 va)). }
  assert (Hother : forall L k pt' i, D L k = Some pt' -> 0 <= i < 512 -> pt' <> pt \/ i <> PX 0 va ->
            load64 (store64 (phys s) (leaf_addr D va) v) (pte_at pt' i) = load64 (phys s) (pte_at pt' i)).
  { intros L k pt' i HD' Hi' Hne. rewrite Haddr. apply load64_store64_other.
    destruct (pt_valid _ _ _ P _ _ _ HD') as [_ Hv']. apply pte_at_disjoint; naive_solver. }
  split_and!.
  - constructor; [| |done].
    + apply (kinv_frame kend s); try done; [apply store64_bytes, I|].
      intros x y Hx Hy. apply Hmem. intros Hy'. assert (pt = x) as ->.
      { apply (pages_disjoint pt x y); auto; [apply Hptv|].
        eapply (chain_valid kend); [apply I|done]. }
      apply (Hsep x); [by exists O, (key 0 va)|done].
    + destruct P as [P1 P2 P3 P4 P5 P6 P7]. constructor; auto; intros L k pt' i HD' Hi'; (rewrite (Hother (S L) k); [|done..|];
        [first [by apply P2|by apply (P6 L k)]|left; intros ->; by destruct (P4 _ _ _ _ _ HD HD')]).
  - intros va'. case_decide as Hd.
    + rewrite (leaf_vpn _ _ va' va) by done. rewrite (leaf_load _ _ _ pt) by done.
      simpl. rewrite load64_store64_same. by apply u64_small.
    + unfold leaf. destruct (D O (key 0 va')) as [pt'|] eqn:E'; [|done].
      apply (Hother O (key 0 va')); [done|apply PX_range; lia|].
      destruct (decide (pt' = pt)) as [->|]; [|by left]. right. intros Hpx.
      destruct (pt_inj _ _ _ P _ _ _ _ _ HD E') as [_ Hk]. apply Hd. by apply vpn_eq.
  - intros x Hx. apply Hmem, Hx. by exists O, (key 0 va).
Qed.

(** ** mappages *)

(** The PTE mappages writes. *)
Definition mk_pte (pa perm : Z) : Z := Z.lor (Z.lor (PA2PTE pa) perm) PTE_V.

Lemma mk_pte_range pa perm : 0 <= pa < 2 ^ 56 -> 0 <= perm < 1024 -> 0 <= mk_pte pa perm < 2 ^ 64.
Proof.
  intros Hp Hf. pose proof (PA2PTE_range pa Hp).
  assert (0 <= Z.lor (PA2PTE pa) perm < 2 ^ 54) by (apply lor_range; lia).
  pose proof (lor_range (Z.lor (PA2PTE pa) perm) PTE_V 54). unfold mk_pte, PTE_V in *. lia.
Qed.

Lemma mk_pte_pa pa perm :
  pa mod PGSIZE = 0 -> 0 <= pa < 2 ^ 56 -> 0 <= perm < 1024 -> PTE2PA (mk_pte pa perm) = pa.
Proof.
  intros. unfold mk_pte. rewrite <- Z.lor_assoc. apply PTE2PA_PA2PTE; auto.
  pose proof (lor_range perm PTE_V 10). unfold PTE_V in *. lia.
Qed.

(** The address space after the first [cnt] pages from [a] are mapped to
    consecutive physical pages from [pa]. *)
Definition map_range (as0 : Z -> Z) (a pa perm cnt : Z) : Z -> Z :=
  fun va => if decide (vpn a <= vpn va < vpn a + cnt)
            then mk_pte (pa + (vpn va - vpn a) * PGSIZE) perm else as0 va.

Lemma vpn_add a k : vpn (a + k * PGSIZE) = vpn a + k.
Proof. unfold vpn. apply Z.div_add. unfold PGSIZE. lia. Qed.

Lemma vpn_next a : vpn (a + PGSIZE) = vpn a + 1.
Proof. rewrite <- (vpn_add a 1). f_equal. Qed.

Lemma map_range_cons as0 a pa perm cnt va :
  0 <= cnt ->
  map_range (fun va' => if decide (vpn va' = vpn a) then mk_pte pa perm else as0 va')
    (a + PGSIZE) (pa + PGSIZE) perm cnt va = map_range as0 a pa perm (cnt + 1) va.
Proof.
  intros. unfold map_range. rewrite vpn_next. range_cases.
Qed.

(** One turn of the loop: the PTE is found, or the free list is exhausted. *)
Lemma map_one s root D free a pa perm :
  vm_inv s root D free -> 0 <= a < MAXVA -> 0 <= pa < 2 ^ 56 -> 0 <= perm < 1024 ->
  exists ad s1 D1 new free1, walk root a true s = Ret ad s1 /\ free = new ++ free1 /\
    vm_inv s1 root D1 free1 /\ grown s D free s1 D1 new /\
    (ad = 0 /\ free1 = [] /\ (length new < 2)%nat \/
     ad <> 0 /\ (length new <= 2)%nat /\ load64 (phys s1) ad = leaf (phys s) D a /\
     let s2 := set_phys (fun m => store64 m ad (mk_pte pa perm)) s1 in
     vm_inv s2 root D1 free1 /\
     (forall va, leaf (phys s2) D1 va = map_range (leaf (phys s) D) a pa perm 1 va) /\
     (forall x, (forall p, in_shape D1 p -> ~ in_page p x) -> phys s2 x = phys s x)).
Proof.
  intros V Ha Hpa Hperm.
  destruct (walk_alloc s root D free a V Ha) as (ad & s1 & D1 & new & free1 & Hw & Hf & V1 & G & Ho).
  exists ad, s1, D1, new, free1. split_and!; [done..|].
  destruct Ho as [?|(-> & Hz & Hlen)]; [by left|]. right.
  assert (exists pt, D1 O (key 0 a) = Some pt) as [pt Hpt].
  { rewrite (leaf_addr_zero _ _ _ _ (vi_pt _ _ _ _ V1)) in Hz. by destruct (D1 O (key 0 a)); eauto. }
  destruct (set_leaf s1 root D1 free1 a pt (mk_pte pa perm) V1 Hpt) as (V2 & Hl & Hm).
  { by apply mk_pte_range. }
  split_and!; [done|done| |]; [|cbv zeta; split_and!; [done| |]].
  - by rewrite <- (leaf_load _ _ _ pt), (gr_leaf _ _ _ _ _ _ G).
  - intros va. rewrite Hl. unfold map_range. rewrite (gr_leaf _ _ _ _ _ _ G). range_cases.
  - intros x Hx. rewrite Hm by done. by apply (gr_mem _ _ _ _ _ _ G).
Qed.

Lemma map_range_0 as0 a pa perm va : map_range as0 a pa perm 0 va = as0 va.
Proof. unfold map_range. by rewrite decide_False by lia. Qed.

Lemma map_range_ext as0 as1 a pa perm cnt va :
  (forall va, as0 va = as1 va) -> map_range as0 a pa perm cnt va = map_range as1 a pa perm cnt va.
Proof. intros H. unfold map_range. by rewrite H. Qed.

(** What mappages has done to the table when it returns: it mapped a prefix of
    the range, all of it unless memory ran out. *)
Record mapped (s : kstate) (D : shape) (free : list Z) (root a pa perm n r : Z)
              (s' : kstate) (D' : shape) (new free' : list Z) (cnt : Z) : Prop := {
  mp_free : free = new ++ free';
  mp_inv : vm_inv s' root D' free';
  mp_le : shape_le D D';
  mp_new : forall p, in_shape D' p <-> in_shape D p \/ p ∈ new;
  mp_leaf : forall va, leaf (phys s') D' va = map_range (leaf (phys s) D) a pa perm cnt va;
  mp_mem : forall x, (forall p, in_shape D' p -> ~ in_page p x) -> phys s' x = phys s x;
  mp_held : held s' = held s;
  mp_cnt : 0 <= cnt <= n;
  mp_len : Z.of_nat (length new) <= 2 * cnt - r;
  mp_res : r = 0 /\ cnt = n \/ r = -1 /\ free' = [] /\ cnt < n
}.

Lemma mappages_loop_spec n s root D free a pa perm :
  vm_inv s root D free ->
  0 <= a -> a + Z.of_nat n * PGSIZE < MAXVA ->
  0 <= pa -> pa + Z.of_nat n * PGSIZE < 2 ^ 56 -> 0 <= perm < 1024 ->
  (forall va, vpn a <= vpn va <= vpn a + Z.of_nat n -> has (leaf (phys s) D va) PTE_V = false) ->
  exists r s' D' new free' cnt,
    mappages_loop n root a (a + Z.of_nat n * PGSIZE) pa perm s = Ret r s' /\
    mapped s D free root a pa perm (Z.of_nat n + 1) r s' D' new free' cnt.
Proof.
  revert s D free a pa. induction n as [|n IH]; intros s D free a pa V Ha Hmax Hpa Hpm Hperm Hinv;
  destruct (map_one s root D free a pa perm V) as (ad & s1 & D1 & new & free1 & Hw & Hf & V1 & G & Ho);
    try (unfold PGSIZE in *; lia);
  (destruct Ho as [(-> & -> & Hlen)|(Hz & Hlen & Hv & V2 & Hl & Hm)];
   [exists (-1), s1, D1, new, [], 0; split;
    [cbn [mappages_loop]; by rewrite (bind_ret_intro _ _ _ _ _ Hw) |
     destruct G as [G1 G2 G3 G4 G5]; constructor; auto; [|lia|lia|right; split_and!; [done|done|lia]];
     intros va; by rewrite map_range_0] |]);
  cbn [mappages_loop]; rewrite (bind_ret_intro _ _ _ _ _ Hw), (proj2 (Z.eqb_neq _ _) Hz);
  unfold load_pte, store_pte; unfold bind at 1, get at 1; rewrite Hv, Hinv by lia;
  unfold bind at 1, modify at 1.
  - rewrite (proj2 (Z.eqb_eq _ _)) by lia. eexists 0, _, D1, new, free1, 1.
    split; [done|]. destruct G as [G1 G2 G3 G4 G5]. constructor; auto; lia.
  - rewrite (proj2 (Z.eqb_neq _ _)) by (unfold PGSIZE; lia).
    rewrite !u64_small by (unfold MAXVA, PGSIZE in *; lia).
    set (s2 := set_phys _ s1) in *.
    destruct (IH s2 D1 free1 (a + PGSIZE) (pa + PGSIZE) V2)
      as (r & s' & D' & new' & free' & cnt & Hloop & Mp); try (unfold PGSIZE in *; lia).
    { intros va Hva. rewrite Hl. rewrite vpn_next in Hva. unfold map_range.
      rewrite decide_False by lia. apply Hinv. lia. }
    replace (a + PGSIZE + Z.of_nat n * PGSIZE) with (a + Z.of_nat (S n) * PGSIZE) in Hloop by lia.
    exists r, s', D', (new ++ new'), free', (cnt + 1). split; [exact Hloop|].
    destruct G as [G1 G2 G3 G4 G5]. destruct Mp as [M1 M2 M3 M4 M5 M6 M7 M8 M10 M9].
    constructor; auto.
    + by rewrite Hf, M1, app_assoc.
    + intros L k pt HD. by apply M3, G1.
    + intros p. rewrite elem_of_app, M4, G2. tauto.
    + intros va. rewrite M5, (map_range_ext _ _ _ _ _ _ _ Hl).
      rewrite <- map_range_cons by lia. apply map_range_ext. intros va'.
      unfold map_range. range_cases.
    + intros x Hx. rewrite M6 by done. apply Hm. intros p (L & k & Hp). apply Hx.
      exists L, k. by apply M3.
    + by rewrite M7.
    + lia.
    + rewrite length_app. lia.
    + destruct M9 as [[-> ->]|(? & ? & ?)]; [left; lia|right; split_and!; [done|done|lia]].
Qed.

Lemma PGROUNDDOWN_div a : PGROUNDDOWN a = vpn a * PGSIZE.
Proof. rewrite PGROUNDDOWN_eq. unfold vpn, PGSIZE. pose proof (Z.div_mod a 4096). lia. Qed.

Lemma vpn_mul k : vpn (k * PGSIZE) = k.
Proof. unfold vpn. apply Z.div_mul. unfold PGSIZE. lia. Qed.

Lemma vpn_mono a b : a <= b -> vpn a <= vpn b.
Proof. intros. apply Z.div_le_mono; unfold PGSIZE; lia. Qed.

Lemma vpn_bounds va : vpn va * PGSIZE <= va < vpn va * PGSIZE + PGSIZE.
Proof.
  unfold vpn, PGSIZE. pose proof (Z.div_mod va 4096). pose proof (Z.mod_pos_bound va 4096). lia.
Qed.

Lemma vpn_nonneg va : 0 <= va -> 0 <= vpn va.
Proof. intros. apply Z.div_pos; unfold PGSIZE; lia. Qed.

(** The pages a byte range touches. *)
Definition range_pages (va size : Z) : Z := vpn (va + size - 1) - vpn va + 1.

Lemma mappages_spec s root D free va size pa perm :
  vm_inv s root D free ->
  0 <= va -> 0 < size -> va + size <= MAXVA ->
  0 <= pa -> pa + range_pages va size * PGSIZE <= 2 ^ 56 -> 0 <= perm < 1024 ->
  (forall x, va <= x < va + size -> has (leaf (phys s) D x) PTE_V = false) ->
  exists r s' D' new free' cnt,
    mappages root va size pa perm s = Ret r s' /\
    mapped s D free root va pa perm (range_pages va size) r s' D' new free' cnt.
Proof.
  intros V Hva Hsz Hmax Hpa Hpm Hperm Hinv. unfold mappages.
  rewrite (proj2 (Z.eqb_neq size 0)) by lia.
  rewrite (u64_small (va + size - 1)) by (unfold MAXVA in *; lia). rewrite !PGROUNDDOWN_div.
  pose proof (vpn_mono va (va + size - 1) ltac:(lia)) as Hmono.
  pose proof (vpn_nonneg va Hva). pose proof (vpn_bounds (va + size - 1)) as Hb.
  rewrite u64_small by (unfold MAXVA, PGSIZE in *; lia).
  replace (vpn (va + size - 1) * PGSIZE - vpn va * PGSIZE)
    with ((vpn (va + size - 1) - vpn va) * PGSIZE) by lia.
  rewrite Z.div_mul by (unfold PGSIZE; lia).
  set (n := Z.to_nat (vpn (va + size - 1) - vpn va)).
  assert (Hn : vpn (va + size - 1) = vpn va + Z.of_nat n) by lia.
  assert (Hpages : range_pages va size = Z.of_nat n + 1) by (unfold range_pages; lia).
  destruct (mappages_loop_spec n s root D free (vpn va * PGSIZE) pa perm V)
    as (r & s' & D' & new & free' & cnt & Hl & Mp).
  - unfold PGSIZE. lia.
  - unfold PGSIZE in *. lia.
  - done.
  - rewrite Hpages in Hpm. unfold PGSIZE in *. lia.
  - done.
  - intros x Hx. rewrite vpn_mul in Hx. pose proof (vpn_bounds x).
    rewrite (leaf_vpn _ _ x (Z.max va (Z.min x (va + size - 1)))).
    + apply Hinv. lia.
    + pose proof (vpn_bounds va).
      destruct (Z.le_gt_cases x va); [replace (Z.max _ _) with va by lia;
        pose proof (vpn_mono x va ltac:(lia)); lia|].
      destruct (Z.le_gt_cases x (va + size - 1)); [by replace (Z.max _ _) with x by lia|].
      replace (Z.max _ _) with (va + size - 1) by lia.
      pose proof (vpn_mono (va + size - 1) x ltac:(lia)). lia.
  - replace (vpn va * PGSIZE + Z.of_nat n * PGSIZE) with (vpn (va + size - 1) * PGSIZE) in Hl by lia.
    rewrite Hpages. exists r, s', D', new, free', cnt. split; [exact Hl|].
    destruct Mp as [M1 M2 M3 M4 M5 M6 M7 M8 M9]. constructor; auto.
    intros x. rewrite M5. unfold map_range. by rewrite vpn_mul.
Qed.

(** ** uvmunmap *)

Definition unmap_range (as0 : Z -> Z) (a cnt : Z) : Z -> Z :=
  fun va => if decide (vpn a <= vpn va < vpn a + cnt) then 0 else as0 va.

(** The physical pages the [n] pages from [a] translate to. *)
Definition range_pas (as0 : Z -> Z) (a : Z) (n : nat) : list Z :=
  (fun i : nat => PTE2PA (as0 (a + Z.of_nat i * PGSIZE))) <$> seq 0 n.

Lemma range_pas_cons as0 a n :
  range_pas as0 a (S n) = PTE2PA (as0 a) :: range_pas as0 (a + PGSIZE) n.
Proof.
  unfold range_pas. rewrite <- cons_seq, fmap_cons, <- fmap_S_seq, <- list_fmap_compose.
  f_equal; [f_equal; f_equal; unfold PGSIZE; lia|].
  apply list_fmap_ext. intros i j _. simpl. f_equal. f_equal. unfold PGSIZE. lia.
Qed.

(** The leaves uvmunmap accepts. *)
Definition unmappable (v : Z) : Prop := has v PTE_V = true /\ PTE_FLAGS v <> PTE_V.

Lemma kfree_vm_inv s root D free pa :
  vm_inv s root D free -> valid_page kend pa -> pa ∉ free -> ~ in_shape D pa ->
  exists s', kfree kend pa s = Ret tt s' /\ vm_inv s' root D (pa :: free) /\ held s' = held s /\
    (forall va, leaf (phys s') D va = leaf (phys s) D va) /\
    (forall x, ~ in_page pa x -> phys s' x = phys s x).
Proof.
  assert (Hk : 0 < kend) by (unfold KERNBASE in *; lia).
  intros [I P Hsep] Hv Hf Hs. destruct (kfree_spec kend Hk s free pa I Hv Hf) as (s' & Hr & I' & Hh & Hm).
  exists s'. assert (Hfr : forall pt x, in_shape D pt -> in_page pt x -> phys s' x = phys s x).
  { intros pt x Hpt Hx. apply Hm. intros Hx'. assert (pa = pt) as ->; [|done].
    apply (pages_disjoint pa pt x); auto; [apply Hv|].
    destruct Hpt as (L & k & Hp). by destruct (pt_valid _ _ _ P _ _ _ Hp) as [_ []]. }
  split_and!; auto.
  - constructor; [done|by apply (ptable_frame (phys s))|].
    intros pt Hpt. rewrite not_elem_of_cons. split; [by intros ->|by apply Hsep].
  - intros va. by apply (leaf_frame _ _ root).
Qed.

Lemma uvmunmap_loop_spec (do_free : bool) n s root D free a :
  vm_inv s root D free -> 0 <= a -> a + Z.of_nat n * PGSIZE <= MAXVA -> a mod PGSIZE = 0 ->
  (forall i : nat, (i < n)%nat -> unmappable (leaf (phys s) D (a + Z.of_nat i * PGSIZE))) ->
  (do_free = true -> NoDup (range_pas (leaf (phys s) D) a n) /\
     forall p, p ∈ range_pas (leaf (phys s) D) a n -> valid_page kend p /\ p ∉ free /\ ~ in_shape D p) ->
  exists s', uvmunmap_loop kend n root a (a + Z.of_nat n * PGSIZE) do_free s = Ret tt s' /\
    vm_inv s' root D ((if do_free then reverse (range_pas (leaf (phys s) D) a n) else []) ++ free) /\
    (forall va, leaf (phys s') D va = unmap_range (leaf (phys s) D) a (Z.of_nat n) va) /\
    held s' = held s /\
    (forall x, (forall p, in_shape D p -> ~ in_page p x) ->
       (do_free = true -> forall p, p ∈ range_pas (leaf (phys s) D) a n -> ~ in_page p x) -> phys s' x = phys s x).
Proof.
  revert s free a. induction n as [|n IH]; intros s free a V Ha Hmax Hal Hun Hfree.
  - exists s. cbn [uvmunmap_loop]. rewrite (proj2 (Z.ltb_ge _ _)) by lia. split_and!; auto.
    + by destruct do_free.
    + intros va. unfold unmap_range. by rewrite decide_False by lia.
  - cbn [uvmunmap_loop]. rewrite (proj2 (Z.ltb_lt _ _)) by (unfold PGSIZE; lia).
    rewrite (bind_ret_intro _ _ _ _ _ (walk_lookup s root D a (vi_pt _ _ _ _ V) ltac:(unfold PGSIZE in *; lia))).
    destruct (Hun O ltac:(lia)) as [Hv Hfl]. rewrite Z.add_0_r in Hv, Hfl.
    assert (exists pt, D O (key 0 a) = Some pt) as [pt Hpt].
    { unfold leaf in Hv. by destruct (D O (key 0 a)); eauto. }
    assert (Hz : leaf_addr D a <> 0).
    { rewrite (leaf_addr_zero _ _ _ _ (vi_pt _ _ _ _ V)). congruence. }
    rewrite (proj2 (Z.eqb_neq _ _) Hz). unfold load_pte. unfold bind at 1, get at 1.
    rewrite <- (leaf_load _ _ _ _ Hpt), Hv, (proj2 (Z.eqb_neq _ _) Hfl).
    change (negb true) with false. cbv iota.
    rewrite range_pas_cons in *.
    (* the optional kfree *)
    assert (exists s1, (if do_free then kfree kend (PTE2PA (leaf (phys s) D a)) else ret tt) s = Ret tt s1 /\
              vm_inv s1 root D ((if do_free then [PTE2PA (leaf (phys s) D a)] else []) ++ free) /\
              held s1 = held s /\ (forall va, leaf (phys s1) D va = leaf (phys s) D va) /\
              (forall x, (do_free = true -> ~ in_page (PTE2PA (leaf (phys s) D a)) x) -> phys s1 x = phys s x))
      as (s1 & Hk & V1 & Hh1 & Hl1 & Hm1).
    { destruct do_free; [|by exists s]. destruct (Hfree eq_refl) as [_ Hp].
      destruct (Hp (PTE2PA (leaf (phys s) D a))) as (? & ? & ?); [left|].
      destruct (kfree_vm_inv s root D free (PTE2PA (leaf (phys s) D a)) V) as (s1 & ? & ? & ? & ? & Hm); auto.
      exists s1. split_and!; auto. }
    rewrite (bind_ret_intro _ _ _ _ _ Hk). unfold store_pte. unfold bind at 1, modify at 1.
    destruct (set_leaf s1 root D _ a pt 0 V1 Hpt ltac:(lia)) as (V2 & Hl2 & Hm2). cbv zeta in V2, Hl2, Hm2.
    set (s2 := set_phys _ s1) in *.
    assert (Hl : forall va, leaf (phys s2) D va = if decide (vpn va = vpn a) then 0 else leaf (phys s) D va).
    { intros va. rewrite Hl2, Hl1. done. }
    assert (Hpas : range_pas (leaf (phys s2) D) (a + PGSIZE) n = range_pas (leaf (phys s) D) (a + PGSIZE) n).
    { apply list_fmap_ext. intros i j Hj. apply lookup_seq in Hj as [-> ?]. rewrite Hl, decide_False; [done|].
      rewrite vpn_add, vpn_next. lia. }
    rewrite u64_small by (unfold MAXVA, PGSIZE in *; lia).
    destruct (IH s2 _ (a + PGSIZE) V2) as (s' & Hr & V' & Hl' & Hh' & Hm').
    + unfold PGSIZE. lia.
    + unfold PGSIZE in *. lia.
    + rewrite <- Zplus_mod_idemp_l, Hal. done.
    + intros i Hi. rewrite Hl, decide_False.
      * replace (a + PGSIZE + Z.of_nat i * PGSIZE) with (a + Z.of_nat (S i) * PGSIZE) by lia. apply Hun. lia.
      * rewrite vpn_add, vpn_next. lia.
    + intros Hdf. rewrite Hpas. destruct (Hfree Hdf) as [Hnd Hp]. rewrite Hdf. simpl.
      inversion_clear Hnd as [|? ? Hnin Hnd']. split; [done|]. intros p Hpin.
      destruct (Hp p ltac:(by right)) as (? & ? & ?). rewrite not_elem_of_cons. split_and!; auto.
      by intros ->.
    + replace (a + PGSIZE + Z.of_nat n * PGSIZE) with (a + Z.of_nat (S n) * PGSIZE) in Hr by lia.
      exists s'. split_and!; [exact Hr| | | |].
      * rewrite Hpas in V'. destruct do_free; [|exact V']. by rewrite reverse_cons, <- app_assoc.
      * intros va. rewrite Hl'. unfold unmap_range. rewrite vpn_next, Hl. range_cases.
      * by rewrite Hh'.
      * intros x Hx Hfx. rewrite Hm', Hm2, Hm1; [done| |done|done|].
        -- intros Hdf. apply Hfx; [done|left].
        -- intros Hdf p Hp. rewrite Hpas in Hp. apply Hfx; [done|by right].
Qed.

(** ** walkaddr *)

(** A user address the kernel may touch on behalf of the process. *)
Definition accessible (as0 : Z -> Z) (va : Z) : Prop :=
  va < MAXVA /\ has (as0 va) PTE_V = true /\ has (as0 va) PTE_U = true.

#[global] Instance accessible_dec as0 va : Decision (accessible as0 va).
Proof. unfold accessible. apply _. Defined.

Lemma walkaddr_lookup s root D va :
  ptable (phys s) root D -> 0 <= va ->
  walkaddr root va s =
  Ret (if decide (accessible (leaf (phys s) D) va) then PTE2PA (leaf (phys s) D va) else 0) s.
Proof.
  intros P Hva. unfold walkaddr. case_test; bool_to_prop.
  { rewrite decide_False; [done|]. unfold accessible. lia. }
  rewrite (bind_ret_intro _ _ _ _ _ (walk_lookup s root D va P ltac:(lia))).
  case_test; bool_to_prop.
  - rewrite decide_False; [done|]. intros (_ & Hv & _).
    apply (leaf_addr_zero _ _ _ _ P) in E0. unfold leaf in Hv. by rewrite E0 in Hv.
  - rewrite (leaf_addr_zero _ _ _ _ P) in E0.
    destruct (D O (key 0 va)) as [pt|] eqn:Ept; [|done].
    unfold load_pte, bind, get. rewrite <- (leaf_load _ _ _ _ Ept).
    destruct (has (leaf (phys s) D va) PTE_V) eqn:Hv; simpl;
      [|rewrite decide_False; [done|unfold accessible; rewrite Hv; naive_solver]].
    destruct (has (leaf (phys s) D va) PTE_U) eqn:Hu; simpl;
      [|rewrite decide_False; [done|unfold accessible; rewrite Hu; naive_solver]].
    rewrite decide_True; [done|]. by split_and!.
Qed.

(** ** The empty table, and uvmcreate *)

Definition root_shape (root : Z) : shape :=
  fun L k => if decide (L = 2%nat /\ k = 0) then Some root else None.

Lemma in_root_shape root p : in_shape (root_shape root) p <-> p = root.
Proof.
  unfold in_shape, root_shape. split.
  - intros (L & k & H). case_decide; by simplify_eq.
  - intros ->. exists 2%nat, 0. by rewrite decide_True.
Qed.

Lemma empty_ptable m root :
  valid_page kend root -> (forall j, 0 <= j < 512 -> load64 m (pte_at root j) = 0) ->
  ptable m root (root_shape root).
Proof.
  intros Hv Hz. unfold root_shape. constructor.
  - by rewrite decide_True.
  - intros L k pt i H Hi. case_decide as Hd; simplify_eq. rewrite Hz by done. simpl.
    rewrite decide_False; [done|]. lia.
  - intros L k i HL H Hi. rewrite decide_False; [done|]. lia.
  - intros L k L' k' pt H H'. repeat case_decide; simplify_eq. lia.
  - intros L k pt H. case_decide; simplify_eq. split; [lia|done].
  - intros L k pt i H Hi. case_decide; simplify_eq. by rewrite Hz.
  - intros k pt H. case_decide as Hd; [by destruct Hd|done].
Qed.

Lemma root_shape_leaf m root va : leaf m (root_shape root) va = 0.
Proof. unfold leaf, root_shape. by rewrite decide_False by lia. Qed.

(** uvmcreate returns a table that translates nothing, or 0. *)
Lemma uvmcreate_spec s free :
  kinv kend s free ->
  match free with
  | [] => uvmcreate s = Ret 0 s
  | root :: rest =>
      exists s', uvmcreate s = Ret root s' /\ vm_inv s' root (root_shape root) rest /\
        (forall va, leaf (phys s') (root_shape root) va = 0) /\ held s' = held s /\
        (forall x, ~ in_page root x -> phys s' x = phys s x)
  end.
Proof.
  assert (Hk : 0 < kend) by (unfold KERNBASE in *; lia).
  intros I. pose proof (kalloc_spec kend Hk _ _ I) as Ha. unfold uvmcreate.
  destruct free as [|root rest]; [unfold bind; by rewrite Ha|].
  destruct Ha as (s1 & Ha & I1 & Hh & Hm). rewrite (bind_ret_intro _ _ _ _ _ Ha).
  assert (Hv : valid_page kend root) by (eapply (chain_valid kend); [apply I|left]).
  pose proof (valid_page_range root Hv) as [Hpr Hpal].
  rewrite (proj2 (Z.eqb_neq _ _)) by lia. unfold bind, modify, ret.
  pose proof (kinv_nodup _ _ _ I) as Hnd. inversion_clear Hnd as [|? ? Hnin _].
  eexists. split; [done|]. split_and!; [|intros; apply root_shape_leaf|exact Hh|].
  - constructor.
    + apply (kinv_frame kend s1); [exact I1|apply memset_bytes, I1|exact eq_refl|exact eq_refl|].
      intros x y Hx Hy. simpl. rewrite memset_at, decide_False; [done|]. intros Hy'.
      assert (root = x) as ->; [|done]. apply (pages_disjoint root x y); auto.
      eapply (chain_valid kend); [apply I1|done].
    + apply empty_ptable; [done|]. intros j Hj. apply memset_zero_load64. unfold PGSIZE. lia.
    + intros pt ->%in_root_shape. done.
  - intros x Hx. simpl. rewrite memset_at, decide_False by done. rewrite Hm. by rewrite decide_False.
Qed.

(** ** Properties *)

(** walk and walkaddr read the address space correctly: without
    allocation walk returns the address of the PTE that translates [va], or 0
    when no table page covers it, and walkaddr returns the physical page
    exactly for a mapped user page below MAXVA and 0 for every other address;
    neither changes the machine. *)
Theorem walk_walkaddr_correct s root D va :
  ptable (phys s) root D -> 0 <= va ->
  (va < MAXVA -> walk root va false s = Ret (leaf_addr D va) s) /\
  (MAXVA <= va -> forall alloc, walk root va alloc s = Panic "walk") /\
  (leaf_addr D va <> 0 -> load64 (phys s) (leaf_addr D va) = leaf (phys s) D va) /\
  walkaddr root va s =
    Ret (if decide (accessible (leaf (phys s) D) va) then PTE2PA (leaf (phys s) D va) else 0) s.
Proof.
  intros P Hva. split_and!.
  - intros. by apply walk_lookup.
  - intros Hm alloc. unfold walk. by rewrite (proj2 (Z.leb_le _ _)).
  - rewrite (leaf_addr_zero _ _ _ _ P). intros Hn.
    destruct (D O (key 0 va)) as [pt|] eqn:E; [|done]. by rewrite (leaf_load _ _ _ pt).
  - by apply walkaddr_lookup.
Qed.

(** C12: mappages over an unmapped range adds exactly the translations it was
    asked for: if it returns 0, every page the byte range touches is mapped to
    consecutive physical pages with the given permissions, and every other
    translation is as before; it fails with -1 only when the free list is
    exhausted, which two free pages per page of the range rule out; and apart from table pages it writes no memory. *)
Theorem mappages_refines s root D free va size pa perm :
  vm_inv s root D free ->
  0 <= va -> 0 < size -> va + size <= MAXVA ->
  0 <= pa -> pa mod PGSIZE = 0 -> pa + range_pages va size * PGSIZE <= 2 ^ 56 -> 0 <= perm < 1024 ->
  (forall x, va <= x < va + size -> has (leaf (phys s) D x) PTE_V = false) ->
  exists r s' D' free' used,
    mappages root va size pa perm s = Ret r s' /\ vm_inv s' root D' free' /\ free = used ++ free' /\
    (r = 0 \/ r = -1 /\ free' = [] /\ Z.of_nat (length free) < 2 * range_pages va size) /\
    (r = 0 -> forall x,
       leaf (phys s') D' x =
         if decide (vpn va <= vpn x <= vpn (va + size - 1)) then mk_pte (pa + (vpn x - vpn va) * PGSIZE) perm
         else leaf (phys s) D x) /\
    (r = 0 -> forall x, va <= x < va + size ->
       PTE2PA (leaf (phys s') D' x) = pa + (vpn x - vpn va) * PGSIZE) /\
    (forall x, (forall p, in_shape D' p -> ~ in_page p x) -> phys s' x = phys s x).
Proof.
  intros V Hva Hsz Hmax Hpa Hpal Hpm Hperm Hinv.
  destruct (mappages_spec s root D free va size pa perm) as (r & s' & D' & new & free' & cnt & Hr & Mp); auto.
  destruct Mp as [M1 M2 M3 M4 M5 M6 M7 M8 M10 M9]. exists r, s', D', free', new.
  split_and!; auto; [destruct M9 as [[]|(-> & -> & ?)]; [by left|right]; rewrite M1, app_nil_r; split_and!; [done|done|lia]|..].
  - intros ->. destruct M9 as [[_ ->]|[? _]]; [|done]. intros x. rewrite M5.
    unfold map_range, range_pages. range_cases.
  - intros ->. destruct M9 as [[_ ->]|[? _]]; [|done]. intros x Hx. rewrite M5.
    pose proof (vpn_mono va x ltac:(lia)). pose proof (vpn_mono x (va + size - 1) ltac:(lia)).
    unfold map_range, range_pages in *. rewrite decide_True by lia.
    apply mk_pte_pa; [|unfold PGSIZE in *; lia|done].
    rewrite Z.mod_add; [done|unfold PGSIZE; lia].
Qed.

(** C26: uvmunmap of mapped leaf pages removes exactly their translations, and
    with do_free also puts exactly the pages they translated to on the free
    list, leaving the allocator and the table well formed; it panics on an
    unaligned address. *)
Theorem uvmunmap_refines (do_free : bool) s root D free va n :
  vm_inv s root D free -> 0 <= va -> va + Z.of_nat n * PGSIZE <= MAXVA ->
  (va mod PGSIZE = 0 ->
   (forall i : nat, (i < n)%nat -> unmappable (leaf (phys s) D (va + Z.of_nat i * PGSIZE))) ->
   (do_free = true -> NoDup (range_pas (leaf (phys s) D) va n) /\
      forall p, p ∈ range_pas (leaf (phys s) D) va n -> valid_page kend p /\ p ∉ free /\ ~ in_shape D p) ->
   exists s', uvmunmap kend root va (Z.of_nat n) do_free s = Ret tt s' /\
     vm_inv s' root D ((if do_free then reverse (range_pas (leaf (phys s) D) va n) else []) ++ free) /\
     (forall x, leaf (phys s') D x =
        if decide (vpn va <= vpn x < vpn va + Z.of_nat n) then 0 else leaf (phys s) D x)) /\
  (va mod PGSIZE <> 0 -> uvmunmap kend root va (Z.of_nat n) do_free s = Panic "uvmunmap: not aligned").
Proof.
  intros V Hva Hmax. unfold uvmunmap. split.
  - intros Hal Hun Hfree. rewrite (proj2 (Z.eqb_eq _ _) Hal). simpl negb. cbv iota.
    rewrite Nat2Z.id, u64_small by (unfold MAXVA, PGSIZE in *; lia).
    destruct (uvmunmap_loop_spec do_free n s root D free va) as (s' & Hr & V' & Hl & _ & _); auto.
    exists s'. by split_and!.
  - intros Hal. by rewrite (proj2 (Z.eqb_neq _ _) Hal).
Qed.
End tables.

(** ** A concrete table

    A root page, one page of each lower level, and a free user page, in the
    first four pages of RAM. *)

Module Example.

Definition root : Z := KERNBASE.
Definition mid : Z := KERNBASE + PGSIZE.
Definition low : Z := KERNBASE + 2 * PGSIZE.
Definition user : Z := KERNBASE + 3 * PGSIZE.

Definition memory0 : mem := fun _ => 0.
Definition memory1 : mem := store64 memory0 (pte_at root 0) (Z.lor (PA2PTE mid) PTE_V).
Definition memory2 : mem := store64 memory1 (pte_at mid 0) (Z.lor (PA2PTE low) PTE_V).
Definition shape1 : shape := shape_set (root_shape root) 1 (0 * 512 + 0) mid.
Definition shape2 : shape := shape_set shape1 0 (0 * 512 + 0) low.
Definition state : kstate := MkK memory2 0 [].

Lemma kend_ok : KERNBASE <= KERNBASE <= PHYSTOP.
Proof. unfold PHYSTOP, KERNBASE. lia. Qed.

Lemma page_valid i : 0 <= i < 16 -> valid_page KERNBASE (KERNBASE + i * PGSIZE).
Proof.
  intros Hi. split; [rewrite Z.mod_add by (unfold PGSIZE; lia); done|].
  unfold PHYSTOP, KERNBASE, PGSIZE. lia.
Qed.

Lemma root_valid : valid_page KERNBASE root.
Proof. apply (page_valid 0). lia. Qed.
Lemma mid_valid : valid_page KERNBASE mid.
Proof. apply (page_valid 1). lia. Qed.
Lemma low_valid : valid_page KERNBASE low.
Proof. apply (page_valid 2). lia. Qed.

Lemma load_memory0 a : load64 memory0 a = 0.
Proof. done. Qed.

Lemma ptable1 : ptable KERNBASE memory1 root shape1 /\
  (forall va, leaf memory1 shape1 va = 0).
Proof.
  destruct (ptable_extend KERNBASE kend_ok memory0 memory1 root (root_shape root) 1 0 root 0 mid)
    as (P & _ & Hl).
  - apply empty_ptable; [apply root_valid|done].
  - done.
  - lia.
  - done.
  - apply mid_valid.
  - rewrite in_root_shape. unfold mid, root, PGSIZE. lia.
  - unfold memory1. by rewrite load64_store64_same.
  - intros j Hj. unfold memory1. rewrite load64_store64_other; [done|].
    unfold pte_at, mid, root, PGSIZE. lia.
  - intros pt j ->%in_root_shape Hj Hne. unfold memory1. apply load64_store64_other.
    unfold pte_at. lia.
  - split; [done|]. intros va. rewrite Hl. apply root_shape_leaf.
Qed.

Lemma in_shape1 p : in_shape shape1 p -> p = root \/ p = mid.
Proof.
  intros (L & k & H). unfold shape1, shape_set, root_shape in H.
  repeat case_decide; simplify_eq; auto.
Qed.

Lemma ptable2 : ptable KERNBASE memory2 root shape2 /\
  (forall va, leaf memory2 shape2 va = 0).
Proof.
  destruct ptable1 as [P1 H1].
  destruct (ptable_extend KERNBASE kend_ok memory1 memory2 root shape1 0 0 mid 0 low)
    as (P & _ & Hl).
  - exact P1.
  - done.
  - lia.
  - unfold memory1. rewrite load64_store64_other; [done|].
    unfold pte_at, mid, root, PGSIZE. lia.
  - apply low_valid.
  - intros [|]%in_shape1; unfold low, mid, root, PGSIZE in *; lia.
  - unfold memory2. by rewrite load64_store64_same.
  - intros j Hj. unfold memory2, memory1. rewrite !load64_store64_other; [done|..];
      unfold pte_at, low, mid, root, PGSIZE; lia.
  - intros pt j Hpt Hj Hne. unfold memory2. apply load64_store64_other.
    destruct (in_shape1 pt Hpt); subst; unfold pte_at, mid, root, PGSIZE in *; lia.
  - split; [done|]. intros va. rewrite Hl. apply H1.
Qed.

Lemma inv : vm_inv KERNBASE state root shape2 [].
Proof.
  constructor; [|apply ptable2|intros; apply not_elem_of_nil].
  constructor; simpl; [|done|constructor|apply not_elem_of_nil].
  apply store64_bytes, store64_bytes. intros x. unfold memory0. lia.
Qed.

(** The user page mapped at virtual address 0. *)
Definition state_mapped : kstate :=
  set_phys (fun m => store64 m (leaf_addr shape2 0) (mk_pte user 23)) state.

Lemma mapped_inv : vm_inv KERNBASE state_mapped root shape2 [] /\
  (forall va, leaf (phys state_mapped) shape2 va = if decide (vpn va = vpn 0) then mk_pte user 23 else 0).
Proof.
  destruct (set_leaf KERNBASE state root shape2 [] 0 low (mk_pte user 23) inv) as (V & Hl & _).
  - done.
  - apply mk_pte_range; unfold user, KERNBASE, PGSIZE; lia.
  - split; [exact V|]. intros va. rewrite Hl. by rewrite (proj2 ptable2).
Qed.
End Example.

Lemma walk_walkaddr_correct_witness :
  walkaddr Example.root 0 Example.state_mapped = Ret Example.user Example.state_mapped.
Proof.
  destruct Example.mapped_inv as [V Hl].
  destruct (walk_walkaddr_correct KERNBASE Example.kend_ok Example.state_mapped Example.root
              Example.shape2 0 (vi_pt _ _ _ _ _ V) ltac:(lia)) as (_ & _ & _ & H).
  rewrite H, Hl. reflexivity.
Defined.

Lemma mappages_refines_witness :
  exists r s', mappages Example.root 0 PGSIZE Example.user 22 Example.state = Ret r s' /\
    (r = 0 \/ r = -1).
Proof.
  destruct (mappages_refines KERNBASE Example.kend_ok Example.state Example.root Example.shape2 []
              0 PGSIZE Example.user 22 Example.inv ltac:(lia) ltac:(unfold PGSIZE; lia)
              ltac:(unfold PGSIZE, MAXVA; lia) ltac:(unfold Example.user, KERNBASE, PGSIZE; lia) eq_refl
              ltac:(vm_compute; discriminate) ltac:(lia))
    as (r & s' & D' & f & u & H & _ & _ & Hr & _).
  - intros x _. by rewrite (proj2 Example.ptable2).
  - exists r, s'. split; [exact H|]. destruct Hr as [Hr|[Hr _]]; [left|right]; exact Hr.
Defined.

Lemma uvmunmap_refines_witness :
  exists s', uvmunmap KERNBASE Example.root 0 1 true Example.state_mapped = Ret tt s' /\
    vm_inv KERNBASE s' Example.root Example.shape2 [Example.user].
Proof.
  destruct Example.mapped_inv as [V Hl].
  destruct (proj1 (uvmunmap_refines KERNBASE Example.kend_ok true Example.state_mapped Example.root
     Example.shape2 [] 0 1 V ltac:(lia) ltac:(unfold MAXVA, PGSIZE; lia)) eq_refl) as (s' & H & V' & _).
  - intros i Hi. assert (i = O) as -> by lia. rewrite Hl. by split.
  - intros _. unfold range_pas. simpl. rewrite Hl.
    split; [repeat constructor; apply not_elem_of_nil|].
    intros p [->|?%elem_of_nil]%elem_of_cons; [|done].
    change (valid_page KERNBASE Example.user /\ Example.user ∉ ([] : list Z) /\
              ~ in_shape Example.shape2 Example.user).
    split_and!; [apply (Example.page_valid 3); lia|apply not_elem_of_nil|].
    intros (L & k & HL). unfold Example.shape2, Example.shape1, shape_set, root_shape in HL.
    repeat case_decide; simplify_eq.
  - exists s'. split; [exact H|]. unfold range_pas in V'. simpl in V'. rewrite Hl in V'. exact V'.
Defined.
