(* ===== verification/VmCopy.v ===== *)
(** Copies between kernel and user memory, copyout, copyin and copyinstr of
    [src/xv6-riscv/kernel/vm.c]: they move exactly the bytes the page table
    makes reachable, and stop at the first page that is not. *)

From stdpp Require Import base list sets strings.
From S2P Require Import Prelude Memory KString Spinlock Kalloc Vm VmTable.

(** ** Copying [k] cells, cell [g i] to cell [f i] *)

Record copied (m m' : mem) (k : Z) (f g : Z -> Z) : Prop := {
  cp_dst : forall i, 0 <= i < k -> m' (f i) = m (g i);
  cp_frame : forall x, (forall i, 0 <= i < k -> x <> f i) -> m' x = m x
}.

Lemma copied_0 m f g : copied m m 0 f g.
Proof. constructor; [lia|done]. Qed.

Lemma copied_memmove m dst src n :
  bytes m -> 0 <= n -> copied m (memmove m dst src n) n (fun i => dst + i) (fun i => src + i).
Proof.
  intros Hb Hn. constructor.
  - intros i Hi. rewrite memmove_at by done. rewrite decide_True by lia. f_equal. lia.
  - intros x Hx. rewrite memmove_at by done. rewrite decide_False; [done|].
    intros H. apply (Hx (x - dst)); lia.
Qed.

Lemma copied_ext m m' k f g f' g' :
  copied m m' k f g -> (forall i, 0 <= i < k -> f i = f' i) -> (forall i, 0 <= i < k -> g i = g' i) ->
  copied m m' k f' g'.
Proof.
  intros [Hd Hf] Ef Eg. constructor.
  - intros i Hi. by rewrite <- Ef, <- Eg, Hd.
  - intros x Hx. apply Hf. intros i Hi. rewrite Ef by done. by apply Hx.
Qed.

Lemma copied_app m m1 m2 n k f g :
  0 <= n -> 0 <= k ->
  copied m m1 n f g -> copied m1 m2 k (fun i => f (n + i)) (fun i => g (n + i)) ->
  (forall i j, 0 <= i < n + k -> 0 <= j < n + k -> f i <> g j) ->
  (forall i j, 0 <= i < n + k -> 0 <= j < n + k -> f i = f j -> i = j) ->
  copied m m2 (n + k) f g.
Proof.
  intros Hn Hk [A1 A2] [B1 B2] Hsep Hinj. constructor.
  - intros i Hi. destruct (decide (i < n)).
    + rewrite B2; [apply A1; lia|]. intros j Hj E. apply Hinj in E; lia.
    + replace i with (n + (i - n)) by lia. rewrite B1 by lia.
      apply A2. intros j Hj E. by apply (Hsep j (n + (i - n))); [lia..|].
  - intros x Hx. rewrite B2, A2; [done|..]; intros i Hi; apply Hx; lia.
Qed.

(** ** User addresses *)

(** The physical cell behind a virtual address. *)
Definition cell (as0 : Z -> Z) (va : Z) : Z := PTE2PA (as0 va) + va mod PGSIZE.

(** An address the kernel will touch for a process: walkaddr does not
    return 0. *)
Definition user_page (as0 : Z -> Z) (va : Z) : Prop :=
  accessible as0 va /\ PTE2PA (as0 va) <> 0.

#[global] Instance user_page_dec as0 va : Decision (user_page as0 va).
Proof. unfold user_page. apply _. Defined.

(** The part of [len] bytes from [va] that lies in the page of [va]. *)
Definition chunk (va len : Z) : Z := let n := PGSIZE - va mod PGSIZE in if len <? n then len else n.

Lemma chunk_range va len : 0 < len -> 0 < chunk va len <= len /\ chunk va len <= PGSIZE - va mod PGSIZE.
Proof.
  intros. unfold chunk, PGSIZE. pose proof (Z.mod_pos_bound va 4096). case_test; bool_to_prop; lia.
Qed.

Lemma in_chunk va n i : 0 <= va -> n <= PGSIZE - va mod PGSIZE -> 0 <= i < n ->
  vpn (va + i) = vpn va /\ (va + i) mod PGSIZE = va mod PGSIZE + i.
Proof.
  intros Hva Hn Hi. unfold vpn, PGSIZE in *.
  assert (E : va + i = (va mod 4096 + i) + (va / 4096) * 4096) by (pose proof (Z.div_mod va 4096); lia).
  pose proof (Z.mod_pos_bound va 4096). rewrite E at 1 2.
  rewrite Z.div_add, Z.mod_add, Z.div_small, Z.mod_small by lia. lia.
Qed.

(** The loops advance from [va] to the start of the next page. *)
Lemma next_page va len :
  0 <= va < MAXVA -> 0 < len -> chunk va len < len ->
  u64 (PGROUNDDOWN va + PGSIZE) = va + chunk va len /\ (va + chunk va len) mod PGSIZE = 0.
Proof.
  intros Hva Hl Hc. unfold chunk in *. rewrite PGROUNDDOWN_eq.
  pose proof (Z.mod_pos_bound va PGSIZE ltac:(done)).
  case_test; bool_to_prop; [lia|]. rewrite u64_small by (unfold MAXVA, PGSIZE in *; lia).
  split; [lia|]. replace (va + (PGSIZE - va mod PGSIZE)) with ((va / PGSIZE + 1) * PGSIZE).
  - apply Z.mod_mul. done.
  - pose proof (Z.div_mod va PGSIZE ltac:(done)). unfold PGSIZE in *. lia.
Qed.

Section copies.
Context (kend : Z) (Hkend : KERNBASE <= kend <= PHYSTOP).
Context (root : Z) (D : shape) (as0 : Z -> Z).

(** The address space of the table in the current memory is [as0]. *)
Definition view (m : mem) : Prop :=
  bytes m /\ ptable kend m root D /\ forall va, leaf m D va = as0 va.

Lemma view_vpn m va va' : view m -> vpn va = vpn va' -> as0 va = as0 va'.
Proof. intros (_ & _ & Hl) H. rewrite <- !Hl. by apply leaf_vpn. Qed.

Lemma walkaddr_view s va :
  view (phys s) -> 0 <= va ->
  walkaddr root va s = Ret (if decide (accessible as0 va) then PTE2PA (as0 va) else 0) s.
Proof.
  intros (_ & P & Hl) Hva. rewrite (walkaddr_lookup kend Hkend s root D va P Hva).
  f_equal. rewrite Hl. repeat case_decide; try done; unfold accessible in *; rewrite Hl in *; naive_solver.
Qed.

Lemma MAXVA_page a b : vpn a = vpn b -> a < MAXVA -> b < MAXVA.
Proof.
  intros E Ha. pose proof (vpn_bounds a). pose proof (vpn_bounds b).
  unfold MAXVA, PGSIZE in *. lia.
Qed.

Lemma user_page_vpn m va va' :
  view m -> vpn va = vpn va' -> user_page as0 va -> user_page as0 va'.
Proof.
  intros V E ((Hm & Hv & Hu) & Hp). unfold user_page, accessible.
  rewrite <- (view_vpn _ _ _ V E). split_and!; try done. by apply (MAXVA_page va).
Qed.

Lemma PGROUNDDOWN_vpn va : vpn (PGROUNDDOWN va) = vpn va.
Proof. by rewrite PGROUNDDOWN_div, vpn_mul. Qed.

(** walkaddr of the page of [va], as the loops test it. *)
Lemma walkaddr_page s va :
  view (phys s) -> 0 <= va ->
  exists pa, walkaddr root (PGROUNDDOWN va) s = Ret pa s /\
    (pa = 0 /\ ~ user_page as0 va \/ pa <> 0 /\ user_page as0 va /\ pa = PTE2PA (as0 va)).
Proof.
  intros V Hva. pose proof (PGROUNDDOWN_vpn va) as Ev.
  assert (0 <= PGROUNDDOWN va).
  { rewrite PGROUNDDOWN_eq. unfold PGSIZE. pose proof (Z.mod_le va 4096). lia. }
  rewrite (walkaddr_view s _ V) by done. eexists. split; [done|].
  rewrite (view_vpn _ _ _ V Ev).
  destruct (decide (user_page as0 va)) as [U|U].
  - right. pose proof (user_page_vpn _ _ _ V (eq_sym Ev) U) as [U' _].
    rewrite decide_True by done. split_and!; [apply U|done|done].
  - left. split; [|done]. case_decide as Ha; [|done].
    destruct (decide (PTE2PA (as0 va) = 0)) as [|Hn]; [done|]. destruct U.
    apply (user_page_vpn _ _ _ V Ev). split; [done|]. by rewrite (view_vpn _ _ _ V Ev).
Qed.

Lemma cell_chunk m va n i :
  view m -> 0 <= va -> n <= PGSIZE - va mod PGSIZE -> 0 <= i < n -> cell as0 (va + i) = cell as0 va + i.
Proof.
  intros V Hva Hn Hi. destruct (in_chunk va n i Hva Hn Hi) as [Ev Em].
  unfold cell. rewrite Em, (view_vpn _ _ _ V Ev). lia.
Qed.

(** ** The result of a copy of [len] bytes between cells [g i] and [f i],
    where byte [i] needs the page of [uva + i] *)

Record copy_safe (uva : Z) (f g : Z -> Z) (len : Z) : Prop := {
  cs_table : forall i, 0 <= i < len -> user_page as0 (uva + i) ->
    forall p, in_shape D p -> ~ in_page p (f i);
  cs_sep : forall i j, 0 <= i < len -> 0 <= j < len -> user_page as0 (uva + i) ->
    user_page as0 (uva + j) -> f i <> g j;
  cs_inj : forall i j, 0 <= i < len -> 0 <= j < len -> user_page as0 (uva + i) ->
    user_page as0 (uva + j) -> f i = f j -> i = j
}.

Definition reaches (uva k : Z) : Prop := forall i, 0 <= i < k -> user_page as0 (uva + i).

Lemma reaches_app uva n k : reaches uva n -> reaches (uva + n) k -> reaches uva (n + k).
Proof.
  intros H1 H2 i Hi. destruct (decide (i < n)); [apply H1; lia|].
  replace (uva + i) with (uva + n + (i - n)) by lia. apply H2. lia.
Qed.

Lemma copy_safe_shift uva f g len n :
  0 <= n -> copy_safe uva f g len ->
  copy_safe (uva + n) (fun i => f (n + i)) (fun i => g (n + i)) (len - n).
Proof.
  intros Hn [A B C]. constructor.
  - intros i Hi Hu. rewrite <- Z.add_assoc in Hu. apply A; [lia|exact Hu].
  - intros i j Hi Hj Hu Hu'. rewrite <- Z.add_assoc in Hu, Hu'. apply B; [lia|lia|done|done].
  - intros i j Hi Hj Hu Hu' E. rewrite <- Z.add_assoc in Hu, Hu'.
    pose proof (C (n + i) (n + j) ltac:(lia) ltac:(lia) Hu Hu' E). lia.
Qed.

(** A copy inside safe cells leaves the address space alone. *)
Lemma copied_view m m' uva f g len k :
  view m -> bytes m' -> copy_safe uva f g len -> reaches uva k -> k <= len ->
  copied m m' k f g -> view m'.
Proof.
  intros (Hb & P & Hl) Hb' [Ht _ _] Hr Hk [_ Hf].
  assert (Hfr : forall pt x, in_shape D pt -> in_page pt x -> m' x = m x).
  { intros pt x Hp Hx. apply Hf. intros i Hi ->. apply (Ht i ltac:(lia) (Hr i Hi) pt Hp Hx). }
  split_and!; [done|by apply (ptable_frame _ m)|].
  intros va. rewrite <- Hl. by apply (leaf_frame kend m _ root).
Qed.

(** What copyout and copyin establish: a prefix of [k] bytes was copied, and
    unless that is everything, byte [k] is out of reach and -1 is returned. *)
Definition copy_result (uva : Z) (f g : Z -> Z) (len : Z) (s : kstate) (r : Z) (s' : kstate) : Prop :=
  exists k, 0 <= k <= len /\ reaches uva k /\
    (r = 0 /\ k = len \/ r = -1 /\ k < len /\ ~ user_page as0 (uva + k)) /\
    copied (phys s) (phys s') k f g /\ view (phys s') /\ freelist s' = freelist s /\ held s' = held s.

Lemma copy_result_fail uva f g len s :
  view (phys s) -> 0 < len -> ~ user_page as0 uva -> copy_result uva f g len s (-1) s.
Proof.
  intros V Hl Hu. exists 0. rewrite Z.add_0_r. split_and!; auto using copied_0; try lia. intros i. lia.
Qed.

Lemma copy_result_app uva f g len n s s1 r s' :
  0 < n <= len -> copy_safe uva f g len -> reaches uva n ->
  copied (phys s) (phys s1) n f g -> freelist s1 = freelist s -> held s1 = held s ->
  copy_result (uva + n) (fun i => f (n + i)) (fun i => g (n + i)) (len - n) s1 r s' ->
  copy_result uva f g len s r s'.
Proof.
  intros Hn [Ht Hs Hi] Hr Hc Hf Hh (k & Hk & Hr' & Hd & Hc' & V & Hf' & Hh').
  pose proof (reaches_app _ _ _ Hr Hr') as HR. exists (n + k). split_and!; auto; try lia; try congruence.
  - destruct Hd as [[-> ->]|(-> & ? & Hu)]; [left; lia|right].
    rewrite <- Z.add_assoc in Hu. split_and!; [done|lia|done].
  - eapply copied_app; eauto; try lia.
    + intros i j ? ?. apply Hs; try lia; apply HR; lia.
    + intros i j ? ?. apply Hi; try lia; apply HR; lia.
Qed.

(** ** The loops *)

Lemma chunk_eq va len :
  (let n := PGSIZE - (va - PGROUNDDOWN va) in if len <? n then len else n) = chunk va len.
Proof. rewrite PGROUNDDOWN_eq. unfold chunk. by replace (va - (va - va mod PGSIZE)) with (va mod PGSIZE) by lia. Qed.

Lemma off_eq va : va - PGROUNDDOWN va = va mod PGSIZE.
Proof. rewrite PGROUNDDOWN_eq. lia. Qed.

(** Fuel left after a chunk: one page less, and the next chunk starts a page. *)
Lemma chunk_fuel va len fuel :
  0 < len -> len + va mod PGSIZE <= (fuel + 1) * PGSIZE ->
  len - chunk va len = 0 \/ chunk va len = PGSIZE - va mod PGSIZE /\ len - chunk va len <= fuel * PGSIZE.
Proof. intros Hl Hf. unfold chunk. case_test; bool_to_prop; [left|right]; lia. Qed.

Lemma chunk_reaches m va len :
  view m -> 0 <= va -> 0 < len -> user_page as0 va -> reaches va (chunk va len).
Proof.
  intros V Hva Hl U i Hi. destruct (chunk_range va len Hl) as [_ Hc].
  destruct (in_chunk va _ i Hva Hc Hi) as [E _]. by apply (user_page_vpn m va).
Qed.

(** One turn of either loop: the memmove of a chunk, then the rest. *)
Lemma copy_turn uva f g len s dst src (rest : M kstate Z) :
  view (phys s) -> 0 <= uva -> 0 < len -> user_page as0 uva -> copy_safe uva f g len ->
  let n := chunk uva len in
  (forall i, 0 <= i < n -> dst + i = f i) -> (forall i, 0 <= i < n -> src + i = g i) ->
  let s1 := set_phys (fun m => memmove m dst src n) s in
  (view (phys s1) ->
   exists r s', rest s1 = Ret r s' /\
     copy_result (uva + n) (fun i => f (n + i)) (fun i => g (n + i)) (len - n) s1 r s') ->
  exists r s', rest s1 = Ret r s' /\ copy_result uva f g len s r s'.
Proof.
  intros V Hva Hl U Hs n Ef Eg s1 Hrest. destruct (chunk_range uva len Hl) as [Hn _]. fold n in Hn.
  pose proof (chunk_reaches _ _ len V Hva Hl U) as Hr. fold n in Hr.
  assert (Hc : copied (phys s) (phys s1) n f g).
  { eapply copied_ext; [apply copied_memmove; [apply V|lia]|exact Ef|exact Eg]. }
  destruct Hrest as (r & s' & E & R).
  { eapply (copied_view (phys s)); eauto; [|lia]. apply memmove_bytes; [apply V|lia]. }
  exists r, s'. split; [exact E|]. by apply (copy_result_app uva f g len n s s1).
Qed.

Lemma copy_result_0 uva f g len s : view (phys s) -> len = 0 -> copy_result uva f g len s 0 s.
Proof. intros V ->. exists 0. split_and!; auto using copied_0; try lia. intros i. lia. Qed.

Lemma copyout_loop_spec fuel s dstva src len f g :
  view (phys s) -> 0 <= dstva -> 0 <= len -> len + dstva mod PGSIZE <= Z.of_nat fuel * PGSIZE ->
  (forall i, f i = cell as0 (dstva + i)) -> (forall i, g i = src + i) -> copy_safe dstva f g len ->
  exists r s', copyout_loop fuel root dstva src len s = Ret r s' /\ copy_result dstva f g len s r s'.
Proof.
  revert s dstva src len f g. induction fuel as [|fuel IH]; intros s dstva src len f g V Hva Hl Hf Ef Eg Hs.
  all: pose proof (Z.mod_pos_bound dstva PGSIZE ltac:(done)); cbn [copyout_loop];
    case_test; bool_to_prop; [|exists 0, s; split; [done|]; apply copy_result_0; [done|lia]].
  { lia. }
  destruct (walkaddr_page s dstva V Hva) as (pa & Hw & Hpa). rewrite (bind_ret_intro _ _ _ _ _ Hw).
  destruct Hpa as [[-> Hu]|(Hn & U & ->)].
  { exists (-1), s. split; [done|]. by apply copy_result_fail. }
  rewrite (proj2 (Z.eqb_neq _ _) Hn), chunk_eq, off_eq. unfold bind at 1, modify at 1.
  destruct (chunk_range dstva len) as [Hc1 Hc2]; [done|].
  apply (copy_turn dstva f g len s); auto.
  - intros i Hi. rewrite Ef. symmetry. by apply (cell_chunk (phys s) dstva (chunk dstva len)).
  - intros V1. destruct (decide (len - chunk dstva len = 0)) as [Hz|Hz].
    { rewrite Hz. eexists 0, _. split; [destruct fuel; reflexivity|by apply copy_result_0]. }
    destruct (next_page dstva len) as [-> Hal]; [split; [done|apply U]|done|lia|].
    destruct (chunk_fuel dstva len (Z.of_nat fuel)) as [Hz'|[Hc Hr]]; [done|lia|lia|].
    apply IH; auto; try lia.
    + intros i. rewrite Ef. f_equal. lia.
    + intros i. rewrite Eg. lia.
    + by apply copy_safe_shift; [lia|].
Qed.

Lemma copyin_loop_spec fuel s dst srcva len f g :
  view (phys s) -> 0 <= srcva -> 0 <= len -> len + srcva mod PGSIZE <= Z.of_nat fuel * PGSIZE ->
  (forall i, f i = dst + i) -> (forall i, g i = cell as0 (srcva + i)) -> copy_safe srcva f g len ->
  exists r s', copyin_loop fuel root dst srcva len s = Ret r s' /\ copy_result srcva f g len s r s'.
Proof.
  revert s dst srcva len f g. induction fuel as [|fuel IH]; intros s dst srcva len f g V Hva Hl Hf Ef Eg Hs.
  all: pose proof (Z.mod_pos_bound srcva PGSIZE ltac:(done)); cbn [copyin_loop];
    case_test; bool_to_prop; [|exists 0, s; split; [done|]; apply copy_result_0; [done|lia]].
  { lia. }
  destruct (walkaddr_page s srcva V Hva) as (pa & Hw & Hpa). rewrite (bind_ret_intro _ _ _ _ _ Hw).
  destruct Hpa as [[-> Hu]|(Hn & U & ->)].
  { exists (-1), s. split; [done|]. by apply copy_result_fail. }
  rewrite (proj2 (Z.eqb_neq _ _) Hn), chunk_eq, off_eq. unfold bind at 1, modify at 1.
  destruct (chunk_range srcva len) as [Hc1 Hc2]; [done|].
  apply (copy_turn srcva f g len s); auto.
  - intros i Hi. rewrite Eg. symmetry. by apply (cell_chunk (phys s) srcva (chunk srcva len)).
  - intros V1. destruct (decide (len - chunk srcva len = 0)) as [Hz|Hz].
    { rewrite Hz. eexists 0, _. split; [destruct fuel; reflexivity|by apply copy_result_0]. }
    destruct (next_page srcva len) as [-> Hal]; [split; [done|apply U]|done|lia|].
    destruct (chunk_fuel srcva len (Z.of_nat fuel)) as [Hz'|[Hc Hr]]; [done|lia|lia|].
    apply IH; auto; try lia.
    + intros i. rewrite Ef. lia.
    + intros i. rewrite Eg. f_equal. lia.
    + by apply copy_safe_shift; [lia|].
Qed.

Lemma len_fuel va len :
  0 <= len -> len + va mod PGSIZE <= Z.of_nat (Z.to_nat (len / PGSIZE) + 2) * PGSIZE.
Proof.
  intros. pose proof (Z.mod_pos_bound va PGSIZE ltac:(done)).
  pose proof (Z.div_mod len PGSIZE ltac:(done)). pose proof (Z.mod_pos_bound len PGSIZE ltac:(done)).
  assert (0 <= len / PGSIZE) by (apply Z.div_pos; [lia|done]).
  unfold PGSIZE in *. lia.
Qed.

(** ** copyinstr *)

Lemma copyinstr_page_spec n m dst p :
  bytes m -> (forall i j, 0 <= i < Z.of_nat n -> 0 <= j < Z.of_nat n -> dst + i <> p + j) ->
  let '(m', got, k) := copyinstr_page n dst p m in
  bytes m' /\ 0 <= k <= Z.of_nat n /\ (forall i, 0 <= i < k -> m (p + i) <> 0) /\
  copied m m' (if got then k + 1 else k) (fun i => dst + i) (fun i => p + i) /\
  (if got then k < Z.of_nat n /\ m (p + k) = 0 else k = Z.of_nat n).
Proof.
  revert m dst p. induction n as [|n IH]; intros m dst p Hb Hsep; cbn [copyinstr_page].
  { split_and!; auto using copied_0; lia. }
  case_test; bool_to_prop.
  - split_and!; [by apply store8_bytes|lia|lia|intros; lia| |lia|by rewrite Z.add_0_r].
    constructor.
    + intros i Hi. assert (i = 0) as -> by lia. by rewrite !Z.add_0_r, store8_same, E.
    + intros x Hx. apply store8_other. specialize (Hx 0 ltac:(lia)). lia.
  - specialize (IH (store8 m dst (m p)) (dst + 1) (p + 1)).
    destruct (copyinstr_page n (dst + 1) (p + 1) _) as [[m' got] k].
    assert (Hsrc : forall j, 0 <= j < Z.of_nat n -> store8 m dst (m p) (p + 1 + j) = m (p + (j + 1))).
    { intros j Hj. rewrite store8_other; [f_equal; lia|]. specialize (Hsep 0 (j + 1)). lia. }
    destruct IH as (Hb' & Hk & Hnz & Hc & Hg).
    { by apply store8_bytes. }
    { intros i j Hi Hj. specialize (Hsep (i + 1) (j + 1)). lia. }
    split_and!; auto; try lia.
    + intros i Hi. destruct (decide (i = 0)) as [->|]; [by rewrite Z.add_0_r|].
      specialize (Hnz (i - 1) ltac:(lia)). rewrite Hsrc in Hnz by lia.
      by replace (i - 1 + 1) with i in Hnz by lia.
    + replace (if got then k + 1 + 1 else k + 1) with (1 + (if got then k + 1 else k)) by (destruct got; lia).
      apply (copied_app _ (store8 m dst (m p))); [lia|destruct got; lia| | |..].
      * constructor.
        -- intros i Hi. assert (i = 0) as -> by lia. rewrite !Z.add_0_r, store8_same.
           by apply u8_small, Hb.
        -- intros x Hx. apply store8_other. specialize (Hx 0 ltac:(lia)). lia.
      * eapply copied_ext; [exact Hc|cbv beta; lia..].
      * intros i j Hi Hj. apply Hsep; destruct got; lia.
      * intros i j Hi Hj. lia.
    + destruct got; [|lia]. destruct Hg as [Hg1 Hg2]. split; [lia|]. rewrite Hsrc in Hg2 by lia. done.
Qed.

(** What copyinstr establishes: it copies the bytes before the NUL, none of
    them zero, and the NUL itself on success; it fails when it reaches [max]
    or an unreachable page first. *)
Definition copystr_result (uva : Z) (f g : Z -> Z) (max : Z) (s : kstate) (r : Z) (s' : kstate) : Prop :=
  exists k, 0 <= k <= max /\ reaches uva k /\ (forall i, 0 <= i < k -> phys s (g i) <> 0) /\
    (r = 0 /\ k < max /\ user_page as0 (uva + k) /\ phys s (g k) = 0 /\
       copied (phys s) (phys s') (k + 1) f g \/
     r = -1 /\ (k = max \/ ~ user_page as0 (uva + k)) /\ copied (phys s) (phys s') k f g) /\
    freelist s' = freelist s /\ held s' = held s.

Lemma copystr_app uva f g max n s s1 r s' :
  0 < n <= max -> copy_safe uva f g max -> reaches uva n ->
  (forall i, 0 <= i < n -> phys s (g i) <> 0) ->
  copied (phys s) (phys s1) n f g -> freelist s1 = freelist s -> held s1 = held s ->
  copystr_result (uva + n) (fun i => f (n + i)) (fun i => g (n + i)) (max - n) s1 r s' ->
  copystr_result uva f g max s r s'.
Proof.
  intros Hn [Ht Hs Hi] Hr Hnz Hc Hf Hh (k & Hk & Hr' & Hnz' & Hd & Hf' & Hh').
  pose proof (reaches_app _ _ _ Hr Hr') as HR.
  assert (Hg : forall j, 0 <= j < max - n -> user_page as0 (uva + n + j) ->
                 phys s1 (g (n + j)) = phys s (g (n + j))).
  { intros j Hj Hu. apply Hc. intros i Hi' E. apply (Hs i (n + j)); [lia|lia|by apply Hr| |done].
    by rewrite Z.add_assoc. }
  assert (Hlen : forall e, 0 <= e -> n + e <= max -> reaches uva (n + e) ->
     copied (phys s1) (phys s') e (fun i => f (n + i)) (fun i => g (n + i)) ->
     copied (phys s) (phys s') (n + e) f g).
  { intros e He Hle HRe Hce. eapply copied_app; eauto; [lia|..].
    - intros i j ? ?. apply Hs; try lia; apply HRe; lia.
    - intros i j ? ?. apply Hi; try lia; apply HRe; lia. }
  exists (n + k). split_and!; auto; try lia; try congruence.
  - intros i Hi'. destruct (decide (i < n)); [apply Hnz; lia|].
    replace i with (n + (i - n)) by lia. rewrite <- Hg; [apply Hnz'; lia|lia|].
    replace (uva + n + (i - n)) with (uva + i) by lia. apply HR. lia.
  - destruct Hd as [(-> & Hk' & Hu & Hz & Hcp)|(-> & Hu & Hcp)]; [left|right].
    + rewrite Hg in Hz by (auto; lia). split_and!; [done|lia|by rewrite Z.add_assoc|done|].
      rewrite <- Z.add_assoc. apply Hlen; auto; try lia.
      intros i Hi'. destruct (decide (i = n + k)) as [->|]; [by rewrite Z.add_assoc|apply HR; lia].
    + split_and!; [done| |apply Hlen; auto; lia]. rewrite Z.add_assoc. destruct Hu; [left; lia|by right].
Qed.

Lemma copyinstr_loop_spec fuel s dst srcva max f g :
  view (phys s) -> 0 <= srcva -> 0 <= max -> max + srcva mod PGSIZE <= Z.of_nat fuel * PGSIZE ->
  (forall i, f i = dst + i) -> (forall i, g i = cell as0 (srcva + i)) -> copy_safe srcva f g max ->
  exists r s', copyinstr_loop fuel root dst srcva max s = Ret r s' /\ copystr_result srcva f g max s r s'.
Proof.
  revert s dst srcva max f g. induction fuel as [|fuel IH]; intros s dst srcva max f g V Hva Hl Hf Ef Eg Hs.
  all: pose proof (Z.mod_pos_bound srcva PGSIZE ltac:(done)); cbn [copyinstr_loop];
    case_test; bool_to_prop; [|exists (-1), s; split; [done|]; exists 0; split_and!;
      auto using copied_0; try lia; try (intros i; lia); right; split_and!; auto using copied_0; left; lia].
  { lia. }
  destruct (walkaddr_page s srcva V Hva) as (pa & Hw & Hpa). rewrite (bind_ret_intro _ _ _ _ _ Hw).
  destruct Hpa as [[-> Hu]|(Hn & U & ->)].
  { exists (-1), s. split; [done|]. exists 0. rewrite Z.add_0_r.
    split_and!; auto using copied_0; try lia; try (intros i; lia). }
  rewrite (proj2 (Z.eqb_neq _ _) Hn), chunk_eq, off_eq. unfold bind at 1, get at 1.
  destruct (chunk_range srcva max) as [Hc1 Hc2]; [done|].
  fold (cell as0 srcva). set (n := chunk srcva max) in *.
  pose proof (chunk_reaches _ _ max V Hva ltac:(lia) U) as Hr. fold n in Hr.
  assert (Hcell : forall i, 0 <= i < n -> g i = cell as0 srcva + i).
  { intros i Hi. rewrite Eg. by apply (cell_chunk (phys s) srcva n). }
  pose proof (copyinstr_page_spec (Z.to_nat n) (phys s) dst (cell as0 srcva) (proj1 V)) as Hpg.
  destruct (copyinstr_page _ _ _ _) as [[m' got] k]. rewrite Z2Nat.id in Hpg by lia.
  destruct Hpg as (Hb & Hk & Hnz & Hc & Hg).
  { intros i j Hi Hj. rewrite <- Ef, <- Hcell by done. destruct Hs as [_ Hs _].
    apply Hs; try lia; apply Hr; lia. }
  unfold bind at 1, modify at 1.
  assert (Hc' : copied (phys s) m' (if got then k + 1 else k) f g).
  { eapply copied_ext; [exact Hc|intros i _; symmetry; apply Ef|].
    intros i Hi. symmetry. apply Hcell. destruct got; lia. }
  destruct got.
  - eexists 0, _. split; [done|]. exists k. split_and!; [lia|lia| | |left|done|done].
    + intros i Hi. apply Hr. lia.
    + intros i Hi. rewrite Hcell by lia. by apply Hnz.
    + destruct Hg as [Hg Hz].
      split_and!; [done|lia|apply Hr; lia|rewrite Hcell by lia; exact Hz|exact Hc'].
  - subst k.
    assert (Hrest : exists r s', copyinstr_loop fuel root (dst + n) (u64 (PGROUNDDOWN srcva + PGSIZE)) (max - n)
               (set_phys (fun _ => m') s) = Ret r s' /\
             copystr_result (srcva + n) (fun i => f (n + i)) (fun i => g (n + i)) (max - n)
               (set_phys (fun _ => m') s) r s').
    { destruct (decide (max - n = 0)) as [Hz|Hz].
      { rewrite Hz. eexists (-1), _. split; [destruct fuel; reflexivity|]. exists 0.
        split_and!; auto; try lia; try (intros i; lia). right. auto using copied_0. }
      destruct (next_page srcva max) as [-> Hal]; [split; [done|apply U]|done|fold n; lia|]. fold n in Hal |- *.
      destruct (chunk_fuel srcva max (Z.of_nat fuel)) as [Hz'|[Hca Hcb]]; [done|lia|fold n in Hz'; lia|].
      fold n in Hca, Hcb. apply IH; auto; try lia.
      - eapply (copied_view (phys s)); eauto; lia.
      - intros i. rewrite Ef. lia.
      - intros i. rewrite Eg. f_equal. lia.
      - by apply copy_safe_shift; [lia|]. }
    destruct Hrest as (r & s' & E' & R). exists r, s'. split; [exact E'|].
    apply (copystr_app srcva f g max n s (set_phys (fun _ => m') s)); auto.
    intros i Hi. rewrite Hcell by lia. by apply Hnz.
Qed.

End copies.

Section theorems.
Context (kend : Z) (Hkend : KERNBASE <= kend <= PHYSTOP).

(** The cells of the user range [uva, uva + len) and those of the kernel
    buffer [buf, buf + len) are distinct, and neither is in the table. *)
Definition out_safe (D : shape) (as0 : Z -> Z) (dstva src len : Z) : Prop :=
  copy_safe D as0 dstva (fun i => cell as0 (dstva + i)) (fun i => src + i) len.
Definition in_safe (D : shape) (as0 : Z -> Z) (dst srcva len : Z) : Prop :=
  copy_safe D as0 srcva (fun i => dst + i) (fun i => cell as0 (srcva + i)) len.

Lemma copyout_spec s root D dstva src len :
  bytes (phys s) -> ptable kend (phys s) root D -> 0 <= dstva -> 0 <= len ->
  out_safe D (leaf (phys s) D) dstva src len ->
  exists r s', copyout root dstva src len s = Ret r s' /\
    copy_result kend root D (leaf (phys s) D) dstva
      (fun i => cell (leaf (phys s) D) (dstva + i)) (fun i => src + i) len s r s'.
Proof.
  intros Hb P Hva Hl Hs. eapply (copyout_loop_spec kend Hkend); auto; [by split_and!|by apply len_fuel].
Qed.

Lemma copyin_spec s root D dst srcva len :
  bytes (phys s) -> ptable kend (phys s) root D -> 0 <= srcva -> 0 <= len ->
  in_safe D (leaf (phys s) D) dst srcva len ->
  exists r s', copyin root dst srcva len s = Ret r s' /\
    copy_result kend root D (leaf (phys s) D) srcva
      (fun i => dst + i) (fun i => cell (leaf (phys s) D) (srcva + i)) len s r s'.
Proof.
  intros Hb P Hva Hl Hs. eapply (copyin_loop_spec kend Hkend); auto; [by split_and!|by apply len_fuel].
Qed.

Lemma copy_safe_as0 D as0 as1 uva f g f' g' len :
  (forall va, as0 va = as1 va) -> (forall i, f i = f' i) -> (forall i, g i = g' i) ->
  copy_safe D as0 uva f g len -> copy_safe D as1 uva f' g' len.
Proof.
  intros E Ef Eg [A B C]. assert (Hu : forall va, user_page as1 va -> user_page as0 va).
  { intros va. unfold user_page, accessible. by rewrite E. }
  constructor; intros i; rewrite <- ?Ef; [eauto|intros j; rewrite <- Eg; eauto|intros j; rewrite <- Ef; eauto].
Qed.

(** C25: copyout writes the user range through the page table: it copies the
    longest prefix of the kernel buffer whose destination pages are valid user
    pages, byte [i] to the physical cell that translates [dstva + i], changes
    no other byte of memory, and returns 0 exactly when the whole buffer was
    copied and -1 when it stopped at a page the user may not access. *)
Theorem copyout_correct s root D dstva src len :
  bytes (phys s) -> ptable kend (phys s) root D -> 0 <= dstva -> 0 <= len ->
  out_safe D (leaf (phys s) D) dstva src len ->
  exists r s' k, copyout root dstva src len s = Ret r s' /\ 0 <= k <= len /\
    (forall i, 0 <= i < k -> phys s' (cell (leaf (phys s) D) (dstva + i)) = phys s (src + i)) /\
    (forall x, (forall i, 0 <= i < k -> x <> cell (leaf (phys s) D) (dstva + i)) -> phys s' x = phys s x) /\
    (r = 0 /\ k = len /\ (forall i, 0 <= i < len -> user_page (leaf (phys s) D) (dstva + i)) \/
     r = -1 /\ k < len /\ ~ user_page (leaf (phys s) D) (dstva + k)) /\
    (forall va, leaf (phys s') D va = leaf (phys s) D va).
Proof.
  intros Hb P Hva Hl Hs.
  destruct (copyout_spec s root D dstva src len) as (r & s' & E & k & Hk & Hr & Hd & [Hc Hf] & V & _); auto.
  exists r, s', k. split_and!; auto; try lia; [|apply V]. destruct Hd as [[? ->]|?]; auto.
Qed.

(** data written to a process with copyout and read back from the same
    virtual range with copyin arrive unchanged, whatever the physical pages
    behind the range. *)
Theorem copyout_copyin_roundtrip s s1 root D va src dst len :
  bytes (phys s) -> ptable kend (phys s) root D -> 0 <= va -> 0 <= len ->
  out_safe D (leaf (phys s) D) va src len -> in_safe D (leaf (phys s) D) dst va len ->
  copyout root va src len s = Ret 0 s1 ->
  exists s2, copyin root dst va len s1 = Ret 0 s2 /\
    (forall i, 0 <= i < len -> phys s2 (dst + i) = phys s (src + i)) /\
    (forall x, ~ (dst <= x < dst + len) -> phys s2 x = phys s1 x).
Proof.
  intros Hb P Hva Hl Ho Hi E.
  destruct (copyout_spec s root D va src len) as (r & s1' & E' & k & Hk & Hr & Hd & [Hc Hf] & (Hb1 & P1 & Hl1) & _); auto.
  rewrite E' in E. injection E as -> ->. destruct Hd as [[_ ->]|[? _]]; [|done].
  destruct (copyin_spec s1 root D dst va len) as (r & s2 & E2 & k & Hk2 & _ & Hd2 & [Hc2 Hf2] & _); auto.
  { eapply copy_safe_as0; [..|exact Hi]; [done|done|]. intros i. unfold cell. by rewrite Hl1. }
  exists s2. destruct Hd2 as [[-> ->]|(_ & Hlt & Hu)].
  - split_and!; [done| |].
    + intros i Hi'. rewrite Hc2 by done. unfold cell. rewrite Hl1. by apply Hc.
    + intros x Hx. apply Hf2. intros i Hi'. lia.
  - destruct Hu. unfold user_page, accessible. rewrite Hl1. apply Hr. lia.
Qed.

(** C27: copyinstr fetches a NUL-terminated user string of fewer than [max]
    bytes: it returns 0 exactly when it met the NUL within [max] reachable
    bytes, having stored the bytes up to and including it; otherwise it
    returns -1 because [max] bytes had no NUL or a page was not a user page;
    nothing outside the copied prefix of the buffer changes. *)
Theorem copyinstr_correct s root D dst srcva max :
  bytes (phys s) -> ptable kend (phys s) root D -> 0 <= srcva -> 0 <= max ->
  in_safe D (leaf (phys s) D) dst srcva max ->
  exists r s' k, copyinstr root dst srcva max s = Ret r s' /\ 0 <= k <= max /\
    let user i := phys s (cell (leaf (phys s) D) (srcva + i)) in
    (forall i, 0 <= i < k -> user_page (leaf (phys s) D) (srcva + i) /\ user i <> 0) /\
    (forall i, 0 <= i < k -> phys s' (dst + i) = user i) /\
    (r = 0 /\ k < max /\ user k = 0 /\ phys s' (dst + k) = 0 \/
     r = -1 /\ (k = max \/ ~ user_page (leaf (phys s) D) (srcva + k))) /\
    (forall x, ~ (dst <= x <= dst + k) -> phys s' x = phys s x).
Proof.
  intros Hb P Hva Hl Hs. edestruct (copyinstr_loop_spec kend Hkend root D (leaf (phys s) D)
    (Z.to_nat (max / PGSIZE) + 2) s dst srcva max (fun i => dst + i)
    (fun i => cell (leaf (phys s) D) (srcva + i))) as (r & s' & E & k & Hk & Hr & Hnz & Hd & _);
    auto; [by split_and!|by apply len_fuel|].
  exists r, s', k. split; [exact E|]. split; [exact Hk|]. cbv zeta.
  split; [intros i Hi; split; [by apply Hr|by apply Hnz]|].
  destruct Hd as [(-> & Hk' & Hu & Hz & [Hc Hf])|(-> & Hu & [Hc Hf])]; split_and!.
  - intros i Hi. apply Hc. lia.
  - left. split_and!; auto. rewrite Hc by lia. done.
  - intros x Hx. apply Hf. intros i Hi. lia.
  - intros i Hi. by apply Hc.
  - right. auto.
  - intros x Hx. apply Hf. intros i Hi. lia.
Qed.
End theorems.

(** ** A process with one user page *)

Module CopyExample.
Import VmTable.Example.

(** Three bytes of kernel data at address 16. *)
Definition kstate0 : kstate :=
  set_phys (fun m => store8 (store8 (store8 m 16 7) 17 8) 18 0) state_mapped.

Lemma bytes0 : bytes (phys kstate0).
Proof. do 3 apply store8_bytes. apply (kinv_bytes _ _ _ (vi_k _ _ _ _ _ (proj1 mapped_inv))). Qed.

Lemma low_memory m x : x < 1000 ->
  forall p, p = root \/ p = mid \/ p = low -> in_page p m -> m <> x.
Proof. intros Hx p Hp Hm. unfold in_page, root, mid, low, KERNBASE, PGSIZE in *. lia. Qed.

Lemma in_shape2 p : in_shape shape2 p -> p = root \/ p = mid \/ p = low.
Proof.
  intros (L & k & H). unfold shape2, shape1, shape_set, root_shape in H.
  repeat case_decide; simplify_eq; auto.
Qed.

Lemma table_frame pt x : in_shape shape2 pt -> in_page pt x -> phys kstate0 x = phys state_mapped x.
Proof.
  intros Hp%in_shape2 Hx. unfold kstate0. simpl.
  rewrite !store8_other; [done|..]; eapply low_memory; eauto; lia.
Qed.

Lemma ptable0 : ptable KERNBASE (phys kstate0) root shape2.
Proof.
  destruct mapped_inv as [V _]. eapply ptable_frame; [apply V|]. intros. by eapply table_frame.
Qed.

Lemma leaf0 va : leaf (phys kstate0) shape2 va = if decide (vpn va = 0) then mk_pte user 23 else 0.
Proof.
  destruct mapped_inv as [V Hl]. rewrite (leaf_frame KERNBASE (phys state_mapped) _ root); [apply Hl|apply V|].
  intros. by eapply table_frame.
Qed.

Lemma leaf0_small i : 0 <= i < 3 -> leaf (phys kstate0) shape2 (0 + i) = mk_pte user 23.
Proof. intros. rewrite leaf0, decide_True; [done|]. unfold vpn, PGSIZE. apply Z.div_small. lia. Qed.

Lemma cell0 i : 0 <= i < 3 -> cell (leaf (phys kstate0) shape2) (0 + i) = user + i.
Proof.
  intros. unfold cell. rewrite leaf0_small by done. rewrite Z.mod_small by (unfold PGSIZE; lia). done.
Qed.

Lemma user_page0 i : 0 <= i < 3 -> user_page (leaf (phys kstate0) shape2) (0 + i).
Proof.
  intros. unfold user_page, accessible. rewrite leaf0_small by done.
  split_and!; [unfold MAXVA; lia|reflexivity|reflexivity|]. vm_compute. discriminate.
Qed.

Lemma out_safe0 : out_safe shape2 (leaf (phys kstate0) shape2) 0 16 3.
Proof.
  constructor.
  - intros i Hi _ p Hp%in_shape2. rewrite cell0 by done.
    unfold in_page, user, root, mid, low, PGSIZE in *. lia.
  - intros i j Hi Hj _ _. rewrite cell0 by done. unfold user, KERNBASE, PGSIZE. lia.
  - intros i j Hi Hj _ _. rewrite !cell0 by done. lia.
Qed.

Lemma in_safe0 : in_safe shape2 (leaf (phys kstate0) shape2) 32 0 3.
Proof.
  constructor.
  - intros i Hi _ p Hp%in_shape2. unfold in_page, root, mid, low, KERNBASE, PGSIZE in *. lia.
  - intros i j Hi Hj _ _. rewrite cell0 by done. unfold user, KERNBASE, PGSIZE. lia.
  - intros i j Hi Hj _ _. lia.
Qed.

Lemma copyout0 : exists s1, copyout root 0 16 3 kstate0 = Ret 0 s1.
Proof.
  destruct (copyout_spec KERNBASE kend_ok kstate0 root shape2 0 16 3)
    as (r & s1 & E & k & Hk & _ & Hd & _); [apply bytes0|apply ptable0|lia|lia|apply out_safe0|].
  exists s1. rewrite E. destruct Hd as [[-> _]|(_ & Hlt & Hu)]; [done|].
  destruct Hu. apply user_page0. lia.
Qed.

End CopyExample.

Lemma copyout_correct_witness :
  exists r s' k, copyout VmTable.Example.root 0 16 3 CopyExample.kstate0 = Ret r s' /\ 0 <= k <= 3.
Proof.
  destruct (copyout_correct KERNBASE VmTable.Example.kend_ok CopyExample.kstate0 VmTable.Example.root
    VmTable.Example.shape2 0 16 3 CopyExample.bytes0 CopyExample.ptable0 ltac:(lia) ltac:(lia)
    CopyExample.out_safe0) as (r & s' & k & E & Hk & _).
  exists r, s', k. split; [exact E|exact Hk].
Defined.

Lemma copyout_copyin_roundtrip_witness :
  exists s1 s2, copyout VmTable.Example.root 0 16 3 CopyExample.kstate0 = Ret 0 s1 /\
    copyin VmTable.Example.root 32 0 3 s1 = Ret 0 s2 /\
    (forall i, 0 <= i < 3 -> phys s2 (32 + i) = phys CopyExample.kstate0 (16 + i)).
Proof.
  destruct CopyExample.copyout0 as [s1 E].
  destruct (copyout_copyin_roundtrip KERNBASE VmTable.Example.kend_ok CopyExample.kstate0 s1
    VmTable.Example.root VmTable.Example.shape2 0 16 32 3 CopyExample.bytes0 CopyExample.ptable0
    ltac:(lia) ltac:(lia) CopyExample.out_safe0 CopyExample.in_safe0 E) as (s2 & E2 & H & _).
  exists s1, s2. split; [exact E|]. split; [exact E2|exact H].
Defined.

Lemma copyinstr_correct_witness :
  exists r s' k, copyinstr VmTable.Example.root 32 0 3 CopyExample.kstate0 = Ret r s' /\ 0 <= k <= 3.
Proof.
  destruct (copyinstr_correct KERNBASE VmTable.Example.kend_ok CopyExample.kstate0 VmTable.Example.root
    VmTable.Example.shape2 32 0 3 CopyExample.bytes0 CopyExample.ptable0 ltac:(lia) ltac:(lia)
    CopyExample.in_safe0) as (r & s' & k & E & Hk & _).
  exists r, s', k. split; [exact E|exact Hk].
Defined.
