(* ===== verification/VmSpace.v ===== *)
(** The life of a user address space (Vm): created by uvmcreate, grown and shrunk by
    uvmalloc and uvmdealloc, given back by uvmfree.  No page is lost and none is freed
    twice. *)

From stdpp Require Import base list sets strings.
From S2P Require Import Prelude Memory KString Spinlock Kalloc Vm VmTable.

(** ** Lists of lists *)

Lemma NoDup_concat_map {A B} (f : A -> list B) (l : list A) :
  NoDup l -> (forall x, x ∈ l -> NoDup (f x)) -> (forall x y b, x ∈ l -> y ∈ l -> b ∈ f x -> b ∈ f y -> x = y) -> NoDup (concat (f <$> l)).
Proof.
  induction l as [|a l IH]; intros Hn Hf Hd; cbn [fmap list_fmap concat]; [constructor|]. apply NoDup_cons in Hn as [Ha Hn]. apply NoDup_app. split_and!.
  - apply Hf. left.
  - intros b Hb Hc. apply list_elem_of_In, in_concat in Hc as (lb & Hl & Hbl). apply list_elem_of_In in Hl, Hbl. apply list_elem_of_fmap in Hl as (y & -> & Hy).
    assert (a = y) as -> by (apply (Hd a y b); [left|by right|done|done]). done.
  - apply IH; [done|intros x Hx; apply Hf; by right|intros x y b Hx Hy; apply Hd; by right].
Qed.

Lemma elem_of_concat_map {A B} (f : A -> list B) (l : list A) b : b ∈ concat (f <$> l) <-> exists x, x ∈ l /\ b ∈ f x.
Proof.
  rewrite list_elem_of_In, in_concat. split.
  - intros (lb & Hl & Hb). apply list_elem_of_In in Hl, Hb. apply list_elem_of_fmap in Hl as (x & -> & Hx). by exists x.
  - intros (x & Hx & Hb). exists (f x). split; apply list_elem_of_In; [by apply list_elem_of_fmap_2|done].
Qed.

(** ** freewalk *)

(** The pages [T] of a table without leaves, from page [pt] of level [L] down *)
Fixpoint tbl (m : mem) (L : nat) (pt : Z) (T : list Z) : Prop :=
  match L with
  | O => T = [pt] /\ forall i : nat, (i < 512)%nat -> has (load64 m (pte_at pt (Z.of_nat i))) PTE_V = false
  | S L => exists Ts : nat -> list Z, T = pt :: concat (Ts <$> seq 0 512) /\
      forall i : nat, (i < 512)%nat ->
        if has (load64 m (pte_at pt (Z.of_nat i))) PTE_V
        then has (load64 m (pte_at pt (Z.of_nat i))) PTE_RWX = false /\ tbl m L (PTE2PA (load64 m (pte_at pt (Z.of_nat i)))) (Ts i)
        else Ts i = []
  end.

Lemma tbl_head m L pt T : tbl m L pt T -> pt ∈ T.
Proof. destruct L; [intros [-> _]; left|intros (Ts & -> & _); left]. Qed.

Lemma tbl_frame m m' L : forall pt T, tbl m L pt T -> (forall p x, p ∈ T -> in_page p x -> m' x = m x) -> tbl m' L pt T.
Proof.
  assert (Hl : forall pt (i : nat), (i < 512)%nat -> (forall x, in_page pt x -> m' x = m x) -> load64 m' (pte_at pt (Z.of_nat i)) = load64 m (pte_at pt (Z.of_nat i))).
  { intros pt i Hi Hm. apply load64_page_frame; [lia|done]. }
  induction L as [|L IH]; intros pt T.
  - intros [-> Hv] Hm. split; [done|]. intros i Hi. rewrite Hl; [by apply Hv|done|]. intros x. apply Hm. left.
  - intros (Ts & -> & Hv) Hm. exists Ts. split; [done|]. intros i Hi. rewrite Hl; [|done|intros x; apply Hm; left]. specialize (Hv i Hi).
    case_match; [|done]. destruct Hv as [Hr Ht]. split; [done|]. apply IH; [done|]. intros p x Hp. apply Hm. right.
    apply elem_of_concat_map. exists i. split; [apply elem_of_seq; lia|done].
Qed.

Section free.
Context (kend : Z).
Hypothesis kend_ok : KERNBASE <= kend <= PHYSTOP.

Lemma kend_pos : 0 < kend.
Proof. unfold KERNBASE in *. lia. Qed.

(** The memory determines the free list. *)
Lemma chain_unique m l : forall p l', chain kend m p l -> chain kend m p l' -> l = l'.
Proof.
  assert (H0 : ~ valid_page kend 0) by (intros Hv; pose proof (valid_page_range kend kend_ok 0 Hv); lia).
  induction l as [|x l IH]; intros p [|y l']; cbn [chain]; [done|intros -> (<- & ? & _); done|intros (<- & ? & _) ->; done|].
  intros (<- & _ & Hl) (-> & _ & Hl'). f_equal. by eapply IH.
Qed.

Lemma kinv_unique s free free' : kinv kend s free -> kinv kend s free' -> free = free'.
Proof. intros I I'. eapply chain_unique; [apply I|apply I']. Qed.

(** A store to a page that is not free *)
Lemma kinv_store s free pt (i : nat) v : kinv kend s free -> valid_page kend pt -> pt ∉ free -> (i < 512)%nat ->
  kinv kend (set_phys (fun m => store64 m (pte_at pt (Z.of_nat i)) v) s) free.
Proof.
  intros I Hv Hf Hi. apply (kinv_frame kend s); [done|apply store64_bytes, I|done|done|]. intros x y Hx Hy. apply store64_other. intros Hin.
  assert (in_page pt y) by (apply (pte_at_in_page pt (Z.of_nat i)); [lia|done]).
  assert (pt = x) as ->; [|done]. apply (pages_disjoint pt x y); [apply Hv| |done|done]. eapply (chain_valid kend); [apply I|done].
Qed.

Definition valid_pages (T : list Z) : Prop := NoDup T /\ forall p, p ∈ T -> valid_page kend p.

(** What a routine that gives the pages [T] back has done *)
Record gives (T : list Z) (s : kstate) (free : list Z) (s' : kstate) (free' : list Z) : Prop := {
  gv_k : kinv kend s' free';
  gv_free : free' ≡ₚ T ++ free;
  gv_held : held s' = held s;
  gv_mem : forall x, (forall p, p ∈ T -> ~ in_page p x) -> phys s' x = phys s x }.

Definition frees (L : nat) : Prop := forall pt T s free, kinv kend s free -> tbl (phys s) L pt T -> valid_pages T -> (forall p, p ∈ T -> p ∉ free) ->
  exists s' free', freewalk kend (S L) pt s = Ret tt s' /\ gives T s free s' free'.

Lemma kfree_gives s free pt : kinv kend s free -> valid_page kend pt -> pt ∉ free ->
  exists s', kfree kend pt s = Ret tt s' /\ gives [pt] s free s' (pt :: free).
Proof.
  intros I Hv Hf. destruct (kfree_spec kend kend_pos s free pt I Hv Hf) as (s' & Hr & I' & Hh & Hm). exists s'. split; [done|]. constructor; [done|done|done|].
  intros x Hx. apply Hm. apply Hx. left.
Qed.

Lemma not_in_page (T : list Z) pt x : valid_pages T -> valid_page kend pt -> pt ∉ T -> in_page pt x -> forall p, p ∈ T -> ~ in_page p x.
Proof.
  intros [_ HT] Hv Hpt Hx p Hp Hx'. assert (p = pt) as ->; [|done]. apply (pages_disjoint p pt x); [by apply HT|apply Hv|done|done].
Qed.

(** The entries of a page whose subtables are [Ts], from entry [512 - i] on *)
Lemma freewalk_entries_run L pt : frees L -> valid_page kend pt -> forall (i : nat) (Ts : nat -> list Z) s free, (i <= 512)%nat -> kinv kend s free -> pt ∉ free ->
  (forall j : nat, (512 - i <= j < 512)%nat ->
     if has (load64 (phys s) (pte_at pt (Z.of_nat j))) PTE_V
     then has (load64 (phys s) (pte_at pt (Z.of_nat j))) PTE_RWX = false /\ tbl (phys s) L (PTE2PA (load64 (phys s) (pte_at pt (Z.of_nat j)))) (Ts j)
     else Ts j = []) ->
  valid_pages (concat (Ts <$> seq (512 - i) i)) -> pt ∉ concat (Ts <$> seq (512 - i) i) -> (forall p, p ∈ concat (Ts <$> seq (512 - i) i) -> p ∉ free) ->
  exists s' free', freewalk_entries (freewalk kend (S L)) pt i s = Ret tt s' /\ kinv kend s' free' /\ free' ≡ₚ concat (Ts <$> seq (512 - i) i) ++ free /\
    held s' = held s /\ (forall x, ~ in_page pt x -> (forall p, p ∈ concat (Ts <$> seq (512 - i) i) -> ~ in_page p x) -> phys s' x = phys s x).
Proof.
  intros HL Hpt. induction i as [|i IH]; intros Ts s free Hi I Hpf Hent HT HpT Hfr; [by exists s, free|].
  cbn [freewalk_entries]. replace (512 - Z.of_nat (S i)) with (Z.of_nat (512 - S i)) by lia. set (j := (512 - S i)%nat) in *.
  assert (Eseq : seq j (S i) = j :: seq (512 - i) i) by (rewrite <- cons_seq; do 2 f_equal; lia). rewrite Eseq in *. rewrite fmap_cons in *. cbn [concat] in *.
  set (rest := concat (Ts <$> seq (512 - i) i)) in *. destruct HT as [HN HV]. apply NoDup_app in HN as (HN1 & HN12 & HN2).
  rewrite not_elem_of_app in HpT. destruct HpT as [HpT1 HpT2].
  assert (HTj : valid_pages (Ts j)) by (split; [done|intros p Hp; apply HV; apply elem_of_app; by left]).
  assert (HTr : valid_pages rest) by (split; [done|intros p Hp; apply HV; apply elem_of_app; by right]).
  pose proof (Hent j ltac:(lia)) as Hj. unfold load_pte. rewrite bind_get. fold PTE_RWX. destruct (has (load64 (phys s) (pte_at pt (Z.of_nat j))) PTE_V) eqn:EV.
  - destruct Hj as [Hr Ht]. rewrite Hr. cbn [andb negb].
    destruct (HL _ _ s free I Ht HTj) as (s1 & free1 & E1 & [I1 P1 H1 M1]); [intros p Hp; apply Hfr; apply elem_of_app; by left|].
    rewrite (bind_ret_intro _ _ _ _ _ E1). unfold store_pte, bind at 1, modify.
    assert (Hpf1 : pt ∉ free1) by (rewrite P1, not_elem_of_app; done).
    pose proof (kinv_store s1 free1 pt j 0 I1 Hpt Hpf1 ltac:(lia)) as I2. set (s2 := set_phys _ s1) in *.
    assert (Hm2 : forall x, ~ in_page pt x -> (forall p, p ∈ Ts j -> ~ in_page p x) -> phys s2 x = phys s x).
    { intros x Hx Hx'. unfold s2. cbn [set_phys phys]. rewrite store64_other; [by apply M1|]. intros Hin. apply Hx. apply (pte_at_in_page pt (Z.of_nat j)); [lia|done]. }
    destruct (IH Ts s2 free1) as (s' & free' & E' & I' & P' & H' & M'); try done; [lia| | |].
    + intros k Hk. pose proof (Hent k ltac:(lia)) as Hk'.
      assert (El : load64 (phys s2) (pte_at pt (Z.of_nat k)) = load64 (phys s) (pte_at pt (Z.of_nat k))).
      { unfold s2. cbn [set_phys phys]. rewrite load64_store64_other by (apply (pte_at_disjoint kend); [done|done|lia|lia|right; lia]).
        apply load64_page_frame; [lia|]. intros x Hx. apply M1. by apply (not_in_page (Ts j) pt). }
      rewrite El. case_match; [|done]. destruct Hk' as [Hr' Ht']. split; [done|]. eapply tbl_frame; [exact Ht'|]. intros p x Hp Hx.
      assert (Hpr : p ∈ rest) by (apply elem_of_concat_map; exists k; split; [apply elem_of_seq; lia|done]). apply Hm2.
      * intros Hx'. assert (p = pt) as ->; [|done]. apply (pages_disjoint p pt x); [apply HTr, Hpr|apply Hpt|done|done].
      * apply (not_in_page (Ts j) p); [done|by apply HTr| |done]. intros Hpj. by apply (HN12 p).
    + intros p Hp. rewrite P1, not_elem_of_app. split; [intros Hpj; by apply (HN12 p)|apply Hfr; apply elem_of_app; by right].
    + exists s', free'. split_and!; [done|done|rewrite P', P1; solve_Permutation|by rewrite H'|].
      intros x Hx Hx'. rewrite M', Hm2; [done|done|intros p Hp; apply Hx'; apply elem_of_app; by left|done|intros p Hp; apply Hx'; apply elem_of_app; by right].
  - cbn [andb]. rewrite Hj in *. cbn [app] in *. destruct (IH Ts s free) as (s' & free' & E' & R'); try done; [lia|intros k Hk; apply Hent; lia|]. by exists s', free'.
Qed.

Lemma empty_entries rec pt s : (forall j : nat, (j < 512)%nat -> has (load64 (phys s) (pte_at pt (Z.of_nat j))) PTE_V = false) ->
  forall i : nat, (i <= 512)%nat -> freewalk_entries rec pt i s = Ret tt s.
Proof.
  intros Hv. induction i as [|i IH]; intros Hi; [done|]. cbn [freewalk_entries]. replace (512 - Z.of_nat (S i)) with (Z.of_nat (512 - S i)) by lia.
  unfold load_pte. rewrite bind_get, Hv by lia. cbn [andb]. apply IH. lia.
Qed.

Lemma freewalk_step depth pt : freewalk kend (S depth) pt = (freewalk_entries (freewalk kend depth) pt 512 ;;; kfree kend pt)%kernel.
Proof. reflexivity. Qed.

(** freewalk gives back every page of a table without leaves. *)
Lemma freewalk_frees L : frees L.
Proof.
  induction L as [|L IH]; intros pt T s free I Ht HT Hfr; pose proof (tbl_head _ _ _ _ Ht) as Hpt.
  - destruct Ht as [-> Hv]. destruct (kfree_gives s free pt I) as (s' & Hk & G); [by apply HT|by apply Hfr|].
    exists s', (pt :: free). split; [|done]. rewrite freewalk_step, (bind_ret_intro _ _ _ _ _ (empty_entries _ pt s Hv 512 (le_n _))). exact Hk.
  - destruct Ht as (Ts & -> & Hent). destruct HT as [HN HV]. apply NoDup_cons in HN as [HpT HN].
    assert (Hptv : valid_page kend pt) by (apply HV; left).
    destruct (freewalk_entries_run L pt IH Hptv 512 Ts s free (le_n _) I) as (s1 & free1 & E1 & I1 & P1 & H1 & M1).
    + apply Hfr. left.
    + intros j Hj. apply Hent. lia.
    + split; [done|]. intros p Hp. apply HV. by right.
    + done.
    + intros p Hp. apply Hfr. by right.
    + destruct (kfree_gives s1 free1 pt I1 Hptv) as (s' & Hk & [I' P' H' M']).
      * rewrite P1, not_elem_of_app. split; [done|]. apply Hfr. left.
      * exists s', (pt :: free1). split; [rewrite freewalk_step, (bind_ret_intro _ _ _ _ _ E1); exact Hk|].
        change (512 - 512)%nat with 0%nat in *. constructor; [done|by rewrite P1|by rewrite H'|].
        intros x Hx. rewrite M', M1; [done|apply Hx; left|intros p Hp; apply Hx; by right|intros p ->%list_elem_of_singleton; apply Hx; left].
Qed.

(** ** The pages of a table *)

(** The table pages of shape [D] from level [L], key [k] down *)
Fixpoint pages (D : shape) (L : nat) (k : Z) : list Z :=
  match D L k with
  | None => []
  | Some pt => match L with O => [pt] | S L => pt :: concat ((fun i => pages D L (k * 512 + Z.of_nat i)) <$> seq 0 512) end
  end.

Lemma pages_none D L k : D L k = None -> pages D L k = [].
Proof. intros E. destruct L; cbn [pages]; by rewrite E. Qed.

(** The table as a tree *)
Lemma pages_tbl m root D : ptable kend m root D -> (forall k pt i, D O k = Some pt -> 0 <= i < 512 -> has (load64 m (pte_at pt i)) PTE_V = false) ->
  forall L k pt, D L k = Some pt -> tbl m L pt (pages D L k).
Proof.
  intros P Hleaf. induction L as [|L IH]; intros k pt HD; cbn [pages tbl]; rewrite HD.
  - split; [done|]. intros i Hi. by apply (Hleaf k); [|lia].
  - exists (fun i => pages D L (k * 512 + Z.of_nat i)). split; [done|]. intros i Hi.
    pose proof (pt_child _ _ _ _ P L k pt (Z.of_nat i) HD ltac:(lia)) as Hc. cbv zeta in Hc. case_match eqn:EV.
    + split; [apply (pt_dir _ _ _ _ P L k pt); [done|lia|done]|]. by apply IH.
    + by apply pages_none.
Qed.

(** Where the pages are in the shape *)
Lemma pages_in D p L : forall k, p ∈ pages D L k -> exists L' k', (L' <= L)%nat /\ D L' k' = Some p /\ k' / 512 ^ Z.of_nat (L - L') = k.
Proof.
  induction L as [|L IH]; intros k; cbn [pages]; destruct (D _ k) as [pt|] eqn:HD; try (by intros ?%elem_of_nil).
  - intros ->%list_elem_of_singleton. exists O, k. split_and!; [done|done|]. change (Z.of_nat (0 - 0)) with 0. by rewrite Z.pow_0_r, Z.div_1_r.
  - intros [->|Hin]%elem_of_cons.
    + exists (S L), k. split_and!; [done|done|]. rewrite Nat.sub_diag. change (Z.of_nat 0) with 0. by rewrite Z.pow_0_r, Z.div_1_r.
    + apply elem_of_concat_map in Hin as (i & Hi & Hp). apply elem_of_seq in Hi. destruct (IH _ Hp) as (L' & k' & HL & HD' & Hk). exists L', k'. split_and!; [lia|done|].
      replace (Z.of_nat (S L - L')) with (Z.of_nat (L - L') + 1) by lia. rewrite Z.pow_add_r, Z.pow_1_r, <- Z.div_div by lia. rewrite Hk, Z.div_add_l by lia.
      rewrite Z.div_small by lia. lia.
Qed.

Lemma pages_NoDup m root D : ptable kend m root D -> forall L k, NoDup (pages D L k).
Proof.
  intros P. induction L as [|L IH]; intros k; cbn [pages]; destruct (D _ k) as [pt|] eqn:HD; try constructor.
  - apply not_elem_of_nil.
  - constructor.
  - intros Hin. apply elem_of_concat_map in Hin as (i & Hi & Hp). destruct (pages_in _ _ _ _ Hp) as (L' & k' & HL & HD' & _).
    destruct (pt_inj _ _ _ _ P _ _ _ _ _ HD HD'). lia.
  - apply NoDup_concat_map; [apply NoDup_seq|intros; apply IH|]. intros i j p Hi Hj Hpi Hpj. apply elem_of_seq in Hi, Hj.
    destruct (pages_in _ _ _ _ Hpi) as (L1 & k1 & HL1 & HD1 & Hk1), (pages_in _ _ _ _ Hpj) as (L2 & k2 & HL2 & HD2 & Hk2).
    destruct (pt_inj _ _ _ _ P _ _ _ _ _ HD1 HD2) as [<- <-]. lia.
Qed.

(** Every table page has its parents. *)
Lemma pages_complete m root D p : ptable kend m root D -> p ∈ pages D 2 0 <-> in_shape D p.
Proof.
  intros P. split; [intros Hp; destruct (pages_in _ _ _ _ Hp) as (L & k & _ & HD & _); by exists L, k|].
  assert (Hup : forall L k q, (L < 2)%nat -> D L k = Some q -> exists pt, D (S L) (k / 512) = Some pt).
  { intros L k q HL HD. destruct (D (S L) (k / 512)) as [pt|] eqn:E; [by exists pt|]. pose proof (pt_none _ _ _ _ P L (k / 512) (k mod 512) HL E (Z.mod_pos_bound k 512 ltac:(lia))) as Hn.
    replace (k / 512 * 512 + k mod 512) with k in Hn by (pose proof (Z.div_mod k 512); lia). congruence. }
  assert (Hchild : forall L k q, D (S L) (k / 512) = Some q -> forall x, x ∈ pages D L k -> x ∈ pages D (S L) (k / 512)).
  { intros L k q HD x Hx. cbn [pages]. rewrite HD. right. apply elem_of_concat_map. exists (Z.to_nat (k mod 512)). pose proof (Z.mod_pos_bound k 512 ltac:(lia)).
    split; [apply elem_of_seq; lia|]. rewrite Z2Nat.id by lia. by replace (k / 512 * 512 + k mod 512) with k by (pose proof (Z.div_mod k 512); lia). }
  assert (Hself : forall L k, D L k = Some p -> p ∈ pages D L k) by (intros L k HD; destruct L; cbn [pages]; rewrite HD; left).
  intros (L & k & HD). destruct (pt_valid _ _ _ _ P _ _ _ HD) as [HL _]. destruct L as [|[|[|L]]]; [| | |lia].
  - destruct (Hup 0%nat k p ltac:(lia) HD) as [q1 H1]. destruct (Hup 1%nat (k / 512) q1 ltac:(lia) H1) as [q2 H2].
    pose proof (pt_top _ _ _ _ P _ _ H2) as Hk. rewrite <- Hk. eapply Hchild; [exact H2|]. eapply Hchild; [exact H1|]. by apply Hself.
  - destruct (Hup 1%nat k p ltac:(lia) HD) as [q2 H2]. pose proof (pt_top _ _ _ _ P _ _ H2) as Hk. rewrite <- Hk. eapply Hchild; [exact H2|]. by apply Hself.
  - pose proof (pt_top _ _ _ _ P _ _ HD) as ->. by apply Hself.
Qed.

(** ** A user address space *)

(** The pages with PTE_U *)
Context (acc : nat -> Prop).

(** [pas]: the pages at virtual pages 0, 1, ...; [hi]: the PTEs above them; [total]: all
    the pages that were free before the table was created *)
Record uspace (s : kstate) (root : Z) (D : shape) (free pas : list Z) (hi : Z -> Z) (total : list Z) : Prop := {
  us_inv : vm_inv kend s root D free;
  us_low : forall (i : nat) pa va, pas !! i = Some pa -> vpn va = Z.of_nat i ->
    exists perm, 0 <= perm < 1024 /\ has perm PTE_R = true /\ (acc i -> has perm PTE_U = true) /\ leaf (phys s) D va = mk_pte pa perm;
  us_high : forall va, ~ 0 <= vpn va < Z.of_nat (length pas) -> leaf (phys s) D va = hi (vpn va);
  us_pages : pages D 2 0 ++ pas ++ free ≡ₚ total;
  us_total : valid_pages total }.

Section uspace_facts.
Context (s : kstate) (root : Z) (D : shape) (free pas : list Z) (hi : Z -> Z) (total : list Z).
Hypothesis U : uspace s root D free pas hi total.

Lemma us_pt : ptable kend (phys s) root D.
Proof. apply (vi_pt _ _ _ _ _ (us_inv _ _ _ _ _ _ _ U)). Qed.

Lemma us_in_total p : p ∈ total <-> in_shape D p \/ p ∈ pas \/ p ∈ free.
Proof. rewrite <- (us_pages _ _ _ _ _ _ _ U), !elem_of_app, (pages_complete _ _ _ _ us_pt). done. Qed.

Lemma us_valid p : p ∈ total -> valid_page kend p.
Proof. apply (us_total _ _ _ _ _ _ _ U). Qed.

Lemma us_apart : NoDup pas /\ NoDup free /\ (forall p, p ∈ pas -> p ∉ free) /\ forall p, in_shape D p -> p ∉ pas /\ p ∉ free.
Proof.
  destruct (us_total _ _ _ _ _ _ _ U) as [N _]. rewrite <- (us_pages _ _ _ _ _ _ _ U) in N. apply NoDup_app in N as (_ & N1 & N). apply NoDup_app in N as (N2 & N3 & N4).
  split_and!; [done|done|done|]. intros p Hp. rewrite <- (pages_complete _ _ _ p us_pt) in Hp. specialize (N1 p Hp). rewrite not_elem_of_app in N1. done.
Qed.

(** Distinct pages of the space do not overlap. *)
Lemma us_page p q x : p ∈ total -> q ∈ total -> in_page p x -> in_page q x -> p = q.
Proof. intros Hp Hq. apply pages_disjoint; by apply us_valid. Qed.
End uspace_facts.

(** Of the pages [total] only those outside [K] have changed, and no other memory. *)
Definition keeps_pages (total K : list Z) (s s' : kstate) : Prop := forall x, (forall p, p ∈ total -> in_page p x -> p ∈ K) -> phys s' x = phys s x.

Lemma keeps_pages_refl total K s : keeps_pages total K s s.
Proof. by intros x. Qed.

Lemma keeps_pages_trans total K s1 s2 s3 : keeps_pages total K s1 s2 -> keeps_pages total K s2 s3 -> keeps_pages total K s1 s3.
Proof. intros H1 H2 x Hx. rewrite (H2 x Hx). by apply H1. Qed.

Lemma keeps_pages_mono total K K' s s' : (forall p, p ∈ K -> p ∈ K') -> keeps_pages total K' s s' -> keeps_pages total K s s'.
Proof. intros HK H x Hx. apply H. intros p Hp Hpx. by apply HK, Hx. Qed.

Lemma keeps_pages_at s0 root D free pas hi total K s s' p x : uspace s0 root D free pas hi total -> keeps_pages total K s s' -> p ∈ K -> p ∈ total -> in_page p x -> phys s' x = phys s x.
Proof. intros U H Hp Hpt Hx. apply H. intros q Hq Hqx. by rewrite (us_page _ _ _ _ _ _ _ U q p x Hq Hpt Hqx Hx). Qed.

Lemma has_mk_pte pa perm f : has perm f = true -> has (mk_pte pa perm) f = true.
Proof.
  unfold has, mk_pte. intros Hp%negb_true_iff%Z.eqb_neq. apply negb_true_iff, Z.eqb_neq. intros Hz. apply Hp.
  apply Z.bits_inj'. intros n Hn. rewrite Z.bits_0. pose proof (f_equal (fun z => Z.testbit z n) Hz) as Hb. cbv beta in Hb. rewrite Z.bits_0, Z.land_spec, !Z.lor_spec in Hb.
  rewrite Z.land_spec. destruct (Z.testbit perm n), (Z.testbit f n); try done. by rewrite orb_true_r in Hb.
Qed.

(** A PTE with the read bit can be unmapped. *)
Lemma mk_pte_unmappable pa perm : has perm PTE_R = true -> unmappable (mk_pte pa perm).
Proof.
  intros Hr. split; [apply has_V_lor|]. intros Hf. pose proof (has_mk_pte pa perm PTE_R Hr) as Hh.
  unfold PTE_FLAGS in Hf. unfold has in Hh. apply negb_true_iff, Z.eqb_neq in Hh. apply Hh.
  replace PTE_R with (Z.land 1023 PTE_R) by done. rewrite Z.land_assoc, Hf. done.
Qed.

(** *** Taking a page and clearing it *)

(** [fill] writes the page [p] only. *)
Definition fills (p : Z) (fill : mem -> mem) : Prop := (forall m x, Memory.bytes m -> ~ in_page p x -> fill m x = m x) /\ forall m, Memory.bytes m -> Memory.bytes (fill m).

Lemma memset_fills p c : fills p (fun m => memset m p c PGSIZE).
Proof. split; [intros m x _ Hx; by rewrite memset_at, decide_False|intros m; apply memset_bytes]. Qed.

Lemma take_page s root D p rest fill : vm_inv kend s root D (p :: rest) -> fills p fill ->
  exists s1, kalloc s = Ret p s1 /\ p <> 0 /\ (forall x, phys s1 x = if decide (in_page p x) then 5 else phys s x) /\ Memory.bytes (phys s1) /\
    let s2 := set_phys fill s1 in
    vm_inv kend s2 root D rest /\ held s2 = held s /\ (forall va, leaf (phys s2) D va = leaf (phys s) D va) /\
    (forall x, ~ in_page p x -> phys s2 x = phys s x).
Proof.
  intros [I P Hsep] [Hf Hfb]. pose proof (kalloc_spec kend kend_pos _ _ I) as (s1 & Ha & I1 & Hh & Hm). exists s1.
  assert (Hv : valid_page kend p) by (eapply (chain_valid kend); [apply I|left]). pose proof (valid_page_range kend kend_ok p Hv) as [Hp _].
  split_and!; [done|lia|done|apply I1|]. cbv zeta. set (s2 := set_phys _ s1).
  assert (Hm2 : forall x, ~ in_page p x -> phys s2 x = phys s x) by (intros x Hx; unfold s2; cbn [set_phys phys]; rewrite Hf by (done || apply I1); by rewrite Hm, decide_False).
  assert (Hfr : forall q x, in_shape D q -> in_page q x -> phys s2 x = phys s x).
  { intros q x Hq Hx. apply Hm2. intros Hx'. assert (p = q) as ->; [|apply (Hsep q Hq); left].
    apply (pages_disjoint p q x); [apply Hv| |done|done]. destruct Hq as (L & k & Hq). by destruct (pt_valid _ _ _ _ P _ _ _ Hq) as [_ []]. }
  split_and!; [|done| |done].
  - constructor; [|by apply (ptable_frame kend (phys s))|intros q Hq Hin; apply (Hsep q Hq); by right].
    apply (kinv_frame kend s1); [done|apply Hfb, I1|done|done|]. intros q x Hq Hx.
    assert (Hn : ~ in_page p x); [|by rewrite Hm2, Hm, decide_False]. intros Hx'. pose proof (kinv_nodup _ _ _ I) as Hnd. apply NoDup_cons in Hnd as [Hnd _]. apply Hnd.
    replace p with q; [done|]. apply (pages_disjoint q p x); [eapply (chain_valid kend); [apply I1|done]|apply Hv|done|done].
  - intros va. apply (leaf_frame kend _ _ root); done.
Qed.

(** A vm_inv with other free pages, when nothing else changed *)
Lemma grown_pages s root D s' D' (new : list Z) : ptable kend (phys s) root D -> ptable kend (phys s') root D' -> NoDup new ->
  (forall p, in_shape D p -> p ∉ new) -> (forall p, in_shape D' p <-> in_shape D p \/ p ∈ new) -> pages D' 2 0 ≡ₚ pages D 2 0 ++ new.
Proof.
  intros P P' Hn Hd Hnew. apply NoDup_Permutation.
  - by apply (pages_NoDup _ root D' P').
  - apply NoDup_app. split_and!; [by apply (pages_NoDup _ root D P)| |done]. intros p Hp. apply Hd. by apply (pages_complete _ _ _ _ P).
  - intros p. rewrite elem_of_app, (pages_complete _ _ _ _ P), (pages_complete _ _ _ _ P'). apply Hnew.
Qed.

(** *** Mapping one more page *)

Lemma one_page a : a mod PGSIZE = 0 -> range_pages a PGSIZE = 1 /\ forall x, a <= x < a + PGSIZE -> vpn x = vpn a.
Proof.
  intros Ha. assert (Hx : forall x, a <= x < a + PGSIZE -> vpn x = vpn a).
  { intros x Hx. unfold vpn, PGSIZE in *. pose proof (Z.div_mod a 4096). pose proof (Z.div_mod x 4096). pose proof (Z.mod_pos_bound x 4096). lia. }
  split; [|done]. unfold range_pages. rewrite (Hx (a + PGSIZE - 1)) by (unfold PGSIZE; lia). lia.
Qed.

(** The invariant after the page [p], taken from the front of the free list, has become
    the last page of the space *)
Lemma uspace_mapped s root D p pas hi total s2 perm s3 D' new free' :
  uspace s root D (p :: new ++ free') pas hi total -> (forall va, leaf (phys s2) D va = leaf (phys s) D va) ->
  vm_inv kend s3 root D' free' -> pages D' 2 0 ≡ₚ pages D 2 0 ++ new -> 0 <= perm < 1024 -> has perm PTE_R = true -> (acc (length pas) -> has perm PTE_U = true) ->
  (forall va, leaf (phys s3) D' va = map_range (leaf (phys s2) D) (Z.of_nat (length pas) * PGSIZE) p perm 1 va) ->
  uspace s3 root D' free' (pas ++ [p]) hi total.
Proof.
  intros U Hl2 V3 HP Hperm HR HU Hl. assert (Hn : vpn (Z.of_nat (length pas) * PGSIZE) = Z.of_nat (length pas)) by apply vpn_mul.
  unfold map_range in Hl. rewrite Hn in Hl. constructor; [done| | | |apply U].
  - intros i pa va Hi Hva. rewrite Hl, Hl2. destruct (decide (i < length pas)%nat) as [Hlt|Hge].
    + rewrite lookup_app_l in Hi by done. rewrite decide_False by lia. by apply (us_low _ _ _ _ _ _ _ U i).
    + pose proof (lookup_lt_Some _ _ _ Hi) as Hlen. rewrite length_app in Hlen. simpl in Hlen. assert (i = length pas) as -> by lia.
      rewrite lookup_app_r, Nat.sub_diag in Hi by lia. injection Hi as <-. rewrite decide_True by lia. exists perm. split_and!; [lia|lia|done|done|]. f_equal. lia.
  - intros va Hva. rewrite length_app in Hva. simpl in Hva. rewrite Hl, Hl2, decide_False by lia. apply (us_high _ _ _ _ _ _ _ U). lia.
  - rewrite HP, <- (us_pages _ _ _ _ _ _ _ U). solve_Permutation.
Qed.

Lemma map_next s root D p rest pas hi total perm fill : uspace s root D (p :: rest) pas hi total -> (Z.of_nat (length pas) + 1) * PGSIZE <= MAXVA -> fills p fill ->
  0 <= perm < 1024 -> has perm PTE_R = true -> (acc (length pas) -> has perm PTE_U = true) -> has (hi (Z.of_nat (length pas))) PTE_V = false ->
  exists s1, kalloc s = Ret p s1 /\ p <> 0 /\ (forall x, phys s1 x = if decide (in_page p x) then 5 else phys s x) /\ Memory.bytes (phys s1) /\ exists r s3 D' free',
    mappages root (Z.of_nat (length pas) * PGSIZE) PGSIZE p perm (set_phys fill s1) = Ret r s3 /\
    (r = 0 /\ uspace s3 root D' free' (pas ++ [p]) hi total /\ held s3 = held s /\ keeps_pages total pas s s3 /\ (forall x, in_page p x -> phys s3 x = fill (phys s1) x) /\ (length rest <= length free' + 2)%nat \/
     r = -1 /\ (length rest < 2)%nat /\ exists s4, kfree kend p s3 = Ret tt s4 /\ uspace s4 root D' [p] pas hi total /\ held s4 = held s /\ keeps_pages total pas s s4).
Proof.
  intros U Hmax Hfill Hperm HR HU Hhi. destruct (take_page s root D p rest fill (us_inv _ _ _ _ _ _ _ U) Hfill) as (s1 & Ha & Hp0 & Hm1 & Hb1 & V2 & Hh2 & Hl2 & Hm2).
  exists s1. split_and!; [done|done|done|done|]. set (s2 := set_phys fill s1) in *. set (a := Z.of_nat (length pas) * PGSIZE) in *.
  assert (Hpt : p ∈ total) by (apply (us_in_total _ _ _ _ _ _ _ U); right; right; left). pose proof (us_valid _ _ _ _ _ _ _ U p Hpt) as Hpv.
  pose proof (valid_page_range kend kend_ok p Hpv) as [Hpr Hpal]. pose proof PHYSTOP_small as Hps.
  destruct (one_page a) as [Hrp Hvx]; [unfold a; apply Z.mod_mul; unfold PGSIZE; lia|].
  assert (Hn : vpn a = Z.of_nat (length pas)) by apply vpn_mul.
  destruct (mappages_spec kend kend_ok s2 root D rest a PGSIZE p perm V2) as (r & s3 & D' & new & free' & cnt & Hr & [Mf Mi Ml Mn Mleaf Mm Mh Mc Mlen Mr]);
    [unfold a, PGSIZE; lia|unfold PGSIZE; lia|unfold a, PGSIZE, MAXVA in *; lia|lia|rewrite Hrp; unfold PGSIZE; lia|done| |].
  { intros x Hx. rewrite Hl2, (us_high _ _ _ _ _ _ _ U); rewrite (Hvx x Hx), Hn; [done|lia]. }
  exists r, s3, D', free'. split; [done|]. rewrite Hrp in Mr, Mc. rewrite Mf in U. assert (Hlr : length rest = (length new + length free')%nat) by (by rewrite Mf, length_app).
  destruct (us_apart _ _ _ _ _ _ _ U) as (Np & Nf & Dpf & Dt). apply NoDup_cons in Nf as [Npn Nf]. apply NoDup_app in Nf as (Nn & _ & _). rewrite not_elem_of_app in Npn.
  assert (HP : pages D' 2 0 ≡ₚ pages D 2 0 ++ new).
  { apply (grown_pages s2 root D s3 D' new); [apply V2|apply Mi|done| |done]. intros q Hq Hqn. destruct (Dt q Hq) as [_ Hqf]. apply Hqf. right. apply elem_of_app. by left. }
  assert (Hnt : forall q, q ∈ p :: pas -> ~ in_shape D' q).
  { intros q Hq Hs. apply Mn in Hs as [Hs|Hs].
    - destruct (Dt q Hs) as [H1 H2]. apply elem_of_cons in Hq as [->|Hq]; [apply H2; left|done].
    - apply elem_of_cons in Hq as [->|Hq]; [by destruct Npn|]. apply (Dpf q Hq). right. apply elem_of_app. by left. }
  assert (Htot : forall t, in_shape D' t -> t ∈ total).
  { intros t Ht. apply (us_in_total _ _ _ _ _ _ _ U). apply Mn in Ht as [|Ht]; [by left|]. right. right. right. apply elem_of_app. by left. }
  assert (Hk : keeps_pages total pas s s3).
  { intros x Hx. rewrite Mm by (intros t Ht Hx'; apply (Hnt t); [right; by apply Hx, Hx'; apply Htot|done]). apply Hm2. intros Hx'. apply (Dpf p (Hx p Hpt Hx')). left. }
  destruct Mr as [[-> ->]|(-> & -> & Hcnt)]; [left|right]; (split; [done|]).
  - split_and!; [by eapply (uspace_mapped s root D p pas hi total s2 perm)|by rewrite Mh|done| |lia].
    intros x Hx. rewrite Mm; [done|]. intros t Ht Hx'. apply (Hnt p); [left|]. by rewrite <- (us_page _ _ _ _ _ _ _ U t p x (Htot t Ht) Hpt Hx' Hx).
  - assert (cnt = 0) as -> by lia. destruct (kfree_vm_inv kend kend_ok s3 root D' [] p Mi Hpv) as (s4 & Hkf & V4 & Hh4 & Hl4 & Hm4); [apply not_elem_of_nil|apply Hnt; left|].
    split; [simpl in Hlr; lia|]. exists s4. split_and!; [done| |by rewrite Hh4, Mh|].
    + constructor; [done| | | |apply U].
      * intros i pa va Hi Hva. rewrite Hl4, Mleaf, map_range_0, Hl2. by apply (us_low _ _ _ _ _ _ _ U i).
      * intros va Hva. rewrite Hl4, Mleaf, map_range_0, Hl2. by apply (us_high _ _ _ _ _ _ _ U).
      * rewrite HP, <- (us_pages _ _ _ _ _ _ _ U), app_nil_r. solve_Permutation.
    + intros x Hx. rewrite Hm4; [by apply Hk|]. intros Hx'. apply (Dpf p (Hx p Hpt Hx')). left.
Qed.

(** *** Giving pages back *)

Lemma us_pas_range s root D free pas hi total (n : nat) : uspace s root D free pas hi total -> (n <= length pas)%nat ->
  range_pas (leaf (phys s) D) (Z.of_nat n * PGSIZE) (length pas - n) = drop n pas.
Proof.
  intros U Hn. apply list_eq. intros i. rewrite lookup_drop. unfold range_pas. rewrite list_lookup_fmap.
  destruct (decide (i < length pas - n)%nat) as [Hi|Hi].
  - rewrite seq_lookup_Some by done. cbn [fmap option_fmap option_map]. destruct (lookup_lt_is_Some_2 pas (n + i)) as [pa Hpa]; [lia|]. rewrite Hpa. f_equal.
    destruct (us_low _ _ _ _ _ _ _ U (n + i)%nat pa (Z.of_nat n * PGSIZE + Z.of_nat i * PGSIZE) Hpa) as (perm & Hperm & _ & _ & ->); [rewrite <- Z.mul_add_distr_r, vpn_mul; lia|].
    assert (Hv : valid_page kend pa) by (apply (us_valid _ _ _ _ _ _ _ U), (us_in_total _ _ _ _ _ _ _ U); right; left; by eapply list_elem_of_lookup_2).
    pose proof (valid_page_range kend kend_ok pa Hv) as [Hr Hal]. pose proof PHYSTOP_small. apply mk_pte_pa; [done|lia|done].
  - rewrite lookup_ge_None_2 by (rewrite length_seq; lia). symmetry. apply lookup_ge_None. lia.
Qed.

Lemma unmap_last s root D free pas hi total (n : nat) : uspace s root D free pas hi total -> (n <= length pas)%nat -> Z.of_nat (length pas) * PGSIZE <= MAXVA ->
  (forall v, 0 <= v < Z.of_nat (length pas) -> hi v = 0) ->
  exists s', uvmunmap kend root (Z.of_nat n * PGSIZE) (Z.of_nat (length pas - n)) true s = Ret tt s' /\
    uspace s' root D (reverse (drop n pas) ++ free) (take n pas) hi total /\ held s' = held s /\ keeps_pages total (take n pas) s s'.
Proof.
  intros U Hn Hmax Hhi. pose proof (us_pas_range s root D free pas hi total n U Hn) as Hpas. destruct (us_apart _ _ _ _ _ _ _ U) as (Np & Nf & Dpf & Dt).
  assert (Hsub : forall p, p ∈ drop n pas -> p ∈ pas) by (intros p Hp; rewrite <- (take_drop n pas); apply elem_of_app; by right).
  unfold uvmunmap. rewrite Z.mod_mul by (unfold PGSIZE; lia). cbn [Z.eqb negb]. rewrite Nat2Z.id, u64_small by (unfold MAXVA, PGSIZE in *; lia).
  destruct (uvmunmap_loop_spec kend kend_ok true (length pas - n) s root D free (Z.of_nat n * PGSIZE) (us_inv _ _ _ _ _ _ _ U)) as (s' & Hr & V' & Hl' & Hh' & Hm').
  - unfold PGSIZE. lia.
  - unfold PGSIZE in *. lia.
  - apply Z.mod_mul. unfold PGSIZE. lia.
  - intros i Hi. destruct (lookup_lt_is_Some_2 pas (n + i)) as [pa Hpa]; [lia|].
    destruct (us_low _ _ _ _ _ _ _ U (n + i)%nat pa (Z.of_nat n * PGSIZE + Z.of_nat i * PGSIZE) Hpa) as (perm & _ & HR & _ & ->); [rewrite <- Z.mul_add_distr_r, vpn_mul; lia|].
    by apply mk_pte_unmappable.
  - intros _. rewrite Hpas. split; [rewrite <- (take_drop n pas) in Np; by apply NoDup_app in Np as (_ & _ & ?)|].
    intros p Hp%Hsub. split_and!; [apply (us_valid _ _ _ _ _ _ _ U), (us_in_total _ _ _ _ _ _ _ U); right; by left|by apply Dpf|].
    intros Hs. by destruct (Dt p Hs) as [? _].
  - rewrite Hpas in V'. exists s'. split_and!; [done| |done|].
    + constructor; [done| | | |apply U].
      * intros i pa va Hi Hva. apply lookup_take_Some in Hi as [Hi Hin]. rewrite Hl'. unfold unmap_range. rewrite vpn_mul, decide_False by lia. by apply (us_low _ _ _ _ _ _ _ U i).
      * intros va Hva. rewrite length_take in Hva. rewrite Hl'. unfold unmap_range. rewrite vpn_mul. case_decide; [symmetry; apply Hhi; lia|].
        apply (us_high _ _ _ _ _ _ _ U). lia.
      * rewrite <- (us_pages _ _ _ _ _ _ _ U), reverse_Permutation. rewrite <- (take_drop n pas) at 3. solve_Permutation.
    + assert (Htake : forall p, p ∈ take n pas -> p ∈ pas) by (intros p Hp; rewrite <- (take_drop n pas); apply elem_of_app; by left).
      intros x Hx. apply Hm'.
      * intros q Hq Hx'. destruct (Dt q Hq) as [Hqp _]. apply Hqp, Htake, Hx; [|done]. apply (us_in_total _ _ _ _ _ _ _ U). by left.
      * intros _ q Hq Hx'. rewrite Hpas in Hq. assert (Hqt : q ∈ take n pas) by (apply Hx; [|done]; apply (us_in_total _ _ _ _ _ _ _ U); right; left; by apply Hsub).
        rewrite <- (take_drop n pas) in Np. apply NoDup_app in Np as (_ & Np & _). by apply (Np q).
Qed.

(** *** uvmdealloc *)

(** The number of pages of [sz] bytes *)
Definition npages (sz : Z) : nat := Z.to_nat (PGROUNDUP sz / PGSIZE).

Lemma npages_round sz : 0 <= sz <= MAXVA -> PGROUNDUP sz = Z.of_nat (npages sz) * PGSIZE /\ sz <= PGROUNDUP sz < sz + PGSIZE.
Proof.
  intros Hsz. unfold npages. assert (E : PGROUNDUP sz = sz + (- sz) mod PGSIZE) by (apply PGROUNDUP_eq; unfold MAXVA, PGSIZE in *; lia).
  pose proof (Z.mod_pos_bound (- sz) PGSIZE ltac:(unfold PGSIZE; lia)) as Hb. assert (Hm : (sz + (- sz) mod PGSIZE) mod PGSIZE = 0).
  { rewrite Zplus_mod_idemp_r. replace (sz + - sz) with 0 by lia. done. }
  rewrite E. split; [|lia]. pose proof (Z.div_mod (sz + (- sz) mod PGSIZE) PGSIZE ltac:(unfold PGSIZE; lia)) as Hd. rewrite Hm in Hd.
  assert (0 <= (sz + (- sz) mod PGSIZE) / PGSIZE) by (apply Z.div_pos; unfold PGSIZE in *; lia). rewrite Z2Nat.id by lia. lia.
Qed.

Lemma npages_mono a b : 0 <= a <= b -> b <= MAXVA -> (npages a <= npages b)%nat.
Proof. intros Ha Hb. pose proof (npages_round a ltac:(lia)) as [E1 B1]. pose proof (npages_round b ltac:(lia)) as [E2 B2]. unfold PGSIZE in *. lia. Qed.

Lemma npages_mul (n : nat) : Z.of_nat n * PGSIZE <= MAXVA -> npages (Z.of_nat n * PGSIZE) = n.
Proof. intros Hn. pose proof (npages_round (Z.of_nat n * PGSIZE) ltac:(unfold PGSIZE in *; lia)) as [E B]. unfold PGSIZE in *. lia. Qed.

Lemma uvmdealloc_run s root D free pas hi total oldsz newsz : uspace s root D free pas hi total -> length pas = npages oldsz -> 0 <= newsz <= oldsz -> PGROUNDUP oldsz <= MAXVA -> oldsz <= MAXVA ->
  (forall v, 0 <= v < Z.of_nat (length pas) -> hi v = 0) ->
  exists s' free', uvmdealloc kend root oldsz newsz s = Ret newsz s' /\ uspace s' root D free' (take (npages newsz) pas) hi total /\ held s' = held s /\
    keeps_pages total (take (npages newsz) pas) s s'.
Proof.
  intros U Hlen Hsz Hup Hmax Hhi. pose proof (npages_round oldsz ltac:(lia)) as [Eo Bo]. pose proof (npages_round newsz ltac:(lia)) as [En Bn].
  pose proof (npages_mono newsz oldsz ltac:(lia) ltac:(lia)) as Hmono.
  assert (Hsame : npages newsz = npages oldsz -> take (npages newsz) pas = pas) by (intros E; apply take_ge; lia).
  unfold uvmdealloc. destruct (oldsz <=? newsz) eqn:E1; bool_to_prop.
  { assert (newsz = oldsz) as -> by lia. exists s, free. rewrite Hsame by done. split_and!; [done|done|done|apply keeps_pages_refl]. }
  destruct (PGROUNDUP newsz <? PGROUNDUP oldsz) eqn:E2; bool_to_prop.
  - assert (Hd : (PGROUNDUP oldsz - PGROUNDUP newsz) / PGSIZE = Z.of_nat (length pas - npages newsz)).
    { rewrite Eo, En, <- Z.mul_sub_distr_r, Z.div_mul by (unfold PGSIZE; lia). lia. }
    rewrite Hd. unfold MAXVA, PGSIZE in *. rewrite s32_small, u64_small, En by lia.
    destruct (unmap_last s root D free pas hi total (npages newsz) U ltac:(lia) ltac:(unfold PGSIZE, MAXVA; lia) Hhi) as (s' & Hr & U' & Hh & Hk).
    rewrite (bind_ret_intro _ _ _ _ _ Hr). by exists s', (reverse (drop (npages newsz) pas) ++ free).
  - exists s, free. rewrite Hsame by (unfold PGSIZE in *; lia). split_and!; [done|done|done|apply keeps_pages_refl].
Qed.

(** *** uvmalloc *)

Definition zero_pages (K : list Z) (s : kstate) : Prop := forall p x, p ∈ K -> in_page p x -> phys s x = 0.

(** Where user memory ends: below it no PTE but those of the space *)
Definition low_clear (hi : Z -> Z) : Prop := forall v, 0 <= v < vpn TRAPFRAME -> hi v = 0.

Lemma TRAPFRAME_bounds : vpn TRAPFRAME * PGSIZE = TRAPFRAME /\ TRAPFRAME < MAXVA.
Proof. split; [reflexivity|]. unfold TRAPFRAME, TRAMPOLINE, MAXVA, PGSIZE. lia. Qed.

Definition grown_to (s : kstate) (root : Z) (free pas : list Z) (hi : Z -> Z) (total : list Z) (n0 : nat) (newsz : Z) (o : outcome kstate Z) : Prop :=
  exists r s' D' free' pas', o = Ret r s' /\ uspace s' root D' free' pas' hi total /\ held s' = held s /\
    (r = newsz /\ (exists more, pas' = pas ++ more /\ zero_pages more s') /\ length pas' = npages newsz /\ keeps_pages total pas s s' /\ (length free <= length free' + 3 * (npages newsz - length pas))%nat \/
     r = 0 /\ pas' = take n0 pas /\ keeps_pages total pas' s s' /\ (length free < 3 * (npages newsz - length pas))%nat).

Lemma back_out s root D free pas hi total (n0 : nat) : uspace s root D free pas hi total -> (n0 <= length pas)%nat -> Z.of_nat (length pas) * PGSIZE <= TRAPFRAME -> low_clear hi ->
  exists s' free', (uvmdealloc kend root (Z.of_nat (length pas) * PGSIZE) (Z.of_nat n0 * PGSIZE) ;;; ret 0)%kernel s = Ret 0 s' /\
    uspace s' root D free' (take n0 pas) hi total /\ held s' = held s /\ keeps_pages total (take n0 pas) s s'.
Proof.
  intros U Hn Hmax Hhi. pose proof TRAPFRAME_bounds as [Et Ht]. assert (Hm : Z.of_nat (length pas) * PGSIZE <= MAXVA) by lia.
  pose proof (npages_mul (length pas) Hm) as E1. pose proof (npages_mul n0 ltac:(unfold PGSIZE in *; lia)) as E0.
  destruct (uvmdealloc_run s root D free pas hi total (Z.of_nat (length pas) * PGSIZE) (Z.of_nat n0 * PGSIZE) U) as (s' & free' & Hr & U' & Hh & Hk);
    [done|unfold PGSIZE; lia| |done| |].
  - pose proof (npages_round (Z.of_nat (length pas) * PGSIZE) ltac:(unfold PGSIZE in *; lia)) as [E _]. rewrite E, E1. done.
  - intros v Hv. apply Hhi. unfold PGSIZE in *. lia.
  - rewrite E0 in U', Hk. exists s', free'. split_and!; [|done|done|done]. by rewrite (bind_ret_intro _ _ _ _ _ Hr).
Qed.

Lemma uvmalloc_loop_run root hi total xperm (n0 : nat) newsz : 0 <= xperm < 1024 -> low_clear hi -> 0 <= newsz <= TRAPFRAME ->
  forall fuel s D free pas, uspace s root D free pas hi total -> (n0 <= length pas)%nat -> (length pas <= npages newsz)%nat -> (npages newsz - length pas <= fuel)%nat ->
  grown_to s root free pas hi total n0 newsz (uvmalloc_loop kend fuel root (Z.of_nat n0 * PGSIZE) newsz (Z.of_nat (length pas) * PGSIZE) xperm s).
Proof.
  intros Hx Hhi Hsz. pose proof TRAPFRAME_bounds as [Et Htm]. pose proof (npages_round newsz ltac:(lia)) as [En Bn].
  assert (HN : Z.of_nat (npages newsz) * PGSIZE <= TRAPFRAME).
  { rewrite <- Et in *. unfold PGSIZE in *. lia. }
  assert (Hperm : 0 <= Z.lor (Z.lor PTE_R PTE_U) xperm < 1024) by (change 1024 with (2 ^ 10) in *; apply lor_range; [lia|vm_compute; split; congruence|done]).
  assert (HRU : has (Z.lor (Z.lor PTE_R PTE_U) xperm) PTE_R = true /\ has (Z.lor (Z.lor PTE_R PTE_U) xperm) PTE_U = true).
  { unfold has. split; apply negb_true_iff, Z.eqb_neq; intros Hz; [pose proof (f_equal (fun z => Z.testbit z 1) Hz) as Hb|pose proof (f_equal (fun z => Z.testbit z 4) Hz) as Hb];
      cbv beta in Hb; by rewrite Z.land_spec, !Z.lor_spec in Hb. }
  destruct HRU as [HR HU].
  induction fuel as [|fuel IH]; intros s D free pas U Hn0 Hle Hf; cbn [uvmalloc_loop].
  - assert (length pas = npages newsz) as El by lia. rewrite (proj2 (Z.ltb_ge _ _)) by (rewrite El; lia).
    exists newsz, s, D, free, pas. split_and!; [done|done|done|]. left. split_and!; [done|exists []; split; [by rewrite app_nil_r|by intros p x ?%elem_of_nil]|done|apply keeps_pages_refl|lia].
  - destruct (decide (length pas = npages newsz)) as [El|El].
    { rewrite (proj2 (Z.ltb_ge _ _)) by (rewrite El; lia). exists newsz, s, D, free, pas. split_and!; [done|done|done|]. left.
      split_and!; [done|exists []; split; [by rewrite app_nil_r|by intros p x ?%elem_of_nil]|done|apply keeps_pages_refl|lia]. }
    rewrite (proj2 (Z.ltb_lt _ _)) by (unfold PGSIZE in *; lia). destruct free as [|p rest].
    + pose proof (kalloc_spec kend kend_pos _ _ (vi_k _ _ _ _ _ (us_inv _ _ _ _ _ _ _ U))) as Ha. cbv beta iota in Ha. rewrite (bind_ret_intro _ _ _ _ _ Ha). cbn [Z.eqb].
      destruct (back_out s root D [] pas hi total n0 U Hn0 ltac:(unfold PGSIZE in *; lia) Hhi) as (s' & free' & Hr & U' & Hh & Hk).
      exists 0, s', D, free', (take n0 pas). split_and!; [done|done|done|]. right. split_and!; [done|done|done|simpl; lia].
    + destruct (map_next s root D p rest pas hi total _ _ U ltac:(unfold PGSIZE in *; lia) (memset_fills p 0) Hperm HR (fun _ => HU)) as (s1 & Ha & Hp0 & Hm1 & _ & r & s3 & D' & free' & Hmp & Hres).
      { rewrite Hhi; [done|]. unfold PGSIZE in *. lia. }
      rewrite (bind_ret_intro _ _ _ _ _ Ha), (proj2 (Z.eqb_neq _ _)) by done. unfold bind at 1, modify. rewrite (bind_ret_intro _ _ _ _ _ Hmp).
      destruct Hres as [(-> & U3 & Hh3 & Hk3 & Hz3 & Hl3)|(-> & Hl4 & s4 & Hkf & U4 & Hh4 & Hk4)]; cbn [Z.eqb negb].
      * rewrite u64_small by (unfold MAXVA, PGSIZE in *; lia). replace (Z.of_nat (length pas) * PGSIZE + PGSIZE) with (Z.of_nat (length (pas ++ [p])) * PGSIZE) by (rewrite length_app; simpl; lia).
        destruct (IH s3 D' free' (pas ++ [p]) U3) as (r & s' & D2 & free2 & pas2 & Hr & U2 & Hh2 & Hc); [rewrite length_app; lia|rewrite length_app; simpl; lia|rewrite length_app; simpl; lia|].
        exists r, s', D2, free2, pas2. split_and!; [done|done|by rewrite Hh2|]. destruct Hc as [(-> & (more & -> & Hz) & Hl & Hk & Hlf)|(-> & -> & Hk & Hlf)].
        -- left. rewrite <- app_assoc in *. split_and!; [done| |done| |rewrite length_app in Hlf; simpl in *; lia].
           ++ exists ([p] ++ more). split; [done|]. intros q x [->%list_elem_of_singleton|Hq]%elem_of_app Hx'; [|by apply (Hz q)].
              assert (Hpt : p ∈ total) by (apply (us_in_total _ _ _ _ _ _ _ U); right; right; left).
              rewrite (keeps_pages_at _ _ _ _ _ _ _ _ _ _ p x U Hk) by (done || (apply elem_of_app; right; left)). rewrite Hz3, memset_at by done. by apply decide_True.
           ++ eapply keeps_pages_trans; [exact Hk3|]. eapply keeps_pages_mono; [|exact Hk]. intros q Hq. apply elem_of_app. by left.
        -- right. rewrite take_app_le in * by done. split_and!; [done|done| |rewrite length_app in Hlf; simpl in *; lia]. eapply keeps_pages_trans; [|exact Hk]. eapply keeps_pages_mono; [|exact Hk3].
           intros q Hq. rewrite <- (take_drop n0 pas). apply elem_of_app. by left.
      * rewrite (bind_ret_intro _ _ _ _ _ Hkf). destruct (back_out s4 root D' [p] pas hi total n0 U4 Hn0 ltac:(unfold PGSIZE in *; lia) Hhi) as (s' & free2 & Hr & U' & Hh & Hk).
        exists 0, s', D', free2, (take n0 pas). split_and!; [done|done|by rewrite Hh|]. right. split_and!; [done|done| |simpl; lia]. eapply keeps_pages_trans; [|exact Hk].
        eapply keeps_pages_mono; [|exact Hk4]. intros q Hq. rewrite <- (take_drop n0 pas). apply elem_of_app. by left.
Qed.

(** uvmalloc returns: the space with cleared pages added, or as it was when memory runs
    out. *)
Lemma uvmalloc_run s root D free pas hi total oldsz newsz xperm : uspace s root D free pas hi total -> length pas = npages oldsz -> 0 <= oldsz <= newsz -> newsz <= TRAPFRAME ->
  0 <= xperm < 1024 -> low_clear hi -> grown_to s root free pas hi total (length pas) newsz (uvmalloc kend root oldsz newsz xperm s).
Proof.
  intros U Hlen Hsz Hmax Hx Hhi. pose proof TRAPFRAME_bounds as [Et Htm]. pose proof (npages_round oldsz ltac:(lia)) as [Eo Bo]. pose proof (npages_round newsz ltac:(lia)) as [En Bn].
  pose proof (npages_mono oldsz newsz ltac:(lia) ltac:(lia)). unfold uvmalloc. rewrite (proj2 (Z.ltb_ge _ _)) by lia. cbv zeta. rewrite Eo, <- Hlen.
  apply uvmalloc_loop_run with (D := D) (free := free); [done|done|lia|done|lia|lia|]. unfold PGSIZE in *.
  assert (Z.of_nat (npages newsz) - Z.of_nat (length pas) <= (newsz - Z.of_nat (length pas) * 4096 + 4096 - 1) / 4096) by (apply Z.div_le_lower_bound; lia). lia.
Qed.

(** *** uvmfree *)

Lemma uvmfree_run s root D free pas total sz : uspace s root D free pas (fun _ => 0) total -> length pas = npages sz -> 0 <= sz <= TRAPFRAME ->
  exists s' free', uvmfree kend root sz s = Ret tt s' /\ kinv kend s' free' /\ free' ≡ₚ total /\ held s' = held s /\ keeps_pages total [] s s'.
Proof.
  intros U Hlen Hsz. pose proof TRAPFRAME_bounds as [Et Htm]. pose proof (npages_round sz ltac:(lia)) as [Eu Bu].
  assert (Hm : Z.of_nat (length pas) * PGSIZE <= MAXVA) by (rewrite Hlen; rewrite <- Et in *; unfold PGSIZE, MAXVA in *; lia).
  assert (H1 : exists s1 free1, (if 0 <? sz then uvmunmap kend root 0 (PGROUNDUP sz / PGSIZE) true else ret tt) s = Ret tt s1 /\
    uspace s1 root D free1 [] (fun _ => 0) total /\ held s1 = held s /\ keeps_pages total [] s s1).
  { case_test; bool_to_prop.
    - destruct (unmap_last s root D free pas _ total 0 U ltac:(lia) Hm ltac:(done)) as (s1 & Hr & U1 & Hh & Hk). exists s1, (reverse (drop 0 pas) ++ free).
      rewrite Eu, Z.div_mul, <- Hlen by (unfold PGSIZE; lia). change (Z.of_nat 0 * PGSIZE) with 0 in Hr. rewrite Nat.sub_0_r in Hr. done.
    - exists s, free. assert (sz = 0) as -> by lia. change (npages 0) with 0%nat in Hlen. apply nil_length_inv in Hlen as ->. done. }
  destruct H1 as (s1 & free1 & E1 & U1 & Hh1 & Hk1). unfold uvmfree. rewrite (bind_ret_intro _ _ _ _ _ E1). pose proof (us_pt _ _ _ _ _ _ _ U1) as P1.
  assert (Hleaf : forall k pt i, D O k = Some pt -> 0 <= i < 512 -> has (load64 (phys s1) (pte_at pt i)) PTE_V = false).
  { intros k pt i HD Hi. pose proof (vpn_mul (k * 512 + i)) as Hv. rewrite vpn_key in Hv. set (va := (k * 512 + i) * PGSIZE) in *. pose proof (PX_range 0 va ltac:(lia)) as Hx.
    assert (key 0 va = k /\ PX 0 va = i) as [Hk Hi'] by lia. pose proof (us_high _ _ _ _ _ _ _ U1 va ltac:(simpl; lia)) as Hl. unfold leaf in Hl. rewrite Hk, HD, Hi' in Hl. by rewrite Hl. }
  pose proof (pages_tbl _ _ _ P1 Hleaf 2 0 root (pt_root _ _ _ _ P1)) as Ht. pose proof (us_pages _ _ _ _ _ _ _ U1) as HP. cbn [app] in HP. destruct (us_total _ _ _ _ _ _ _ U1) as [HN HV].
  destruct (freewalk_frees 2 root (pages D 2 0) s1 free1) as (s' & free' & Hr & [G1 G2 G3 G4]); [apply U1|done| | |].
  - split; [by apply (pages_NoDup _ _ _ P1)|]. intros p Hp. apply HV. rewrite <- HP. apply elem_of_app. by left.
  - intros p Hp Hf. rewrite <- HP in HN. apply NoDup_app in HN as (_ & HN & _). by apply (HN p).
  - exists s', free'. split_and!; [done|done|by rewrite G2|by rewrite G3|]. eapply keeps_pages_trans; [exact Hk1|]. intros x Hx. apply G4. intros p Hp Hpx.
    assert (Hpt : p ∈ total) by (rewrite <- HP; apply elem_of_app; by left). by apply (not_elem_of_nil p), Hx.
Qed.

(** *** Creation, and writes to the pages of the space *)

Lemma uvmcreate_run s0 free0 root s : kinv kend s0 free0 -> uvmcreate s0 = Ret root s -> root <> 0 ->
  exists D free, uspace s root D free [] (fun _ => 0) free0 /\ held s = held s0 /\ keeps_pages free0 [] s0 s /\ free0 = root :: free.
Proof.
  intros I Hr H0. pose proof (uvmcreate_spec kend kend_ok s0 free0 I) as Hc. destruct free0 as [|p rest]; [congruence|].
  destruct Hc as (s' & Hr' & V & Hl & Hh & Hm). rewrite Hr in Hr'. injection Hr' as -> ->. exists (root_shape p), rest. split; [|split_and!; [done| |done]].
  2: { intros x Hx. apply Hm. intros Hpx. apply (not_elem_of_nil p), Hx; [left|done]. }
  pose proof (vi_pt _ _ _ _ _ V) as P. constructor; [done|by intros i pa va|intros va _; apply Hl| |].
  - assert (HP : pages (root_shape p) 2 0 ≡ₚ [p]); [|by rewrite HP]. apply NoDup_Permutation; [by apply (pages_NoDup _ _ _ P)|apply NoDup_singleton|].
    intros q. rewrite (pages_complete _ _ _ _ P), in_root_shape, list_elem_of_singleton. done.
  - split; [apply I|]. intros q Hq. eapply (chain_valid kend); [apply I|done].
Qed.

Lemma uspace_write s root D free pas hi total p a v : uspace s root D free pas hi total -> p ∈ pas -> in_page p a ->
  uspace (set_phys (fun m => store8 m a v) s) root D free pas hi total.
Proof.
  intros U Hp Ha. destruct (us_apart _ _ _ _ _ _ _ U) as (Np & Nf & Dpf & Dt). assert (Hpt : p ∈ total) by (apply (us_in_total _ _ _ _ _ _ _ U); right; by left).
  assert (Hfr : forall q x, in_shape D q \/ q ∈ free -> in_page q x -> store8 (phys s) a v x = phys s x).
  { intros q x Hq Hx. apply store8_other. intros ->. assert (p = q) as ->; [|by destruct Hq as [Hq|Hq]; [destruct (Dt q Hq)|apply (Dpf q Hp) in Hq]].
    apply (us_page _ _ _ _ _ _ _ U p q a); [done| |done|done]. apply (us_in_total _ _ _ _ _ _ _ U). tauto. }
  pose proof (us_pt _ _ _ _ _ _ _ U) as P. assert (Hl : forall va, leaf (store8 (phys s) a v) D va = leaf (phys s) D va) by (intros va; apply (leaf_frame kend _ _ root); [done|intros q x Hq; apply Hfr; by left]).
  destruct (us_inv _ _ _ _ _ _ _ U) as [I _ Hsep]. constructor; [constructor|intros i pa va; cbn [set_phys phys]; rewrite Hl; apply U|intros va; cbn [set_phys phys]; rewrite Hl; apply U|apply U|apply U].
  - apply (kinv_frame kend s); [done|apply store8_bytes, I|done|done|]. intros q x Hq. apply Hfr. by right.
  - apply (ptable_frame kend (phys s)); [done|]. intros q x Hq. apply Hfr. by left.
  - done.
Qed.

(** walkaddr translates the pages of the space, and nothing else below [hi]. *)
Lemma us_walkaddr s root D free pas hi total va : uspace s root D free pas hi total -> (forall i, acc i) -> 0 <= va -> hi (vpn va) = 0 -> va < MAXVA ->
  walkaddr root va s = Ret (nth (Z.to_nat (vpn va)) pas 0) s.
Proof.
  intros U Hacc Hva Hhi Hmax. pose proof (vpn_nonneg va Hva). rewrite (walkaddr_lookup kend kend_ok s root D va (us_pt _ _ _ _ _ _ _ U) Hva). f_equal.
  destruct (pas !! Z.to_nat (vpn va)) as [pa|] eqn:E.
  - destruct (us_low _ _ _ _ _ _ _ U _ pa va E ltac:(lia)) as (perm & Hperm & HR & HU & Hl). rewrite (nth_lookup_Some _ _ _ _ E), Hl.
    assert (Hv : valid_page kend pa) by (apply (us_valid _ _ _ _ _ _ _ U), (us_in_total _ _ _ _ _ _ _ U); right; left; by eapply list_elem_of_lookup_2).
    pose proof (valid_page_range kend kend_ok pa Hv) as [Hr Hal]. pose proof PHYSTOP_small. rewrite decide_True; [apply mk_pte_pa; [done|lia|done]|].
    unfold accessible. rewrite Hl. split_and!; [done|apply has_V_lor|apply has_mk_pte; by apply HU].
  - rewrite nth_overflow by (by apply lookup_ge_None in E). apply lookup_ge_None in E. rewrite decide_False; [done|]. unfold accessible.
    rewrite (us_high _ _ _ _ _ _ _ U) by lia. rewrite Hhi. by intros (? & ? & _).
Qed.
End free.

(** ** The life of an address space *)

Section life.
Context (kend : Z).
Hypothesis kend_ok : KERNBASE <= kend <= PHYSTOP.

(** From the state before uvmcreate to a state with [sz] bytes: growing, shrinking, and
    writes to the memory of the process *)
Inductive lifetime (s0 : kstate) (root : Z) : kstate -> Z -> Prop :=
| life_create s : uvmcreate s0 = Ret root s -> root <> 0 -> lifetime s0 root s 0
| life_grow s sz newsz xperm r s' : lifetime s0 root s sz -> sz <= newsz <= TRAPFRAME -> 0 <= xperm < 1024 ->
    uvmalloc kend root sz newsz xperm s = Ret r s' -> lifetime s0 root s' (if r =? 0 then sz else r)
| life_shrink s sz newsz r s' : lifetime s0 root s sz -> 0 <= newsz <= sz -> uvmdealloc kend root sz newsz s = Ret r s' -> lifetime s0 root s' r
| life_write s sz va pa v : lifetime s0 root s sz -> 0 <= va < sz -> walkaddr root va s = Ret pa s ->
    lifetime s0 root (set_phys (fun m => store8 m (pa + va mod PGSIZE) v) s) sz.

Definition all_user (i : nat) : Prop := True.

Lemma lifetime_uspace s0 free0 root s sz : kinv kend s0 free0 -> lifetime s0 root s sz ->
  0 <= sz <= TRAPFRAME /\ held s = held s0 /\ exists D free pas, uspace kend all_user s root D free pas (fun _ => 0) free0 /\ length pas = npages sz.
Proof.
  intros I. pose proof TRAPFRAME_bounds as [Et Htm]. assert (Hlow : low_clear (fun _ => 0)) by done.
  induction 1 as [s Hr H0|s sz newsz xperm r s' _ IH Hsz Hx Hr|s sz newsz r s' _ IH Hsz Hr|s sz va pa v _ IH Hva Hw].
  - destruct (uvmcreate_run kend kend_ok all_user s0 free0 root s I Hr H0) as (D & free & U & Hh & _ & _). split_and!; [lia|unfold TRAPFRAME, TRAMPOLINE, MAXVA, PGSIZE; lia|done|]. by exists D, free, [].
  - destruct IH as (Hb & Hh & D & free & pas & U & Hlen).
    destruct (uvmalloc_run kend kend_ok all_user s root D free pas _ free0 sz newsz xperm U Hlen ltac:(lia) ltac:(lia) Hx Hlow) as (r' & s2 & D' & free' & pas' & Hr' & U' & Hh' & Hc).
    rewrite Hr in Hr'. injection Hr' as <- <-. destruct Hc as [(-> & _ & Hl & _)|(-> & -> & _ & _)].
    + destruct (newsz =? 0) eqn:E; bool_to_prop; [assert (sz = newsz) as -> by lia|]; (split_and!; [lia|lia|by rewrite Hh'|]; by exists D', free', pas').
    + cbn [Z.eqb]. split_and!; [lia|lia|by rewrite Hh'|]. exists D', free', (take (length pas) pas). split; [done|]. by rewrite take_ge.
  - destruct IH as (Hb & Hh & D & free & pas & U & Hlen). pose proof (npages_round sz ltac:(lia)) as [E B].
    destruct (uvmdealloc_run kend kend_ok all_user s root D free pas _ free0 sz newsz U Hlen ltac:(lia)) as (s2 & free' & Hr' & U' & Hh' & _); [unfold TRAPFRAME, TRAMPOLINE, MAXVA, PGSIZE in *; lia|lia|done|].
    rewrite Hr in Hr'. injection Hr' as -> ->. split_and!; [lia|lia|by rewrite Hh'|]. exists D, free', (take (npages newsz) pas). split; [done|].
    rewrite length_take. pose proof (npages_mono newsz sz ltac:(lia) ltac:(lia)). lia.
  - destruct IH as (Hb & Hh & D & free & pas & U & Hlen). split_and!; [lia|lia|done|]. exists D, free, pas. split; [|done].
    rewrite (us_walkaddr kend kend_ok all_user s root D free pas _ free0 va U ltac:(done) ltac:(lia) eq_refl ltac:(lia)) in Hw. injection Hw as <-.
    pose proof (npages_round sz ltac:(lia)) as [E B]. pose proof (vpn_bounds va). pose proof (vpn_nonneg va ltac:(lia)).
    destruct (lookup_lt_is_Some_2 pas (Z.to_nat (vpn va))) as [pa Hpa]; [unfold PGSIZE in *; lia|]. rewrite (nth_lookup_Some _ _ _ _ Hpa).
    eapply uspace_write; [done|done|by eapply list_elem_of_lookup_2|]. unfold in_page. pose proof (Z.mod_pos_bound va PGSIZE ltac:(unfold PGSIZE; lia)). lia.
Qed.

(** The byte the process reads at [va]; None when it would fault *)
Definition ubyte (s : kstate) (root va : Z) : option Z :=
  match walkaddr root va s with
  | Ret pa _ => if pa =? 0 then None else Some (phys s (pa + va mod PGSIZE))
  | _ => None
  end.

Lemma us_ubyte s root D free pas total va : uspace kend all_user s root D free pas (fun _ => 0) total -> 0 <= va < MAXVA ->
  ubyte s root va = pa ← pas !! Z.to_nat (vpn va); Some (phys s (pa + va mod PGSIZE)).
Proof.
  intros U Hva. unfold ubyte. rewrite (us_walkaddr kend kend_ok all_user s root D free pas _ total va U ltac:(done) ltac:(lia) eq_refl ltac:(lia)).
  destruct (pas !! Z.to_nat (vpn va)) as [pa|] eqn:E; cbn [mbind option_bind].
  - rewrite (nth_lookup_Some _ _ _ _ E). assert (Hv : valid_page kend pa) by (apply (us_valid _ _ _ _ _ _ _ _ _ U), (us_in_total _ _ _ _ _ _ _ _ _ U); right; left; by eapply list_elem_of_lookup_2).
    pose proof (valid_page_range kend kend_ok pa Hv) as [Hr _]. by rewrite (proj2 (Z.eqb_neq _ _)) by lia.
  - rewrite nth_overflow by (by apply lookup_ge_None in E). done.
Qed.

Lemma in_page_va pa va : in_page pa (pa + va mod PGSIZE).
Proof. unfold in_page. pose proof (Z.mod_pos_bound va PGSIZE ltac:(unfold PGSIZE; lia)). lia. Qed.

Lemma vpn_npages va sz : 0 <= va -> 0 <= sz <= TRAPFRAME -> va < PGROUNDUP sz <-> (Z.to_nat (vpn va) < npages sz)%nat.
Proof.
  intros Hva Hsz. pose proof TRAPFRAME_bounds as [_ Ht]. pose proof (npages_round sz ltac:(lia)) as [E _]. pose proof (vpn_bounds va). pose proof (vpn_nonneg va Hva).
  rewrite E. unfold PGSIZE in *. lia.
Qed.

Lemma kept_bytes s s' root D free pas D' free' pas' total va : uspace kend all_user s root D free pas (fun _ => 0) total ->
  uspace kend all_user s' root D' free' pas' (fun _ => 0) total -> 0 <= va < MAXVA -> (exists pa, pas !! Z.to_nat (vpn va) = Some pa /\ pas' !! Z.to_nat (vpn va) = Some pa) ->
  keeps_pages total (take (length pas') pas) s s' -> ubyte s' root va = ubyte s root va.
Proof.
  intros U U' Hva (pa & E & E') Hk. rewrite (us_ubyte s' root D' free' pas' total va U' Hva), (us_ubyte s root D free pas total va U Hva), E, E'. cbn [mbind option_bind]. f_equal.
  apply (keeps_pages_at kend all_user s root D free pas _ total _ s s' pa _ U Hk); [| |apply in_page_va].
  - apply (list_elem_of_lookup_2 _ (Z.to_nat (vpn va))). apply lookup_take_Some. split; [done|]. by eapply lookup_lt_Some.
  - apply (us_in_total _ _ _ _ _ _ _ _ _ U). right. left. by eapply list_elem_of_lookup_2.
Qed.

(** C9: The life of an address space.  After uvmcreate and any sequence of uvmalloc,
    uvmdealloc and writes of the process, the bytes below the page boundary above sz
    are the process's own, on distinct pages, and nothing else is readable.  uvmalloc
    returns: it adds cleared memory, or fails and leaves the space as it was, which three
    free pages per page asked for rule out.  uvmdealloc returns and keeps the memory
    below the new size.  uvmfree returns every page that was used, for memory or for the
    table, exactly once: the free list is again what it was before uvmcreate. *)
Theorem address_space_lifecycle s0 free0 root s sz : kinv kend s0 free0 -> lifetime s0 root s sz ->
  (forall va, 0 <= va < MAXVA -> is_Some (ubyte s root va) <-> va < PGROUNDUP sz) /\
  (forall va va' pa, 0 <= va < MAXVA -> 0 <= va' < MAXVA -> pa <> 0 -> walkaddr root va s = Ret pa s -> walkaddr root va' s = Ret pa s -> vpn va = vpn va') /\
  (forall newsz xperm, sz <= newsz <= TRAPFRAME -> 0 <= xperm < 1024 -> exists r s' free, uvmalloc kend root sz newsz xperm s = Ret r s' /\ kinv kend s free /\ (r = newsz \/ r = 0 /\ (length free < 3 * (npages newsz - npages sz))%nat) /\
     (forall va, 0 <= va < PGROUNDUP sz -> ubyte s' root va = ubyte s root va) /\
     (forall va, PGROUNDUP sz <= va < PGROUNDUP newsz -> ubyte s' root va = if r =? 0 then None else Some 0)) /\
  (forall newsz, 0 <= newsz <= sz -> exists s', uvmdealloc kend root sz newsz s = Ret newsz s' /\
     forall va, 0 <= va < MAXVA -> ubyte s' root va = if va <? PGROUNDUP newsz then ubyte s root va else None) /\
  exists s' free', uvmfree kend root sz s = Ret tt s' /\ kinv kend s' free' /\ free' ≡ₚ free0 /\ held s' = held s0.
Proof.
  intros I Hlife. destruct (lifetime_uspace s0 free0 root s sz I Hlife) as (Hsz & Hh & D & free & pas & U & Hlen). pose proof TRAPFRAME_bounds as [Et Htm].
  assert (Hround : forall z, 0 <= z <= TRAPFRAME -> PGROUNDUP z <= TRAPFRAME) by (intros z Hz; pose proof (npages_round z ltac:(lia)) as [E B]; rewrite E in *; rewrite <- Et in *; unfold PGSIZE in *; lia).
  split_and!.
  - intros va Hva. rewrite (us_ubyte s root D free pas free0 va U Hva), (vpn_npages va sz), <- Hlen by lia. rewrite <- lookup_lt_is_Some.
    destruct (pas !! _); cbn [mbind option_bind]; (split; intros [? ?]; done || eauto).
  - intros va va' pa Hva Hva' H0. rewrite !(us_walkaddr kend kend_ok all_user s root D free pas _ free0 _ U ltac:(done)) by (done || lia). intros [= E] [= E'].
    pose proof (vpn_nonneg va ltac:(lia)). pose proof (vpn_nonneg va' ltac:(lia)). destruct (us_apart _ _ _ _ _ _ _ _ _ U) as (Np & _).
    assert (Hl : forall v, nth (Z.to_nat v) pas 0 = pa -> pas !! Z.to_nat v = Some pa).
    { intros v Hv. destruct (pas !! Z.to_nat v) as [q|] eqn:Eq; [by rewrite (nth_lookup_Some _ _ _ _ Eq) in Hv; rewrite Hv|]. rewrite nth_overflow in Hv by (by apply lookup_ge_None in Eq). done. }
    pose proof (NoDup_lookup _ _ _ _ Np (Hl _ E) (Hl _ E')). lia.
  - intros newsz xperm Hn Hx. pose proof (npages_round sz ltac:(lia)) as [_ Bsz]. pose proof (Hround sz ltac:(lia)). pose proof (Hround newsz ltac:(lia)).
    destruct (uvmalloc_run kend kend_ok all_user s root D free pas _ free0 sz newsz xperm U Hlen ltac:(lia) ltac:(lia) Hx) as (r & s' & D' & free' & pas' & Hr & U' & _ & Hc); [done|].
    exists r, s', free. assert (Hext : exists more, pas' = pas ++ more /\ keeps_pages free0 pas s s' /\ (r = newsz /\ zero_pages more s' /\ length pas' = npages newsz \/ r = 0 /\ more = [] /\ (length free < 3 * (npages newsz - npages sz))%nat)).
    { destruct Hc as [(-> & (more & -> & Hz) & Hl & Hk & _)|(-> & -> & Hk & Hlf)]; [exists more; by split_and!; [| |left]|]. rewrite take_ge in * by done. exists []. rewrite app_nil_r, Hlen in *. split_and!; [done|done|by right]. }
    destruct Hext as (more & -> & Hk & Hcase). split_and!; [done|apply U|tauto| |].
    + intros va Hva. apply (kept_bytes s s' root D free pas D' free' (pas ++ more) free0 va U U'); [lia| |rewrite take_ge by (rewrite length_app; lia); done].
      assert (Hv : (Z.to_nat (vpn va) < npages sz)%nat) by (apply vpn_npages; lia). rewrite <- Hlen in Hv. destruct (lookup_lt_is_Some_2 _ _ Hv) as [pa Hpa]. exists pa. split; [done|by apply lookup_app_l_Some].
    + intros va Hva. rewrite (us_ubyte s' root D' free' (pas ++ more) free0 va U') by lia.
      assert (Hge : (length pas <= Z.to_nat (vpn va))%nat) by (destruct (decide (length pas <= Z.to_nat (vpn va))%nat); [done|]; assert (va < PGROUNDUP sz) by (apply vpn_npages; lia); lia).
      rewrite lookup_app_r by done. destruct Hcase as [(-> & Hz & Hl)|(-> & -> & _)]; [|by rewrite lookup_nil].
      assert (Hv : (Z.to_nat (vpn va) < length (pas ++ more))%nat) by (rewrite Hl; apply vpn_npages; lia). rewrite length_app in Hv.
      destruct (lookup_lt_is_Some_2 more (Z.to_nat (vpn va) - length pas)) as [pa Hpa]; [lia|]. rewrite Hpa. cbn [mbind option_bind].
      rewrite (Hz pa _ (list_elem_of_lookup_2 _ _ _ Hpa) (in_page_va pa va)). rewrite (proj2 (Z.eqb_neq _ _)); [done|]. intros ->. change (PGROUNDUP 0) with 0 in Hva. lia.
  - intros newsz Hn. pose proof (Hround sz Hsz). destruct (uvmdealloc_run kend kend_ok all_user s root D free pas _ free0 sz newsz U Hlen Hn ltac:(lia) ltac:(lia)) as (s' & free' & Hr & U' & _ & Hk); [done|].
    exists s'. split; [done|]. intros va Hva. pose proof (npages_mono newsz sz ltac:(lia) ltac:(lia)) as Hmono. pose proof (vpn_npages va newsz ltac:(lia) ltac:(lia)) as Hvn.
    destruct (va <? PGROUNDUP newsz) eqn:E; bool_to_prop.
    + apply (kept_bytes s s' root D free pas D free' (take (npages newsz) pas) free0 va U U' Hva); [|by rewrite length_take, Nat.min_l by lia].
      apply Hvn in E. destruct (lookup_lt_is_Some_2 pas (Z.to_nat (vpn va))) as [pa Hpa]; [lia|]. exists pa. split; [done|]. by apply lookup_take_Some.
    + rewrite (us_ubyte s' root D free' _ free0 va U' Hva), lookup_take_ge; [done|]. destruct (decide (npages newsz <= Z.to_nat (vpn va))%nat); [done|]. assert (va < PGROUNDUP newsz) by (apply Hvn; lia). lia.
  - destruct (uvmfree_run kend kend_ok all_user s root D free pas free0 sz U Hlen Hsz) as (s' & free' & Hr & I' & HP & Hh' & _). exists s', free'. split_and!; [done|done|done|by rewrite Hh'].
Qed.
End life.

(** A memory of sixteen pages with a new address space *)
Lemma example_created : let kend := PHYSTOP - 16 * PGSIZE in
  exists s1 root rest s, kinit kend (MkK (fun _ => 0) 0 []) = Ret tt s1 /\ kinv kend s1 (root :: rest) /\ uvmcreate s1 = Ret root s /\ root <> 0 /\ length rest = 15%nat /\ kinv kend s rest.
Proof.
  cbv zeta. set (kend := PHYSTOP - 16 * PGSIZE). assert (Hk : KERNBASE <= kend <= PHYSTOP) by (unfold kend, PHYSTOP, KERNBASE, PGSIZE; lia).
  assert (Hb : Memory.bytes (phys (MkK (fun _ => 0) 0 []))) by (intros x; simpl; lia).
  destruct (kinit_spec _ Hk (MkK (fun _ => 0) 0 []) Hb eq_refl) as (s1 & Hi & _ & I). set (free0 := reverse _) in I.
  assert (Hne : exists root rest, free0 = root :: rest /\ length rest = 15%nat) by (vm_compute; eauto). destruct Hne as (root & rest & E & Hl). rewrite E in I. clear E free0.
  pose proof (uvmcreate_spec kend Hk s1 _ I) as (s & Hr & V & _). exists s1, root, rest, s. split_and!; [done|done|done| |done|apply V].
  assert (Hv : valid_page kend root) by (eapply (chain_valid kend); [apply I|left]). destruct (valid_page_range kend Hk root Hv). lia.
Qed.

(** Sixteen pages of memory: a space of 5000 bytes is created, grown and freed. *)
Lemma address_space_lifecycle_witness :
  let kend := PHYSTOP - 16 * PGSIZE in let s0 := MkK (fun _ => 0) 0 [] in
  exists s1 free0 root s s2, kinit kend s0 = Ret tt s1 /\ uvmcreate s1 = Ret root s /\ uvmalloc kend root 0 5000 PTE_W s = Ret 5000 s2 /\ exists s3 free3, uvmfree kend root 5000 s2 = Ret tt s3 /\ kinv kend s3 free3 /\ free3 ≡ₚ free0.
Proof.
  cbv zeta. set (kend := PHYSTOP - 16 * PGSIZE). assert (Hk : KERNBASE <= kend <= PHYSTOP) by (unfold kend, PHYSTOP, KERNBASE, PGSIZE; lia).
  destruct example_created as (s1 & root & rest & s & Hi & I & Hc & H0 & Hl & Is). fold kend in Hi, I, Is.
  pose proof (life_create kend s1 root s Hc H0) as L0. destruct (address_space_lifecycle kend Hk s1 (root :: rest) root s 0 I L0) as (_ & _ & Hg & _).
  assert (Hsz : 0 <= 5000 <= TRAPFRAME) by (unfold TRAPFRAME, TRAMPOLINE, MAXVA, PGSIZE; lia). assert (Hx : 0 <= PTE_W < 1024) by (unfold PTE_W; lia).
  destruct (Hg 5000 PTE_W Hsz Hx) as (r & s2 & free & Hr & If & Hcase & _). rewrite (kinv_unique kend Hk s free rest If Is), Hl in Hcase. change (npages 5000 - npages 0)%nat with 2%nat in Hcase.
  assert (r = 5000) as -> by (destruct Hcase as [|[_ ?]]; [done|lia]). pose proof (life_grow kend s1 root s 0 5000 PTE_W 5000 s2 L0 Hsz Hx Hr) as L2.
  destruct (address_space_lifecycle kend Hk s1 (root :: rest) root s2 _ I L2) as (_ & _ & _ & _ & s3 & free3 & Hr3 & I3 & HP & _).
  exists s1, (root :: rest), root, s, s2. split_and!; [exact Hi|exact Hc|exact Hr|]. exists s3, free3. split_and!; [exact Hr3|exact I3|exact HP].
Defined.
