(* ===== verification/VmFork.v ===== *)
(** Copying an address space for fork (Vm, VmSpace): uvmcopy gives the child the bytes of
    the parent on pages of its own, or fails and leaves nothing behind. *)

From stdpp Require Import base list sets strings.
From S2P Require Import Prelude Memory KString Spinlock Kalloc Vm VmTable VmSpace.

(** ** Flags of a PTE *)

Lemma PTE_FLAGS_mk_pte pa perm : 0 <= pa < 2 ^ 56 -> 0 <= perm < 1024 -> PTE_FLAGS (mk_pte pa perm) = Z.lor perm PTE_V.
Proof.
  intros Hpa Hperm. unfold PTE_FLAGS, mk_pte. rewrite <- Z.lor_assoc. set (f := Z.lor perm PTE_V).
  assert (Hf : 0 <= f < 2 ^ 10) by (apply lor_range; [lia|done|unfold PTE_V; lia]).
  change 1023 with (Z.ones 10). rewrite Z.land_lor_distr_l, !Z.land_ones, (Z.mod_small f) by lia.
  unfold PA2PTE. rewrite u64_small, Z.shiftl_mul_pow2, Z.mod_mul by (try lia; rewrite Z.shiftr_div_pow2, Z.shiftl_mul_pow2 by lia; pose proof (Z.div_pos pa (2 ^ 12)); pose proof (Z.div_lt_upper_bound pa (2 ^ 12) (2 ^ 44)); lia).
  done.
Qed.

Lemma has_lor_l perm q f : has perm f = true -> has (Z.lor perm q) f = true.
Proof.
  unfold has. intros Hp%negb_true_iff%Z.eqb_neq. apply negb_true_iff, Z.eqb_neq. rewrite Z.land_lor_distr_l. intros Hz. apply Hp. by apply Z.lor_eq_0_iff in Hz as [? _].
Qed.

Section copy.
Context (kend : Z).
Hypothesis kend_ok : KERNBASE <= kend <= PHYSTOP.

Lemma memmove_fills p src : fills p (fun m => memmove m p src PGSIZE).
Proof.
  split; [intros m x Hb Hx; rewrite memmove_at by (done || (unfold PGSIZE; lia)); by apply decide_False|intros m Hb; apply memmove_bytes; [done|unfold PGSIZE; lia]].
Qed.

(** ** The parent *)

Context (old : Z) (Dold : shape) (ppas : list Z) (total : list Z).

(** A space with pages [ppas] none of whose pages is in [total] *)
Record parent (s : kstate) : Prop := {
  pa_table : ptable kend (phys s) old Dold;
  pa_low : forall (i : nat) pa va, ppas !! i = Some pa -> vpn va = Z.of_nat i ->
    exists perm, 0 <= perm < 1024 /\ has perm PTE_R = true /\ has perm PTE_U = true /\ leaf (phys s) Dold va = mk_pte pa perm;
  pa_valid : forall p, in_shape Dold p \/ p ∈ ppas -> valid_page kend p;
  pa_total : forall p, p ∈ total -> valid_page kend p;
  pa_apart : forall p, in_shape Dold p \/ p ∈ ppas -> p ∉ total }.

(** The pages of the parent are not in [total]. *)
Lemma parent_outside s p x : parent s -> in_shape Dold p \/ p ∈ ppas -> in_page p x -> forall q, q ∈ total -> ~ in_page q x.
Proof.
  intros P Hp Hx q Hq Hqx. apply (pa_apart _ P p Hp). replace p with q; [done|].
  apply (pages_disjoint q p x); [by apply (pa_total _ P)|by apply (pa_valid _ P)|done|done].
Qed.

Lemma keeps_parent_page K s s' p x : parent s -> keeps_pages total K s s' -> in_shape Dold p \/ p ∈ ppas -> in_page p x -> phys s' x = phys s x.
Proof. intros P Hk Hp Hx. apply Hk. intros q Hq Hqx. by destruct (parent_outside s p x P Hp Hx q Hq). Qed.

Lemma keeps_parent K s s' : parent s -> keeps_pages total K s s' -> parent s'.
Proof.
  intros P Hk. pose proof (fun p x Hp => keeps_parent_page K s s' p x P Hk (or_introl Hp)) as Hfr.
  constructor; [by apply (ptable_frame kend (phys s)), Hfr; apply P| |apply P|apply P|apply P].
  intros i pa va. rewrite (leaf_frame kend (phys s) (phys s') old Dold va (pa_table _ P) Hfr). apply P.
Qed.

(** ** uvmcopy *)

(** The pages [pas] hold what the first pages of the parent hold. *)
Definition same_pages (s : kstate) (pas : list Z) : Prop :=
  forall (i : nat) p q d, pas !! i = Some p -> ppas !! i = Some q -> 0 <= d < PGSIZE -> phys s (p + d) = phys s (q + d).

Lemma same_pages_keeps s s' pas D free new hi : uspace kend all_user s new D free pas hi total -> parent s -> same_pages s pas -> keeps_pages total pas s s' -> same_pages s' pas.
Proof.
  intros U P Hs Hk i p q d Hp Hq Hd. pose proof (list_elem_of_lookup_2 _ _ _ Hp) as Hpp. pose proof (list_elem_of_lookup_2 _ _ _ Hq) as Hqq.
  rewrite (keeps_pages_at _ _ s new D free pas hi total pas s s' p (p + d) U Hk Hpp); [|apply (us_in_total _ _ _ _ _ _ _ _ _ U); right; by left|unfold in_page; lia].
  rewrite (keeps_parent_page pas s s' q (q + d) P Hk); [by apply (Hs i)|by right|unfold in_page; lia].
Qed.

(** What uvmcopy comes to; it fails only when [short]. *)
Definition copied_to (s : kstate) (new : Z) (short : Prop) (o : outcome kstate Z) : Prop :=
  exists r s' D' free' pas', o = Ret r s' /\ uspace kend all_user s' new D' free' pas' (fun _ => 0) total /\ held s' = held s /\ keeps_pages total [] s s' /\
    (r = 0 /\ length pas' = length ppas /\ same_pages s' pas' \/ r = -1 /\ pas' = [] /\ short).

(** The error exit: the pages already copied are given back. *)
Lemma uvmcopy_back s new D free pas (short : Prop) : short -> uspace kend all_user s new D free pas (fun _ => 0) total -> Z.of_nat (length pas) * PGSIZE <= MAXVA ->
  copied_to s new short ((uvmunmap kend new 0 (Z.of_nat (length pas) * PGSIZE / PGSIZE) true ;;; ret (-1))%kernel s).
Proof.
  intros Hs U Hmax. rewrite Z.div_mul by (unfold PGSIZE; lia).
  destruct (unmap_last kend kend_ok all_user s new D free pas _ total 0 U ltac:(lia) Hmax ltac:(done)) as (s' & Hr & U' & Hh & Hk).
  change (Z.of_nat 0 * PGSIZE) with 0 in Hr. rewrite Nat.sub_0_r in Hr. rewrite (bind_ret_intro _ _ _ _ _ Hr).
  exists (-1), s', D, (reverse (drop 0 pas) ++ free), []. split_and!; [done|done|done|done|by right].
Qed.

(** Reading the parent's PTE of page [n] *)
Lemma parent_walk s (n : nat) pa : parent s -> ppas !! n = Some pa -> Z.of_nat n * PGSIZE < MAXVA ->
  exists a perm, walk old (Z.of_nat n * PGSIZE) false s = Ret a s /\ a <> 0 /\ load64 (phys s) a = mk_pte pa perm /\
    0 <= perm < 1024 /\ has perm PTE_R = true /\ has perm PTE_U = true.
Proof.
  intros P Hn Hmax. destruct (pa_low _ P n pa (Z.of_nat n * PGSIZE) Hn (vpn_mul _)) as (perm & Hperm & HR & HU & Hl). pose proof (pa_table _ P) as T.
  exists (leaf_addr Dold (Z.of_nat n * PGSIZE)), perm. destruct (Dold O (key 0 (Z.of_nat n * PGSIZE))) as [pt|] eqn:E.
  - rewrite <- (leaf_load _ _ _ _ E). split_and!; try done; try lia; [apply (walk_lookup kend s old Dold _ T); unfold PGSIZE in *; lia|].
    rewrite (leaf_addr_zero kend kend_ok _ _ _ _ T). congruence.
  - exfalso. unfold leaf in Hl. rewrite E in Hl. pose proof (has_V_lor (Z.lor (PA2PTE pa) perm)) as Hv. fold (mk_pte pa perm) in Hv. by rewrite <- Hl in Hv.
Qed.

Lemma copied_to_step s s1 new (P Q : Prop) o : keeps_pages total [] s s1 -> held s1 = held s -> (P -> Q) -> copied_to s1 new P o -> copied_to s new Q o.
Proof.
  intros Hk Hh HPQ (r & s' & D' & free' & pas' & Hr & U & Hh' & Hk' & Hc). exists r, s', D', free', pas'. split_and!; [done|done|congruence|by eapply keeps_pages_trans|naive_solver].
Qed.

Lemma uvmcopy_loop_run new sz : (length ppas = npages sz) -> 0 <= sz <= TRAPFRAME ->
  forall fuel s D free pas, uspace kend all_user s new D free pas (fun _ => 0) total -> parent s -> same_pages s pas -> (length pas <= length ppas)%nat -> (length ppas - length pas <= fuel)%nat ->
  copied_to s new (length free < 3 * (length ppas - length pas))%nat (uvmcopy_loop kend fuel old new (Z.of_nat (length pas) * PGSIZE) sz s).
Proof.
  intros Hn Hsz. pose proof TRAPFRAME_bounds as [Et Htm]. pose proof (npages_round sz ltac:(lia)) as [En Bn]. rewrite <- Hn in En.
  assert (Hmax : Z.of_nat (length ppas) * PGSIZE <= TRAPFRAME) by (rewrite <- Et in *; unfold PGSIZE in *; lia).
  assert (Hdone : forall s D free pas, uspace kend all_user s new D free pas (fun _ => 0) total -> same_pages s pas -> length pas = length ppas -> forall short, copied_to s new short (Ret 0 s)).
  { intros s D free pas U Hs El short. exists 0, s, D, free, pas. split_and!; [done|done|done|apply keeps_pages_refl|by left]. }
  induction fuel as [|fuel IH]; intros s D free pas U P Hs Hle Hf; cbn [uvmcopy_loop]; (destruct (decide (length pas = length ppas)) as [El|El]; [rewrite (proj2 (Z.ltb_ge _ _)) by lia; by apply (Hdone s D free pas)|]); [lia|].
  rewrite (proj2 (Z.ltb_lt _ _)) by (unfold PGSIZE in *; lia). destruct (lookup_lt_is_Some_2 ppas (length pas)) as [pa Hpa]; [lia|].
  assert (Hm : (Z.of_nat (length pas) + 1) * PGSIZE <= MAXVA) by (unfold PGSIZE in *; lia).
  destruct (parent_walk s (length pas) pa P Hpa ltac:(unfold PGSIZE in *; lia)) as (a & perm & Hw & Ha0 & Hld & Hperm & HR & HU).
  rewrite (bind_ret_intro _ _ _ _ _ Hw), (proj2 (Z.eqb_neq _ _) Ha0). unfold load_pte. rewrite bind_get, Hld. unfold mk_pte at 1. rewrite has_V_lor. cbn [negb].
  pose proof (list_elem_of_lookup_2 _ _ _ Hpa) as Hpp. pose proof (pa_valid _ P pa (or_intror Hpp)) as Hpv. pose proof (valid_page_range kend kend_ok pa Hpv) as [Hpr Hpal]. pose proof PHYSTOP_small as Hps.
  rewrite mk_pte_pa, PTE_FLAGS_mk_pte by (done || lia). destruct free as [|p rest].
  { pose proof (kalloc_spec kend (kend_pos kend kend_ok) _ _ (vi_k _ _ _ _ _ (us_inv _ _ _ _ _ _ _ _ _ U))) as Ha. cbv beta iota in Ha. rewrite (bind_ret_intro _ _ _ _ _ Ha). cbn [Z.eqb].
    apply (uvmcopy_back s new D [] pas); [simpl; lia|done|]. unfold PGSIZE in *. lia. }
  assert (Hfl : 0 <= Z.lor perm PTE_V < 1024) by (apply (lor_range perm PTE_V 10); [lia|done|unfold PTE_V; lia]).
  destruct (map_next kend kend_ok all_user s new D p rest pas _ total (Z.lor perm PTE_V) _ U Hm (memmove_fills p pa) Hfl (has_lor_l _ _ _ HR) (fun _ => has_lor_l _ _ _ HU) eq_refl)
    as (s1 & Ha & Hp0 & Hm1 & Hb1 & r & s3 & D' & free' & Hmp & Hres).
  rewrite (bind_ret_intro _ _ _ _ _ Ha), (proj2 (Z.eqb_neq _ _) Hp0). unfold bind at 1, modify. rewrite (bind_ret_intro _ _ _ _ _ Hmp).
  assert (Hnil : forall s', keeps_pages total pas s s' -> keeps_pages total [] s s') by (intros s'; apply keeps_pages_mono; by intros ? ?%elem_of_nil).
  destruct Hres as [(-> & U3 & Hh3 & Hk3 & Hz3 & Hl3)|(-> & Hl4 & s4 & Hkf & U4 & Hh4 & Hk4)]; cbn [Z.eqb negb].
  - rewrite u64_small by (unfold MAXVA, PGSIZE in *; lia). replace (Z.of_nat (length pas) * PGSIZE + PGSIZE) with (Z.of_nat (length (pas ++ [p])) * PGSIZE) by (rewrite length_app; simpl; lia).
    eapply (copied_to_step s s3); [by apply Hnil|done| |apply (IH s3 D' free' (pas ++ [p]) U3)]; [rewrite length_app; simpl; lia|..]; [by apply (keeps_parent pas s)| |rewrite length_app; simpl; lia|rewrite length_app; simpl; lia].
    intros i p' q d Hi Hq Hd. destruct (decide (i < length pas)%nat) as [Hlt|Hge].
    { rewrite lookup_app_l in Hi by done. by apply (same_pages_keeps s s3 pas D (p :: rest) new _ U P Hs Hk3 i). }
    pose proof (lookup_lt_Some _ _ _ Hi) as Hlen. rewrite length_app in Hlen. simpl in Hlen. assert (i = length pas) as -> by lia.
    rewrite lookup_app_r, Nat.sub_diag in Hi by lia. injection Hi as <-. rewrite Hpa in Hq. injection Hq as <-.
    assert (Hpx : in_page pa (pa + d)) by (unfold in_page; lia). assert (Hpt : p ∈ total) by (apply (us_in_total _ _ _ _ _ _ _ _ _ U); right; right; left).
    rewrite Hz3 by (unfold in_page; lia). rewrite memmove_at by (done || (unfold PGSIZE; lia)). rewrite decide_True by lia. replace (pa + (p + d - p)) with (pa + d) by lia.
    rewrite Hm1, decide_False by (by apply (parent_outside s pa (pa + d) P (or_intror Hpp) Hpx p)). symmetry. by apply (keeps_parent_page pas s s3 pa _ P Hk3 (or_intror Hpp)).
  - rewrite (bind_ret_intro _ _ _ _ _ Hkf). eapply (copied_to_step s s4); [by apply Hnil|done|intros HP; exact HP|]. apply (uvmcopy_back s4 new D' [p] pas); [simpl; lia|done|]. unfold PGSIZE in *. lia.
Qed.

Lemma uvmcopy_run s new D free sz : uspace kend all_user s new D free [] (fun _ => 0) total -> parent s -> length ppas = npages sz -> 0 <= sz <= TRAPFRAME ->
  copied_to s new (length free < 3 * length ppas)%nat (uvmcopy kend old new sz s).
Proof.
  intros U P Hn Hsz. pose proof TRAPFRAME_bounds as [Et Htm]. pose proof (npages_round sz ltac:(lia)) as [En Bn]. unfold uvmcopy.
  replace (3 * length ppas)%nat with (3 * (length ppas - length (@nil Z)))%nat by (simpl; lia). apply (uvmcopy_loop_run new sz Hn Hsz _ s D free [] U P); [by intros i p q d|simpl; lia|]. simpl. rewrite Hn.
  assert (Z.of_nat (npages sz) <= (sz + PGSIZE - 1) / PGSIZE) by (apply Z.div_le_lower_bound; unfold PGSIZE in *; lia). lia.
Qed.
End copy.

(** ** fork's use of it *)

Section fork_space.
Context (kend : Z).
Hypothesis kend_ok : KERNBASE <= kend <= PHYSTOP.

(** Pages that are free are not those of a space. *)
Lemma uspace_parent s root D free pas total : uspace kend all_user s root D free pas (fun _ => 0) total -> parent kend root D pas free s.
Proof.
  intros U. destruct (us_apart _ _ _ _ _ _ _ _ _ U) as (Np & _ & Hpf & Hdf). pose proof (fun p => proj2 (us_in_total _ _ _ _ _ _ _ _ _ U p)) as Hin. constructor.
  - apply (us_pt _ _ _ _ _ _ _ _ _ U).
  - intros i pa va Hi Hva. destruct (us_low _ _ _ _ _ _ _ _ _ U i pa va Hi Hva) as (perm & H1 & H2 & H3 & H4). exists perm. split_and!; try done; try lia. by apply H3.
  - intros p Hp. apply (us_valid _ _ _ _ _ _ _ _ _ U), Hin. tauto.
  - intros p Hp. apply (us_valid _ _ _ _ _ _ _ _ _ U), Hin. tauto.
  - intros p [Hp|Hp]; [apply (Hdf p Hp)|by apply Hpf].
Qed.

Lemma walkaddr_frame s s' root D va v : ptable kend (phys s) root D -> (forall p x, in_shape D p -> in_page p x -> phys s' x = phys s x) -> 0 <= va ->
  walkaddr root va s = Ret v s -> walkaddr root va s' = Ret v s'.
Proof.
  intros P Hm Hva. pose proof (ptable_frame kend (phys s) (phys s') root D P Hm) as P'. pose proof (fun v => leaf_frame kend (phys s) (phys s') root D v P Hm) as Hl.
  rewrite (walkaddr_lookup kend kend_ok s root D va P Hva), (walkaddr_lookup kend kend_ok s' root D va P' Hva). intros [= <-]. f_equal.
  specialize (Hl va). repeat case_decide; unfold accessible in *; rewrite ?Hl in *; tauto.
Qed.

(** The process sees the same memory after changes to free pages only. *)
Lemma uspace_unchanged s s' root D free pas total va : uspace kend all_user s root D free pas (fun _ => 0) total -> keeps_pages free [] s s' -> 0 <= va < MAXVA ->
  walkaddr root va s' = Ret (nth (Z.to_nat (vpn va)) pas 0) s' /\ ubyte s' root va = ubyte s root va.
Proof.
  intros U Hk Hva. pose proof (uspace_parent s root D free pas total U) as P. pose proof (keeps_parent_page kend root D pas free [] s s') as Hpage.
  pose proof (us_walkaddr kend kend_ok all_user s root D free pas _ total va U ltac:(done) ltac:(lia) eq_refl ltac:(lia)) as Hw.
  pose proof (walkaddr_frame s s' root D va _ (us_pt _ _ _ _ _ _ _ _ _ U) (fun p x Hp => Hpage p x P Hk (or_introl Hp)) ltac:(lia) Hw) as Hw'. split; [done|].
  unfold ubyte. rewrite Hw, Hw'. destruct (pas !! Z.to_nat (vpn va)) as [pa|] eqn:E; [|by rewrite nth_overflow by (by apply lookup_ge_None in E)].
  rewrite (nth_lookup_Some _ _ _ _ E). case_match; [done|]. f_equal. apply (Hpage pa _ P Hk); [right; by eapply list_elem_of_lookup_2|apply in_page_va].
Qed.

(** C10: fork's copy of memory.  For a process with sz bytes, uvmcopy to a table just
    created returns.  The parent's memory is as before.  On 0 the child reads at every
    address what the parent reads, and the two share no page; on -1, which three free
    pages per page of the parent rule out, the child has no memory.  Freeing the child then leaves the parent's memory as it is and gives back
    every page that was taken. *)
Theorem uvmcopy_duplicates s0 free0 root s sz child s1 : kinv kend s0 free0 -> lifetime kend s0 root s sz -> uvmcreate s = Ret child s1 -> child <> 0 ->
  exists r s2 free, uvmcopy kend root child sz s1 = Ret r s2 /\ kinv kend s free /\ (r = 0 \/ r = -1 /\ (length free <= 3 * npages sz)%nat) /\ held s2 = held s /\
    (forall va, 0 <= va < MAXVA -> ubyte s2 root va = ubyte s root va /\ ubyte s2 child va = if r =? 0 then ubyte s root va else None) /\
    (forall va va' pa, 0 <= va < MAXVA -> 0 <= va' < MAXVA -> walkaddr root va s2 = Ret pa s2 -> walkaddr child va' s2 = Ret pa s2 -> pa = 0) /\
    exists s3 free3, uvmfree kend child (if r =? 0 then sz else 0) s2 = Ret tt s3 /\ kinv kend s3 free3 /\ free3 ≡ₚ free /\
      forall va, 0 <= va < MAXVA -> ubyte s3 root va = ubyte s root va.
Proof.
  intros I Hlife Hc H0. destruct (lifetime_uspace kend kend_ok s0 free0 root s sz I Hlife) as (Hsz & Hh & D & free & pas & U & Hlen).
  pose proof (vi_k _ _ _ _ _ (us_inv _ _ _ _ _ _ _ _ _ U)) as Ik. destruct (uvmcreate_run kend kend_ok all_user s free child s1 Ik Hc H0) as (D1 & free1 & U1 & Hh1 & Hk1 & Efree).
  pose proof (uspace_parent s root D free pas free0 U) as P. pose proof (keeps_parent kend root D pas free [] s s1 P Hk1) as P1.
  destruct (uvmcopy_run kend kend_ok root D pas free s1 child D1 free1 sz U1 P1 Hlen Hsz) as (r & s2 & D2 & free2 & pas2 & Hr & U2 & Hh2 & Hk2 & Hcase).
  pose proof (keeps_pages_trans _ _ _ _ _ Hk1 Hk2) as Hk. exists r, s2, free. split_and!; [done|done| |congruence| | |].
  - destruct Hcase as [[]|(? & _ & Hs)]; [by left|right]. split; [done|]. rewrite Efree, <- Hlen. simpl. lia.
  - intros va Hva. destruct (uspace_unchanged s s2 root D free pas free0 va U Hk Hva) as [_ Hp]. split; [done|]. rewrite (us_ubyte kend kend_ok s2 child D2 free2 pas2 free va U2 Hva).
    destruct Hcase as [(-> & Hl & Hs)|(-> & -> & _)]; [|by rewrite lookup_nil]. cbn [Z.eqb]. rewrite <- Hp. unfold ubyte.
    destruct (uspace_unchanged s s2 root D free pas free0 va U Hk Hva) as [-> _]. destruct (pas !! Z.to_nat (vpn va)) as [q|] eqn:Eq.
    + rewrite (nth_lookup_Some _ _ _ _ Eq). destruct (lookup_lt_is_Some_2 pas2 (Z.to_nat (vpn va))) as [p Ep]; [rewrite Hl; by eapply lookup_lt_Some|]. rewrite Ep. cbn [mbind option_bind].
      assert (Hv : valid_page kend q) by (apply (pa_valid _ _ _ _ _ _ P); right; by eapply list_elem_of_lookup_2). pose proof (valid_page_range kend kend_ok q Hv) as [Hq _].
      rewrite (proj2 (Z.eqb_neq q 0)) by lia. f_equal. apply (Hs (Z.to_nat (vpn va)) p q); [done|done|apply Z.mod_pos_bound; unfold PGSIZE; lia].
    + rewrite nth_overflow by (by apply lookup_ge_None in Eq). apply lookup_ge_None in Eq. rewrite lookup_ge_None_2 by lia. done.
  - intros va va' pa Hva Hva' Hw Hw'. destruct (uspace_unchanged s s2 root D free pas free0 va U Hk Hva) as [E _]. rewrite Hw in E. injection E as E.
    rewrite (us_walkaddr kend kend_ok all_user s2 child D2 free2 pas2 _ free va' U2 ltac:(done) ltac:(lia) eq_refl ltac:(lia)) in Hw'. injection Hw' as E'.
    destruct (pas !! Z.to_nat (vpn va)) as [q|] eqn:Eq; [|rewrite nth_overflow in E by (by apply lookup_ge_None in Eq); done].
    destruct (pas2 !! Z.to_nat (vpn va')) as [p|] eqn:Ep; [|rewrite nth_overflow in E' by (by apply lookup_ge_None in Ep); done].
    rewrite (nth_lookup_Some _ _ _ _ Eq) in E. rewrite (nth_lookup_Some _ _ _ _ Ep) in E'. subst p q. exfalso. apply (pa_apart _ _ _ _ _ _ P pa); [right; by eapply list_elem_of_lookup_2|].
    apply (us_in_total _ _ _ _ _ _ _ _ _ U2). right. left. by eapply list_elem_of_lookup_2.
  - destruct (uvmfree_run kend kend_ok all_user s2 child D2 free2 pas2 free (if r =? 0 then sz else 0) U2) as (s3 & free3 & Hf & I3 & HP & _ & Hk3).
    + destruct Hcase as [(-> & Hl & _)|(-> & -> & _)]; [by rewrite Hl, Hlen|done].
    + case_match; [done|]. split; [lia|unfold TRAPFRAME, TRAMPOLINE, MAXVA, PGSIZE; lia].
    + exists s3, free3. split_and!; [done|done|done|]. intros va Hva. apply (uspace_unchanged s s3 root D free pas free0 va U); [|done]. by eapply keeps_pages_trans.
Qed.
End fork_space.

(** Sixteen pages of memory: a process of 5000 bytes is copied, and the copy freed. *)
Lemma uvmcopy_duplicates_witness : let kend := PHYSTOP - 16 * PGSIZE in
  exists s root child s1 s2, uvmcreate s = Ret child s1 /\ uvmcopy kend root child 5000 s1 = Ret 0 s2 /\
    (forall va, 0 <= va < MAXVA -> ubyte s2 child va = ubyte s root va) /\ ubyte s root 4999 = Some 0 /\
    exists s3 free free3, uvmfree kend child 5000 s2 = Ret tt s3 /\ kinv kend s free /\ kinv kend s3 free3 /\ free3 ≡ₚ free.
Proof.
  cbv zeta. set (kend := PHYSTOP - 16 * PGSIZE). assert (Hk : KERNBASE <= kend <= PHYSTOP) by (unfold kend, PHYSTOP, KERNBASE, PGSIZE; lia).
  destruct example_created as (sk & root & rest & sc & _ & I & Hc & H0 & Hl & _). fold kend in I. pose proof (life_create kend sk root sc Hc H0) as L0.
  destruct (uvmcreate_run kend Hk all_user sk _ root sc I Hc H0) as (D & free & U & _ & _ & E). injection E as <-.
  assert (Hsz : 0 <= 5000 <= TRAPFRAME) by (unfold TRAPFRAME, TRAMPOLINE, MAXVA, PGSIZE; lia). assert (Hx : 0 <= PTE_W < 1024) by (unfold PTE_W; lia).
  destruct (uvmalloc_run kend Hk all_user sc root D rest [] _ _ 0 5000 PTE_W U eq_refl ltac:(lia) ltac:(lia) Hx ltac:(done)) as (r & s & D' & free' & pas & Hr & U' & _ & Hcase).
  change (npages 5000 - length [])%nat with 2%nat in Hcase. destruct Hcase as [(-> & (more & E & Hz) & Hlp & _ & Hlf)|(_ & _ & _ & Hlf)]; [|lia]. cbn [app] in E. subst more.
  pose proof (life_grow kend sk root sc 0 5000 PTE_W 5000 s L0 Hsz Hx Hr) as L1. change (npages 5000) with 2%nat in Hlp.
  pose proof (vi_k _ _ _ _ _ (us_inv _ _ _ _ _ _ _ _ _ U')) as I'. destruct free' as [|child free']; [simpl in Hlf; lia|].
  destruct (uvmcreate_spec kend Hk s _ I') as (s1 & Hc1 & _). assert (Hc0 : child <> 0).
  { assert (Hv : valid_page kend child) by (eapply (chain_valid kend); [apply I'|left]). destruct (valid_page_range kend Hk child Hv). lia. }
  destruct (uvmcopy_duplicates kend Hk sk _ root s _ child s1 I L1 Hc1 Hc0) as (r & s2 & free & Hr2 & If & Hres & _ & Hb & _ & s3 & free3 & Hf & I3 & HP & _).
  rewrite (kinv_unique kend Hk s free _ If I') in *. change (npages _) with 2%nat in Hres. assert (r = 0) as -> by (destruct Hres as [|[_ Hs]]; [done|simpl in *; lia]).
  exists s, root, child, s1, s2. split_and!; [exact Hc1|exact Hr2|intros va Hva; apply (Hb va Hva)| |exists s3, (child :: free'), free3; split_and!; [exact Hf|exact I'|exact I3|exact HP]].
  rewrite (us_ubyte kend Hk s root D' _ pas _ 4999 U') by (unfold MAXVA; lia). change (Z.to_nat (vpn 4999)) with 1%nat.
  destruct (lookup_lt_is_Some_2 pas 1 ltac:(lia)) as [pa Hpa]. rewrite Hpa. cbn [mbind option_bind]. f_equal. apply (Hz pa); [by eapply list_elem_of_lookup_2|apply in_page_va].
Defined.
