(* ===== verification/Random.v ===== *)
(** Knuth's additive random number generator,
    [src/projects/project_3/changed_files/kernel/random.c]. *)

From stdpp Require Import base list.
From S2P Require Import Prelude.

(** The macros *)
Definition KK : Z := 100.
Definition LL : Z := 37.
Definition MM : Z := 2 ^ 30.
Definition TT : Z := 70.
Definition mod_diff (x y : Z) : Z := Z.land (x - y) (MM - 1).
Definition is_odd (x : Z) : bool := negb (Z.land x 1 =? 0).
Definition evenize (x : Z) : Z := Z.land x (MM - 2).

(** The global variables [long ran_x[KK]], [long aa[2000]], [int rand_index] *)
Record rand := MkRand { ran_x : list Z; aa : list Z; rand_index : Z }.

Definition rand0 : rand := MkRand (replicate 100 0) (replicate 2000 0) 0.

(** The state is the pair of arrays the loops write. *)
Definition ran_array (r : rand) (n : Z) : rand :=
  (* for (j=0; j<KK;j++) aa[j]=ran_x[j]; *)
  let a := for_up 0 (Z.to_nat KK) (fun j a => wr a j (rd (ran_x r) j)) (aa r) in
  (* for (;j<n;j++) aa[j]=mod_diff(aa[j-KK], aa[j-LL]); *)
  let a := for_up KK (Z.to_nat (n - KK)) (fun j a => wr a j (mod_diff (rd a (j - KK)) (rd a (j - LL)))) a in
  let j0 := Z.max KK n in
  (* for(i=0;i<LL;i++,j++) ran_x[i]= mod_diff(aa[j-KK], aa[j-LL]); *)
  let x := for_up 0 (Z.to_nat LL)
             (fun i x => let j := j0 + i in wr x i (mod_diff (rd a (j - KK)) (rd a (j - LL)))) (ran_x r) in
  (* for (;i<KK;i++,j++) ran_x[i]= mod_diff(aa[j-KK], ran_x[i-LL]); *)
  let x := for_up LL (Z.to_nat (KK - LL))
             (fun i x => let j := j0 + i in wr x i (mod_diff (rd a (j - KK)) (rd x (i - LL)))) x in
  MkRand x a (rand_index r).

(** The first loop of ran_start: x[j]=ss; ss<<=1; if (ss>=MM) ss -= MM-2; *)
Definition seed_fill (j : Z) (p : list Z * Z) : list Z * Z :=
  let '(x, ss) := p in
  let x := wr x j ss in
  let ss := 2 * ss in
  (x, if MM <=? ss then ss - (MM - 2) else ss).

(** The body of while (t) up to the shift of ss *)
Definition seed_round (ss : Z) (x : list Z) : list Z :=
  (* for (j=KK-1;j>0;j--) x[j+j]= x[j]; *)
  let x := for_down (KK - 1) (Z.to_nat (KK - 1)) (fun j x => wr x (j + j) (rd x j)) x in
  (* for (j=KK+KK-2; j>KK-LL;j-=2) x[KK+KK-1-j] = evenize(x[j]); *)
  let x := for_up 0 68 (fun i x => let j := KK + KK - 2 - 2 * i in
                                   wr x (KK + KK - 1 - j) (evenize (rd x j))) x in
  (* for (j=KK+KK-2; j >=KK; j--) if (is_odd(x[j])) ... *)
  let x := for_down (KK + KK - 2) (Z.to_nat (KK - 1))
             (fun j x =>
                if is_odd (rd x j) then
                  let x := wr x (j - (KK - LL)) (mod_diff (rd x (j - (KK - LL))) (rd x j)) in
                  wr x (j - KK) (mod_diff (rd x (j - KK)) (rd x j))
                else x) x in
  if is_odd ss then
    (* for(j=KK;j>0;j--) x[j]=x[j-1]; x[0]=x[KK]; *)
    let x := for_down KK (Z.to_nat KK) (fun j x => wr x j (rd x (j - 1))) x in
    let x := wr x 0 (rd x KK) in
    if is_odd (rd x KK) then wr x LL (mod_diff (rd x LL) (rd x KK)) else x
  else x.

(** while (t) { ...; if (ss) ss>>=1; else t--; } *)
Fixpoint seed_loop (fuel : nat) (x : list Z) (ss t : Z) : option (list Z) :=
  if t =? 0 then Some x
  else
    match fuel with
    | O => None
    | S fuel =>
        let x := seed_round ss x in
        if negb (ss =? 0) then seed_loop fuel x (Z.shiftr ss 1) t
        else seed_loop fuel x ss (t - 1)
    end.

(** ss has 30 bits and t starts at TT-1, so 99 turns are enough. *)
Definition ran_start (seed : Z) (r : rand) : option rand :=
  let x := replicate 199 0 in
  let '(x, _) := for_up 0 (Z.to_nat KK) seed_fill (x, evenize (seed + 2)) in
  let x := for_up KK (Z.to_nat (KK - 1)) (fun j x => wr x j 0) x in
  let x := wr x 1 (rd x 1 + 1) in
  match seed_loop 99 x (Z.land seed (MM - 1)) (TT - 1) with
  | None => None
  | Some x =>
      (* for (j=0;j<LL;j++) ran_x[j+KK-LL]=x[j]; for(;j<KK;j++) ran_x[j-LL]=x[j]; *)
      let rx := for_up 0 (Z.to_nat LL) (fun j rx => wr rx (j + KK - LL) (rd x j)) (ran_x r) in
      let rx := for_up LL (Z.to_nat (KK - LL)) (fun j rx => wr rx (j - LL) (rd x j)) rx in
      let r := ran_array (MkRand rx (aa r) (rand_index r)) 1009 in
      Some (MkRand (ran_x r) (aa r) 0)
  end.

Definition nextRand (r : rand) : Z * rand :=
  let i := rand_index r + 1 in
  let r := MkRand (ran_x r) (aa r) i in
  let r := if 100 <? i then let r := ran_array r 1009 in MkRand (ran_x r) (aa r) 0 else r in
  (rd (aa r) (rand_index r), r).

Definition rand_init (seed : Z) (r : rand) : option rand := ran_start seed r.

(** C's % truncates; the RISC-V remainder by zero is the dividend. *)
Definition rem_c (a b : Z) : Z := if b =? 0 then a else Z.rem a b.

Definition scaled_random (low high : Z) (r : rand) : Z * rand :=
  let range := s32 (high - low + 1) in
  let '(val, r) := nextRand r in
  (s32 (rem_c val range + low), r).

(** ** Values *)

Lemma mod_diff_eq x y : mod_diff x y = (x - y) mod MM.
Proof. unfold mod_diff, MM. change (2 ^ 30 - 1) with (Z.ones 30). by rewrite Z.land_ones by lia. Qed.

(** Numbers the generator produces. *)
Definition is_value (v : Z) : Prop := 0 <= v < MM.

Lemma mod_diff_value x y : is_value (mod_diff x y).
Proof. rewrite mod_diff_eq. apply Z.mod_pos_bound. done. Qed.

Lemma evenize_eq x : evenize x = 2 * ((x / 2) mod 2 ^ 29).
Proof.
  unfold evenize, MM. change (2 ^ 30 - 2) with (Z.shiftl (Z.ones 29) 1).
  change (x / 2) with (x / 2 ^ 1). rewrite <- Z.land_ones, <- Z.shiftr_div_pow2 by lia.
  transitivity (Z.shiftl (Z.land (Z.shiftr x 1) (Z.ones 29)) 1);
    [|rewrite Z.shiftl_mul_pow2 by lia; lia].
  apply Z.bits_inj'. intros i Hi. rewrite Z.land_spec.
  destruct (decide (i = 0)) as [->|].
  - rewrite !(Z.shiftl_spec_low _ 1 0) by lia. apply andb_false_r.
  - rewrite !Z.shiftl_spec, Z.land_spec, Z.shiftr_spec by lia. do 2 f_equal. lia.
Qed.

(** Even values, which x[1]++ keeps in range. *)
Definition is_even_value (v : Z) : Prop := 0 <= v <= MM - 2 /\ exists k, v = 2 * k.

Lemma evenize_even x : is_even_value (evenize x).
Proof.
  rewrite evenize_eq. unfold is_even_value, MM. pose proof (Z.mod_pos_bound (x / 2) (2 ^ 29)).
  split; [lia|eauto].
Qed.

Lemma evenize_value x : is_value (evenize x).
Proof. destruct (evenize_even x). unfold is_value, MM in *. lia. Qed.

(** An array of [n] values. *)
Definition values (n : Z) (l : list Z) : Prop :=
  Z.of_nat (length l) = n /\ all_entries is_value l.

Lemma values_wr n l i v : 0 <= i -> values n l -> is_value v -> values n (wr l i v).
Proof. intros Hi [Hl Hv] H. split; [by rewrite length_wr|by apply all_entries_wr]. Qed.

Lemma values_rd n l i : values n l -> is_value (rd l i) \/ rd l i = 0.
Proof.
  intros [Hl Hv]. destruct (decide (0 <= i < n)).
  - left. apply Hv. lia.
  - destruct (decide (0 <= i)).
    + right. unfold rd. rewrite nth_overflow by lia. done.
    + destruct l; [right; apply nth_nil|]. left. replace (rd (z :: l) i) with (rd (z :: l) 0); [apply Hv; simpl; lia|].
      unfold rd. f_equal. lia.
Qed.

Lemma values_rd_value n l i : values n l -> is_value (rd l i).
Proof. intros H. destruct (values_rd n l i H) as [Hv|Hv]; [done|]. rewrite Hv. unfold is_value, MM. lia. Qed.

#[local] Hint Resolve mod_diff_value evenize_value values_rd_value : core.

(** ** The sequence *)

(** Term [j] of the sequence x_j = (x_(j-100) - x_(j-37)) mod 2^30 that starts
    with the window [x]. *)
Definition knuth_step (w : list Z) : list Z := tail w ++ [(rd w 0 - rd w 63) mod MM].
Definition window (x : list Z) (n : nat) : list Z := Nat.iter n knuth_step x.
Definition knuth (x : list Z) (j : Z) : Z := rd (window x (Z.to_nat j)) 0.

Lemma length_window x n : length x = 100%nat -> length (window x n) = 100%nat.
Proof.
  intros Hx. induction n as [|n IH]; [done|]. simpl. unfold knuth_step.
  rewrite length_app, length_tl. fold (window x n). rewrite IH. done.
Qed.

Lemma knuth_step_rd w i : length w = 100%nat ->
  rd (knuth_step w) i = if decide (0 <= i < 99) then rd w (i + 1)
                        else if decide (i = 99) then (rd w 0 - rd w 63) mod MM else rd (knuth_step w) i.
Proof.
  intros Hw. unfold knuth_step. repeat case_decide; try done; unfold rd.
  - destruct w as [|a w]; [done|]. simpl in Hw. simpl tail.
    rewrite app_nth1 by lia. replace (Z.to_nat (i + 1)) with (S (Z.to_nat i)) by lia. done.
  - subst. rewrite app_nth2; rewrite length_tl, Hw; [done|lia].
Qed.

Lemma window_add x n m : window x (n + m) = window (window x m) n.
Proof. unfold window. by rewrite Nat.iter_add. Qed.

(** The window after [n] steps holds the next hundred terms. *)
Lemma window_rd x n i : length x = 100%nat -> 0 <= i < 100 -> rd (window x n) i = knuth x (Z.of_nat n + i).
Proof.
  intros Hx Hi. unfold knuth. replace (Z.to_nat (Z.of_nat n + i)) with (Z.to_nat i + n)%nat by lia.
  assert (E : forall k m w, length w = 100%nat -> 0 <= m -> m + Z.of_nat k < 100 ->
            rd (window w k) m = rd w (m + Z.of_nat k)).
  { induction k as [|k IH]; intros m w Hw Hm Hk; [by rewrite Z.add_0_r|].
    simpl. rewrite knuth_step_rd by (by apply length_window). rewrite decide_True by lia.
    fold (window w k). rewrite IH by (auto; lia). f_equal. lia. }
  rewrite window_add, (E (Z.to_nat i) 0); [|by apply length_window|lia..].
  f_equal. lia.
Qed.

Lemma knuth_rec x j : length x = 100%nat -> 0 <= j ->
  knuth x (j + 100) = mod_diff (knuth x j) (knuth x (j + 63)).
Proof.
  intros Hx Hj. rewrite mod_diff_eq.
  replace (j + 100) with (Z.of_nat (S (Z.to_nat j)) + 99) by lia.
  rewrite <- window_rd by (auto; lia). simpl. rewrite knuth_step_rd by (by apply length_window).
  rewrite decide_False, decide_True by lia. fold (window x (Z.to_nat j)).
  rewrite !window_rd by (auto; lia). rewrite Z2Nat.id, Z.add_0_r by lia. done.
Qed.

Lemma knuth_init x j : length x = 100%nat -> 0 <= j < 100 -> knuth x j = rd x j.
Proof. intros Hx Hj. symmetry. exact (window_rd x 0 j Hx Hj). Qed.

Lemma ran_array_spec r n :
  length (ran_x r) = 100%nat -> KK <= n <= Z.of_nat (length (aa r)) ->
  let r' := ran_array r n in
  (forall j, 0 <= j < n -> rd (aa r') j = knuth (ran_x r) j) /\
  (forall j, n <= j -> rd (aa r') j = rd (aa r) j) /\
  length (aa r') = length (aa r) /\ ran_x r' = window (ran_x r) (Z.to_nat n).
Proof.
  intros Hx Hn. unfold ran_array. cbv zeta. cbn [aa ran_x]. set (f := knuth (ran_x r)).
  (* the array aa, filled up to [j] *)
  set (P := fun j a => length a = length (aa r) /\ (forall i, 0 <= i < j -> rd a i = f i) /\
                       (forall i, j <= i -> rd a i = rd (aa r) i)).
  assert (Hwr : forall j a v, 0 <= j < n -> P j a -> v = f j -> P (j + 1) (wr a j v)).
  { intros j a v Hj (A1 & A2 & A3) ->. split_and!; [by rewrite length_wr|..].
    - intros i Hi. destruct (decide (i = j)) as [->|]; [apply rd_wr_same; lia|].
      rewrite rd_wr_other by lia. apply A2. lia.
    - intros i Hi. rewrite rd_wr_other by lia. apply A3. lia. }
  assert (H1 := for_up_inv P (fun j a => wr a j (rd (ran_x r) j)) (Z.to_nat KK) 0 (aa r)).
  set (a1 := for_up 0 _ _ _) in *. change (0 + Z.of_nat (Z.to_nat KK)) with KK in H1.
  assert (P1 : P KK a1).
  { apply H1; [split_and!; [done|lia|done]|]. unfold KK in *. intros j a Hj HP. apply Hwr; [lia|done|].
    symmetry. apply knuth_init; [done|lia]. }
  clear H1.
  assert (H2 := for_up_inv P (fun j a => wr a j (mod_diff (rd a (j - KK)) (rd a (j - LL))))
                  (Z.to_nat (n - KK)) KK a1 P1).
  set (a2 := for_up KK _ _ a1) in *. replace (KK + Z.of_nat (Z.to_nat (n - KK))) with n in H2 by lia.
  assert (P2 : P n a2).
  { apply H2. intros j a Hj HP. apply Hwr; [unfold KK in *; lia|done|]. destruct HP as (_ & A2 & _).
    unfold KK, LL in *. rewrite !A2 by lia. subst f. replace j with (j - 100 + 100) at 3 by lia.
    rewrite knuth_rec by (auto; lia). do 2 f_equal. lia. }
  clear H2. destruct P2 as (B1 & B2 & B3).
  rewrite Z.max_r by lia. split_and!; auto.
  (* the state, filled up to [i] *)
  set (Q := fun i x => length x = 100%nat /\ forall k, 0 <= k < i -> rd x k = f (n + k)).
  assert (Qwr : forall i x v, 0 <= i < 100 -> Q i x -> v = f (n + i) -> Q (i + 1) (wr x i v)).
  { intros i x v Hi (A1 & A2) ->. split; [by rewrite length_wr|].
    intros k Hk. destruct (decide (k = i)) as [->|]; [apply rd_wr_same; lia|].
    rewrite rd_wr_other by lia. apply A2. lia. }
  assert (Hrec : forall i, 0 <= i -> f (n + i) = mod_diff (f (n + i - KK)) (f (n + i - LL))).
  { intros i Hi. unfold KK, LL in *. replace (n + i) with (n + i - 100 + 100) at 1 by lia.
    subst f. rewrite knuth_rec by (auto; lia). do 2 f_equal. lia. }
  assert (H3 := for_up_inv Q (fun i x => wr x i (mod_diff (rd a2 (n + i - KK)) (rd a2 (n + i - LL))))
                  (Z.to_nat LL) 0 (ran_x r)).
  set (x1 := for_up 0 _ _ (ran_x r)) in *. change (0 + Z.of_nat (Z.to_nat LL)) with LL in H3.
  assert (Q1 : Q LL x1).
  { apply H3; [split; [done|lia]|]. unfold LL in *. intros i x Hi HQ. apply Qwr; [lia|done|].
    rewrite Hrec by lia. unfold KK, LL in *. by rewrite !B2 by lia. }
  assert (H4 := for_up_inv Q (fun i x => wr x i (mod_diff (rd a2 (n + i - KK)) (rd x (i - LL))))
                  (Z.to_nat (KK - LL)) LL x1 Q1).
  set (x2 := for_up LL _ _ x1) in *. change (LL + Z.of_nat (Z.to_nat (KK - LL))) with KK in H4.
  assert (Q2 : Q KK x2).
  { apply H4. unfold KK, LL in *. change (Z.of_nat (Z.to_nat (100 - 37))) with 63.
    intros i x Hi HQ. apply Qwr; [lia|done|]. rewrite Hrec by lia. unfold KK, LL in *.
    destruct HQ as [_ A2]. rewrite B2, A2 by lia. do 2 f_equal. lia. }
  destruct Q2 as [C1 C2]. apply rd_ext; [by rewrite length_window|].
  intros k Hk. rewrite C1 in Hk. rewrite C2 by (unfold KK; lia). rewrite window_rd by (auto; lia).
  rewrite Z2Nat.id by (unfold KK in *; lia). done.
Qed.

(** ** Ranges *)

(** The generator is ready for use. *)
Definition rand_inv (r : rand) : Prop :=
  values 100 (ran_x r) /\ values 2000 (aa r) /\ 0 <= rand_index r <= 100.

Lemma ran_array_values r n :
  values 100 (ran_x r) -> values 2000 (aa r) ->
  values 100 (ran_x (ran_array r n)) /\ values 2000 (aa (ran_array r n)).
Proof.
  intros Hx Ha. unfold ran_array. cbv zeta. cbn [aa ran_x]. split.
  - apply (for_up_inv (fun _ => values 100)); [apply (for_up_inv (fun _ => values 100)); [done|]|];
      unfold LL; intros i x Hi Hv; apply values_wr; auto; lia.
  - apply (for_up_inv (fun _ => values 2000)); [apply (for_up_inv (fun _ => values 2000)); [done|]|];
      unfold KK; intros j a Hj Hv; apply values_wr; eauto; lia.
Qed.

Lemma seed_round_values ss x : values 199 x -> values 199 (seed_round ss x).
Proof.
  intros Hx. unfold seed_round.
  set (x1 := for_down _ _ _ x). assert (H1 : values 199 x1).
  { apply (for_down_inv (values 199)); [done|]. unfold KK. intros j x' Hj Hv. apply values_wr; eauto; lia. }
  set (x2 := for_up _ _ _ x1). assert (H2 : values 199 x2).
  { apply (for_up_inv (fun _ => values 199)); [done|]. unfold KK. intros j x' Hj Hv. apply values_wr; auto; lia. }
  set (x3 := for_down _ _ _ x2). assert (H3 : values 199 x3).
  { apply (for_down_inv (values 199)); [done|]. unfold KK, LL. intros j x' Hj Hv. case_test; [|done].
    apply values_wr; [lia| |auto]. apply values_wr; auto; lia. }
  case_test; [|done]. set (x4 := for_down _ _ _ x3). assert (H4 : values 199 x4).
  { apply (for_down_inv (values 199)); [done|]. unfold KK. intros j x' Hj Hv. apply values_wr; eauto; lia. }
  assert (values 199 (wr x4 0 (rd x4 KK))) by (apply values_wr; eauto; lia).
  case_test; [|done]. apply values_wr; auto. unfold LL. lia.
Qed.

(** The while loop ends: each turn halves ss, or counts t down. *)
Lemma seed_loop_terminates fuel x ss t b :
  values 199 x -> 0 <= ss < 2 ^ Z.of_nat b -> 0 <= t -> Z.of_nat b + t <= Z.of_nat fuel ->
  exists x', seed_loop fuel x ss t = Some x' /\ values 199 x'.
Proof.
  revert x ss t b. induction fuel as [|fuel IH]; intros x ss t b Hx Hs Ht Hf; cbn [seed_loop];
    case_test; bool_to_prop; eauto; [lia|].
  pose proof (seed_round_values ss x Hx) as Hx'. case_test; bool_to_prop.
  - destruct b as [|b]; [simpl in Hs; lia|]. apply (IH _ _ _ b); auto; [|lia].
    rewrite Z.shiftr_div_pow2 by lia. rewrite Nat2Z.inj_succ, Z.pow_succ_r in Hs by lia.
    split; [apply Z.div_pos; lia|apply Z.div_lt_upper_bound; lia].
  - apply (IH _ _ _ b); auto; lia.
Qed.

Lemma even_is_value v : is_even_value v -> is_value v.
Proof. intros [H _]. unfold is_value, MM in *. lia. Qed.

Lemma seed_shift_even ss :
  is_even_value ss -> is_even_value (if MM <=? 2 * ss then 2 * ss - (MM - 2) else 2 * ss).
Proof.
  intros [H [k ->]]. unfold is_even_value, MM in *. case_test; bool_to_prop; split; try lia.
  - exists (2 * k - (2 ^ 29 - 1)). lia.
  - by exists (2 * k).
Qed.

Lemma seed_fill_spec x ss :
  is_even_value ss -> values 199 x ->
  let p := for_up 0 (Z.to_nat KK) seed_fill (x, ss) in
  values 199 (fst p) /\ is_even_value (rd (fst p) 1).
Proof.
  intros He Hx. cbv zeta.
  assert (H := for_up_inv (fun j p => is_even_value (snd p) /\ values 199 (fst p) /\
                 (1 < j -> is_even_value (rd (fst p) 1))) seed_fill (Z.to_nat KK) 0 (x, ss)).
  destruct H as (_ & H1 & H2); [by split_and!| |by split; [|apply H2]].
  intros j [x' ss'] Hj (H1 & H2 & H3). simpl in *. split_and!.
  - by apply seed_shift_even.
  - apply values_wr; [lia|done|by apply even_is_value].
  - intros Hj1. destruct H2 as [Hl _]. destruct (decide (j = 1)) as [->|].
    + by rewrite rd_wr_same by lia.
    + rewrite rd_wr_other by lia. apply H3. lia.
Qed.

Lemma replicate_values n k : n = Z.of_nat k -> values n (replicate k 0).
Proof.
  intros ->. split; [by rewrite length_replicate|]. intros i Hi. unfold rd. rewrite nth_lookup.
  rewrite length_replicate in Hi. rewrite lookup_replicate_2 by lia. simpl. unfold is_value, MM. lia.
Qed.

Lemma ran_start_inv seed r :
  values 100 (ran_x r) -> values 2000 (aa r) ->
  exists r', ran_start seed r = Some r' /\ rand_inv r' /\ rand_index r' = 0.
Proof.
  intros Hx Ha. unfold ran_start.
  pose proof (seed_fill_spec (replicate 199 0) (evenize (seed + 2)) (evenize_even _)
                (replicate_values 199 199 eq_refl)) as [H1 H2].
  destruct (for_up 0 (Z.to_nat KK) seed_fill _) as [x ss]. simpl in H1, H2.
  set (x1 := for_up KK _ _ x).
  assert (H3 : values 199 x1 /\ is_even_value (rd x1 1)).
  { subst x1. apply (for_up_inv (fun _ x => values 199 x /\ is_even_value (rd x 1))); [done|].
    unfold KK. intros j x' Hj [? ?]. split; [apply values_wr; auto; [lia|unfold is_value, MM; lia]|].
    by rewrite rd_wr_other by lia. }
  destruct H3 as [H3 H4].
  assert (H5 : values 199 (wr x1 1 (rd x1 1 + 1))).
  { apply values_wr; [lia|done|]. destruct H4 as [H4 _]. unfold is_value, MM in *. lia. }
  assert (H6 : 0 <= Z.land seed (MM - 1) < 2 ^ Z.of_nat 30).
  { unfold MM. change (2 ^ 30 - 1) with (Z.ones 30). rewrite Z.land_ones by lia.
    apply Z.mod_pos_bound. lia. }
  destruct (seed_loop_terminates 99 _ _ (TT - 1) 30 H5 H6) as (x' & E & Hx'); [unfold TT; lia..|].
  rewrite E. eexists. split; [done|]. cbn [ran_x aa rand_index].
  set (rx := for_up LL _ _ _). assert (Hrx : values 100 rx).
  { apply (for_up_inv (fun _ => values 100)); [apply (for_up_inv (fun _ => values 100)); [done|]|];
      unfold LL, KK; intros j y Hj Hv; apply values_wr; eauto; lia. }
  destruct (ran_array_values (MkRand rx (aa r) (rand_index r)) 1009 Hrx Ha) as [? ?].
  split; [|done]. split_and!; [done..|simpl; lia|simpl; lia].
Qed.

Lemma nextRand_inv r : rand_inv r -> rand_inv (snd (nextRand r)) /\ is_value (fst (nextRand r)).
Proof.
  intros (Hx & Ha & Hi). unfold nextRand. case_test; bool_to_prop; cbn [fst snd aa ran_x rand_index].
  - destruct (ran_array_values (MkRand (ran_x r) (aa r) (rand_index r + 1)) 1009 Hx Ha) as [? ?].
    split; [split_and!; [done..|simpl; lia|simpl; lia]|eauto].
  - split; [split_and!; [done..|simpl; lia|simpl; lia]|eauto].
Qed.

Lemma scaled_random_inv low high r : rand_inv r -> rand_inv (snd (scaled_random low high r)).
Proof. intros H%nextRand_inv. unfold scaled_random. by destruct (nextRand r), H. Qed.

Lemma scaled_random_range low high r :
  rand_inv r -> - 2 ^ 31 <= low -> low <= high -> high < 2 ^ 31 -> high - low + 1 < 2 ^ 31 ->
  low <= fst (scaled_random low high r) <= high.
Proof.
  intros H%nextRand_inv H1 H2 H3 H4. unfold scaled_random. destruct (nextRand r) as [v r'], H as [_ Hv].
  simpl in *. rewrite (s32_small (high - low + 1)) by lia. unfold rem_c.
  rewrite (proj2 (Z.eqb_neq _ _)) by lia. unfold is_value, MM in Hv.
  rewrite Z.rem_mod_nonneg by lia. pose proof (Z.mod_pos_bound v (high - low + 1)).
  rewrite s32_small by lia. lia.
Qed.

(** ** Properties *)

(** ran_array is the lagged Fibonacci generator: it fills aa with the
    first n terms of x_j = (x_(j-100) - x_(j-37)) mod 2^30 after the current
    state, touches nothing beyond them, and leaves the state so that the terms
    after it are exactly the ones that follow; consecutive calls deliver
    consecutive stretches of one sequence. *)
Theorem ran_array_sequence r n :
  length (ran_x r) = 100%nat -> 100 <= n <= Z.of_nat (length (aa r)) ->
  (forall j, 0 <= j -> knuth (ran_x r) (j + 100) =
     (knuth (ran_x r) j - knuth (ran_x r) (j + 63)) mod 2 ^ 30) /\
  (forall j, 0 <= j < n -> rd (aa (ran_array r n)) j = knuth (ran_x r) j) /\
  (forall j, n <= j -> rd (aa (ran_array r n)) j = rd (aa r) j) /\
  (forall j, 0 <= j -> knuth (ran_x (ran_array r n)) j = knuth (ran_x r) (n + j)).
Proof.
  intros Hx Hn. destruct (ran_array_spec r n Hx Hn) as (H1 & H2 & _ & H4). split_and!; auto.
  - intros j Hj. rewrite knuth_rec by done. by rewrite mod_diff_eq.
  - intros j Hj. unfold knuth. rewrite H4, <- window_add. do 2 f_equal. lia.
Qed.

Lemma ran_array_sequence_witness :
  rd (aa (ran_array (MkRand (Z.of_nat <$> seq 0 100) (replicate 300 0) 0) 250)) 120 = knuth (Z.of_nat <$> seq 0 100) 120.
Proof.
  assert (Hn : 100 <= 250 <= Z.of_nat (length (replicate 300 0))) by (rewrite length_replicate; lia).
  assert (Hx : length (Z.of_nat <$> seq 0 100) = 100%nat) by (rewrite length_fmap, length_seq; done).
  destruct (ran_array_sequence (MkRand (Z.of_nat <$> seq 0 100) (replicate 300 0) 0) 250 Hx Hn)
    as (_ & H & _).
  apply H. lia.
Defined.

(** C35: rand_init terminates for every seed, and after it, and after any
    number of further calls, scaled_random(low, high) lies between low and
    high whenever the range is not empty and fits an int. *)
Theorem scaled_random_bounds seed low high (calls : list (Z * Z)) :
  - 2 ^ 31 <= low -> low <= high -> high < 2 ^ 31 -> high - low + 1 < 2 ^ 31 ->
  exists r, rand_init seed rand0 = Some r /\
    let r' := foldl (fun r '(l, h) => snd (scaled_random l h r)) r calls in
    low <= fst (scaled_random low high r') <= high.
Proof.
  intros H1 H2 H3 H4. destruct (ran_start_inv seed rand0 (replicate_values 100 100 eq_refl) (replicate_values 2000 2000 eq_refl))
    as (r & E & I & _).
  exists r. split; [exact E|]. cbv zeta. apply scaled_random_range; auto. clear E.
  revert r I. induction calls as [|[l h] calls IH]; intros r I; cbn [foldl]; [exact I|].
  apply IH, scaled_random_inv, I.
Qed.

(** The first draw of the scheduler among three tickets. *)
Lemma scaled_random_bounds_witness :
  exists r, rand_init 20 rand0 = Some r /\ 1 <= fst (scaled_random 1 3 r) <= 3.
Proof.
  destruct (scaled_random_bounds 20 1 3 [] ltac:(lia) ltac:(lia) ltac:(lia) ltac:(lia)) as (r & E & H).
  exists r. split; [exact E|exact H].
Defined.
