(* ===== verification/Proc.v ===== *)
(** Processes and the lottery scheduler,
    [src/projects/project_3/changed_files/kernel/proc.c] (which extends
    [src/xv6-riscv/kernel/proc.c]), and the process system calls of sysproc.c.

    The model is what one CPU does.  [swtch] ends the run of a kernel thread:
    sched records in the context where the thread will go on, and reports
    [Blocked]; the code after sched in yield and sleep is a function of its
    own, run when the scheduler has switched back. *)

From stdpp Require Import base list sets strings.
From S2P Require Import Prelude Memory KString Spinlock Kalloc Vm Random.

(** ** Data *)

Definition NPROC : nat := 64.
Definition NOFILE : nat := 16.
Definition DEFAULT_TICKETS : Z := 1.
Definition DEFAULT_SEED : Z := 20.

Inductive procstate := UNUSED | USED | SLEEPING | RUNNABLE | RUNNING | ZOMBIE.
#[export] Instance procstate_eq_dec : EqDecision procstate.
Proof. solve_decision. Defined.

(** Where swtch resumes a thread, the saved ra of its context. *)
Inductive resume := CtxNone | CtxForkret | CtxYield | CtxSleep (lk : lockid) | CtxExit.

(** struct proc; the lock is [LProc i].  Pointers to files and inodes are
    integers, 0 for null; [name] is the string held by the array. *)
Record proc := MkProc {
  state : procstate; pchan : chan; killed_ : Z; xstate : Z; pid : Z; tickets : Z; ticks : Z;
  parent : option nat; kstack : Z; sz : Z; pagetable : Z; trapframe : Z; context : resume;
  ofile : list Z; cwd : Z; name : list Z }.

Definition proc0 : proc :=
  MkProc UNUSED CNull 0 0 0 0 0 None 0 0 0 0 CtxNone (replicate NOFILE 0) 0 [].

Definition set_state v p := MkProc v (pchan p) (killed_ p) (xstate p) (pid p) (tickets p) (ticks p)
  (parent p) (kstack p) (sz p) (pagetable p) (trapframe p) (context p) (ofile p) (cwd p) (name p).
Definition set_chan v p := MkProc (state p) v (killed_ p) (xstate p) (pid p) (tickets p) (ticks p)
  (parent p) (kstack p) (sz p) (pagetable p) (trapframe p) (context p) (ofile p) (cwd p) (name p).
Definition set_killed v p := MkProc (state p) (pchan p) v (xstate p) (pid p) (tickets p) (ticks p)
  (parent p) (kstack p) (sz p) (pagetable p) (trapframe p) (context p) (ofile p) (cwd p) (name p).
Definition set_xstate v p := MkProc (state p) (pchan p) (killed_ p) v (pid p) (tickets p) (ticks p)
  (parent p) (kstack p) (sz p) (pagetable p) (trapframe p) (context p) (ofile p) (cwd p) (name p).
Definition set_pid v p := MkProc (state p) (pchan p) (killed_ p) (xstate p) v (tickets p) (ticks p)
  (parent p) (kstack p) (sz p) (pagetable p) (trapframe p) (context p) (ofile p) (cwd p) (name p).
Definition set_tickets v p := MkProc (state p) (pchan p) (killed_ p) (xstate p) (pid p) v (ticks p)
  (parent p) (kstack p) (sz p) (pagetable p) (trapframe p) (context p) (ofile p) (cwd p) (name p).
Definition set_ticks v p := MkProc (state p) (pchan p) (killed_ p) (xstate p) (pid p) (tickets p) v
  (parent p) (kstack p) (sz p) (pagetable p) (trapframe p) (context p) (ofile p) (cwd p) (name p).
Definition set_parent v p := MkProc (state p) (pchan p) (killed_ p) (xstate p) (pid p) (tickets p) (ticks p)
  v (kstack p) (sz p) (pagetable p) (trapframe p) (context p) (ofile p) (cwd p) (name p).
Definition set_kstack v p := MkProc (state p) (pchan p) (killed_ p) (xstate p) (pid p) (tickets p) (ticks p)
  (parent p) v (sz p) (pagetable p) (trapframe p) (context p) (ofile p) (cwd p) (name p).
Definition set_sz v p := MkProc (state p) (pchan p) (killed_ p) (xstate p) (pid p) (tickets p) (ticks p)
  (parent p) (kstack p) v (pagetable p) (trapframe p) (context p) (ofile p) (cwd p) (name p).
Definition set_pagetable v p := MkProc (state p) (pchan p) (killed_ p) (xstate p) (pid p) (tickets p) (ticks p)
  (parent p) (kstack p) (sz p) v (trapframe p) (context p) (ofile p) (cwd p) (name p).
Definition set_trapframe v p := MkProc (state p) (pchan p) (killed_ p) (xstate p) (pid p) (tickets p) (ticks p)
  (parent p) (kstack p) (sz p) (pagetable p) v (context p) (ofile p) (cwd p) (name p).
Definition set_context v p := MkProc (state p) (pchan p) (killed_ p) (xstate p) (pid p) (tickets p) (ticks p)
  (parent p) (kstack p) (sz p) (pagetable p) (trapframe p) v (ofile p) (cwd p) (name p).
Definition set_ofile v p := MkProc (state p) (pchan p) (killed_ p) (xstate p) (pid p) (tickets p) (ticks p)
  (parent p) (kstack p) (sz p) (pagetable p) (trapframe p) (context p) v (cwd p) (name p).
Definition set_cwd v p := MkProc (state p) (pchan p) (killed_ p) (xstate p) (pid p) (tickets p) (ticks p)
  (parent p) (kstack p) (sz p) (pagetable p) (trapframe p) (context p) (ofile p) v (name p).
Definition set_name v p := MkProc (state p) (pchan p) (killed_ p) (xstate p) (pid p) (tickets p) (ticks p)
  (parent p) (kstack p) (sz p) (pagetable p) (trapframe p) (context p) (ofile p) (cwd p) v.

(** The kernel state: memory and locks, the process table with its global
    variables, the CPU's current process, the generator, the clock, and the
    state [F] of the file system. *)
Record pst (F : Type) := MkP {
  kern : kstate; procs : nat -> proc; nextpid : Z; initproc : option nat; cproc : option nat;
  rng : rand; clock : Z; fsys : F }.
Arguments MkP {F}. Arguments kern {F}. Arguments procs {F}. Arguments nextpid {F}.
Arguments initproc {F}. Arguments cproc {F}. Arguments rng {F}. Arguments clock {F}. Arguments fsys {F}.

Section setters.
Context {F : Type}.
Implicit Types s : pst F.

Definition set_kern k s := MkP k (procs s) (nextpid s) (initproc s) (cproc s) (rng s) (clock s) (fsys s).
Definition set_procs f s := MkP (kern s) f (nextpid s) (initproc s) (cproc s) (rng s) (clock s) (fsys s).
Definition set_nextpid n s := MkP (kern s) (procs s) n (initproc s) (cproc s) (rng s) (clock s) (fsys s).
Definition set_initproc p s := MkP (kern s) (procs s) (nextpid s) p (cproc s) (rng s) (clock s) (fsys s).
Definition set_cproc p s := MkP (kern s) (procs s) (nextpid s) (initproc s) p (rng s) (clock s) (fsys s).
Definition set_rng r s := MkP (kern s) (procs s) (nextpid s) (initproc s) (cproc s) r (clock s) (fsys s).
Definition set_fsys (f : F) (s : pst F) := MkP (kern s) (procs s) (nextpid s) (initproc s) (cproc s) (rng s) (clock s) f.

#[export] Instance pst_locks : LockView (pst F) := {
  held := fun s => kheld (kern s);
  set_held := fun h s => set_kern (set_held h (kern s)) s;
  held_set_held := fun _ _ => eq_refl;
  set_held_twice := fun _ _ _ => eq_refl;
  set_held_id := fun s => match s with MkP (MkK _ _ _) _ _ _ _ _ _ _ => eq_refl end }.

(** Code of kalloc.c and vm.c, which sees memory and locks only. *)
Definition liftk {A} (c : M kstate A) : M (pst F) A := fun s =>
  match c (kern s) with
  | Ret a k => Ret a (set_kern k s)
  | Panic msg => Panic msg
  | Blocked k => Blocked (set_kern k s)
  | OutOfFuel => OutOfFuel
  end.

(** p->field reads and writes *)
Definition getp (i : nat) : M (pst F) proc := get (fun s => procs s i).
Definition setp (i : nat) (f : proc -> proc) : M (pst F) unit :=
  modify (fun s => set_procs (upd (procs s) i (f (procs s i))) s).
End setters.

(** What the file system promises to process code: the calls fork and exit
    make.  They see the whole kernel state, since closing a pipe wakes
    sleepers and frees its page. *)
Class FileLayer (F : Type) := {
  filedup : Z -> M (pst F) Z;
  fileclose : Z -> M (pst F) unit;
  idup : Z -> M (pst F) Z;
  begin_op : M (pst F) unit;
  iput : Z -> M (pst F) unit;
  end_op : M (pst F) unit;
  namei_root : M (pst F) Z
}.

(** ** proc.c

    [kend], [trampoline], [initcode] are addresses the linker fixes;
    [xstate_addr i] is &proc[i].xstate and [kbuf] the address of getpinfo's
    local struct: a field is stored at its address before copyout reads it. *)

Section ops.
Context {F : Type} `{FileLayer F}.
Context (kend trampoline initcode : Z) (xstate_addr : nat -> Z) (kbuf : Z).

Definition KSTACK i : Z := TRAMPOLINE - (Z.of_nat i + 1) * 2 * PGSIZE.
Definition all_procs : list nat := seq 0 NPROC.

Definition proc_mapstacks (kpgtbl : Z) : M (pst F) unit :=
  for_each all_procs (fun i =>
    let! pa := liftk kalloc in
    if pa =? 0 then panic "kalloc"
    else liftk (kvmmap kpgtbl (KSTACK i) pa PGSIZE (Z.lor PTE_R PTE_W))).

(** The locks need no initialisation in the held-list view. *)
Definition procinit : M (pst F) unit :=
  for_each all_procs (fun i => setp i (set_state UNUSED) ;;; setp i (set_kstack (KSTACK i))).

Definition myproc : M (pst F) (option nat) := get cproc.

(** myproc() where the code dereferences it *)
Definition curproc : M (pst F) nat :=
  let! p := myproc in
  match p with Some p => ret p | None => panic "null pointer" end.

Definition allocpid : M (pst F) Z :=
  lock_acquire LPid ;;;
  let! pid := get nextpid in
  modify (set_nextpid (s32 (pid + 1))) ;;;
  lock_release LPid ;;;
  ret pid.

Definition proc_pagetable p : M (pst F) Z :=
  let! pagetable := liftk uvmcreate in
  if pagetable =? 0 then ret 0
  else
    let! r := liftk (mappages pagetable TRAMPOLINE PGSIZE trampoline (Z.lor PTE_R PTE_X)) in
    if r <? 0 then liftk (uvmfree kend pagetable 0) ;;; ret 0
    else
      let! pp := getp p in
      let! r := liftk (mappages pagetable TRAPFRAME PGSIZE (trapframe pp) (Z.lor PTE_R PTE_W)) in
      if r <? 0 then
        liftk (uvmunmap kend pagetable TRAMPOLINE 1 false) ;;;
        liftk (uvmfree kend pagetable 0) ;;; ret 0
      else ret pagetable.

Definition proc_freepagetable (pagetable sz : Z) : M (pst F) unit :=
  liftk (uvmunmap kend pagetable TRAMPOLINE 1 false) ;;;
  liftk (uvmunmap kend pagetable TRAPFRAME 1 false) ;;;
  liftk (uvmfree kend pagetable sz).

Definition freeproc p : M (pst F) unit :=
  let! pp := getp p in
  (when negb (trapframe pp =? 0) then liftk (kfree kend (trapframe pp))) ;;;
  setp p (set_trapframe 0) ;;;
  (when negb (pagetable pp =? 0) then proc_freepagetable (pagetable pp) (sz pp)) ;;;
  setp p (set_pagetable 0) ;;;
  setp p (set_sz 0) ;;;
  setp p (set_pid 0) ;;;
  setp p (set_parent None) ;;;
  setp p (set_name []) ;;;
  setp p (set_chan CNull) ;;;
  setp p (set_killed 0) ;;;
  setp p (set_xstate 0) ;;;
  setp p (set_state UNUSED) ;;;
  setp p (set_ticks 0) ;;;
  setp p (set_tickets 0).

(** The scan of allocproc: the lock of the entry found stays held. *)
Definition find_unused : M (pst F) (option nat) :=
  for_find all_procs (fun p =>
    lock_acquire (LProc p) ;;;
    let! pp := getp p in
    if decide (state pp = UNUSED) then ret (Some p)
    else lock_release (LProc p) ;;; ret None).

Definition allocproc : M (pst F) (option nat) :=
  let! found := find_unused in
  match found with
  | None => ret None
  | Some p =>
      let! pid := allocpid in
      setp p (set_pid pid) ;;;
      setp p (set_state USED) ;;;
      setp p (set_tickets DEFAULT_TICKETS) ;;;
      let! tf := liftk kalloc in
      setp p (set_trapframe tf) ;;;
      if tf =? 0 then freeproc p ;;; lock_release (LProc p) ;;; ret None
      else
        let! pt := proc_pagetable p in
        setp p (set_pagetable pt) ;;;
        if pt =? 0 then freeproc p ;;; lock_release (LProc p) ;;; ret None
        else
          setp p (set_context CtxForkret) ;;;
          ret (Some p)
  end.

(** Offsets in struct trapframe *)
Definition TF_epc : Z := 24.
Definition TF_sp : Z := 48.
Definition TF_a0 : Z := 112.
Definition TF_a7 : Z := 168.
Definition TF_size : Z := 288.

Definition store_phys (a v : Z) : M (pst F) unit := liftk (modify (set_phys (fun m => store64 m a v))).
Definition load_phys (a : Z) : M (pst F) Z := get (fun s => load64 (phys (kern s)) a).

(** safestrcpy(dst, src, 16) on the strings the arrays hold *)
Definition copy_name (src : list Z) : list Z := take 15 src.

Definition userinit : M (pst F) unit :=
  let! op := allocproc in
  modify (set_initproc op) ;;;
  match op with
  | None => panic "null pointer"
  | Some p =>
      let! pp := getp p in
      liftk (uvmfirst (pagetable pp) initcode 52) ;;;
      setp p (set_sz PGSIZE) ;;;
      store_phys (trapframe pp + TF_epc) 0 ;;;
      store_phys (trapframe pp + TF_sp) PGSIZE ;;;
      setp p (set_name (copy_name [105; 110; 105; 116; 99; 111; 100; 101])) ;;;
      let! root := namei_root in
      setp p (set_cwd root) ;;;
      setp p (set_state RUNNABLE) ;;;
      lock_release (LProc p)
  end.

Definition growproc (n : Z) : M (pst F) Z :=
  let! p := curproc in
  let! pp := getp p in
  if 0 <? n then
    let! sz' := liftk (uvmalloc kend (pagetable pp) (sz pp) (u64 (sz pp + n)) PTE_W) in
    if sz' =? 0 then ret (-1) else setp p (set_sz sz') ;;; ret 0
  else if n <? 0 then
    let! sz' := liftk (uvmdealloc kend (pagetable pp) (sz pp) (u64 (sz pp + n))) in
    setp p (set_sz sz') ;;; ret 0
  else setp p (set_sz (sz pp)) ;;; ret 0.

(** for(i = 0; i < NOFILE; i++) if(p->ofile[i]) np->ofile[i] = filedup(p->ofile[i]); *)
Definition dup_files p np : M (pst F) unit :=
  for_each (seq 0 NOFILE) (fun i =>
    let! pp := getp p in
    let f := rd (ofile pp) (Z.of_nat i) in
    when negb (f =? 0) then
      let! g := filedup f in
      setp np (fun q => set_ofile (wr (ofile q) (Z.of_nat i) g) q)).

Definition fork : M (pst F) Z :=
  let! p := curproc in
  let! onp := allocproc in
  match onp with
  | None => ret (-1)
  | Some np =>
      let! pp := getp p in
      let! npp := getp np in
      let! r := liftk (uvmcopy kend (pagetable pp) (pagetable npp) (sz pp)) in
      if r <? 0 then freeproc np ;;; lock_release (LProc np) ;;; ret (-1)
      else
        setp np (set_sz (sz pp)) ;;;
        liftk (modify (set_phys (fun m => memmove m (trapframe npp) (trapframe pp) TF_size))) ;;;
        store_phys (trapframe npp + TF_a0) 0 ;;;
        dup_files p np ;;;
        let! c := idup (cwd pp) in
        setp np (set_cwd c) ;;;
        setp np (set_name (copy_name (name pp))) ;;;
        let! pid := (let! q := getp np in ret (pid q)) in
        lock_acquire (LProc p) ;;;
        let! t := (let! q := getp p in ret (tickets q)) in
        setp np (set_tickets t) ;;;
        lock_release (LProc p) ;;;
        lock_release (LProc np) ;;;
        lock_acquire LWait ;;;
        setp np (set_parent (Some p)) ;;;
        lock_release LWait ;;;
        lock_acquire (LProc np) ;;;
        setp np (set_state RUNNABLE) ;;;
        lock_release (LProc np) ;;;
        ret pid
  end.

Definition wakeup (c : chan) : M (pst F) unit :=
  for_each all_procs (fun p =>
    let! me := myproc in
    if decide (Some p = me) then ret tt
    else
      lock_acquire (LProc p) ;;;
      let! pp := getp p in
      (when bool_decide (state pp = SLEEPING /\ pchan pp = c) then setp p (set_state RUNNABLE)) ;;;
      lock_release (LProc p)).

(** The address of a process as a channel *)
Definition chan_of (p : option nat) : chan := match p with Some p => CProc p | None => CNull end.

Definition reparent p : M (pst F) unit :=
  for_each all_procs (fun pp =>
    let! q := getp pp in
    when bool_decide (parent q = Some p) then
      let! init := get initproc in
      setp pp (set_parent init) ;;;
      wakeup (chan_of init)).

(** The checks of sched and the swtch to the scheduler; interrupts are off
    because a lock is held. *)
Definition sched (ra : resume) : M (pst F) unit :=
  let! p := curproc in
  let! h := get held in
  if negb (bool_decide (LProc p ∈ h)) then panic "sched p->lock"
  else if negb (Z.of_nat (length h) =? 1) then panic "sched locks"
  else
    let! pp := getp p in
    if decide (state pp = RUNNING) then panic "sched running"
    else
      setp p (set_context ra) ;;;
      (fun s => Blocked s).

Definition close_files p : M (pst F) unit :=
  for_each (seq 0 NOFILE) (fun fd =>
    let! pp := getp p in
    let f := rd (ofile pp) (Z.of_nat fd) in
    when negb (f =? 0) then
      fileclose f ;;;
      setp p (fun q => set_ofile (wr (ofile q) (Z.of_nat fd) 0) q)).

Definition exit (status : Z) : M (pst F) unit :=
  let! p := curproc in
  let! init := get initproc in
  if decide (Some p = init) then panic "init exiting"
  else
    close_files p ;;;
    begin_op ;;;
    let! pp := getp p in
    iput (cwd pp) ;;;
    end_op ;;;
    setp p (set_cwd 0) ;;;
    lock_acquire LWait ;;;
    reparent p ;;;
    let! pp := getp p in
    wakeup (chan_of (parent pp)) ;;;
    lock_acquire (LProc p) ;;;
    setp p (set_xstate status) ;;;
    setp p (set_state ZOMBIE) ;;;
    lock_release LWait ;;;
    sched CtxExit ;;;
    panic "zombie exit".

(** The int [v] at address [a] *)
Definition store32 (a v : Z) : M (pst F) unit := liftk (modify (set_phys (fun m => store_le m a v 4))).

Definition sleep (c : chan) (lk : lockid) : M (pst F) unit :=
  let! p := curproc in
  lock_acquire (LProc p) ;;;
  lock_release lk ;;;
  setp p (set_chan c) ;;;
  setp p (set_state SLEEPING) ;;;
  sched (CtxSleep lk).

(** The rest of sleep, after sched *)
Definition sleep_resume (lk : lockid) : M (pst F) unit :=
  let! p := curproc in
  setp p (set_chan CNull) ;;;
  lock_release (LProc p) ;;;
  lock_acquire lk.

Definition killed p : M (pst F) Z :=
  lock_acquire (LProc p) ;;;
  let! pp := getp p in
  lock_release (LProc p) ;;;
  ret (killed_ pp).

Definition setkilled p : M (pst F) unit :=
  lock_acquire (LProc p) ;;;
  setp p (set_killed 1) ;;;
  lock_release (LProc p).

(** One scan of the table in wait: the value it returns, or None after a full
    scan; havekids is returned beside it. *)
Fixpoint wait_scan (l : list nat) p (addr : Z) (havekids : bool) : M (pst F) (option Z * bool) :=
  match l with
  | [] => ret (None, havekids)
  | pp :: l =>
      let! q := getp pp in
      if decide (parent q = Some p) then
        lock_acquire (LProc pp) ;;;
        let! q := getp pp in
        if decide (state q = ZOMBIE) then
          let! r :=
            (if negb (addr =? 0) then
               store32 (xstate_addr pp) (xstate q) ;;;
               let! me := getp p in
               liftk (copyout (pagetable me) addr (xstate_addr pp) 4)
             else ret 0) in
          if r <? 0 then
            lock_release (LProc pp) ;;; lock_release LWait ;;; ret (Some (-1), true)
          else
            freeproc pp ;;; lock_release (LProc pp) ;;; lock_release LWait ;;;
            ret (Some (pid q), true)
        else lock_release (LProc pp) ;;; wait_scan l p addr true
      else wait_scan l p addr havekids
  end.

(** One turn of the for(;;) of wait, entered with wait_lock held; it ends in
    sleep when there is a child and none has exited. *)
Definition wait_turn p (addr : Z) : M (pst F) Z :=
  let! r := wait_scan all_procs p addr false in
  match r with
  | (Some v, _) => ret v
  | (None, havekids) =>
      let! k := (if havekids then killed p else ret 0) in
      if negb havekids || negb (k =? 0) then lock_release LWait ;;; ret (-1)
      else sleep (CProc p) LWait ;;; panic "sleep returned"
  end.

Definition wait (addr : Z) : M (pst F) Z :=
  let! p := curproc in
  lock_acquire LWait ;;;
  wait_turn p addr.

(** wait going on after its sleep *)
Definition wait_resume (addr : Z) : M (pst F) Z :=
  let! p := curproc in
  sleep_resume LWait ;;;
  wait_turn p addr.

(** *** The lottery *)

(** for(p = proc; p < &proc[NPROC]; p++) total += p->tickets if RUNNABLE *)
Fixpoint total_loop (l : list nat) (total : Z) : M (pst F) Z :=
  match l with
  | [] => ret total
  | p :: l =>
      lock_acquire (LProc p) ;;;
      let! pp := getp p in
      let total := if decide (state pp = RUNNABLE) then s32 (total + tickets pp) else total in
      lock_release (LProc p) ;;;
      total_loop l total
  end.

Definition get_total_tickets : M (pst F) Z := total_loop all_procs 0.

(** The while loop of the scheduler; the process it switches to keeps its lock. *)
Fixpoint pick_loop (l : list nat) (counted winning : Z) : M (pst F) (option nat) :=
  match l with
  | [] => ret None
  | p :: l =>
      lock_acquire (LProc p) ;;;
      let! pp := getp p in
      if decide (state pp = RUNNABLE) then
        let counted := s32 (counted + tickets pp) in
        if winning <=? counted then
          setp p (fun q => set_ticks (s32 (ticks q + 1)) q) ;;;
          setp p (set_state RUNNING) ;;;
          modify (set_cproc (Some p)) ;;;
          ret (Some p)
        else
          lock_release (LProc p) ;;; pick_loop l counted winning
      else
        lock_release (LProc p) ;;; pick_loop l counted winning
  end.

(** One turn of the for(;;) of the scheduler, up to swtch *)
Definition scheduler_round : M (pst F) (option nat) :=
  let! total_tickets := get_total_tickets in
  let! r := get rng in
  let '(winning_ticket, r) := scaled_random 1 total_tickets r in
  modify (set_rng r) ;;;
  pick_loop all_procs 0 winning_ticket.

(** The rest of the turn, when the process has switched back *)
Definition scheduler_resume p : M (pst F) unit :=
  modify (set_cproc None) ;;; lock_release (LProc p).

(** The code before the for(;;) *)
Definition scheduler_init : M (pst F) unit :=
  let! r := get rng in
  match rand_init DEFAULT_SEED r with
  | None => out_of_fuel
  | Some r => modify (set_rng r) ;;; modify (set_cproc None)
  end.

Definition yield : M (pst F) unit :=
  let! p := curproc in
  lock_acquire (LProc p) ;;;
  setp p (set_state RUNNABLE) ;;;
  sched CtxYield.

(** The rest of yield, and the release that opens forkret *)
Definition yield_resume : M (pst F) unit :=
  let! p := curproc in lock_release (LProc p).
Definition forkret : M (pst F) unit :=
  let! p := curproc in lock_release (LProc p).

Definition kill (target : Z) : M (pst F) Z :=
  let! r := for_find all_procs (fun p =>
    lock_acquire (LProc p) ;;;
    let! pp := getp p in
    if pid pp =? target then
      setp p (set_killed 1) ;;;
      (when bool_decide (state pp = SLEEPING) then setp p (set_state RUNNABLE)) ;;;
      lock_release (LProc p) ;;;
      ret (Some 0)
    else lock_release (LProc p) ;;; ret None) in
  match r with Some v => ret v | None => ret (-1) end.

Definition either_copyout (user_dst : bool) (dst src len : Z) : M (pst F) Z :=
  let! p := curproc in
  let! pp := getp p in
  if user_dst then liftk (copyout (pagetable pp) dst src len)
  else liftk (modify (set_phys (fun m => memmove m dst src len))) ;;; ret 0.

Definition either_copyin (dst : Z) (user_src : bool) (src len : Z) : M (pst F) Z :=
  let! p := curproc in
  let! pp := getp p in
  if user_src then liftk (copyin (pagetable pp) dst src len)
  else liftk (modify (set_phys (fun m => memmove m dst src len))) ;;; ret 0.

(** struct pstat at [kbuf]: four arrays of NPROC ints *)
Definition pstat_inuse (i : nat) : Z := kbuf + 4 * Z.of_nat i.
Definition pstat_tickets (i : nat) : Z := kbuf + 256 + 4 * Z.of_nat i.
Definition pstat_pid (i : nat) : Z := kbuf + 512 + 4 * Z.of_nat i.
Definition pstat_ticks (i : nat) : Z := kbuf + 768 + 4 * Z.of_nat i.

Definition getpinfo (pFromUser : Z) : M (pst F) Z :=
  if pFromUser =? 0 then ret (-1)
  else
    for_each all_procs (fun p =>
      lock_acquire (LProc p) ;;;
      let! pp := getp p in
      store32 (pstat_tickets p) (tickets pp) ;;;
      store32 (pstat_ticks p) (ticks pp) ;;;
      store32 (pstat_pid p) (pid pp) ;;;
      store32 (pstat_inuse p) (if decide (state pp = UNUSED) then 0 else 1) ;;;
      lock_release (LProc p)) ;;;
    either_copyout true pFromUser kbuf 1024 ;;;
    ret 0.

(** ** System-call arguments (syscall.c) and handlers (sysproc.c) *)

Definition argraw (n : Z) : M (pst F) Z :=
  let! p := curproc in
  let! pp := getp p in
  if (0 <=? n) && (n <=? 5) then load_phys (trapframe pp + TF_a0 + 8 * n) else panic "argraw".

Definition argint (n : Z) : M (pst F) Z := let! v := argraw n in ret (s32 v).
Definition argaddr (n : Z) : M (pst F) Z := argraw n.

Definition sys_exit : M (pst F) Z := let! n := argint 0 in exit n ;;; ret 0.
Definition sys_getpid : M (pst F) Z := let! p := curproc in let! pp := getp p in ret (u64 (pid pp)).
Definition sys_fork : M (pst F) Z := let! r := fork in ret (u64 r).
Definition sys_wait : M (pst F) Z := let! p := argaddr 0 in let! r := wait p in ret (u64 r).

Definition sys_sbrk : M (pst F) Z :=
  let! n := argint 0 in
  let! p := curproc in
  let! addr := (let! pp := getp p in ret (sz pp)) in
  let! r := growproc n in
  if r <? 0 then ret (u64 (-1)) else ret addr.

(** One turn of the while of sys_sleep, with tickslock held *)
Definition sleep_turn (ticks0 n : Z) : M (pst F) Z :=
  let! t := get clock in
  if u32 (t - ticks0) <? u32 n then
    let! p := curproc in
    let! k := killed p in
    if negb (k =? 0) then lock_release LTicks ;;; ret (u64 (-1))
    else sleep CTicks LTicks ;;; panic "sleep returned"
  else lock_release LTicks ;;; ret 0.

Definition sys_sleep : M (pst F) Z :=
  let! n := argint 0 in
  lock_acquire LTicks ;;;
  let! ticks0 := get clock in
  sleep_turn ticks0 n.

Definition sys_kill : M (pst F) Z := let! pid := argint 0 in let! r := kill pid in ret (u64 r).

Definition sys_uptime : M (pst F) Z :=
  lock_acquire LTicks ;;;
  let! xticks := get clock in
  lock_release LTicks ;;;
  ret xticks.

Definition sys_settickets : M (pst F) Z :=
  let! p := curproc in
  let! number := argint 0 in
  lock_acquire (LProc p) ;;;
  setp p (set_tickets number) ;;;
  lock_release (LProc p) ;;;
  ret 0.

Definition sys_getpinfo : M (pst F) Z := let! a := argaddr 0 in let! r := getpinfo a in ret (u64 r).

Definition sys_rand_init : M (pst F) Z :=
  let! seed := argint 0 in
  let! r := get rng in
  match rand_init seed r with
  | None => out_of_fuel
  | Some r => modify (set_rng r) ;;; ret 0
  end.

Definition sys_scaled_random : M (pst F) Z :=
  let! low := argint 0 in
  let! high := argint 1 in
  let! r := get rng in
  let '(v, r) := scaled_random low high r in
  modify (set_rng r) ;;; ret (u64 v).

(** project_2: the number of open descriptors of a process, 0 if there is no
    such process *)
Definition sys_getfilenum : M (pst F) Z :=
  let! target_pid := argint 0 in
  let! found := for_find all_procs (fun p =>
    lock_acquire (LProc p) ;;;
    let! pp := getp p in
    lock_release (LProc p) ;;;
    if pid pp =? target_pid then ret (Some p) else ret None) in
  match found with
  | None => ret 0
  | Some p =>
      let! pp := getp p in
      ret (foldr (fun fd count => (if rd (ofile pp) (Z.of_nat fd) =? 0 then 0 else 1) + count) 0 (seq 0 NOFILE))
  end.

End ops.
