(* ===== verification/Lottery.v ===== *)
(** The lottery scheduler of
    [src/projects/project_3/changed_files/kernel/proc.c]: get_total_tickets,
    the draw, and the scan that finds the holder of the winning ticket. *)

From stdpp Require Import base list sets strings.
From S2P Require Import Prelude Memory KString Spinlock Kalloc Vm Random Proc.

(** ** The draw as a function of the process table *)

(** The tickets a table entry contributes. *)
Definition weight (p : proc) : Z := if decide (state p = RUNNABLE) then tickets p else 0.

Definition sum_tickets (P : nat -> proc) (l : list nat) : Z := foldr (fun i a => weight (P i) + a) 0 l.

(** The first RUNNABLE entry at which the running count reaches [w]. *)
Fixpoint winner_of (P : nat -> proc) (l : list nat) (counted w : Z) : option nat :=
  match l with
  | [] => None
  | i :: l =>
      if decide (state (P i) = RUNNABLE /\ w <= counted + tickets (P i)) then Some i
      else winner_of P l (counted + weight (P i)) w
  end.

(** No RUNNABLE process has a negative share, and the shares fit an int. *)
Definition shares_ok (P : nat -> proc) (l : list nat) : Prop :=
  (forall i, i ∈ l -> 0 <= weight (P i)) /\ sum_tickets P l < 2 ^ 31.

Lemma sum_nonneg P l : (forall i, i ∈ l -> 0 <= weight (P i)) -> 0 <= sum_tickets P l.
Proof.
  induction l as [|i l IH]; intros H; simpl; [lia|].
  pose proof (H i ltac:(left)). pose proof (IH ltac:(intros; apply H; by right)). lia.
Qed.

Lemma shares_ok_cons P i l :
  shares_ok P (i :: l) -> shares_ok P l /\ 0 <= weight (P i) /\ 0 <= sum_tickets P l /\
    weight (P i) + sum_tickets P l < 2 ^ 31.
Proof.
  intros [H1 H2]. simpl in H2. pose proof (H1 i ltac:(left)).
  assert (H3 : forall j, j ∈ l -> 0 <= weight (P j)) by (intros; apply H1; by right).
  pose proof (sum_nonneg P l H3). split_and!; auto; split; [done|lia].
Qed.

(** ** The code computes it *)

Section scan.
Context {F : Type}.
Implicit Types s : pst F.

(** No process lock is held. *)
Definition no_proc_lock s : Prop := forall i, LProc i ∉ held s.

Lemma acquire_release_proc i s :
  no_proc_lock s ->
  lock_acquire (LProc i) s = Ret tt (set_held (LProc i :: held s) s) /\
  lock_release (LProc i) (set_held (LProc i :: held s) s) = Ret tt s.
Proof.
  intros Hn. apply lock_pair, Hn.
Qed.

Lemma total_loop_spec l t s :
  no_proc_lock s -> shares_ok (procs s) l -> 0 <= t -> t + sum_tickets (procs s) l < 2 ^ 31 ->
  total_loop l t s = Ret (t + sum_tickets (procs s) l) s.
Proof.
  intros Hn. revert t. induction l as [|i l IH]; intros t Hs Ht Hb; cbn [total_loop].
  { by rewrite Z.add_0_r. }
  destruct (acquire_release_proc i s Hn) as [Ha Hr].
  apply shares_ok_cons in Hs as (Hs & Hw & Hsum & Hlt). simpl in Hb.
  rewrite (bind_ret_intro _ _ _ _ _ Ha). unfold bind at 1, getp, get. cbn beta iota.
  rewrite (bind_ret_intro _ _ _ _ _ Hr). change (procs (set_held _ s)) with (procs s).
  unfold weight in *. simpl. fold (weight (procs s i)). unfold weight. case_decide.
  - rewrite s32_small by lia. rewrite IH by (auto; lia). f_equal. lia.
  - rewrite IH by (auto; lia). f_equal.
Qed.

(** The kernel state once process [i] was switched to. *)
Definition dispatched (i : nat) s : pst F :=
  let P := upd (procs s) i (set_ticks (s32 (ticks (procs s i) + 1)) (procs s i)) in
  set_cproc (Some i) (set_procs (upd P i (set_state RUNNING (P i))) (set_held (LProc i :: held s) s)).

Lemma dispatched_procs i s j :
  procs (dispatched i s) j =
  if decide (j = i) then set_state RUNNING (set_ticks (s32 (ticks (procs s i) + 1)) (procs s i))
  else procs s j.
Proof. simpl. rewrite upd_same. unfold upd. by case_decide. Qed.

Lemma pick_loop_cons i l counted w s :
  no_proc_lock s ->
  pick_loop (i :: l) counted w s =
  if decide (state (procs s i) = RUNNABLE) then
    let c := s32 (counted + tickets (procs s i)) in
    if w <=? c then Ret (Some i) (dispatched i s) else pick_loop l c w s
  else pick_loop l counted w s.
Proof.
  intros Hn. destruct (acquire_release_proc i s Hn) as [Ha Hr]. cbn [pick_loop].
  rewrite (bind_ret_intro _ _ _ _ _ Ha). unfold bind at 1, getp, get. cbn beta iota zeta.
  change (procs (set_held _ s)) with (procs s).
  case_decide; [case_test; [done|]|]; by rewrite (bind_ret_intro _ _ _ _ _ Hr).
Qed.

Lemma pick_loop_spec l counted w s :
  no_proc_lock s -> shares_ok (procs s) l -> 0 <= counted ->
  counted + sum_tickets (procs s) l < 2 ^ 31 ->
  pick_loop l counted w s =
  Ret (winner_of (procs s) l counted w)
      (match winner_of (procs s) l counted w with Some i => dispatched i s | None => s end).
Proof.
  intros Hn. revert counted. induction l as [|i l IH]; intros counted Hs Hc Hb; [done|].
  rewrite pick_loop_cons by done. cbn [winner_of].
  apply shares_ok_cons in Hs as (Hs & Hw & Hsum & Hlt). simpl in Hb. unfold weight in *. cbv zeta.
  destruct (decide (state (procs s i) = RUNNABLE)) as [E|E].
  - rewrite s32_small by lia. destruct (w <=? _) eqn:Ew; bool_to_prop.
    + by rewrite decide_True by (split; [done|lia]).
    + rewrite decide_False by lia. apply IH; auto; lia.
  - rewrite decide_False by naive_solver. rewrite Z.add_0_r. apply IH; auto; lia.
Qed.
End scan.

(** ** Who wins *)

Lemma winner_of_some P l counted w i :
  winner_of P l counted w = Some i -> i ∈ l /\ state (P i) = RUNNABLE.
Proof.
  revert counted. induction l as [|j l IH]; intros counted H; [done|]. cbn [winner_of] in H.
  case_decide as E.
  - injection H as <-. split; [left|apply E].
  - apply IH in H as [? ?]. split; [by right|done].
Qed.

(** A ticket of the total always has a holder. *)
Lemma winner_of_exists P l counted w :
  (forall i, i ∈ l -> 0 <= weight (P i)) -> counted < w <= counted + sum_tickets P l ->
  exists i, winner_of P l counted w = Some i.
Proof.
  revert counted. induction l as [|i l IH]; intros counted Hp Hw; cbn [winner_of]; [simpl in Hw; lia|].
  case_decide as E; [eauto|]. apply IH; [intros; apply Hp; by right|]. simpl in Hw.
  unfold weight at 1 2. unfold weight in Hw at 1.
  destruct (decide (state (P i) = RUNNABLE)); [|lia].
  destruct (decide (w <= counted + tickets (P i))); [by destruct E|lia].
Qed.

(** The tickets of the interval [lo, lo + n), in order. *)
Fixpoint tickets_from (lo : Z) (n : nat) : list Z :=
  match n with O => [] | S n => lo :: tickets_from (lo + 1) n end.

Lemma tickets_from_app lo n m : tickets_from lo (n + m) = tickets_from lo n ++ tickets_from (lo + Z.of_nat n) m.
Proof.
  revert lo. induction n as [|n IH]; intros lo; cbn [tickets_from Nat.add app]; [by rewrite Z.add_0_r|].
  rewrite IH. do 3 f_equal. lia.
Qed.

Lemma elem_of_tickets_from x lo n : x ∈ tickets_from lo n <-> lo <= x < lo + Z.of_nat n.
Proof.
  revert lo. induction n as [|n IH]; intros lo; cbn [tickets_from].
  - rewrite elem_of_nil. lia.
  - rewrite elem_of_cons, IH. lia.
Qed.

Lemma length_tickets_from lo n : length (tickets_from lo n) = n.
Proof. revert lo. induction n; intros; simpl; auto. Qed.

(** The winning tickets of [i] among those of the entries [l]. *)
Definition wins (P : nat -> proc) (l : list nat) (counted : Z) (i : nat) : list Z :=
  filter (fun w => winner_of P l counted w = Some i)
         (tickets_from (counted + 1) (Z.to_nat (sum_tickets P l))).

(** Every process wins with as many tickets as it holds. *)
Lemma wins_length P l counted i :
  NoDup l -> (forall j, j ∈ l -> 0 <= weight (P j)) ->
  Z.of_nat (length (wins P l counted i)) = if decide (i ∈ l) then weight (P i) else 0.
Proof.
  revert counted. induction l as [|j l IH]; intros counted Hnd Hp; [done|].
  inversion_clear Hnd as [|? ? Hj Hnd'].
  assert (Hp' : forall k, k ∈ l -> 0 <= weight (P k)) by (intros; apply Hp; by right).
  pose proof (Hp j ltac:(left)) as Hwj. pose proof (sum_nonneg P l Hp') as Hsl.
  unfold wins. cbn [sum_tickets foldr]. fold (sum_tickets P l).
  rewrite Z2Nat.inj_add, tickets_from_app, filter_app, length_app, Nat2Z.inj_add by lia.
  rewrite Z2Nat.id by lia.
  (* the head's own tickets *)
  assert (H1 : Z.of_nat (length (filter (fun w => winner_of P (j :: l) counted w = Some i)
                 (tickets_from (counted + 1) (Z.to_nat (weight (P j)))))) =
               if decide (i = j) then weight (P j) else 0).
  { assert (Hw : forall w, w ∈ tickets_from (counted + 1) (Z.to_nat (weight (P j))) ->
                   winner_of P (j :: l) counted w = Some j).
    { intros w Hw%elem_of_tickets_from. cbn [winner_of]. apply decide_True.
      unfold weight in *. case_decide; [split; [done|lia]|simpl in Hw; lia]. }
    destruct (decide (i = j)) as [->|E].
    - rewrite filter_all by done. rewrite length_tickets_from. lia.
    - rewrite filter_none; [done|]. intros w Hw' Hc. rewrite Hw in Hc by done. congruence. }
  (* the tickets of the rest *)
  rewrite H1, (filter_ext_in _ (fun w => winner_of P l (counted + weight (P j)) w = Some i)).
  - replace (counted + 1 + weight (P j)) with (counted + weight (P j) + 1) by lia.
    fold (wins P l (counted + weight (P j)) i). rewrite IH by done.
    repeat case_decide; subst; rewrite ?elem_of_cons in *; try lia; naive_solver.
  - intros w Hw%elem_of_tickets_from. cbn [winner_of]. rewrite decide_False; [done|].
    unfold weight in *. case_decide; lia || naive_solver.
Qed.

Lemma winner_of_none P l counted w :
  (forall i, i ∈ l -> 0 <= weight (P i)) -> counted + sum_tickets P l < w -> winner_of P l counted w = None.
Proof.
  revert counted. induction l as [|i l IH]; intros counted Hp Hw; [done|]. cbn [winner_of].
  assert (Hp' : forall k, k ∈ l -> 0 <= weight (P k)) by (intros; apply Hp; by right).
  pose proof (sum_nonneg P l Hp'). simpl in Hw. rewrite decide_False.
  - apply IH; [done|lia].
  - intros [E ?]. unfold weight in Hw. rewrite decide_True in Hw by done. lia.
Qed.

(** ** Properties *)

Section theorems.
Context {F : Type}.
Implicit Types s : pst F.

(** The process the scheduler's scan stops at for a winning ticket. *)
Definition picked (w : Z) s : option nat :=
  match pick_loop all_procs 0 w s with Ret r _ => r | _ => None end.

(** C5: the lottery is fair in proportion to tickets.  When [T] is the number
    of tickets of the RUNNABLE processes, every ticket from 1 to T makes the
    scheduler's scan stop at a RUNNABLE process, and each process is reached by
    exactly as many of the T tickets as it holds (none if it is not
    RUNNABLE). *)
Theorem lottery_proportional s :
  no_proc_lock s -> shares_ok (procs s) all_procs ->
  let T := sum_tickets (procs s) all_procs in
  get_total_tickets s = Ret T s /\
  (forall w, 1 <= w <= T -> exists i, picked w s = Some i /\ state (procs s i) = RUNNABLE) /\
  (forall i, (i < NPROC)%nat ->
     Z.of_nat (length (filter (fun w => picked w s = Some i) (tickets_from 1 (Z.to_nat T)))) =
     weight (procs s i)).
Proof.
  intros Hn Hs. cbv zeta. pose proof Hs as [Hp Hb].
  assert (Hpk : forall w, picked w s = winner_of (procs s) all_procs 0 w).
  { intros w. unfold picked. rewrite pick_loop_spec by (auto; lia). done. }
  split_and!.
  - unfold get_total_tickets. rewrite total_loop_spec by (auto; lia). done.
  - intros w Hw. rewrite Hpk. destruct (winner_of_exists (procs s) all_procs 0 w Hp) as [i Hi]; [lia|].
    exists i. split; [done|]. by apply winner_of_some in Hi as [_ ?].
  - intros i Hi. pose proof (wins_length (procs s) all_procs 0 i (NoDup_seq 0 NPROC) Hp) as Hl.
    rewrite decide_True in Hl by (apply elem_of_seq; lia). rewrite <- Hl. do 2 f_equal.
    apply filter_ext_in. intros w _. by rewrite Hpk.
Qed.

(** C19: one turn of the scheduler.  With tickets to draw it dispatches one
    RUNNABLE process: that process becomes RUNNING and the CPU's current
    process, its tick count goes up by one, its lock alone is added to the
    locks held, and no other process changes; without a ticket among the
    RUNNABLE processes it dispatches nobody and changes only the generator. *)
Theorem scheduler_round_correct s :
  no_proc_lock s -> shares_ok (procs s) all_procs -> rand_inv (rng s) ->
  exists r, rand_inv r /\
  if 0 <? sum_tickets (procs s) all_procs then
    exists i s', scheduler_round s = Ret (Some i) s' /\ (i < NPROC)%nat /\
      state (procs s i) = RUNNABLE /\ cproc s' = Some i /\ rng s' = r /\ held s' = LProc i :: held s /\
      (forall j, procs s' j = if decide (j = i)
         then set_state RUNNING (set_ticks (s32 (ticks (procs s i) + 1)) (procs s i)) else procs s j) /\
      phys (kern s') = phys (kern s) /\ nextpid s' = nextpid s
  else scheduler_round s = Ret None (set_rng r s).
Proof.
  intros Hn Hs Hr. pose proof Hs as [Hp Hb]. pose proof (sum_nonneg _ _ Hp) as H0.
  set (T := sum_tickets (procs s) all_procs) in *.
  exists (snd (scaled_random 1 T (rng s))). split; [by apply scaled_random_inv|].
  assert (Hround : scheduler_round s =
     pick_loop all_procs 0 (fst (scaled_random 1 T (rng s))) (set_rng (snd (scaled_random 1 T (rng s))) s)).
  { unfold scheduler_round, get_total_tickets.
    rewrite (bind_ret_intro _ _ _ _ _ (total_loop_spec all_procs 0 s Hn Hs ltac:(lia) ltac:(lia))).
    rewrite Z.add_0_l. fold T. unfold bind, get, modify. by destruct (scaled_random 1 T (rng s)). }
  rewrite Hround, pick_loop_spec by (auto; fold T; simpl; lia). cbn [procs set_rng].
  case_test; bool_to_prop.
  - pose proof (scaled_random_range 1 T (rng s) Hr ltac:(lia) ltac:(lia) ltac:(lia) ltac:(lia)) as Hw.
    destruct (winner_of_exists (procs s) all_procs 0 (fst (scaled_random 1 T (rng s))) Hp) as [i Hi];
      [fold T; lia|]. rewrite Hi.
    destruct (winner_of_some _ _ _ _ _ Hi) as [Hin Hrun]. apply elem_of_seq in Hin.
    eexists i, _. split; [done|]. split_and!; [lia|done..| |done|done].
    intros j. rewrite dispatched_procs. done.
  - assert (T = 0) as E0 by lia. rewrite winner_of_none; [done|done|]. fold T. rewrite E0.
    unfold scaled_random. destruct (nextRand_inv (rng s) Hr) as [_ Hv]. destruct (nextRand (rng s)) as [v r'].
    cbn [fst snd] in *. change (s32 (0 - 1 + 1)) with 0. unfold rem_c. rewrite Z.eqb_refl.
    unfold is_value, MM in Hv. rewrite s32_small by lia. lia.
Qed.
End theorems.

(** ** Three runnable processes with 30, 20 and 10 tickets *)

Module LotteryExample.
Definition table (i : nat) : proc :=
  match i with
  | 0 => set_state RUNNABLE (set_tickets 30 (set_pid 1 proc0))
  | 1 => set_state SLEEPING (set_tickets 5 (set_pid 2 proc0))
  | 2 => set_state RUNNABLE (set_tickets 20 (set_pid 3 proc0))
  | 3 => set_state RUNNABLE (set_tickets 10 (set_pid 4 proc0))
  | _ => proc0
  end%nat.

Definition lstate : pst unit := MkP (MkK (fun _ => 0) 0 []) table 5 None None rand0 0 tt.

Lemma no_lock : no_proc_lock lstate.
Proof. intros i. apply not_elem_of_nil. Qed.

Lemma shares : shares_ok (procs lstate) all_procs.
Proof.
  split; [|reflexivity]. intros i _. unfold weight. simpl.
  do 4 (destruct i as [|i]; [vm_compute; discriminate|]). vm_compute. discriminate.
Qed.
End LotteryExample.

Lemma lottery_proportional_witness :
  sum_tickets LotteryExample.table all_procs = 60 /\
  Z.of_nat (length (filter (fun w => picked w LotteryExample.lstate = Some 2%nat) (tickets_from 1 60))) = 20.
Proof.
  split; [reflexivity|].
  exact (proj2 (proj2 (lottery_proportional LotteryExample.lstate LotteryExample.no_lock LotteryExample.shares))
    2%nat ltac:(unfold NPROC; lia)).
Defined.

Lemma scheduler_round_correct_witness :
  exists i s', scheduler_round LotteryExample.lstate = Ret (Some i) s' /\ (i < NPROC)%nat /\ cproc s' = Some i.
Proof.
  assert (Hr : rand_inv (rng LotteryExample.lstate)).
  { split; [exact (replicate_values 100 100 eq_refl)|].
    split; [exact (replicate_values 2000 2000 eq_refl)|simpl; lia]. }
  destruct (scheduler_round_correct LotteryExample.lstate LotteryExample.no_lock LotteryExample.shares Hr)
    as (r & _ & i & s' & E & Hi & _ & Hc & _).
  exists i, s'. split; [exact E|]. split; [exact Hi|exact Hc].
Defined.
