(* ===== verification/ProcTable.v ===== *)
(** The life of a process table entry: allocproc, freeproc, fork, exit, wait,
    sleep, wakeup, kill and yield of
    [src/projects/project_3/changed_files/kernel/proc.c], and the invariant of
    the table under any sequence of them. *)

From stdpp Require Import base list sets strings.
From S2P Require Import Prelude Memory KString Spinlock Kalloc Vm VmLocks Random Proc Lottery.

Section framework.
Context {F : Type}.
Implicit Types s : pst F.

(** ** Code that leaves the process table alone *)

Record untouched s s' : Prop := {
  un_procs : procs s' = procs s;
  un_nextpid : nextpid s' = nextpid s;
  un_init : initproc s' = initproc s;
  un_cproc : cproc s' = cproc s;
  un_held : held s' = held s
}.

Definition leaves {A} (c : M (pst F) A) : Prop :=
  forall s, match c s with Ret _ s' => untouched s s' | Blocked _ => False | _ => True end.

Lemma untouched_refl s : untouched s s.
Proof. done. Qed.

Lemma untouched_trans s1 s2 s3 : untouched s1 s2 -> untouched s2 s3 -> untouched s1 s3.
Proof. intros [] []. constructor; congruence. Qed.

Lemma leaves_ret {A} (a : A) : leaves (ret a).
Proof. done. Qed.

Lemma leaves_bind {A B} (c : M (pst F) A) (k : A -> M (pst F) B) :
  leaves c -> (forall a, leaves (k a)) -> leaves (bind c k).
Proof.
  intros Hc Hk s. unfold bind. specialize (Hc s). destruct (c s) as [a s1|m|s1|]; try done.
  specialize (Hk a s1). destruct (k a s1); try done. by eapply untouched_trans.
Qed.

Lemma leaves_liftk {A} (c : M kstate A) : keeps c -> leaves (liftk c).
Proof. intros Hc s. unfold liftk. specialize (Hc (kern s)). by destruct (c (kern s)). Qed.

Lemma leaves_getp i : leaves (getp (F := F) i).
Proof. done. Qed.

Lemma proc_pagetable_leaves kend tramp p : leaves (proc_pagetable kend tramp p).
Proof.
  unfold proc_pagetable.
  repeat first [apply leaves_ret | apply leaves_getp
    | apply leaves_liftk; solve [eauto with keeps] | apply leaves_bind; [|intros] | progress case_test].
Qed.

Lemma proc_freepagetable_leaves kend pt size : leaves (proc_freepagetable kend pt size).
Proof.
  unfold proc_freepagetable.
  repeat first [apply leaves_liftk; solve [eauto with keeps] | apply leaves_bind; [|intros]].
Qed.

(** ** Code that works on one entry

    [at_entry s s' i q h n]: since [s], entry [i] became [q] and no other entry
    changed; the locks held are [h] and nextpid is [n]. *)

Record at_entry s s' (i : nat) (q : proc) (h : list lockid) (n : Z) : Prop := {
  ae_this : procs s' i = q;
  ae_other : forall j, j <> i -> procs s' j = procs s j;
  ae_nextpid : nextpid s' = n;
  ae_init : initproc s' = initproc s;
  ae_cproc : cproc s' = cproc s;
  ae_held : held s' = h
}.

Lemma at_entry_start s i : at_entry s s i (procs s i) (held s) (nextpid s).
Proof. by constructor. Qed.

Lemma at_setp {B} s s1 i q h n f (k : unit -> M (pst F) B) b s' :
  at_entry s s1 i q h n -> bind (setp i f) k s1 = Ret b s' ->
  exists s2, at_entry s s2 i (f q) h n /\ k tt s2 = Ret b s'.
Proof.
  intros [A1 A2 A3 A4 A5 A6] E. eexists. split; [|exact E]. constructor; auto; simpl.
  - by rewrite upd_same, A1.
  - intros j Hj. rewrite upd_other by done. by apply A2.
Qed.

Lemma at_setp_last s s1 i q h n f s' :
  at_entry s s1 i q h n -> setp i f s1 = Ret tt s' -> at_entry s s' i (f q) h n.
Proof.
  intros U E. destruct (at_setp _ _ _ _ _ _ f ret tt s' U) as (s2 & U2 & E2).
  { unfold bind. by rewrite E. }
  by injection E2 as <-.
Qed.

Lemma at_release_last s s1 i q h n l s' :
  at_entry s s1 i q h n -> lock_release l s1 = Ret tt s' -> at_entry s s' i q (remove_one l h) n.
Proof.
  intros [A1 A2 A3 A4 A5 <-] E. unfold lock_release in E. case_bool_decide; [|done].
  injection E as <-. by constructor.
Qed.

Lemma at_leaves {A B} s s1 i q h n (c : M (pst F) A) (k : A -> M (pst F) B) b s' :
  at_entry s s1 i q h n -> leaves c -> bind c k s1 = Ret b s' ->
  exists a s2, at_entry s s2 i q h n /\ c s1 = Ret a s2 /\ k a s2 = Ret b s'.
Proof.
  intros [A1 A2 A3 A4 A5 A6] Hc E. apply bind_ret_inv in E as (a & s2 & E1 & E2).
  exists a, s2. split; [|done]. specialize (Hc s1). rewrite E1 in Hc. destruct Hc as [B1 B2 B3 B4 B5].
  constructor; rewrite ?B1; auto; congruence.
Qed.

Lemma at_acquire {B} s s1 i q h n l (k : unit -> M (pst F) B) b s' :
  at_entry s s1 i q h n -> bind (lock_acquire l) k s1 = Ret b s' ->
  exists s2, at_entry s s2 i q (l :: h) n /\ l ∉ h /\ k tt s2 = Ret b s'.
Proof.
  intros [A1 A2 A3 A4 A5 <-] E. apply bind_ret_inv in E as ([] & s2 & E1 & E2). unfold lock_acquire in E1.
  case_bool_decide as Hin; [done|]. injection E1 as <-.
  eexists. split; [|split; [exact Hin|exact E2]]. by constructor.
Qed.

Lemma at_release {B} s s1 i q h n l (k : unit -> M (pst F) B) b s' :
  at_entry s s1 i q h n -> bind (lock_release l) k s1 = Ret b s' ->
  exists s2, at_entry s s2 i q (remove_one l h) n /\ k tt s2 = Ret b s'.
Proof.
  intros [A1 A2 A3 A4 A5 <-] E. apply bind_ret_inv in E as ([] & s2 & E1 & E2). unfold lock_release in E1.
  case_bool_decide as Hin; [|done]. injection E1 as <-.
  eexists. split; [|exact E2]. by constructor.
Qed.

Lemma at_getp {B} s s1 i q h n (k : proc -> M (pst F) B) b s' :
  at_entry s s1 i q h n -> bind (getp i) k s1 = Ret b s' -> k q s1 = Ret b s'.
Proof. intros [<- _ _ _ _ _] E. exact E. Qed.

Lemma at_getp_other {B} s s1 i j q h n (k : proc -> M (pst F) B) b s' :
  at_entry s s1 i q h n -> j <> i -> bind (getp j) k s1 = Ret b s' -> k (procs s j) s1 = Ret b s'.
Proof. intros [_ A _ _ _ _] Hj E. unfold bind, getp, get in E. by rewrite A in E. Qed.

Lemma at_modify_nextpid {B} s s1 i q h n n' (k : unit -> M (pst F) B) b s' :
  at_entry s s1 i q h n -> bind (modify (set_nextpid n')) k s1 = Ret b s' ->
  exists s2, at_entry s s2 i q h n' /\ k tt s2 = Ret b s'.
Proof. intros [A1 A2 A3 A4 A5 A6] E. eexists. split; [|exact E]. constructor; auto. Qed.
End framework.

(** Run the next call of a computation on one entry. *)
Ltac at_step :=
  match goal with
  | U : at_entry _ ?s1 _ _ _ _, E : bind (setp _ _) _ ?s1 = Ret _ _ |- _ =>
      let s2 := fresh "s" in let U2 := fresh "U" in
      apply (at_setp _ _ _ _ _ _ _ _ _ _ U) in E; destruct E as (s2 & U2 & E); clear U; rename U2 into U
  | U : at_entry _ ?s1 _ _ _ _, E : bind (lock_acquire _) _ ?s1 = Ret _ _ |- _ =>
      let s2 := fresh "s" in let U2 := fresh "U" in let N := fresh "Nin" in
      apply (at_acquire _ _ _ _ _ _ _ _ _ _ U) in E; destruct E as (s2 & U2 & N & E); clear U; rename U2 into U
  | U : at_entry _ ?s1 _ _ _ _, E : bind (lock_release _) _ ?s1 = Ret _ _ |- _ =>
      let s2 := fresh "s" in let U2 := fresh "U" in
      apply (at_release _ _ _ _ _ _ _ _ _ _ U) in E; destruct E as (s2 & U2 & E); clear U; rename U2 into U
  | U : at_entry _ ?s1 ?i _ _ _, E : bind (getp ?i) _ ?s1 = Ret _ _ |- _ =>
      apply (at_getp _ _ _ _ _ _ _ _ _ U) in E; cbn beta in E
  | U : at_entry _ ?s1 _ _ _ _, E : bind (modify (set_nextpid _)) _ ?s1 = Ret _ _ |- _ =>
      let s2 := fresh "s" in let U2 := fresh "U" in
      apply (at_modify_nextpid _ _ _ _ _ _ _ _ _ _ U) in E; destruct E as (s2 & U2 & E); clear U; rename U2 into U
  | U : at_entry _ ?s1 _ _ _ _, E : bind (get nextpid) _ ?s1 = Ret _ _ |- _ =>
      unfold bind at 1, get at 1 in E; rewrite (ae_nextpid _ _ _ _ _ _ U) in E
  | U : at_entry _ ?s1 _ _ _ _, E : ret _ ?s1 = Ret _ _ |- _ =>
      injection E; clear E; intros; subst
  end.

(** ** The interface of the file system as process code relies on it *)

(** An entry unchanged, or woken. *)
Definition woken (p q : proc) : Prop :=
  q = p \/ state p = SLEEPING /\ q = set_state RUNNABLE p.

(** Since [s], sleeping processes may have been woken, and nothing else of the
    process table changed. *)
Record only_woken {F} (s s' : pst F) : Prop := {
  ow_procs : forall j, woken (procs s j) (procs s' j);
  ow_nextpid : nextpid s' = nextpid s;
  ow_init : initproc s' = initproc s;
  ow_cproc : cproc s' = cproc s;
  ow_held : held s' = held s
}.

(** A call that returns has at most woken sleepers; one that blocks has put
    the caller to sleep. *)
Definition wakes {F A} (c : M (pst F) A) : Prop :=
  forall s, match c s with
            | Ret _ s' => only_woken s s'
            | Blocked s' => forall p, cproc s = Some p -> context (procs s' p) <> CtxExit
            | _ => True
            end.

(** filedup and idup return their argument; fileclose, iput and the brackets
    of a transaction may wake sleepers. *)
Class FileLaws (F : Type) `{FileLayer F} := {
  filedup_leaves : forall f, leaves (filedup f);
  filedup_same : forall f s g s', filedup f s = Ret g s' -> g = f;
  idup_leaves : forall ip, leaves (idup ip);
  idup_same : forall ip s g s', idup ip s = Ret g s' -> g = ip;
  fileclose_wakes : forall f, wakes (fileclose f);
  begin_op_wakes : wakes begin_op;
  iput_wakes : forall ip, wakes (iput ip);
  end_op_wakes : wakes end_op
}.

Section entries.
Context {F : Type} `{FileLaws F}.
Context (kend trampoline initcode : Z) (xstate_addr : nat -> Z) (kbuf : Z).
Implicit Types s : pst F.

(** The entry freeproc leaves behind. *)
Definition cleared (p : proc) : proc :=
  MkProc UNUSED CNull 0 0 0 0 0 None (kstack p) 0 0 0 (context p) (ofile p) (cwd p) [].

Lemma freeproc_spec s s1 i q h n B (k : unit -> M (pst F) B) b s' :
  at_entry s s1 i q h n -> bind (freeproc kend i) k s1 = Ret b s' ->
  exists s2, at_entry s s2 i (cleared q) h n /\ k tt s2 = Ret b s'.
Proof.
  intros U E. apply bind_ret_inv in E as ([] & s2 & E & E2). exists s2. split; [|exact E2]. clear E2 k b s' B.
  unfold freeproc in E. at_step.
  apply (at_leaves _ _ _ _ _ _ _ _ _ _ U) in E as (_ & s3 & U3 & _ & E);
    [|case_test; [apply leaves_liftk, kfree_keeps|apply leaves_ret]].
  at_step.
  apply (at_leaves _ _ _ _ _ _ _ _ _ _ U3) in E as (_ & s5 & U5 & _ & E);
    [|case_test; [apply proc_freepagetable_leaves|apply leaves_ret]].
  clear U3. repeat at_step. apply (at_setp_last _ _ _ _ _ _ _ _ U5) in E. exact E.
Qed.

(** The scan of allocproc stops at an UNUSED entry and keeps its lock. *)
Lemma find_unused_spec l s r s' :
  for_find l (fun p =>
    lock_acquire (LProc p) ;;;
    let! pp := getp p in
    if decide (state pp = UNUSED) then ret (Some p)
    else lock_release (LProc p) ;;; ret None) s = Ret r s' ->
  match r with
  | None => s' = s /\ forall i, i ∈ l -> state (procs s i) <> UNUSED
  | Some i => state (procs s i) = UNUSED /\ LProc i ∉ held s /\
              at_entry s s' i (procs s i) (LProc i :: held s) (nextpid s) /\
              exists l1 l2, l = l1 ++ i :: l2 /\ forall j, j ∈ l1 -> state (procs s j) <> UNUSED
  end.
Proof.
  revert s. induction l as [|i l IH]; intros s E; cbn [for_find] in E.
  { injection E as <- <-. split; [done|]. by intros ? ?%elem_of_nil. }
  apply bind_ret_inv in E as (o & s1 & E1 & E2). apply bind_ret_inv in E1 as ([] & s2 & Ea & E1).
  apply lock_acquire_inv in Ea as [Hl ->]. destruct (lock_pair (LProc i) s Hl) as [_ Hr].
  unfold bind, getp, get in E1. change (procs (set_held _ s)) with (procs s) in E1. case_decide as Hu.
  - injection E1 as <- <-. injection E2 as <- <-. split_and!; [done|done|by constructor|].
    exists [], l. split; [done|]. by intros ? ?%elem_of_nil.
  - rewrite Hr in E1. injection E1 as <- <-. apply IH in E2. destruct r as [j|].
    + destruct E2 as (? & ? & ? & l1 & l2 & -> & Hl1). split_and!; auto. exists (i :: l1), l2.
      split; [done|]. intros k [->|Hk]%elem_of_cons; auto.
    + destruct E2 as [-> Hn]. split; [done|]. intros j [->|Hj]%elem_of_cons; auto.
Qed.

(** Entry [i] is the first UNUSED one. *)
Definition first_unused s (i : nat) : Prop :=
  (i < NPROC)%nat /\ state (procs s i) = UNUSED /\ forall j, (j < i)%nat -> state (procs s j) <> UNUSED.

Lemma seq_split a n l1 i l2 : seq a n = l1 ++ i :: l2 -> (i < a + n)%nat /\ forall j, (a <= j < i)%nat -> j ∈ l1.
Proof.
  revert a l1. induction n as [|n IH]; intros a l1 E; cbn [seq] in E; [by destruct l1|].
  destruct l1 as [|b l1]; injection E as <- E; [split; lia|]. apply IH in E as [? HH]. split; [lia|].
  intros j Hj. destruct (decide (j = a)) as [->|]; [left|right]. apply HH. lia.
Qed.

(** The entry of a fresh process, [q] before. *)
Definition fresh (n tf pt : Z) (q : proc) : proc :=
  set_context CtxForkret (set_pagetable pt (set_trapframe tf
    (set_tickets DEFAULT_TICKETS (set_state USED (set_pid n q))))).

(** allocproc returns an entry that was UNUSED, set up and locked; or fails
    with the table as it was, up to one entry it cleared again. *)
Lemma allocproc_spec s r s' :
  allocproc kend trampoline s = Ret r s' ->
  match r with
  | Some i => first_unused s i /\ LProc i ∉ held s /\ exists tf pt,
      tf <> 0 /\ pt <> 0 /\
      at_entry s s' i (fresh (nextpid s) tf pt (procs s i)) (LProc i :: held s) (s32 (nextpid s + 1))
  | None =>
      s' = s \/ exists i, (i < NPROC)%nat /\ state (procs s i) = UNUSED /\
        at_entry s s' i (cleared (procs s i)) (held s) (s32 (nextpid s + 1))
  end.
Proof.
  intros E. unfold allocproc in E. apply bind_ret_inv in E as (found & s1 & E1 & E).
  apply find_unused_spec in E1. destruct found as [i|]; [|destruct E1 as [-> _]; injection E as <- <-; by left].
  destruct E1 as (Hu & Hl & U & l1 & l2 & [Hi Hl1]%seq_split & Hbefore).
  assert (Hfirst : first_unused s i).
  { split_and!; [done|done|]. intros j Hj. apply Hbefore, Hl1. lia. }
  (* allocpid *)
  apply bind_ret_inv in E as (pid & s2 & E1 & E). unfold allocpid in E1. do 4 at_step.
  rewrite remove_one_head in U by done. at_step.
  assert (Hout : forall q s0, at_entry s s0 i q (LProc i :: held s) (s32 (nextpid s + 1)) ->
     cleared q = cleared (procs s i) ->
     (freeproc kend i ;;; lock_release (LProc i) ;;; ret None) s0 = Ret r s' ->
     r = None /\ at_entry s s' i (cleared (procs s i)) (held s) (s32 (nextpid s + 1))).
  { clear E U. intros q sa U0 <- E0. apply (freeproc_spec _ _ _ _ _ _ _ _ _ _ U0) in E0 as (sb & U3 & E0).
    clear U0. at_step. rewrite remove_one_head in U3 by done. at_step. done. }
  do 3 at_step.
  apply (at_leaves _ _ _ _ _ _ _ _ _ _ U) in E as (tf & sb & U7 & _ & E); [|apply leaves_liftk, kalloc_keeps].
  clear U. at_step. destruct (tf =? 0) eqn:Etf; bool_to_prop.
  - apply (Hout _ _ U7) in E as [-> U']; [|done]. right. exists i. split_and!; auto; lia.
  - apply (at_leaves _ _ _ _ _ _ _ _ _ _ U7) in E as (pt & sc & U8 & _ & E); [|apply proc_pagetable_leaves].
    clear U7. at_step. destruct (pt =? 0) eqn:Ept; bool_to_prop.
    + apply (Hout _ _ U8) in E as [-> U']; [|done]. right. exists i. split_and!; auto; lia.
    + do 2 at_step. split_and!; [done|done|]. exists tf, pt. by split_and!.
Qed.
Lemma dup_files_spec s s1 p np q h n s2 :
  at_entry s s1 np q h n -> np <> p ->
  length (ofile (procs s p)) = NOFILE -> ofile q = replicate NOFILE 0 ->
  dup_files p np s1 = Ret tt s2 ->
  at_entry s s2 np (set_ofile (ofile (procs s p)) q) h n.
Proof.
  intros U Hne Hlen Hq E. unfold dup_files in E.
  assert (Hgen : forall m a sa l, at_entry s sa np (set_ofile l q) h n -> length l = NOFILE ->
     (forall j, 0 <= j < 16 -> rd l j = if decide (j < Z.of_nat a) then rd (ofile (procs s p)) j else 0) ->
     (a + m)%nat = NOFILE -> for_each (seq a m) (fun i =>
       let! pp := getp p in
       let f := rd (ofile pp) (Z.of_nat i) in
       when negb (f =? 0) then
         let! g := filedup f in
         setp np (fun q => set_ofile (wr (ofile q) (Z.of_nat i) g) q)) sa = Ret tt s2 ->
     at_entry s s2 np (set_ofile (ofile (procs s p)) q) h n).
  { clear E U s1. induction m as [|m IH]; intros a sa l U Hl Hj Ham E; cbn [seq for_each] in E.
    - injection E as <-. replace (ofile (procs s p)) with l; [done|]. apply rd_ext; [congruence|].
      unfold NOFILE in *. intros j Hj'. rewrite Hj by lia. rewrite decide_True by lia. done.
    - apply bind_ret_inv in E as ([] & sb & E1 & E).
      apply (at_getp_other _ _ _ _ _ _ _ _ _ _ U) in E1; [|done]. cbv beta zeta in E1.
      case_test_in E1; bool_to_prop.
      + apply (at_leaves _ _ _ _ _ _ _ _ _ _ U) in E1 as (g & sc & Uc & Eg & E1); [|apply filedup_leaves].
        apply filedup_same in Eg as ->. apply (at_setp_last _ _ _ _ _ _ _ _ Uc) in E1.
        apply (IH (S a) sb (wr l (Z.of_nat a) (rd (ofile (procs s p)) (Z.of_nat a)))); auto.
        * by rewrite length_wr.
        * intros j Hj'. destruct (decide (j = Z.of_nat a)) as [->|].
          { rewrite rd_wr_same by (unfold NOFILE in *; lia). by rewrite decide_True by lia. }
          rewrite rd_wr_other by lia. rewrite Hj by done. range_cases.
        * lia.
      + injection E1 as <-. apply (IH (S a) sa l); auto; [|lia].
        intros j Hj'. rewrite Hj by done. destruct (decide (j = Z.of_nat a)) as [->|]; range_cases. }
  apply (Hgen NOFILE O s1 (replicate NOFILE 0)); auto.
  - rewrite <- Hq. by destruct q.
  - intros j Hj. rewrite decide_False by lia. unfold rd. rewrite nth_lookup.
    rewrite lookup_replicate_2 by (unfold NOFILE; lia). done.
Qed.

(** The entry of the child fork makes in entry [np] for process [p]. *)
Definition child (s : pst F) (p np : nat) (tf pt : Z) : proc :=
  let pp := procs s p in
  set_state RUNNABLE (set_parent (Some p) (set_tickets (tickets pp) (set_name (copy_name (name pp))
    (set_cwd (cwd pp) (set_ofile (ofile pp) (set_sz (sz pp) (fresh (nextpid s) tf pt (procs s np)))))))).

Lemma fork_spec s p r s' :
  cproc s = Some p -> held s = [] -> state (procs s p) <> UNUSED ->
  (forall i, length (ofile (procs s i)) = NOFILE) ->
  (forall i, state (procs s i) = UNUSED -> ofile (procs s i) = replicate NOFILE 0) ->
  fork kend trampoline s = Ret r s' ->
  (r = -1 /\ (s' = s \/ exists i c, (i < NPROC)%nat /\ state (procs s i) = UNUSED /\
       at_entry s s' i (set_context c (cleared (procs s i))) [] (s32 (nextpid s + 1)))) \/
  (r = nextpid s /\ exists np tf pt, first_unused s np /\
       at_entry s s' np (child s p np tf pt) [] (s32 (nextpid s + 1))).
Proof.
  intros Hp Hh Hrun Hlen Hun E. unfold fork in E. unfold curproc, myproc, bind at 1 2, get, ret at 1 in E.
  rewrite Hp in E. apply bind_ret_inv in E as (onp & s1 & E1 & E). apply allocproc_spec in E1.
  rewrite Hh in E1. destruct onp as [np|].
  2:{ injection E as <- <-. left. split; [done|].
    destruct E1 as [->|(i & ? & ? & ?)]; [by left|right]. exists i, (context (procs s i)). by split_and!. }
  destruct E1 as (Hfirst & _ & tf & pt & _ & _ & U). destruct (Hfirst) as (Hnp & Hu & _).
  assert (Hne : np <> p) by (intros ->; done).
  apply (at_getp_other _ _ _ p _ _ _ _ _ _ U) in E; [|done]. cbn beta in E. at_step.
  apply (at_leaves _ _ _ _ _ _ _ _ _ _ U) in E as (r0 & s2 & U2 & _ & E);
    [|apply leaves_liftk, uvmcopy_keeps]. clear U.
  case_test_in E; bool_to_prop.
  - left. apply (freeproc_spec _ _ _ _ _ _ _ _ _ _ U2) in E as (s3 & U3 & E). clear U2.
    at_step. rewrite remove_one_head in U3 by apply not_elem_of_nil. at_step.
    split; [done|]. right. exists np, CtxForkret. by split_and!.
  - right. at_step. do 2 (apply (at_leaves _ _ _ _ _ _ _ _ _ _ U2) in E as (_ & ? & U3 & _ & E);
      [|by apply leaves_liftk, keeps_modify]; clear U2; rename U3 into U2).
    apply bind_ret_inv in E as ([] & s3 & Ed & E).
    apply (dup_files_spec _ _ _ _ _ _ _ _ U2) in Ed; [|done|apply Hlen|by apply Hun]. clear U2.
    apply (at_leaves _ _ _ _ _ _ _ _ _ _ Ed) in E as (c & s4 & U & Ei & E); [|apply idup_leaves].
    apply idup_same in Ei as ->. clear Ed. do 2 at_step.
    assert (Hpid : forall sa q, at_entry s sa np q [LProc np] (s32 (nextpid s + 1)) ->
      (let! q := getp np in ret (pid q)) sa = Ret (pid q) sa).
    { intros sa q Ua. unfold bind, getp, get, ret. by rewrite (ae_this _ _ _ _ _ _ Ua). }
    rewrite (bind_ret_intro _ _ _ _ _ (Hpid _ _ U)) in E. at_step.
    assert (Ht : forall sa q h, at_entry s sa np q h (s32 (nextpid s + 1)) ->
      (let! q := getp p in ret (tickets q)) sa = Ret (tickets (procs s p)) sa).
    { intros sa q h Ua. unfold bind, getp, get, ret. by rewrite (ae_other _ _ _ _ _ _ Ua). }
    rewrite (bind_ret_intro _ _ _ _ _ (Ht _ _ _ U)) in E. do 2 at_step.
    rewrite remove_one_head in U by done. at_step. rewrite remove_one_head in U by apply not_elem_of_nil.
    do 3 at_step. rewrite remove_one_head in U by apply not_elem_of_nil. do 3 at_step.
    rewrite remove_one_head in U by apply not_elem_of_nil. at_step.
    split; [done|]. exists np, tf, pt. by split_and!.
Qed.
End entries.

Section waking.
Context {F : Type}.
Implicit Types s : pst F.

(** ** wakeup *)

Definition set_entry (i : nat) (q : proc) s : pst F := set_procs (upd (procs s) i q) s.

Lemma release_set_entry l i q s :
  l ∉ held s -> lock_release l (set_entry i q (set_held (l :: held s) s)) = Ret tt (set_entry i q s).
Proof.
  intros Hl. rewrite (lock_release_top l _ (held s)) by done. destruct s as [[? ? ?] ? ? ? ? ? ? ?]. done.
Qed.

(** Is entry [j] asleep on [c], for a caller that is not [j]? *)
Definition wakes_up (c : chan) (me : option nat) (j : nat) (q : proc) : Prop :=
  Some j <> me /\ state q = SLEEPING /\ pchan q = c.

#[local] Instance wakes_up_dec c me j q : Decision (wakes_up c me j q).
Proof. unfold wakes_up. apply _. Defined.

Lemma wakeup_loop_spec l c s :
  NoDup l -> no_proc_lock s ->
  exists s', for_each l (fun p =>
    let! me := myproc in
    if decide (Some p = me) then ret tt
    else
      lock_acquire (LProc p) ;;;
      let! pp := getp p in
      (when bool_decide (state pp = SLEEPING /\ pchan pp = c) then setp p (set_state RUNNABLE)) ;;;
      lock_release (LProc p)) s = Ret tt s' /\
    (forall j, procs s' j = if decide (j ∈ l /\ wakes_up c (cproc s) j (procs s j))
                            then set_state RUNNABLE (procs s j) else procs s j) /\
    s' = set_procs (procs s') s.
Proof.
  revert s. induction l as [|i l IH]; intros s Hnd Hn.
  { exists s. split_and!; [done| |by destruct s]. intros j. rewrite decide_False; [done|].
    by intros [?%elem_of_nil _]. }
  inversion_clear Hnd as [|? ? Hi Hnd']. cbn [for_each].
  set (s1 := if decide (wakes_up c (cproc s) i (procs s i)) then set_entry i (set_state RUNNABLE (procs s i)) s else s).
  assert (E1 : (let! me := myproc in
    if decide (Some i = me) then ret tt
    else
      lock_acquire (LProc i) ;;;
      let! pp := getp i in
      (when bool_decide (state pp = SLEEPING /\ pchan pp = c) then setp i (set_state RUNNABLE)) ;;;
      lock_release (LProc i)) s = Ret tt s1).
  { subst s1. unfold bind at 1, myproc, get. destruct (decide (Some i = cproc s)) as [Hm|Hm].
    { rewrite decide_False; [done|]. by intros [? _]. }
    destruct (lock_pair (LProc i) s (Hn i)) as [Ha Hr]. rewrite (bind_ret_intro _ _ _ _ _ Ha).
    unfold bind at 1, getp, get. change (procs (set_held _ s)) with (procs s).
    case_bool_decide as Hw.
    - rewrite decide_True by (by split). exact (release_set_entry (LProc i) i (set_state RUNNABLE (procs s i)) s (Hn i)).
    - rewrite decide_False; [exact Hr|]. intros [_ ?]. done. }
  rewrite (bind_ret_intro _ _ _ _ _ E1).
  assert (Hs1 : cproc s1 = cproc s /\ held s1 = held s /\ s1 = set_procs (procs s1) s /\
     forall j, procs s1 j = if decide (j = i /\ wakes_up c (cproc s) i (procs s i)) then set_state RUNNABLE (procs s j) else procs s j).
  { subst s1. case_decide as Hw; split_and!; try done; try (by destruct s); intros j.
    - simpl. unfold upd. repeat case_decide; subst; naive_solver.
    - rewrite decide_False; [done|naive_solver]. }
  destruct Hs1 as (Hc1 & Hh1 & Hs1 & Hp1).
  destruct (IH s1 Hnd') as (s' & E' & Hp' & Hs').
  { intros j. rewrite Hh1. apply Hn. }
  exists s'. split_and!; [exact E'| |].
  - intros j. rewrite Hp', Hc1, Hp1. destruct (decide (j = i)) as [->|Hj].
    + rewrite (decide_False (P := i ∈ l /\ _)) by naive_solver.
      repeat case_decide; try done; exfalso; rewrite elem_of_cons in *; naive_solver.
    + rewrite (decide_False (P := j = i /\ _)) by naive_solver.
      repeat case_decide; try done; exfalso; rewrite elem_of_cons in *; naive_solver.
  - rewrite Hs', Hs1. done.
Qed.

(** wakeup makes RUNNABLE exactly the other processes asleep on [c]. *)
Lemma wakeup_spec c s :
  no_proc_lock s ->
  exists s', wakeup c s = Ret tt s' /\
    (forall j, procs s' j = if decide ((j < NPROC)%nat /\ wakes_up c (cproc s) j (procs s j))
                            then set_state RUNNABLE (procs s j) else procs s j) /\
    s' = set_procs (procs s') s.
Proof.
  intros Hn. destruct (wakeup_loop_spec all_procs c s (NoDup_seq 0 NPROC) Hn) as (s' & E & Hp & Hs).
  exists s'. split_and!; [exact E| |exact Hs]. intros j. rewrite Hp.
  assert (j ∈ all_procs <-> (j < NPROC)%nat) by (unfold all_procs; rewrite elem_of_seq; lia).
  repeat case_decide; naive_solver.
Qed.
(** ** Blocking calls *)

Lemma bind_blocked_inv {A B} (c : M (pst F) A) (k : A -> M (pst F) B) s s' :
  bind c k s = Blocked s' -> c s = Blocked s' \/ exists a s1, c s = Ret a s1 /\ k a s1 = Blocked s'.
Proof. unfold bind. destruct (c s); intros E; try done; eauto. left. congruence. Qed.

Lemma leaves_not_blocked {A} (c : M (pst F) A) s s' : leaves c -> c s <> Blocked s'.
Proof. intros Hc E. specialize (Hc s). by rewrite E in Hc. Qed.

(** sched from [p] with only its own lock held, after its state changed *)
Lemma sched_run s p ra :
  cproc s = Some p -> held s = [LProc p] -> state (procs s p) <> RUNNING ->
  sched ra s = Blocked (set_entry p (set_context ra (procs s p)) s).
Proof.
  intros Hp Hh Hq. unfold sched, curproc, myproc. unfold bind, get, getp, ret.
  rewrite Hp, Hh. rewrite bool_decide_eq_true_2 by left. cbn [negb length].
  change (negb (Z.of_nat 1 =? 1)) with false. cbv iota. unfold setp, modify, getp, get.
  by rewrite decide_False.
Qed.

Lemma sched_spec s s1 p q n ra :
  at_entry s s1 p q [LProc p] n -> cproc s = Some p -> state q <> RUNNING ->
  exists s', sched ra s1 = Blocked s' /\ at_entry s s' p (set_context ra q) [LProc p] n.
Proof.
  intros [A1 A2 A3 A4 A5 A6] Hp Hq. rewrite (sched_run s1 p ra) by congruence.
  eexists. split; [done|]. constructor; auto; simpl.
  - by rewrite upd_same, A1.
  - intros j Hj. rewrite upd_other by done. by apply A2.
Qed.

(** The entry of a process asleep on [c]. *)
Definition asleep (c : chan) (lk : lockid) (q : proc) : proc :=
  set_context (CtxSleep lk) (set_state SLEEPING (set_chan c q)).

Lemma sleep_spec s p c lk :
  cproc s = Some p -> held s = [lk] -> lk <> LProc p ->
  exists s', sleep c lk s = Blocked s' /\ at_entry s s' p (asleep c lk (procs s p)) [LProc p] (nextpid s).
Proof.
  intros Hp Hh Hlk. unfold sleep, curproc, myproc. unfold bind at 1 2, get, ret at 1. rewrite Hp.
  rewrite (bind_ret_intro _ _ _ _ _ (lock_acquire_free (LProc p) s ltac:(rewrite Hh; set_solver))).
  assert (Hr : lock_release lk (set_held (LProc p :: held s) s) = Ret tt (set_held [LProc p] s)).
  { unfold lock_release. rewrite held_set_held, Hh, bool_decide_eq_true_2 by (right; left).
    rewrite set_held_twice. do 2 f_equal. unfold remove_one.
    rewrite filter_cons_True by congruence. by rewrite filter_cons_False by auto. }
  rewrite (bind_ret_intro _ _ _ _ _ Hr). unfold bind at 1 2, setp at 1 2, modify.
  apply (sched_spec _ _ _ (set_state SLEEPING (set_chan c (procs s p)))); [|done|done].
  constructor; try done; simpl.
  - by rewrite !upd_same.
  - intros j Hj. by rewrite !upd_other.
Qed.

Lemma yield_spec s p :
  cproc s = Some p -> held s = [] ->
  exists s', yield s = Blocked s' /\
    at_entry s s' p (set_context CtxYield (set_state RUNNABLE (procs s p))) [LProc p] (nextpid s).
Proof.
  intros Hp Hh. unfold yield, curproc, myproc. unfold bind at 1 2, get, ret at 1. rewrite Hp.
  rewrite (bind_ret_intro _ _ _ _ _ (lock_acquire_free (LProc p) s ltac:(rewrite Hh; set_solver))).
  unfold bind at 1, setp at 1, modify.
  apply (sched_spec _ _ _ (set_state RUNNABLE (procs s p))); [|done|done].
  constructor; try done; simpl; [by rewrite !upd_same|intros j Hj; by rewrite !upd_other|by rewrite <- Hh].
Qed.

(** The scheduler taking the CPU back from [p] *)
Lemma scheduler_resume_spec s s1 p q n :
  at_entry s s1 p q [LProc p] n ->
  exists s', scheduler_resume p s1 = Ret tt s' /\ procs s' p = q /\
    (forall j, j <> p -> procs s' j = procs s j) /\ nextpid s' = n /\ initproc s' = initproc s /\
    cproc s' = None /\ held s' = [].
Proof.
  intros [A1 A2 A3 A4 A5 A6]. unfold scheduler_resume, bind, modify.
  rewrite (lock_release_top (LProc p) _ []); [|done|apply not_elem_of_nil].
  eexists. split; [done|]. by split_and!.
Qed.

End waking.

Section waiting.
Context {F : Type} (kend : Z) (xstate_addr : nat -> Z).
Implicit Types s : pst F.

(** ** wait *)

Lemma killed_leaves i s k s' : killed i s = Ret k s' -> s' = s.
Proof.
  intros E. unfold killed in E. apply bind_ret_inv in E as ([] & s1 & Ea & E).
  apply lock_acquire_inv in Ea as [Hl ->]. destruct (lock_pair (LProc i) s Hl) as [_ Hr].
  unfold bind, getp, get in E. rewrite Hr in E. by injection E.
Qed.

Lemma killed_not_blocked i s s' : killed i s <> Blocked s'.
Proof.
  unfold killed, bind, lock_acquire. case_bool_decide; [done|]. unfold getp, get, lock_release.
  by case_bool_decide.
Qed.

(** Reaping entry [i] of [s]. *)
Definition reaps s (p i : nat) (v : Z) s' : Prop :=
  parent (procs s i) = Some p /\ state (procs s i) = ZOMBIE /\ v = pid (procs s i) /\
  at_entry s s' i (cleared (procs s i)) [] (nextpid s).

(** Code that never sleeps *)
Definition awake {A} (c : M (pst F) A) : Prop := forall s s', c s <> Blocked s'.

Lemma awake_leaves {A} (c : M (pst F) A) : leaves c -> awake c.
Proof. intros Hc s s'. by apply leaves_not_blocked. Qed.

Lemma awake_bind {A B} (c : M (pst F) A) (k : A -> M (pst F) B) :
  awake c -> (forall a, awake (k a)) -> awake (bind c k).
Proof. intros Hc Hk s s' E. apply bind_blocked_inv in E as [E|(a & s1 & _ & E)]; [by apply Hc in E|by apply Hk in E]. Qed.

Lemma awake_setp i f : awake (setp i f).
Proof. done. Qed.

Lemma awake_acquire l : awake (lock_acquire l).
Proof. intros s s'. unfold lock_acquire. by case_bool_decide. Qed.

Lemma awake_release l : awake (lock_release l).
Proof. intros s s'. unfold lock_release. by case_bool_decide. Qed.

Lemma freeproc_awake i : awake (freeproc kend i).
Proof.
  unfold freeproc. apply awake_bind; [done|intros q]. apply awake_bind; [|intros _].
  { apply awake_leaves. case_test; [apply leaves_liftk, kfree_keeps|apply leaves_ret]. }
  apply awake_bind; [done|intros _]. apply awake_bind; [|done].
  apply awake_leaves. case_test; [apply proc_freepagetable_leaves|apply leaves_ret].
Qed.

(** The copy of the exit status to the parent *)
Lemma copy_status_leaves addr i q p :
  leaves (F := F) (if negb (addr =? 0) then
            store32 (xstate_addr i) (xstate q) ;;;
            let! me := getp p in liftk (copyout (pagetable me) addr (xstate_addr i) 4)
          else ret 0).
Proof.
  case_test; [|apply leaves_ret]. apply leaves_bind; [by apply leaves_liftk, keeps_modify|intros _].
  apply leaves_bind; [done|intros me]. apply leaves_liftk. eauto with keeps.
Qed.

Lemma wait_scan_awake l p addr hk : awake (wait_scan kend xstate_addr l p addr hk).
Proof.
  revert hk. induction l as [|i l IH]; intros hk; cbn [wait_scan]; [done|].
  apply awake_bind; [done|intros q]. case_decide; [|apply IH].
  apply awake_bind; [apply awake_acquire|intros _]. apply awake_bind; [done|intros q'].
  case_decide; [|apply awake_bind; [apply awake_release|intros _; apply IH]].
  apply awake_bind; [apply awake_leaves, copy_status_leaves|intros r].
  case_test; repeat (apply awake_bind; [first [apply awake_release|apply freeproc_awake]|intros _]); done.
Qed.

Lemma wait_scan_spec l p addr hk s r hk' s' :
  held s = [LWait] -> wait_scan kend xstate_addr l p addr hk s = Ret (r, hk') s' ->
  match r with
  | Some v =>
      (v = -1 /\ addr <> 0 /\ (forall j, procs s' j = procs s j) /\ nextpid s' = nextpid s /\
         initproc s' = initproc s /\ cproc s' = cproc s /\ held s' = []) \/ exists i, i ∈ l /\ reaps s p i v s'
  | None => s' = s /\ (hk' = false -> hk = false) /\
      forall i, i ∈ l -> parent (procs s i) = Some p -> state (procs s i) <> ZOMBIE /\ hk' = true
  end.
Proof.
  intros Hh. revert hk. induction l as [|i l IH]; intros hk E; cbn [wait_scan] in E.
  { injection E as <- <- <-. split_and!; [done|done|]. by intros ? ?%elem_of_nil. }
  unfold bind at 1, getp at 1, get in E. case_decide as Hpar.
  2:{ apply IH in E. destruct r as [v|].
      - destruct E as [?|(j & ? & ?)]; [by left|]. right. exists j. split; [by right|done].
      - destruct E as (-> & ? & HH). split_and!; auto. intros j [->|Hj]%elem_of_cons; auto. }
  apply bind_ret_inv in E as ([] & s1 & Ea & E). apply lock_acquire_inv in Ea as [Hl ->].
  assert (U : at_entry s (set_held (LProc i :: held s) s) i (procs s i) [LProc i; LWait] (nextpid s)).
  { constructor; auto. by rewrite held_set_held, Hh. }
  rewrite Hh in Hl. unfold bind at 1, getp at 1, get in E. change (procs (set_held _ s)) with (procs s) in E.
  case_decide as Hz.
  - apply (at_leaves _ _ _ _ _ _ _ _ _ _ U) in E as (rr & s2 & U2 & Ec & E); [|apply copy_status_leaves].
    clear U. case_test_in E; bool_to_prop.
    + at_step. rewrite remove_one_head in U2 by done. at_step.
      rewrite remove_one_head in U2 by apply not_elem_of_nil. at_step. left.
      destruct U2 as [A1 A2 A3 A4 A5 A6]. split_and!; auto.
      * intros ->. injection Ec as <- _. lia.
      * intros j. destruct (decide (j = i)) as [->|]; auto.
    + apply (freeproc_spec _ _ _ _ _ _ _ _ _ _ _ U2) in E as (s3 & U3 & E). clear U2.
      at_step. rewrite remove_one_head in U3 by done. at_step.
      rewrite remove_one_head in U3 by apply not_elem_of_nil. at_step. right. exists i.
      split; [left|]. by split_and!.
  - clear U. rewrite (bind_ret_intro _ _ _ _ _ (proj2 (lock_pair (LProc i) s ltac:(by rewrite Hh)))) in E.
    apply IH in E. destruct r as [v|].
    + destruct E as [?|(j & ? & ?)]; [by left|]. right. exists j. split; [by right|done].
    + destruct E as (-> & Hk & HH). split_and!; [done|by intros ->; discriminate Hk|].
      intros j [->|Hj]%elem_of_cons; [|by auto]. intros _. split; [done|]. by destruct hk'; [|discriminate Hk].
Qed.

(** wait either returns -1 with the table unchanged, or reaps one zombie child
    and returns its pid; it sleeps only when it has a child and none of its
    children is a zombie. *)
Lemma wait_turn_spec p addr s :
  held s = [LWait] -> cproc s = Some p ->
  match wait_turn kend xstate_addr p addr s with
  | Ret v s' =>
      (v = -1 /\ (addr <> 0 \/ forall i, (i < NPROC)%nat -> parent (procs s i) = Some p -> state (procs s i) <> ZOMBIE) /\
         (forall j, procs s' j = procs s j) /\ nextpid s' = nextpid s /\ initproc s' = initproc s /\
         cproc s' = cproc s /\ held s' = []) \/ exists i, (i < NPROC)%nat /\ reaps s p i v s'
  | Blocked s' =>
      (forall i, (i < NPROC)%nat -> parent (procs s i) = Some p -> state (procs s i) <> ZOMBIE) /\
      at_entry s s' p (asleep (CProc p) LWait (procs s p)) [LProc p] (nextpid s)
  | _ => True
  end.
Proof.
  intros Hh Hp. unfold wait_turn, bind at 1.
  destruct (wait_scan kend xstate_addr all_procs p addr false s) as [[r hk] s1|m|s1|] eqn:E; try done.
  2:{ by apply wait_scan_awake in E. }
  apply wait_scan_spec in E; [|done].
  assert (Hall : forall i, i ∈ all_procs <-> (i < NPROC)%nat).
  { intros i. unfold all_procs. rewrite elem_of_seq. lia. }
  destruct r as [v|].
  { unfold ret. destruct E as [(? & ? & ?)|(i & Hi%Hall & ?)]; eauto. }
  destruct E as (-> & _ & Hkids).
  unfold bind at 1. destruct ((if hk then killed p else ret 0) s) as [k s2|m|s2|] eqn:Ek; try done.
  2:{ destruct hk; [by apply killed_not_blocked in Ek|done]. }
  assert (s2 = s) as -> by (destruct hk; [by apply killed_leaves in Ek|by injection Ek]). case_test.
  - unfold bind. rewrite (lock_release_top LWait s []) by (auto; apply not_elem_of_nil). left.
    split_and!; try done. right. intros i Hi%Hall Hpar. by apply Hkids.
  - destruct (sleep_spec s p (CProc p) LWait Hp Hh ltac:(done)) as (s' & Es & U).
    unfold bind. rewrite Es. split; [|done]. intros i Hi%Hall Hpar. by apply Hkids.
Qed.
End waiting.
