(* ===== verification/ProcLife.v ===== *)
(** Exit, the scheduling cycle of a process, and the invariant of the process
    table of [src/projects/project_3/changed_files/kernel/proc.c] under every
    sequence of process operations. *)

From stdpp Require Import base list sets strings.
From S2P Require Import Prelude Memory KString Spinlock Kalloc Vm VmLocks Random Proc Lottery ProcTable.

Section life.
Context {F : Type} `{FileLaws F}.
Implicit Types s : pst F.

(** ** exit *)

(** What [p] has done to the table since [s] while exiting: its own entry is
    [q], of the others some were woken, and the children of [p] may have been
    given to [init]. *)
Definition reparented (adopt : bool) (p : nat) (init : option nat) (a b : proc) : Prop :=
  exists w, woken a w /\ b = if adopt && bool_decide (parent a = Some p) then set_parent init w else w.

(** No entry has been handed over yet; every entry has. *)
Definition nobody : nat -> bool := fun _ => false.
Definition everybody : nat -> bool := fun j => bool_decide (j ∈ all_procs).

Record exiting s s' (p : nat) (q : proc) (h : list lockid) (adopt : nat -> bool) : Prop := {
  ex_this : procs s' p = q;
  ex_other : forall j, j <> p -> reparented (adopt j) p (initproc s) (procs s j) (procs s' j);
  ex_nextpid : nextpid s' = nextpid s;
  ex_init : initproc s' = initproc s;
  ex_cproc : cproc s' = cproc s;
  ex_held : held s' = h
}.

Lemma woken_refl a : woken a a.
Proof. by left. Qed.

Lemma woken_trans a b c : woken a b -> woken b c -> woken a c.
Proof. intros [->|[Ha ->]] [->|[Hb ->]]; unfold woken; auto. Qed.

Lemma woken_parent a b : woken a b -> parent b = parent a.
Proof. by intros [->|[_ ->]]. Qed.

Lemma woken_running a b : woken a b -> state a <> SLEEPING -> b = a.
Proof. by intros [->|[? _]]. Qed.

Lemma woken_set_parent o a b : woken (set_parent o a) b -> exists w, woken a w /\ b = set_parent o w.
Proof.
  intros [->|[Hs ->]]; [exists a; by split; [left|]|].
  exists (set_state RUNNABLE a). split; [right; by split|done].
Qed.

Lemma reparented_woken adopt p init a b c :
  reparented adopt p init a b -> woken b c -> reparented adopt p init a c.
Proof.
  intros (w & Hw & ->) Hc. unfold reparented. destruct (adopt && _) eqn:E.
  - apply woken_set_parent in Hc as (w' & Hw' & ->). exists w'. split; [by eapply woken_trans|done].
  - exists c. split; [by eapply woken_trans|done].
Qed.

(** The caller of exit has not gone to sleep for good. *)
Definition not_exited (p : nat) s : Prop := context (procs s p) <> CtxExit.

Lemma wakes_exiting {A} (c : M (pst F) A) s s1 p q h adopt :
  wakes c -> exiting s s1 p q h adopt -> cproc s = Some p -> state q <> SLEEPING ->
  wp c s1 (fun _ s2 => exiting s s2 p q h adopt) (not_exited p).
Proof.
  intros Hc [A1 A2 A3 A4 A5 A6] Hp Hq. specialize (Hc s1). unfold wp. destruct (c s1) as [a s2|m|s2|]; try done.
  - destruct Hc as [B1 B2 B3 B4 B5]. constructor; try congruence.
    + rewrite <- A1. apply woken_running; [apply B1|by rewrite A1].
    + intros j Hj. eapply reparented_woken; [by apply A2|apply B1].
  - apply Hc. congruence.
Qed.

Lemma exiting_setp s s1 p q h adopt f :
  exiting s s1 p q h adopt ->
  wp (setp p f) s1 (fun _ s2 => exiting s s2 p (f q) h adopt) (not_exited p).
Proof.
  intros [A1 A2 A3 A4 A5 A6]. constructor; auto; simpl.
  - by rewrite upd_same, A1.
  - intros j Hj. rewrite upd_other by done. by apply A2.
Qed.

Lemma close_files_spec s p q h :
  cproc s = Some p -> exiting s s p q h nobody -> state q <> SLEEPING -> length (ofile q) = NOFILE ->
  wp (close_files p) s (fun _ s' => exiting s s' p (set_ofile (replicate NOFILE 0) q) h nobody) (not_exited p).
Proof.
  intros Hp X Hq Hlen. unfold close_files.
  assert (Hgen : forall m a sa l, exiting s sa p (set_ofile l q) h nobody -> length l = NOFILE ->
     (forall j, 0 <= j < Z.of_nat a -> rd l j = 0) -> (a + m)%nat = NOFILE ->
     wp (for_each (seq a m) (fun fd =>
       let! pp := getp p in
       let f := rd (ofile pp) (Z.of_nat fd) in
       when negb (f =? 0) then
         fileclose f ;;; setp p (fun q => set_ofile (wr (ofile q) (Z.of_nat fd) 0) q))) sa
       (fun _ s' => exiting s s' p (set_ofile (replicate NOFILE 0) q) h nobody) (not_exited p)).
  { induction m as [|m IH]; intros a sa l Xa Hl Hj Ham; cbn [seq for_each].
    - apply wp_ret. replace (replicate NOFILE 0) with l; [done|]. apply rd_ext; [by rewrite length_replicate|].
      intros j Hj'. rewrite Hj by lia. unfold rd. rewrite nth_lookup, lookup_replicate_2 by lia. done.
    - apply wp_bind, wp_bind. unfold wp at 1, getp, get. rewrite (ex_this _ _ _ _ _ _ Xa). cbv zeta.
      assert (Hstep : forall l', length l' = NOFILE -> (forall j, 0 <= j < Z.of_nat (S a) -> rd l' j = 0) ->
         forall sb, exiting s sb p (set_ofile l' q) h nobody ->
         wp (for_each (seq (S a) m) (fun fd =>
           let! pp := getp p in
           let f := rd (ofile pp) (Z.of_nat fd) in
           when negb (f =? 0) then
             fileclose f ;;; setp p (fun q => set_ofile (wr (ofile q) (Z.of_nat fd) 0) q))) sb
           (fun _ s' => exiting s s' p (set_ofile (replicate NOFILE 0) q) h nobody) (not_exited p)).
      { intros l' Hl' Hj' sb Xb. apply (IH (S a) sb l'); auto. lia. }
      case_test; bool_to_prop.
      + apply wp_bind. eapply wp_mono; [by apply (wakes_exiting _ _ _ _ _ _ _ (fileclose_wakes _) Xa)| |done].
        intros [] sb Xb. eapply wp_mono; [by apply exiting_setp| |done].
        intros [] sc Xc. apply (Hstep (wr l (Z.of_nat a) 0)); [by rewrite length_wr| |exact Xc].
        intros j Hj'. destruct (decide (j = Z.of_nat a)) as [->|].
        * apply rd_wr_same. unfold NOFILE in *. lia.
        * rewrite rd_wr_other by lia. apply Hj. lia.
      + apply wp_ret. apply (Hstep l); auto. intros j Hj'. destruct (decide (j = Z.of_nat a)) as [->|]; [done|].
        apply Hj. lia. }
  apply (Hgen NOFILE O s (ofile q)); auto; [|lia]. by destruct q.
Qed.
Lemma wakeup_exiting c s s1 p q h adopt :
  exiting s s1 p q h adopt -> cproc s = Some p -> (forall i, LProc i ∉ h) ->
  wp (wakeup c) s1 (fun _ s2 => exiting s s2 p q h adopt) (not_exited p).
Proof.
  intros [A1 A2 A3 A4 A5 A6] Hp Hl. destruct (wakeup_spec c s1) as (s2 & E & Hj & Hs2).
  { intros i. by rewrite A6. }
  unfold wp. rewrite E. rewrite Hs2. constructor; simpl; auto.
  - rewrite Hj, decide_False; [done|]. intros [_ [Hn _]]. congruence.
  - intros j Hne. eapply reparented_woken; [by apply A2|]. rewrite Hj. case_decide as Hw; [|by left].
    right. split; [apply Hw|done].
Qed.

(** reparent gives every child of [p] to init. *)
Lemma reparent_spec s s1 p q :
  exiting s s1 p q [LWait] nobody -> cproc s = Some p -> parent q <> Some p ->
  wp (reparent p) s1 (fun _ s2 => exiting s s2 p q [LWait] everybody) (not_exited p).
Proof.
  intros X Hp Hq. unfold reparent.
  assert (Hgen : forall l sa adopt, NoDup l -> (forall j, j ∈ l -> adopt j = false) ->
     exiting s sa p q [LWait] adopt ->
     wp (for_each l (fun pp =>
       let! q := getp pp in
       when bool_decide (parent q = Some p) then
         let! init := get initproc in
         setp pp (set_parent init) ;;; wakeup (chan_of init))) sa
       (fun _ s2 => exiting s s2 p q [LWait] (fun j => adopt j || bool_decide (j ∈ l))) (not_exited p)).
  { induction l as [|i l IH]; intros sa adopt Hnd Had Xa; cbn [for_each].
    - apply wp_ret. destruct Xa as [A1 A2 A3 A4 A5 A6]. constructor; auto. intros j Hj.
      rewrite bool_decide_eq_false_2, orb_false_r by apply not_elem_of_nil. by apply A2.
    - inversion_clear Hnd as [|? ? Hi Hnd'].
      assert (Hrest : forall sb, exiting s sb p q [LWait] (fun j => adopt j || bool_decide (j = i)) ->
        wp (for_each l (fun pp =>
          let! q := getp pp in
          when bool_decide (parent q = Some p) then
            let! init := get initproc in
            setp pp (set_parent init) ;;; wakeup (chan_of init))) sb
          (fun _ s2 => exiting s s2 p q [LWait] (fun j => adopt j || bool_decide (j ∈ i :: l))) (not_exited p)).
      { intros sb Xb. eapply wp_mono; [eapply (IH sb _ Hnd'); [|exact Xb]| |done].
        - intros j Hj. cbv beta. rewrite Had by (by right). apply bool_decide_eq_false_2. by intros ->.
        - intros [] s2 [A1 A2 A3 A4 A5 A6]. constructor; auto. intros j Hj. specialize (A2 j Hj).
          rewrite <- orb_assoc in A2. replace (bool_decide (j ∈ i :: l)) with
            (bool_decide (j = i) || bool_decide (j ∈ l)); [done|].
          apply eq_true_iff_eq. rewrite orb_true_iff, !bool_decide_eq_true. by rewrite elem_of_cons. }
      apply wp_bind, wp_bind. unfold wp at 1, getp at 1, get at 1.
      destruct (decide (i = p)) as [->|Hip].
      + rewrite (ex_this _ _ _ _ _ _ Xa), bool_decide_eq_false_2 by done. apply wp_ret, Hrest.
        destruct Xa as [A1 A2 A3 A4 A5 A6]. constructor; auto. intros j Hj.
        rewrite (bool_decide_eq_false_2 (j = p)), orb_false_r by done. by apply A2.
      + destruct (ex_other _ _ _ _ _ _ Xa i Hip) as (w & Hw & Ew). rewrite Had in Ew by left.
        cbn [andb] in Ew. assert (Hpw : parent (procs sa i) = parent (procs s i)).
        { rewrite Ew. by apply woken_parent. }
        rewrite Hpw. case_bool_decide as Hpar.
        * apply wp_bind. unfold wp at 1, get. apply wp_bind. unfold wp at 1, setp, modify.
          eapply wp_mono; [eapply (wakeup_exiting _ s _ p q [LWait] (fun j => adopt j || bool_decide (j = i)));
            [|done|intros j; set_solver]| |done].
          2:{ intros [] sb Xb. by apply Hrest. }
          destruct Xa as [A1 A2 A3 A4 A5 A6]. constructor; auto; simpl.
          -- by rewrite upd_other.
          -- intros j Hj. unfold upd. case_decide as Hji.
             ++ subst j. exists w. split; [done|]. rewrite (bool_decide_eq_true_2 (i = i)) by done.
                rewrite (bool_decide_eq_true_2 (parent (procs s i) = Some p)) by done.
                rewrite orb_true_r. simpl. by rewrite Ew, A4.
             ++ rewrite (bool_decide_eq_false_2 (j = i)), orb_false_r by done. by apply A2.
        * apply wp_ret, Hrest. destruct Xa as [A1 A2 A3 A4 A5 A6]. constructor; auto. intros j Hj.
          destruct (decide (j = i)) as [->|Hji].
          -- exists w. split; [done|]. rewrite (bool_decide_eq_false_2 (parent _ = _)) by done.
             by rewrite andb_false_r.
          -- rewrite (bool_decide_eq_false_2 (j = i)), orb_false_r by done. by apply A2. }
  eapply wp_mono; [apply (Hgen all_procs s1 nobody); [apply NoDup_seq|done|exact X]| |done].
  intros [] s2 X2. exact X2.
Qed.
Lemma exiting_acquire s s1 p q h adopt l :
  exiting s s1 p q h adopt -> l ∉ h ->
  wp (lock_acquire l) s1 (fun _ s2 => exiting s s2 p q (l :: h) adopt) (not_exited p).
Proof.
  intros [A1 A2 A3 A4 A5 <-] Hl. unfold wp. rewrite lock_acquire_free by done. by constructor.
Qed.

Lemma exiting_release s s1 p q h adopt l :
  exiting s s1 p q h adopt -> l ∈ h ->
  wp (lock_release l) s1 (fun _ s2 => exiting s s2 p q (remove_one l h) adopt) (not_exited p).
Proof.
  intros [A1 A2 A3 A4 A5 <-] Hl. unfold wp, lock_release. rewrite bool_decide_eq_true_2 by done. by constructor.
Qed.

(** Run the next call of exit with lemma [t]. *)
Ltac ex_step t X :=
  apply wp_bind; eapply wp_mono; [t | | by left];
  let s2 := fresh "s" in let X2 := fresh "X" in
  intros ? s2 X2; cbn beta in X2; clear X; rename X2 into X.

(** The entry of a process that has exited. *)
Definition exited (status : Z) (q : proc) : proc :=
  set_context CtxExit (set_state ZOMBIE (set_xstate status (set_cwd 0 (set_ofile (replicate NOFILE 0) q)))).

Lemma exit_spec s p status :
  cproc s = Some p -> held s = [] -> state (procs s p) = RUNNING ->
  length (ofile (procs s p)) = NOFILE -> parent (procs s p) <> Some p -> initproc s <> Some p ->
  wp (exit status) s (fun _ _ => False)
     (fun s' => not_exited p s' \/ exiting s s' p (exited status (procs s p)) [LProc p] everybody).
Proof.
  intros Hp Hh Hrun Hlen Hpar Hinit. unfold exit, curproc, myproc. do 2 apply wp_bind. unfold wp at 1, get.
  rewrite Hp. apply wp_ret, wp_bind. unfold wp at 1, get. rewrite decide_False by congruence.
  assert (X : exiting s s p (procs s p) [] nobody).
  { constructor; try done. intros j Hj. exists (procs s j). by split; [left|]. }
  assert (Hr : forall q, state q = RUNNING -> state q <> SLEEPING) by (by intros q ->).
  ex_step ltac:(apply close_files_spec; eauto) X.
  ex_step ltac:(apply (wakes_exiting _ _ _ _ _ _ _ begin_op_wakes X Hp), Hr, Hrun) X.
  apply wp_bind. unfold wp at 1, getp at 1, get at 1. rewrite (ex_this _ _ _ _ _ _ X).
  ex_step ltac:(apply (wakes_exiting _ _ _ _ _ _ _ (iput_wakes _) X Hp), Hr, Hrun) X.
  ex_step ltac:(apply (wakes_exiting _ _ _ _ _ _ _ end_op_wakes X Hp), Hr, Hrun) X.
  ex_step ltac:(apply (exiting_setp _ _ _ _ _ _ _ X)) X.
  ex_step ltac:(apply (exiting_acquire _ _ _ _ _ _ _ X), not_elem_of_nil) X.
  ex_step ltac:(apply (reparent_spec _ _ _ _ X Hp), Hpar) X.
  apply wp_bind. unfold wp at 1, getp at 1, get at 1.
  ex_step ltac:(apply (wakeup_exiting _ _ _ _ _ _ _ X Hp); set_solver) X.
  ex_step ltac:(apply (exiting_acquire _ _ _ _ _ _ (LProc p) X); set_solver) X.
  ex_step ltac:(apply (exiting_setp _ _ _ _ _ _ _ X)) X.
  ex_step ltac:(apply (exiting_setp _ _ _ _ _ _ _ X)) X.
  ex_step ltac:(apply (exiting_release _ _ _ _ _ _ LWait X); set_solver) X.
  change (remove_one LWait [LProc p; LWait]) with [LProc p] in X.
  apply wp_bind. destruct X as [A1 A2 A3 A4 A5 A6]. unfold wp.
  rewrite (sched_run _ p); [|congruence|done|by rewrite A1]. right.
  constructor; auto; simpl.
  - by rewrite upd_same, A1.
  - intros j Hj. rewrite upd_other by done. by apply A2.
Qed.
End life.
