(* ===== verification/ProcInv.v ===== *)
(** The process table of
    [src/projects/project_3/changed_files/kernel/proc.c] under every sequence
    of process operations on one CPU: the operations as a step relation, and
    the invariant they keep. *)

From stdpp Require Import base list sets strings.
From S2P Require Import Prelude Memory KString Spinlock Kalloc Vm VmLocks Random Proc Lottery ProcTable ProcLife.

Section machine.
Context {F : Type} `{FileLaws F}.
Context (kend trampoline : Z) (xstate_addr : nat -> Z).
Implicit Types s : pst F.

(** ** Steps *)

(** A thread going on where its context says. *)
Definition resume_thread (p : nat) : M (pst F) unit :=
  let! q := getp p in
  match context q with
  | CtxForkret => forkret
  | CtxYield => yield_resume
  | CtxSleep lk => sleep_resume lk ;;; lock_release lk
  | CtxNone | CtxExit => panic "no thread"
  end.

(** One operation of the running process, of an interrupt, or of the
    scheduler.  An operation that ends in swtch is followed by the scheduler
    taking the CPU back. *)
Inductive kstep : pst F -> pst F -> Prop :=
| ks_idle s s' : cproc s = None -> scheduler_round s = Ret None s' -> kstep s s'
| ks_dispatch s p s1 s' :
    cproc s = None -> scheduler_round s = Ret (Some p) s1 -> resume_thread p s1 = Ret tt s' -> kstep s s'
| ks_fork s p r s' :
    cproc s = Some p -> nextpid s < 2 ^ 31 - 1 -> fork kend trampoline s = Ret r s' -> kstep s s'
| ks_exit s p status s1 s' :
    cproc s = Some p -> exit status s = Blocked s1 -> context (procs s1 p) = CtxExit ->
    scheduler_resume p s1 = Ret tt s' -> kstep s s'
| ks_wait s p addr v s' :
    cproc s = Some p -> wait kend xstate_addr addr s = Ret v s' -> kstep s s'
| ks_wait_sleep s p addr s1 s' :
    cproc s = Some p -> wait kend xstate_addr addr s = Blocked s1 ->
    scheduler_resume p s1 = Ret tt s' -> kstep s s'
| ks_sleep s p c lk s1 s' :
    cproc s = Some p -> (forall i, lk <> LProc i) ->
    (lock_acquire lk ;;; sleep c lk) s = Blocked s1 -> scheduler_resume p s1 = Ret tt s' -> kstep s s'
| ks_yield s p s1 s' :
    cproc s = Some p -> yield s = Blocked s1 -> scheduler_resume p s1 = Ret tt s' -> kstep s s'
| ks_wakeup s c s' : wakeup c s = Ret tt s' -> kstep s s'
| ks_kill s target r s' : kill target s = Ret r s' -> kstep s s'
| ks_settickets s p r s' : cproc s = Some p -> sys_settickets s = Ret r s' -> kstep s s'
| ks_growproc s p n r s' : cproc s = Some p -> growproc kend n s = Ret r s' -> kstep s s'.

(** ** The invariant *)

Definition live (q : proc) : Prop := state q <> UNUSED /\ state q <> ZOMBIE.

(** What an entry looks like when [n] is the next pid. *)
Record entry_ok (n : Z) (q : proc) : Prop := {
  eo_used : state q <> USED;
  eo_files : length (ofile q) = NOFILE;
  eo_closed : ~ live q -> ofile q = replicate NOFILE 0;
  eo_unused : state q = UNUSED -> pid q = 0 /\ parent q = None /\ tickets q = 0 /\
    ticks q = 0 /\ pchan q = CNull /\ pagetable q = 0 /\ trapframe q = 0 /\ sz q = 0;
  eo_pid : state q <> UNUSED -> 0 < pid q < n;
  eo_context : state q = RUNNABLE \/ state q = SLEEPING -> context q <> CtxNone /\ context q <> CtxExit
}.

Record pinv s : Prop := {
  pi_held : held s = [];
  pi_nextpid : 0 < nextpid s < 2 ^ 31;
  pi_entry : forall i, entry_ok (nextpid s) (procs s i);
  pi_bound : forall i, state (procs s i) <> UNUSED -> (i < NPROC)%nat;
  pi_running : forall i, state (procs s i) = RUNNING <-> cproc s = Some i;
  pi_unique : forall i j, state (procs s i) <> UNUSED -> pid (procs s i) = pid (procs s j) -> i = j;
  pi_init : exists i, initproc s = Some i /\ live (procs s i) /\ parent (procs s i) = None;
  pi_parent : forall i q, parent (procs s i) = Some q -> q <> i /\ live (procs s q);
  pi_child : forall i, state (procs s i) <> UNUSED -> initproc s = Some i \/ exists q, parent (procs s i) = Some q
}.

(** Same process, in a state that is neither freed nor exited by the change. *)
Record same_id (a b : proc) : Prop := {
  si_pid : pid b = pid a;
  si_parent : parent b = parent a;
  si_unused : state b = UNUSED <-> state a = UNUSED;
  si_zombie : state b = ZOMBIE <-> state a = ZOMBIE
}.

Lemma same_id_refl a : same_id a a.
Proof. done. Qed.

Lemma same_id_live a b : same_id a b -> live b <-> live a.
Proof. intros [_ _ H1 H2]. unfold live. by rewrite H1, H2. Qed.

(** An operation that keeps the identity of every process keeps the invariant. *)
Lemma pinv_same s s' :
  pinv s -> held s' = [] -> nextpid s' = nextpid s -> initproc s' = initproc s ->
  (forall i, same_id (procs s i) (procs s' i)) -> (forall i, entry_ok (nextpid s) (procs s' i)) ->
  (forall i, state (procs s' i) = RUNNING <-> cproc s' = Some i) -> pinv s'.
Proof.
  intros [P1 P2 P3 P4 P5 P6 P7 P8 P9] Hh Hn Hi Hid He Hrun. constructor; auto.
  - by rewrite Hn.
  - by rewrite Hn.
  - intros i Hs. apply P4. by rewrite <- (si_unused _ _ (Hid i)).
  - intros i j Hs. rewrite (si_pid _ _ (Hid i)), (si_pid _ _ (Hid j)). apply P6.
    by rewrite <- (si_unused _ _ (Hid i)).
  - destruct P7 as (i & ? & ? & ?). exists i. rewrite Hi. split_and!; auto.
    + by rewrite (same_id_live _ _ (Hid i)).
    + by rewrite (si_parent _ _ (Hid i)).
  - intros i q. rewrite (si_parent _ _ (Hid i)). intros Hp. apply P8 in Hp as [? ?].
    by rewrite (same_id_live _ _ (Hid q)).
  - intros i Hs. rewrite Hi, (si_parent _ _ (Hid i)). apply P9. by rewrite <- (si_unused _ _ (Hid i)).
Qed.

(** Changes of a live entry that matter to the invariant only through its
    state and context. *)
Lemma entry_ok_live n a b :
  entry_ok n a -> live a -> live b -> state b <> USED ->
  pid b = pid a -> ofile b = ofile a ->
  (state b = RUNNABLE \/ state b = SLEEPING -> context b <> CtxNone /\ context b <> CtxExit) -> entry_ok n b.
Proof.
  intros [E1 E2 E3 E4 E5 E6] La Lb Hu Hp Ho Hc.
  constructor; [done|by rewrite Ho|by intros []|by intros Hs; destruct Lb| |done].
  rewrite Hp. intros _. apply E5. apply La.
Qed.

Lemma live_same_id a b : live a -> live b -> pid b = pid a -> parent b = parent a -> same_id a b.
Proof. intros [? ?] [? ?] ? ?. constructor; auto; by split. Qed.

(** One live entry changed. *)
Lemma pinv_entry s s' i q :
  pinv s -> at_entry s s' i q [] (nextpid s) -> live (procs s i) -> live q -> state q <> USED ->
  pid q = pid (procs s i) -> parent q = parent (procs s i) -> ofile q = ofile (procs s i) ->
  (state q = RUNNABLE \/ state q = SLEEPING -> context q <> CtxNone /\ context q <> CtxExit) ->
  (state q = RUNNING <-> state (procs s i) = RUNNING) -> pinv s'.
Proof.
  intros P [A1 A2 A3 A4 A5 A6] La Lq Hu Hpid Hpar Hof Hc Hrun.
  apply (pinv_same s); auto.
  - intros j. destruct (decide (j = i)) as [->|]; [|by rewrite A2].
    rewrite A1. by apply live_same_id.
  - intros j. destruct (decide (j = i)) as [->|]; [|rewrite A2 by done; apply P].
    rewrite A1. apply (entry_ok_live _ (procs s i)); auto. apply P.
  - intros j. rewrite A5. rewrite <- (pi_running s P j). destruct (decide (j = i)) as [->|]; [|by rewrite A2].
    by rewrite A1.
Qed.

(** The running process leaves the CPU. *)
Lemma pinv_switch s s1 p q s' :
  pinv s -> cproc s = Some p -> at_entry s s1 p q [LProc p] (nextpid s) ->
  state q = RUNNABLE \/ state q = SLEEPING -> context q <> CtxNone -> context q <> CtxExit ->
  pid q = pid (procs s p) -> parent q = parent (procs s p) -> ofile q = ofile (procs s p) ->
  scheduler_resume p s1 = Ret tt s' -> pinv s'.
Proof.
  intros P Hp U Hq Hc1 Hc2 Hpid Hpar Hof E.
  destruct (scheduler_resume_spec _ _ _ _ _ U) as (s2 & E2 & A1 & A2 & A3 & A4 & A5 & A6).
  rewrite E in E2. injection E2 as <-.
  assert (Hrun : state (procs s p) = RUNNING) by (by apply (pi_running s P)).
  assert (Lp : live (procs s p)) by (unfold live; by rewrite Hrun).
  assert (Lq : live q) by (unfold live; destruct Hq as [-> | ->]; done).
  apply (pinv_same s); auto.
  - intros j. destruct (decide (j = p)) as [->|]; [|by rewrite A2].
    rewrite A1. by apply live_same_id.
  - intros j. destruct (decide (j = p)) as [->|]; [|rewrite A2 by done; apply P].
    rewrite A1. apply (entry_ok_live _ (procs s p)); auto; [apply P|by destruct Hq as [-> | ->]].
  - intros j. rewrite A5. split; [|done]. destruct (decide (j = p)) as [->|Hj].
    + rewrite A1. by destruct Hq as [-> | ->].
    + rewrite A2 by done. rewrite (pi_running s P j), Hp. congruence.
Qed.
(** ** One lemma per kind of step *)

Lemma total_loop_leaves l t s : no_proc_lock s -> exists t', total_loop l t s = Ret t' s.
Proof.
  intros Hn. revert t. induction l as [|i l IH]; intros t; cbn [total_loop]; [by exists t|].
  destruct (lock_pair (LProc i) s (Hn i)) as [Ha Hr]. rewrite (bind_ret_intro _ _ _ _ _ Ha).
  unfold bind at 1, getp, get. cbv zeta. rewrite (bind_ret_intro _ _ _ _ _ Hr). apply IH.
Qed.

Lemma pick_loop_cases l counted w s :
  no_proc_lock s ->
  pick_loop l counted w s = Ret None s \/
  exists i, i ∈ l /\ state (procs s i) = RUNNABLE /\ pick_loop l counted w s = Ret (Some i) (dispatched i s).
Proof.
  intros Hn. revert counted. induction l as [|i l IH]; intros counted; [by left|].
  rewrite pick_loop_cons by done. cbv zeta.
  assert (Hrest : forall c, pick_loop l c w s = Ret None s \/ exists j, j ∈ i :: l /\
            state (procs s j) = RUNNABLE /\ pick_loop l c w s = Ret (Some j) (dispatched j s)).
  { intros c. destruct (IH c) as [?|(j & ? & ? & ?)]; [by left|right]. exists j. split_and!; auto. by right. }
  case_decide; [case_test|]; auto. right. exists i. split_and!; auto. left.
Qed.

Lemma scheduler_round_cases s :
  no_proc_lock s ->
  exists r, scheduler_round s = Ret None (set_rng r s) \/
    exists i, (i < NPROC)%nat /\ state (procs s i) = RUNNABLE /\
      scheduler_round s = Ret (Some i) (dispatched i (set_rng r s)).
Proof.
  intros Hn. destruct (total_loop_leaves all_procs 0 s Hn) as [t Et].
  unfold scheduler_round, get_total_tickets. rewrite (bind_ret_intro _ _ _ _ _ Et).
  unfold bind, get, modify. destruct (scaled_random 1 t (rng s)) as [w r]. exists r.
  destruct (pick_loop_cases all_procs 0 w (set_rng r s) Hn) as [?|(i & Hi%elem_of_seq & ? & ?)]; [by left|right].
  exists i. split_and!; auto. lia.
Qed.

(** A dispatched thread gives up its own lock, and clears its channel when it
    had been asleep. *)
Lemma resume_thread_spec s p s' :
  cproc s = Some p -> held s = [LProc p] -> resume_thread p s = Ret tt s' ->
  exists c, at_entry s s' p (set_chan c (procs s p)) [] (nextpid s).
Proof.
  intros Hp Hh E. unfold resume_thread in E. pose proof (at_entry_start s p) as U. rewrite Hh in U. at_step.
  assert (Hrel : (let! p := curproc in lock_release (LProc p)) s = Ret tt s' ->
    exists c, at_entry s s' p (set_chan c (procs s p)) [] (nextpid s)).
  { intros E'. unfold curproc, myproc, bind, get in E'. rewrite Hp in E'. unfold ret in E'.
    apply (at_release_last _ _ _ _ _ _ _ _ U) in E'. rewrite remove_one_head in E' by apply not_elem_of_nil.
    exists (pchan (procs s p)). by destruct (procs s p). }
  destruct (context (procs s p)); try done; try (by apply Hrel).
  apply bind_ret_inv in E as ([] & s1 & E1 & E). unfold sleep_resume in E1.
  unfold curproc, myproc, bind at 1 2, get in E1. rewrite Hp in E1. unfold ret at 1 in E1.
  at_step. at_step. rewrite remove_one_head in U by apply not_elem_of_nil.
  apply lock_acquire_inv in E1 as [Hl ->]. rewrite (ae_held _ _ _ _ _ _ U) in *.
  assert (U' : at_entry s (set_held [lk] s2) p (set_chan CNull (procs s p)) [lk] (nextpid s)).
  { destruct U as [A1 A2 A3 A4 A5 A6]. by constructor. }
  apply (at_release_last _ _ _ _ _ _ _ _ U') in E. rewrite remove_one_head in E by apply not_elem_of_nil.
  by exists CNull.
Qed.

Lemma held_no_proc_lock s : held s = [] -> no_proc_lock s.
Proof. intros Hh i. rewrite Hh. apply not_elem_of_nil. Qed.

Lemma dispatch_inv s p s1 s' :
  pinv s -> cproc s = None -> scheduler_round s = Ret (Some p) s1 -> resume_thread p s1 = Ret tt s' -> pinv s'.
Proof.
  intros P Hc E1 E2. pose proof (pi_held s P) as Hh.
  destruct (scheduler_round_cases s (held_no_proc_lock s Hh)) as (r & [E|(i & Hi & Hrun & E)]);
    rewrite E1 in E; [done|]. injection E as <- ->.
  apply resume_thread_spec in E2 as (c & [A1 A2 A3 A4 A5 A6]); [|done|by rewrite <- Hh].
  rewrite dispatched_procs, decide_True in A1 by done.
  assert (Hoth : forall j, j <> p -> procs s' j = procs s j).
  { intros j Hj. rewrite A2 by done. rewrite dispatched_procs. by rewrite decide_False. }
  assert (Lp : live (procs s p)) by (unfold live; by rewrite Hrun).
  assert (Lp' : live (procs s' p)) by (unfold live; by rewrite A1).
  apply (pinv_same s); auto.
  - intros j. destruct (decide (j = p)) as [->|]; [|by rewrite Hoth].
    apply live_same_id; [exact Lp|exact Lp'|by rewrite A1|by rewrite A1].
  - intros j. destruct (decide (j = p)) as [->|]; [|rewrite Hoth by done; apply P].
    apply (entry_ok_live _ (procs s p)); [apply P|exact Lp|exact Lp'|..]; rewrite A1; try done. by intros [?|?].
  - intros j. rewrite A5. destruct (decide (j = p)) as [->|Hj]; [by rewrite A1|].
    rewrite Hoth by done. rewrite (pi_running s P j), Hc. split; [done|]. simpl. congruence.
Qed.

(** Entries that were woken, or marked as killed. *)
Definition stirred (a b : proc) : Prop :=
  exists k, b = set_killed k a \/ state a = SLEEPING /\ b = set_state RUNNABLE (set_killed k a).

Lemma pinv_stirred s s' :
  pinv s -> (forall j, stirred (procs s j) (procs s' j)) ->
  nextpid s' = nextpid s -> initproc s' = initproc s -> cproc s' = cproc s -> held s' = [] -> pinv s'.
Proof.
  intros P Hj Hn Hi Hc Hh. apply (pinv_same s); auto.
  - intros j. destruct (Hj j) as (k & [-> | [Hs ->]]); [done|].
    constructor; try done; simpl; rewrite Hs; done.
  - intros j. destruct (Hj j) as (k & [Ek | [Hs Ek]]).
    + rewrite Ek. destruct (pi_entry s P j) as [E1 E2 E3 E4 E5 E6]. constructor; try done.
    + rewrite Ek. apply (entry_ok_live _ (procs s j)); try done; [apply P|unfold live; by rewrite Hs|].
      intros _. apply (pi_entry s P j). by right.
  - intros j. rewrite Hc, <- (pi_running s P j). destruct (Hj j) as (k & [-> | [Hs ->]]); [done|].
    simpl. rewrite Hs. done.
Qed.

Lemma wakeup_inv s c s' : pinv s -> wakeup c s = Ret tt s' -> pinv s'.
Proof.
  intros P E. pose proof (pi_held s P) as Hh.
  destruct (wakeup_spec c s (held_no_proc_lock s Hh)) as (s2 & E2 & Hp & Hs).
  rewrite E in E2. injection E2 as <-. apply (pinv_stirred s); auto; rewrite Hs; try done.
  intros j. simpl. rewrite Hp. case_decide as Hw.
  - destruct Hw as (_ & _ & Hsl & _). exists (killed_ (procs s j)). right. split; [done|]. by destruct (procs s j).
  - exists (killed_ (procs s j)). left. by destruct (procs s j).
Qed.
(** kill marks the first entry with the given pid, and wakes it. *)
Definition kill_entry (q : proc) : proc :=
  let k := set_killed 1 q in if decide (state q = SLEEPING) then set_state RUNNABLE k else k.

Lemma kill_loop_spec l target s :
  no_proc_lock s ->
  exists r s', for_find l (fun p =>
    lock_acquire (LProc p) ;;;
    let! pp := getp p in
    if pid pp =? target then
      setp p (set_killed 1) ;;;
      (when bool_decide (state pp = SLEEPING) then setp p (set_state RUNNABLE)) ;;;
      lock_release (LProc p) ;;;
      ret (Some 0)
    else lock_release (LProc p) ;;; ret None) s = Ret r s' /\
  match r with
  | None => s' = s /\ forall i, i ∈ l -> pid (procs s i) <> target
  | Some v => v = 0 /\ exists i l1 l2, l = l1 ++ i :: l2 /\ pid (procs s i) = target /\
      (forall j, j ∈ l1 -> pid (procs s j) <> target) /\
      at_entry s s' i (kill_entry (procs s i)) (held s) (nextpid s)
  end.
Proof.
  intros Hn. induction l as [|i l (r & s' & IH & Hr)]; cbn [for_find].
  { exists None, s. split_and!; [done|done|]. by intros ? ?%elem_of_nil. }
  destruct (lock_pair (LProc i) s (Hn i)) as [Ha Hrel].
  destruct (pid (procs s i) =? target) eqn:Et; bool_to_prop.
  - pose (s1 := set_entry i (set_killed 1 (procs s i)) (set_held (LProc i :: held s) s)).
    pose (s2 := if decide (state (procs s i) = SLEEPING)
                then set_entry i (set_state RUNNABLE (procs s1 i)) s1 else s1).
    exists (Some 0), (set_held (held s) s2). split.
    + unfold bind at 1. rewrite (bind_ret_intro _ _ _ _ _ Ha). unfold bind at 1, getp at 1, get.
      change (procs (set_held _ s)) with (procs s). rewrite (proj2 (Z.eqb_eq _ _) Et).
      assert (E1 : setp i (set_killed 1) (set_held (LProc i :: held s) s) = Ret tt s1) by done.
      assert (E2 : (if bool_decide (state (procs s i) = SLEEPING) then setp i (set_state RUNNABLE) else ret tt)
                     s1 = Ret tt s2).
      { subst s2. rewrite bool_decide_decide. by case_decide. }
      rewrite (bind_ret_intro _ _ _ _ _ E1), (bind_ret_intro _ _ _ _ _ E2).
      unfold bind. rewrite (lock_release_top (LProc i) s2 (held s)); [done| |apply Hn].
      subst s2. by case_decide.
    + split; [done|]. exists i, [], l. split_and!; [done|done|by intros ? ?%elem_of_nil|].
      subst s2 s1. unfold kill_entry. constructor; case_decide; try done; simpl; rewrite ?upd_same; try done;
        intros j Hj; by rewrite !upd_other.
  - exists r, s'. split.
    + unfold bind at 1. rewrite (bind_ret_intro _ _ _ _ _ Ha). unfold bind at 1, getp at 1, get.
      change (procs (set_held _ s)) with (procs s). rewrite (proj2 (Z.eqb_neq _ _) Et).
      rewrite (bind_ret_intro _ _ _ _ _ Hrel). exact IH.
    + destruct r as [v|].
      * destruct Hr as (-> & j & l1 & l2 & -> & ? & ? & ?). split; [done|]. exists j, (i :: l1), l2.
        split_and!; auto. intros k [->|Hk]%elem_of_cons; auto.
      * destruct Hr as [-> Hr]. split; [done|]. intros j [->|Hj]%elem_of_cons; auto.
Qed.

Lemma kill_spec target s :
  no_proc_lock s ->
  exists r s', kill target s = Ret r s' /\
    (r = -1 /\ s' = s /\ (forall i, (i < NPROC)%nat -> pid (procs s i) <> target) \/
     r = 0 /\ exists i, (i < NPROC)%nat /\ pid (procs s i) = target /\
       (forall j, (j < i)%nat -> pid (procs s j) <> target) /\
       at_entry s s' i (kill_entry (procs s i)) (held s) (nextpid s)).
Proof.
  intros Hn. destruct (kill_loop_spec all_procs target s Hn) as (r & s' & E & Hr).
  unfold kill. rewrite (bind_ret_intro _ _ _ _ _ E). destruct r as [v|].
  - destruct Hr as (-> & i & l1 & l2 & [Hi Hl1]%seq_split & Ht & Hb & U). exists 0, s'. split; [done|]. right.
    split; [done|]. exists i. split_and!; auto. intros j Hj. apply Hb, Hl1. lia.
  - destruct Hr as [-> Hr]. exists (-1), s. split; [done|]. left. split_and!; auto.
    intros i Hi. apply Hr. apply elem_of_seq. lia.
Qed.

Lemma kill_inv s target r s' : pinv s -> kill target s = Ret r s' -> pinv s'.
Proof.
  intros P E. pose proof (pi_held s P) as Hh.
  destruct (kill_spec target s (held_no_proc_lock s Hh)) as (r' & s2 & E2 & Hk).
  rewrite E in E2. injection E2 as <- <-. destruct Hk as [(_ & -> & _)|(_ & i & _ & _ & _ & U)]; [done|].
  destruct U as [A1 A2 A3 A4 A5 A6]. apply (pinv_stirred s); auto; [|by rewrite A6].
  intros j. destruct (decide (j = i)) as [->|].
  - rewrite A1. unfold kill_entry. exists 1. case_decide; auto.
  - rewrite A2 by done. exists (killed_ (procs s j)). left. by destruct (procs s j).
Qed.

Lemma fork_inv s p r s' :
  pinv s -> cproc s = Some p -> nextpid s < 2 ^ 31 - 1 -> fork kend trampoline s = Ret r s' -> pinv s'.
Proof.
  intros P Hp Hn E. pose proof (pi_held s P) as Hh. pose proof (pi_nextpid s P) as Hnp.
  assert (Hrun : state (procs s p) = RUNNING) by (by apply (pi_running s P)).
  assert (Hz : forall i, state (procs s i) = UNUSED -> ofile (procs s i) = replicate NOFILE 0).
  { intros i Hi. apply (eo_closed _ _ (pi_entry s P i)). by intros [? _]. }
  assert (Hs32 : s32 (nextpid s + 1) = nextpid s + 1) by (apply s32_small; lia).
  assert (Hmono : forall q, entry_ok (nextpid s) q -> entry_ok (nextpid s + 1) q).
  { intros q [E1 E2 E3 E4 E5 E6]. constructor; auto. intros Hu. specialize (E5 Hu). lia. }
  apply (fork_spec kend trampoline s p) in E; auto; [|by rewrite Hrun|intros i; apply P].
  destruct E as [(_ & [->|(i & c & Hi & Hu & [A1 A2 A3 A4 A5 A6])])|(_ & np & tf & pt & (Hi & Hu & _) & [A1 A2 A3 A4 A5 A6])].
  - done.
  - (* the slot was cleared again *)
    assert (Hnl : ~ live (procs s i)) by (by intros [? _]).
    destruct P as [P1 P2 P3 P4 P5 P6 P7 P8 P9]. rewrite Hs32 in A3.
    assert (Hid : forall j, same_id (procs s j) (procs s' j)).
    { intros j. destruct (decide (j = i)) as [->|]; [|by rewrite A2]. rewrite A1.
      destruct (eo_unused _ _ (P3 i) Hu) as (Hp0 & Hpar & _). constructor; simpl; [by rewrite Hp0|by rewrite Hpar|done|].
      rewrite Hu. done. }
    apply (pinv_same (set_nextpid (nextpid s + 1) s)); auto.
    + constructor; auto; simpl; [lia|]. intros j. by apply Hmono.
    + intros j. destruct (decide (j = i)) as [->|]; [|rewrite A2 by done; simpl; auto]. rewrite A1. simpl.
      constructor; simpl; try done; [apply P3|by intros _; apply Hz|intros [?|?]; done].
    + intros j. rewrite A5, <- (P5 j). destruct (decide (j = i)) as [->|]; [|by rewrite A2]. rewrite A1, Hu. done.
  - (* a child *)
    rewrite Hs32 in A3. destruct P as [P1 P2 P3 P4 P5 P6 P7 P8 P9].
    assert (Hne : np <> p) by (intros ->; congruence).
    assert (Hlive : forall j, live (procs s j) -> live (procs s' j)).
    { intros j Hj. destruct (decide (j = np)) as [->|]; [by destruct Hj|by rewrite A2]. }
    constructor; auto; rewrite ?A3, ?A4, ?A5.
    + lia.
    + intros j. destruct (decide (j = np)) as [->|]; [|rewrite A2 by done; auto]. rewrite A1.
      constructor; simpl; try done; [apply P3|by intros []|lia].
    + intros j. destruct (decide (j = np)) as [->|]; [done|rewrite A2 by done; auto].
    + intros j. rewrite <- (P5 j). destruct (decide (j = np)) as [->|]; [|by rewrite A2]. by rewrite A1, Hu.
    + assert (Hpid : forall j, pid (procs s j) <> nextpid s).
      { intros j. destruct (decide (state (procs s j) = UNUSED)) as [Hj|Hj].
        - destruct (eo_unused _ _ (P3 j) Hj) as [-> _]. lia.
        - pose proof (eo_pid _ _ (P3 j) Hj). lia. }
      intros i j. destruct (decide (i = np)) as [->|Hi1], (decide (j = np)) as [->|Hj1]; rewrite ?A1, ?A2 by done; simpl; auto.
      * intros _ E. by destruct (Hpid j).
      * intros _ E. by destruct (Hpid i).
    + destruct P7 as (i & Hin & Li & Hpi). exists i. split_and!; auto.
      destruct (decide (i = np)) as [->|]; [by destruct Li|by rewrite A2].
    + intros i q. destruct (decide (i = np)) as [->|].
      * rewrite A1. simpl. intros [= <-]. split; [done|]. apply Hlive. unfold live. by rewrite Hrun.
      * rewrite A2 by done. intros Hq. destruct (P8 i q Hq). auto.
    + intros i Hi'. destruct (decide (i = np)) as [->|].
      * right. exists p. by rewrite A1.
      * rewrite A2 in * by done. auto.
Qed.
Lemma reparented_fields adopt p init a b :
  reparented adopt p init a b ->
  pid b = pid a /\ ofile b = ofile a /\ context b = context a /\
  (state b = state a \/ state a = SLEEPING /\ state b = RUNNABLE) /\
  parent b = if adopt && bool_decide (parent a = Some p) then init else parent a.
Proof.
  intros (w & [->|[Hs ->]] & ->); destruct (adopt && _); split_and!; auto.
Qed.

Lemma exit_inv s p status s1 s' :
  pinv s -> cproc s = Some p -> exit status s = Blocked s1 -> context (procs s1 p) = CtxExit ->
  scheduler_resume p s1 = Ret tt s' -> pinv s'.
Proof.
  intros P Hp E Hc Er. pose proof (pi_held s P) as Hh.
  assert (Hrun : state (procs s p) = RUNNING) by (by apply (pi_running s P)).
  destruct (decide (initproc s = Some p)) as [Hi|Hi].
  { unfold exit, curproc, myproc, bind, get, ret in E. rewrite Hp in E. rewrite decide_True in E by done. done. }
  assert (Hself : parent (procs s p) <> Some p) by (intros Hs; by destruct (pi_parent s P p p Hs)).
  destruct (wp_blocked _ _ _ _ _ (exit_spec s p status Hp Hh Hrun (eo_files _ _ (pi_entry s P p)) Hself Hi) E)
    as [Hx|X]; [done|]. destruct X as [X1 X2 X3 X4 X5 X6].
  unfold scheduler_resume, bind, modify in Er.
  rewrite (lock_release_top (LProc p) _ []) in Er; [|done|apply not_elem_of_nil].
  assert (s' = set_held [] (set_cproc None s1)) as -> by congruence. clear Er.
  destruct P as [P1 P2 P3 P4 P5 P6 P7 P8 P9].
  set (s2 := set_held [] (set_cproc None s1)). change (procs s1) with (procs s2) in *.
  assert (Hpid : forall j, pid (procs s2 j) = pid (procs s j)).
  { intros j. destruct (decide (j = p)) as [->|Hj]; [by rewrite X1|].
    by destruct (reparented_fields _ _ _ _ _ (X2 j Hj)). }
  assert (Hun : forall j, state (procs s2 j) = UNUSED <-> state (procs s j) = UNUSED).
  { intros j. destruct (decide (j = p)) as [->|Hj]; [rewrite X1, Hrun; done|].
    destruct (reparented_fields _ _ _ _ _ (X2 j Hj)) as (_ & _ & _ & [->|[-> ->]] & _); done. }
  assert (Hlive : forall j, j <> p -> live (procs s j) -> live (procs s2 j)).
  { intros j Hj [H1 H2]. destruct (reparented_fields _ _ _ _ _ (X2 j Hj)) as (_ & _ & _ & Hst & _). unfold live.
    destruct Hst as [->|[_ ->]]; done. }
  assert (Hpar : forall j, parent (procs s2 j) =
     if decide (parent (procs s j) = Some p) then initproc s else parent (procs s j)).
  { intros j. destruct (decide (j = p)) as [->|Hj]; [by rewrite X1, decide_False|].
    destruct (reparented_fields _ _ _ _ _ (X2 j Hj)) as (_ & _ & _ & _ & ->). case_decide as Hd.
    - rewrite (bool_decide_eq_true_2 (parent _ = _)) by done. unfold everybody.
      rewrite bool_decide_eq_true_2; [done|]. apply elem_of_seq. split; [lia|]. apply P4. intros Hu.
      destruct (eo_unused _ _ (P3 j) Hu) as (_ & Hn & _). congruence.
    - rewrite (bool_decide_eq_false_2 (parent _ = _)) by done. by rewrite andb_false_r. }
  destruct P7 as (i0 & Hi0 & Li0 & Hpi0). assert (Hne0 : i0 <> p) by congruence.
  constructor; try done.
  - simpl. by rewrite X3.
  - intros j. change (nextpid s2) with (nextpid s1). rewrite X3. destruct (decide (j = p)) as [->|Hj].
    + rewrite X1. constructor; simpl; try done; [|by intros [?|?]]. intros _. apply P3. by rewrite Hrun.
    + destruct (reparented_fields _ _ _ _ _ (X2 j Hj)) as (F1 & F2 & F3 & F4 & F5).
      destruct (P3 j) as [E1 E2 E3 E4 E5 E6]. destruct F4 as [F4|[F4 F4']].
      * destruct (X2 j Hj) as (w & [->|[Hs _]] & Ew).
        -- destruct (decide (state (procs s j) = UNUSED)) as [Hu|Hu].
           ++ destruct (E4 Hu) as (_ & Hn & _). rewrite Ew, Hn, bool_decide_eq_false_2, andb_false_r by done. done.
           ++ constructor; unfold live; rewrite ?F1, ?F2, ?F3, ?F4; auto. by intros ?.
        -- constructor; unfold live; rewrite ?F1, ?F2, ?F3, ?F4; auto. rewrite Hs. done.
      * apply (entry_ok_live _ (procs s j)); auto; unfold live; rewrite ?F4, ?F4'; try done.
        intros _. rewrite F3. apply E6. by right.
  - intros j Hj. apply P4. by rewrite <- Hun.
  - intros j. split; [|done]. destruct (decide (j = p)) as [->|Hj]; [by rewrite X1|].
    destruct (reparented_fields _ _ _ _ _ (X2 j Hj)) as (_ & _ & _ & [->|[_ ->]] & _); [|done].
    rewrite (P5 j), Hp. congruence.
  - intros i j Hs. rewrite !Hpid. apply P6. by rewrite <- Hun.
  - exists i0. split_and!; [simpl; congruence|by apply Hlive|]. rewrite Hpar, Hpi0. by rewrite decide_False.
  - intros i q. rewrite Hpar. case_decide as Hd.
    + rewrite Hi0. intros [= <-]. split; [|by apply Hlive]. intros ->. congruence.
    + intros Hq. destruct (P8 i q Hq) as [? ?]. split; [done|]. apply Hlive; [|done]. intros ->. done.
  - intros i Hs. rewrite Hpar. change (initproc s2) with (initproc s1). rewrite X4. case_decide as Hd; [right; by exists i0|].
    apply P9. by rewrite <- Hun.
Qed.

(** A zombie is freed. *)
Lemma reap_inv s p i v s' : pinv s -> cproc s = Some p -> reaps s p i v s' -> pinv s'.
Proof.
  intros P Hp (Hpar & Hz & _ & [A1 A2 A3 A4 A5 A6]).
  destruct P as [P1 P2 P3 P4 P5 P6 P7 P8 P9].
  assert (Hlive : forall j, live (procs s j) -> live (procs s' j)).
  { intros j Hj. destruct (decide (j = i)) as [->|]; [by destruct Hj|by rewrite A2]. }
  assert (Hid : forall j, state (procs s' j) <> UNUSED -> procs s' j = procs s j).
  { intros j Hj. destruct (decide (j = i)) as [->|]; [by rewrite A1 in Hj|by rewrite A2]. }
  constructor; auto; rewrite ?A3, ?A4, ?A5; try done.
  - intros j. destruct (decide (j = i)) as [->|]; [|by rewrite A2]. rewrite A1.
    constructor; simpl; try done; [apply P3| |by intros [?|?]]. intros _. apply P3. by intros [? ?].
  - intros j Hj. apply P4. by rewrite <- Hid.
  - intros j. rewrite <- (P5 j). destruct (decide (j = i)) as [->|]; [|by rewrite A2]. by rewrite A1, Hz.
  - intros a b Ha. rewrite (Hid a) by done. destruct (decide (b = i)) as [->|].
    + rewrite A1. simpl. intros Hpid. rewrite Hid in Ha by done. pose proof (eo_pid _ _ (P3 a) Ha). lia.
    + rewrite A2 by done. apply P6. by rewrite <- Hid.
  - destruct P7 as (k & ? & Lk & ?). exists k. split_and!; auto.
    destruct (decide (k = i)) as [->|]; [by destruct Lk|by rewrite A2].
  - intros a q. destruct (decide (a = i)) as [->|]; [by rewrite A1|]. rewrite A2 by done. intros Hq.
    destruct (P8 a q Hq). auto.
  - intros a Ha. rewrite (Hid a) by done. apply P9. by rewrite <- Hid.
Qed.

Lemma pinv_untouched s s' :
  pinv s -> (forall j, procs s' j = procs s j) -> nextpid s' = nextpid s -> initproc s' = initproc s ->
  cproc s' = cproc s -> held s' = [] -> pinv s'.
Proof.
  intros P Hj Hn Hi Hc Hh. apply (pinv_same s); auto; intros j; rewrite Hj; [done|apply P|].
  rewrite Hc. apply P.
Qed.

Lemma wait_entry s p addr :
  pinv s -> cproc s = Some p ->
  wait kend xstate_addr addr s = wait_turn kend xstate_addr p addr (set_held [LWait] s).
Proof.
  intros P Hp. unfold wait, curproc, myproc. unfold bind at 1 2, get, ret at 1. rewrite Hp.
  rewrite (bind_ret_intro _ _ _ _ _ (lock_acquire_free LWait s ltac:(rewrite (pi_held s P); apply not_elem_of_nil))).
  by rewrite (pi_held s P).
Qed.

Lemma wait_inv s p addr v s' :
  pinv s -> cproc s = Some p -> wait kend xstate_addr addr s = Ret v s' -> pinv s'.
Proof.
  intros P Hp E. rewrite (wait_entry s p) in E by done.
  pose proof (wait_turn_spec kend xstate_addr p addr (set_held [LWait] s) eq_refl Hp) as Hw. rewrite E in Hw.
  destruct Hw as [(_ & _ & ? & ? & ? & ? & ?)|(i & _ & Hpar & Hz & Hv & U)].
  - by apply (pinv_untouched s).
  - apply (reap_inv s p i v); auto. split_and!; auto. destruct U. by constructor.
Qed.

Lemma wait_sleep_inv s p addr s1 s' :
  pinv s -> cproc s = Some p -> wait kend xstate_addr addr s = Blocked s1 ->
  scheduler_resume p s1 = Ret tt s' -> pinv s'.
Proof.
  intros P Hp E Er. rewrite (wait_entry s p) in E by done.
  pose proof (wait_turn_spec kend xstate_addr p addr (set_held [LWait] s) eq_refl Hp) as Hw. rewrite E in Hw.
  destruct Hw as (_ & U). apply (pinv_switch s s1 p (asleep (CProc p) LWait (procs s p))); auto; try done.
  destruct U. by constructor.
Qed.

Lemma sleep_inv s p c lk s1 s' :
  pinv s -> cproc s = Some p -> (forall i, lk <> LProc i) ->
  (lock_acquire lk ;;; sleep c lk) s = Blocked s1 -> scheduler_resume p s1 = Ret tt s' -> pinv s'.
Proof.
  intros P Hp Hlk E Er.
  rewrite (bind_ret_intro _ _ _ _ _ (lock_acquire_free lk s ltac:(rewrite (pi_held s P); apply not_elem_of_nil))) in E.
  rewrite (pi_held s P) in E.
  destruct (sleep_spec (set_held [lk] s) p c lk) as (s2 & E2 & U); [exact Hp|done|apply Hlk|].
  rewrite E in E2. injection E2 as <-.
  apply (pinv_switch s s1 p (asleep c lk (procs s p))); auto; try done.
  destruct U. by constructor.
Qed.

Lemma yield_inv s p s1 s' :
  pinv s -> cproc s = Some p -> yield s = Blocked s1 -> scheduler_resume p s1 = Ret tt s' -> pinv s'.
Proof.
  intros P Hp E Er. destruct (yield_spec s p Hp (pi_held s P)) as (s2 & E2 & U).
  rewrite E in E2. injection E2 as <-.
  apply (pinv_switch s s1 p (set_context CtxYield (set_state RUNNABLE (procs s p)))); auto; done.
Qed.
Lemma argraw_leaves n : leaves (F := F) (argraw n).
Proof.
  unfold argraw. apply leaves_bind; [|intros p; apply leaves_bind; [done|intros q; by case_test]].
  unfold curproc. apply leaves_bind; [done|]. by intros [p|].
Qed.

(** An operation on the entry of the running process. *)
Lemma own_entry_inv s p s' q :
  pinv s -> cproc s = Some p -> at_entry s s' p q [] (nextpid s) ->
  state q = RUNNING -> pid q = pid (procs s p) -> parent q = parent (procs s p) ->
  ofile q = ofile (procs s p) -> pinv s'.
Proof.
  intros P Hp U Hq Hpid Hpar Hof. assert (Hrun : state (procs s p) = RUNNING) by (by apply (pi_running s P)).
  apply (pinv_entry s s' p q); auto; unfold live; rewrite ?Hq, ?Hrun; try done. by intros [?|?].
Qed.

Lemma settickets_inv s p r s' : pinv s -> cproc s = Some p -> sys_settickets s = Ret r s' -> pinv s'.
Proof.
  intros P Hp E. pose proof (pi_held s P) as Hh.
  assert (Hrun : state (procs s p) = RUNNING) by (by apply (pi_running s P)).
  unfold sys_settickets in E. unfold curproc, myproc, bind at 1 2, get, ret at 1 in E. rewrite Hp in E.
  pose proof (at_entry_start s p) as U. rewrite Hh in U.
  apply (at_leaves _ _ _ _ _ _ _ _ _ _ U) in E as (n & s1 & U1 & _ & E);
    [|apply leaves_bind; [apply argraw_leaves|done]].
  clear U. do 3 at_step. rewrite remove_one_head in U1 by apply not_elem_of_nil. at_step.
  eapply own_entry_inv; eauto.
Qed.

Lemma growproc_inv s p n r s' : pinv s -> cproc s = Some p -> growproc kend n s = Ret r s' -> pinv s'.
Proof.
  intros P Hp E. pose proof (pi_held s P) as Hh.
  assert (Hrun : state (procs s p) = RUNNING) by (by apply (pi_running s P)).
  unfold growproc in E. unfold curproc, myproc, bind at 1 2, get, ret at 1 in E. rewrite Hp in E.
  pose proof (at_entry_start s p) as U. rewrite Hh in U. at_step.
  assert (Hset : forall v sa, at_entry s sa p (procs s p) [] (nextpid s) ->
     (setp p (set_sz v) ;;; ret 0) sa = Ret r s' -> pinv s').
  { clear E U. intros v sa U E. do 2 at_step. eapply own_entry_inv; eauto. }
  case_test_in E; [|case_test_in E; [|by eapply (Hset _ s)]].
  - apply (at_leaves _ _ _ _ _ _ _ _ _ _ U) in E as (v & s1 & U1 & _ & E);
      [|apply leaves_liftk; eauto with keeps].
    case_test_in E; [|by apply (Hset v s1)]. clear U. at_step.
    eapply own_entry_inv; eauto.
  - apply (at_leaves _ _ _ _ _ _ _ _ _ _ U) in E as (v & s1 & U1 & _ & E);
      [|apply leaves_liftk; eauto with keeps]. by apply (Hset v s1).
Qed.

Lemma idle_inv s s' : pinv s -> cproc s = None -> scheduler_round s = Ret None s' -> pinv s'.
Proof.
  intros P Hc E. destruct (scheduler_round_cases s (held_no_proc_lock s (pi_held s P)))
    as (r & [E'|(i & _ & _ & E')]); rewrite E in E'; [|done]. injection E' as ->.
  apply (pinv_untouched s); try done. apply P.
Qed.

Lemma kstep_inv s s' : pinv s -> kstep s s' -> pinv s'.
Proof.
  intros P Hs. destruct Hs;
    [ eapply idle_inv | eapply dispatch_inv | eapply fork_inv | eapply exit_inv | eapply wait_inv
    | eapply wait_sleep_inv | eapply sleep_inv | eapply yield_inv | eapply wakeup_inv | eapply kill_inv
    | eapply settickets_inv | eapply growproc_inv ]; eauto.
Qed.
(** ** Properties *)

(** C3: the process table stays well formed under every sequence of forks,
    exits, waits, sleeps, wakeups, kills, yields, ticket and memory changes and
    scheduling decisions: the CPU's current process is exactly the one RUNNING
    entry, pids of used entries are positive, below nextpid and distinct, every
    process but init has a parent, every parent is a process that has not
    exited, freed entries carry nothing over, and no lock stays held. *)
Theorem proc_table_invariant s0 s :
  pinv s0 -> steps kstep s0 s ->
  held s = [] /\
  (forall i, state (procs s i) = RUNNING <-> cproc s = Some i) /\
  (forall i, state (procs s i) <> UNUSED -> 0 < pid (procs s i) < nextpid s) /\
  (forall i j, state (procs s i) <> UNUSED -> pid (procs s i) = pid (procs s j) -> i = j) /\
  (forall i, state (procs s i) <> UNUSED -> initproc s <> Some i ->
     exists q, parent (procs s i) = Some q /\ q <> i /\ live (procs s q)) /\
  (forall i, state (procs s i) = UNUSED -> pid (procs s i) = 0 /\ parent (procs s i) = None /\
     tickets (procs s i) = 0 /\ pagetable (procs s i) = 0 /\ trapframe (procs s i) = 0 /\
     ofile (procs s i) = replicate NOFILE 0) /\
  pinv s.
Proof.
  intros P0 Hs. assert (P : pinv s) by (eapply steps_invariant; eauto using kstep_inv).
  split_and!; try apply P.
  - intros i Hi Hinit. destruct (pi_child s P i Hi) as [|[q Hq]]; [done|]. exists q. split; [done|].
    by apply (pi_parent s P).
  - intros i Hi. destruct (eo_unused _ _ (pi_entry s P i) Hi) as (? & ? & ? & _ & _ & ? & ? & _).
    split_and!; auto. apply (eo_closed _ _ (pi_entry s P i)). by intros [? _].
Qed.

(** wakeup returns without sleeping, makes RUNNABLE exactly the processes,
    other than the caller, that sleep on the given channel, and changes nothing
    else: no sleeper on the channel is missed and no other process disturbed. *)
Theorem wakeup_exact s c :
  no_proc_lock s ->
  exists s', wakeup c s = Ret tt s' /\ s' = set_procs (procs s') s /\
    forall i, (i < NPROC)%nat ->
      procs s' i = if decide (Some i <> cproc s /\ state (procs s i) = SLEEPING /\ pchan (procs s i) = c)
                   then set_state RUNNABLE (procs s i) else procs s i.
Proof.
  clear kend trampoline xstate_addr H0 H. intros Hn.
  destruct (wakeup_spec c s Hn) as (s' & E & Hp & Hs). exists s'. split_and!; [done|done|].
  intros i Hi. rewrite Hp. unfold wakes_up. repeat case_decide; naive_solver.
Qed.



(** C36: kill does not check that the entry it matches is in use.  Free entries
    have pid 0, so kill(0) reports success, marks the first free entry as
    killed, and the next child fork puts there is born killed. *)
Theorem kill_zero_marks_next_child s p i :
  pinv s -> cproc s = Some p -> first_unused s i ->
  exists s1, kill 0 s = Ret 0 s1 /\ state (procs s1 i) = UNUSED /\ killed_ (procs s1 i) = 1 /\
    forall r s2, fork kend trampoline s1 = Ret r s2 -> r <> -1 ->
      state (procs s2 i) = RUNNABLE /\ pid (procs s2 i) = r /\ killed_ (procs s2 i) = 1.
Proof.
  intros P Hp (Hi & Hu & Hfirst). pose proof (pi_held s P) as Hh.
  destruct (kill_spec 0 s (held_no_proc_lock s Hh)) as (r & s1 & E & Hk).
  assert (Hpid0 : forall j, pid (procs s j) = 0 <-> state (procs s j) = UNUSED).
  { intros j. split; [|intros Hj; by destruct (eo_unused _ _ (pi_entry s P j) Hj)].
    intros Hj. destruct (decide (state (procs s j) = UNUSED)) as [|Hn]; [done|].
    pose proof (eo_pid _ _ (pi_entry s P j) Hn). lia. }
  destruct Hk as [(_ & _ & Hno)|(-> & j & Hj & Hjp & Hbef & [A1 A2 A3 A4 A5 A6])].
  { destruct (Hno i Hi). by apply Hpid0. }
  assert (j = i) as ->.
  { apply Hpid0 in Hjp. destruct (decide (j < i)%nat) as [Hlt|]; [by destruct (Hfirst j Hlt)|].
    destruct (decide (i < j)%nat) as [Hlt|]; [|lia]. destruct (Hbef i Hlt). by apply Hpid0. }
  assert (Hki : procs s1 i = set_killed 1 (procs s i)).
  { rewrite A1. unfold kill_entry. by rewrite Hu, decide_False. }
  assert (P1 : pinv s1) by (by eapply kill_inv).
  exists s1. rewrite Hki. split_and!; auto. intros r s2 Ef Hr.
  assert (Hp1 : cproc s1 = Some p) by congruence.
  assert (Hrun1 : state (procs s1 p) = RUNNING) by (by apply (pi_running s1 P1)).
  apply (fork_spec kend trampoline s1 p) in Ef; auto; [|apply P1|by rewrite Hrun1|intros k; apply P1|
    intros k Hk; apply (eo_closed _ _ (pi_entry s1 P1 k)); by intros [? _]].
  destruct Ef as [[? _]|(-> & np & tf & pt & (Hn & Hun & Hfn) & [B1 B2 B3 B4 B5 B6])]; [done|].
  assert (Hsame : forall k, state (procs s1 k) = UNUSED <-> state (procs s k) = UNUSED).
  { intros k. destruct (decide (k = i)) as [->|]; [by rewrite Hki|by rewrite A2]. }
  assert (np = i) as ->.
  { destruct (decide (np < i)%nat) as [Hlt|]; [destruct (Hfirst np Hlt); by apply Hsame|].
    destruct (decide (i < np)%nat) as [Hlt|]; [|lia]. destruct (Hfn i Hlt). by apply Hsame. }
  rewrite B1. split_and!; [done|done|]. simpl. by rewrite Hki.
Qed.
End machine.

(** ** Concrete tables *)

Module ProcExample.

(** A file system whose calls do nothing. *)
#[global] Instance no_files : FileLayer unit := {
  filedup := fun f => ret f; fileclose := fun _ => ret tt; idup := fun ip => ret ip;
  begin_op := ret tt; iput := fun _ => ret tt; end_op := ret tt; namei_root := ret 1 }.

Lemma only_woken_refl (s : pst unit) : only_woken s s.
Proof. constructor; auto. intros j. by left. Qed.

#[global] Instance no_files_laws : FileLaws unit.
Proof.
  constructor; simpl; try done; intros; try (by intros s; apply only_woken_refl).
  all: unfold ret in *; congruence.
Qed.

(** Process 0 is init; process 1, its child, is running, and process 2 is a
    child of 1 that has exited. *)
Definition init_entry : proc :=
  set_context CtxForkret (set_state RUNNABLE (set_tickets 1 (set_pid 1 proc0))).
Definition shell_entry : proc :=
  set_context CtxForkret (set_parent (Some 0%nat) (set_state RUNNING (set_tickets 3 (set_pid 2 proc0)))).
Definition done_entry : proc :=
  set_context CtxExit (set_parent (Some 1%nat) (set_state ZOMBIE (set_tickets 1 (set_pid 3 proc0)))).

Definition entries (i : nat) : proc :=
  match i with 0 => init_entry | 1 => shell_entry | 2 => done_entry | _ => proc0 end%nat.

(** No free page, so memory requests fail. *)
Definition sample : pst unit :=
  MkP (MkK (fun _ => 0) 0 []) entries 4 (Some 0%nat) (Some 1%nat) rand0 0 tt.

Lemma sample_entry i : procs sample i = init_entry /\ i = 0%nat \/ procs sample i = shell_entry /\ i = 1%nat \/
  procs sample i = done_entry /\ i = 2%nat \/ procs sample i = proc0.
Proof. destruct i as [|[|[|i]]]; simpl; auto. Qed.

Lemma sample_inv : pinv sample.
Proof.
  constructor.
  - done.
  - simpl. lia.
  - intros i. destruct (sample_entry i) as [[-> _]|[[-> _]|[[-> _]| ->]]]; constructor; simpl; try done;
      try lia; try (by intros []); by intros [?|?].
  - intros i. unfold NPROC. destruct (sample_entry i) as [[_ ->]|[[_ ->]|[[_ ->]| ->]]]; try lia. done.
  - intros i. destruct (sample_entry i) as [[-> ->]|[[-> ->]|[[-> ->]|E]]]; try done.
    rewrite E. split; [done|]. simpl. intros [= <-]. done.
  - intros i j. destruct (sample_entry i) as [[-> ->]|[[-> ->]|[[-> ->]| ->]]]; [..|done];
      destruct (sample_entry j) as [[-> ->]|[[-> ->]|[[-> ->]| ->]]]; done.
  - exists 0%nat. split_and!; done.
  - intros i q. destruct (sample_entry i) as [[-> ->]|[[-> ->]|[[-> ->]| ->]]]; try done; simpl;
      intros [= <-]; (split; [done|]); split; done.
  - intros i. destruct (sample_entry i) as [[-> ->]|[[-> ->]|[[-> ->]| ->]]]; [|right|right|done].
    + left. done.
    + by exists 0%nat.
    + by exists 1%nat.
Qed.
End ProcExample.

Lemma proc_table_invariant_witness :
  exists s, wakeup CTicks ProcExample.sample = Ret tt s /\ held s = [] /\
    forall i, state (procs s i) = RUNNING <-> cproc s = Some i.
Proof.
  destruct (wakeup_spec CTicks ProcExample.sample (held_no_proc_lock ProcExample.sample eq_refl)) as (s & E & _).
  exists s. split; [exact E|].
  destruct (proc_table_invariant KERNBASE 0 (fun _ => 0) ProcExample.sample s ProcExample.sample_inv
    (steps_trans _ _ _ _ (steps_refl _ _) (ks_wakeup KERNBASE 0 (fun _ => 0) _ CTicks s E))) as (H1 & H2 & _).
  split; [exact H1|exact H2].
Defined.

Lemma wakeup_exact_witness :
  exists s', wakeup CTicks ProcExample.sample = Ret tt s' /\ procs s' 0%nat = ProcExample.init_entry.
Proof.
  destruct (wakeup_exact ProcExample.sample CTicks (held_no_proc_lock ProcExample.sample eq_refl)) as (s' & E & _ & H).
  exists s'. split; [exact E|]. rewrite (H 0%nat); [reflexivity|unfold NPROC; lia].
Defined.



Lemma kill_zero_marks_next_child_witness :
  exists s1, kill 0 ProcExample.sample = Ret 0 s1 /\ killed_ (procs s1 3%nat) = 1.
Proof.
  assert (Hf : first_unused ProcExample.sample 3).
  { split; [unfold NPROC; lia|]. split; [reflexivity|]. intros j Hj.
    destruct j as [|[|[|j]]]; [discriminate..|lia]. }
  destruct (kill_zero_marks_next_child KERNBASE 0 ProcExample.sample 1 3 ProcExample.sample_inv eq_refl Hf)
    as (s1 & E & _ & Hk & _).
  exists s1. split; [exact E|exact Hk].
Defined.
