(* ===== verification/SleepWakeup.v ===== *)
(** sleep and wakeup, [src/projects/project_3/changed_files/kernel/proc.c], with
    the CPUs interleaved at every lock operation.

    The threads share a condition guarded by the lock [lk].  A thread that
    needs the condition runs [acquire(lk); while(!cond) sleep(chan, lk); ...;
    release(lk)], a thread that makes it true runs [acquire(lk); cond = 1;
    wakeup(chan); release(lk)], as pipe.c, log.c, sleeplock.c and the clock
    interrupt do.  Each program point below is one place where another CPU may
    run; acquire is enabled only when the lock is free (mutual exclusion is
    [spinlock_mutual_exclusion]). *)

From stdpp Require Import base list.
From S2P Require Import Prelude.

(** Program points; the comment is the code about to run. *)
Inductive point :=
| Idle
| Want            (* acquire(lk) *)
| Test            (* while(!cond) *)
| SlpLock         (* sleep: acquire(&p->lock) *)
| SlpUnlock       (* sleep: release(lk) *)
| SlpMark         (* sleep: p->chan = chan; p->state = SLEEPING *)
| SlpSwitch       (* sleep: sched(); the scheduler's release(&p->lock) *)
| SlpOff          (* not running; scheduler: acquire(&p->lock), state == RUNNABLE *)
| SlpBack         (* sleep: p->chan = 0; release(&p->lock) *)
| SlpRelock       (* sleep: acquire(lk) *)
| Leave           (* release(lk) *)
| WkWant          (* acquire(lk) *)
| WkSet           (* cond = 1 *)
| WkNext (k : nat)   (* wakeup: k < NPROC ? acquire(&proc[k].lock) : return *)
| WkTest (k : nat).  (* wakeup: if SLEEPING on chan then RUNNABLE; release(&proc[k].lock) *)

(** [lk] and [pl i] are the owners of the locks; [asleep i] says that p->state
    is SLEEPING with p->chan the channel. *)
Record sw := MkSw {
  cond : bool; lk : option nat; pl : nat -> option nat; asleep : nat -> bool; pc : nat -> point }.

Section protocol.
Context (nproc : nat).

Definition goto (i : nat) (l : point) (s : sw) : sw :=
  MkSw (cond s) (lk s) (pl s) (asleep s) (upd (pc s) i l).
Definition with_lk (o : option nat) (s : sw) : sw := MkSw (cond s) o (pl s) (asleep s) (pc s).
Definition with_pl (i : nat) (o : option nat) (s : sw) : sw := MkSw (cond s) (lk s) (upd (pl s) i o) (asleep s) (pc s).
Definition with_cond (b : bool) (s : sw) : sw := MkSw b (lk s) (pl s) (asleep s) (pc s).
Definition with_asleep (i : nat) (b : bool) (s : sw) : sw := MkSw (cond s) (lk s) (pl s) (upd (asleep s) i b) (pc s).

(** One step of process [i]. *)
Inductive sw_step : sw -> sw -> Prop :=
| sw_start s i : pc s i = Idle -> sw_step s (goto i Want s)
| sw_want s i : pc s i = Want -> lk s = None -> sw_step s (goto i Test (with_lk (Some i) s))
| sw_test_ok s i b : pc s i = Test -> cond s = true -> sw_step s (goto i Leave (with_cond b s))
| sw_test_wait s i : pc s i = Test -> cond s = false -> sw_step s (goto i SlpLock s)
| sw_slp_lock s i : pc s i = SlpLock -> pl s i = None -> sw_step s (goto i SlpUnlock (with_pl i (Some i) s))
| sw_slp_unlock s i : pc s i = SlpUnlock -> sw_step s (goto i SlpMark (with_lk None s))
| sw_slp_mark s i : pc s i = SlpMark -> sw_step s (goto i SlpSwitch (with_asleep i true s))
| sw_slp_switch s i : pc s i = SlpSwitch -> sw_step s (goto i SlpOff (with_pl i None s))
| sw_dispatch s i : pc s i = SlpOff -> asleep s i = false -> pl s i = None ->
    sw_step s (goto i SlpBack (with_pl i (Some i) s))
| sw_slp_back s i : pc s i = SlpBack -> sw_step s (goto i SlpRelock (with_pl i None s))
| sw_slp_relock s i : pc s i = SlpRelock -> lk s = None -> sw_step s (goto i Test (with_lk (Some i) s))
| sw_leave s i : pc s i = Leave -> sw_step s (goto i Idle (with_lk None s))
| sw_wk_start s i : pc s i = Idle -> sw_step s (goto i WkWant s)
| sw_wk_want s i : pc s i = WkWant -> lk s = None -> sw_step s (goto i WkSet (with_lk (Some i) s))
| sw_wk_set s i : pc s i = WkSet -> sw_step s (goto i (WkNext 0) (with_cond true s))
| sw_wk_next s i k : pc s i = WkNext k -> (k < nproc)%nat -> k <> i -> pl s k = None ->
    sw_step s (goto i (WkTest k) (with_pl k (Some i) s))
| sw_wk_skip s i : pc s i = WkNext i -> sw_step s (goto i (WkNext (S i)) s)   (* p != myproc() *)
| sw_wk_test s i k : pc s i = WkTest k ->
    sw_step s (goto i (WkNext (S k)) (with_pl k None (with_asleep k false s)))
| sw_wk_done s i k : pc s i = WkNext k -> (nproc <= k)%nat -> sw_step s (goto i Idle (with_lk None s)).

Definition sw_init : sw := MkSw false None (fun _ => None) (fun _ => false) (fun _ => Idle).

(** ** The invariant *)

(** The points that hold [lk], and those that hold the process's own lock. *)
Definition holds_lk (l : point) : bool :=
  match l with
  | Test | SlpLock | SlpUnlock | Leave | WkSet | WkNext _ | WkTest _ => true
  | _ => false
  end.
Definition holds_own (l : point) : bool :=
  match l with SlpUnlock | SlpMark | SlpSwitch | SlpBack => true | _ => false end.

(** A waker that has set the condition and has still to visit [i]. *)
Definition coming (s : sw) (i : nat) : Prop :=
  exists w k, (k <= i)%nat /\ w <> i /\ (pc s w = WkNext k \/ pc s w = WkTest k).

(** A process on its way to sleep, or asleep. *)
Definition going (s : sw) (i : nat) : Prop :=
  pc s i = SlpMark \/ pc s i = SlpSwitch \/ asleep s i = true.

Record sw_inv (s : sw) : Prop := {
  si_lk : forall i, lk s = Some i <-> holds_lk (pc s i) = true;
  si_own : forall i, holds_own (pc s i) = true -> pl s i = Some i;
  si_test : forall w k, pc s w = WkTest k -> pl s k = Some w /\ w <> k;
  si_asleep : forall i, asleep s i = true -> pc s i = SlpSwitch \/ pc s i = SlpOff;
  si_false : forall i, pc s i = SlpLock \/ pc s i = SlpUnlock -> cond s = false;
  si_going : forall i, (i < nproc)%nat -> going s i -> cond s = false \/ coming s i
}.

Lemma sw_init_inv : sw_inv sw_init.
Proof. constructor; simpl; try done; try naive_solver. Qed.
(** A waker stays on its way to [j] unless the step is its own. *)
Lemma coming_step s s' i l j :
  (forall w, pc s' w = upd (pc s) i l w) ->
  (forall k, (k <= j)%nat -> i <> j -> pc s i = WkNext k \/ pc s i = WkTest k ->
     exists k', (k' <= j)%nat /\ (l = WkNext k' \/ l = WkTest k')) ->
  coming s j -> coming s' j.
Proof.
  intros Hpc Hi (w & k & Hk & Hw & Hp). unfold coming. destruct (decide (w = i)) as [->|Hne].
  - destruct (Hi k Hk Hw Hp) as (k' & Hk' & Hl). exists i, k'. rewrite !Hpc, upd_same. auto.
  - exists w, k. rewrite !Hpc, upd_other by done. auto.
Qed.

(** Only the owner of [lk] is at a point that holds it. *)
Lemma lk_unique s i j :
  sw_inv s -> holds_lk (pc s i) = true -> holds_lk (pc s j) = true -> i = j.
Proof. intros I Hi%(si_lk s I) Hj%(si_lk s I). congruence. Qed.

Definition waker_at (l : point) (k : nat) : Prop := l = WkNext k \/ l = WkTest k.

(** What a step of [i] to point [l] owes to the invariant. *)
Record step_ok (s s' : sw) (i : nat) (l : point) : Prop := {
  ok_pc : forall w, pc s' w = upd (pc s) i l w;
  ok_lk : lk s' = if holds_lk l then Some i else if holds_lk (pc s i) then None else lk s;
  ok_lk_free : holds_lk l = true -> holds_lk (pc s i) = true \/ lk s = None;
  ok_own : holds_own l = true -> pl s' i = Some i;
  ok_pl : forall j o, j <> i -> pl s j = Some o -> o <> i -> pl s' j = Some o;
  ok_pl_i : forall o, pl s i = Some o -> o <> i -> pl s' i = Some o;
  ok_test : forall k, l = WkTest k -> pl s' k = Some i /\ i <> k;
  ok_asleep : forall j, asleep s' j = true -> j <> i -> asleep s j = true;
  ok_asleep_i : asleep s' i = true -> l = SlpSwitch \/ l = SlpOff;
  ok_cond : cond s' = true -> cond s = true \/ holds_lk (pc s i) = true;
  ok_false : l = SlpLock \/ l = SlpUnlock -> cond s' = false;
  ok_going : forall j, (j < nproc)%nat -> going s' j -> cond s' = false \/ coming s' j
}.

Lemma step_ok_inv s s' i l : sw_inv s -> step_ok s s' i l -> sw_inv s'.
Proof.
  intros I [O1 O2 O3 O4 O5 O6 O7 O8 O9 O10 O11 O12]. constructor; auto.
  - intros j. rewrite O1, O2. destruct (decide (j = i)) as [->|Hj].
    + rewrite upd_same. destruct (holds_lk l); [done|]. destruct (holds_lk (pc s i)) eqn:E; [done|].
      rewrite (si_lk s I), E. done.
    + rewrite upd_other by done. destruct (holds_lk l) eqn:El.
      * split; [congruence|]. intros Hl. destruct (O3 eq_refl) as [Hi|Hn].
        -- by rewrite (lk_unique s i j I Hi Hl).
        -- apply (si_lk s I) in Hl. congruence.
      * destruct (holds_lk (pc s i)) eqn:Ei; [|apply (si_lk s I)].
        split; [done|]. intros Hl. destruct Hj. symmetry. by apply (lk_unique s i j I).
  - intros j. rewrite O1. destruct (decide (j = i)) as [->|Hj]; [by rewrite upd_same|].
    rewrite upd_other by done. intros Ho. apply O5; [done|by apply (si_own s I)|done].
  - intros w k. rewrite O1. destruct (decide (w = i)) as [->|Hw]; [rewrite upd_same; apply O7|].
    rewrite upd_other by done. intros Ht. destruct (si_test s I w k Ht) as [Hp Hne]. split; [|done].
    destruct (decide (k = i)) as [->|Hk]; [by apply O6|by apply O5].
  - intros j Hj. rewrite !O1. destruct (decide (j = i)) as [->|Hne]; [rewrite upd_same; auto|].
    rewrite !upd_other by done. apply (si_asleep s I). auto.
  - intros j. rewrite !O1. destruct (decide (j = i)) as [->|Hne]; [rewrite !upd_same; auto|].
    rewrite !upd_other by done. intros Hj. pose proof (si_false s I j Hj) as Hf.
    destruct (cond s') eqn:Ec; [|done]. destruct (O10 eq_refl) as [?|Hi]; [congruence|].
    destruct Hne. symmetry. apply (lk_unique s i j I Hi). by destruct Hj as [-> | ->].
Qed.

(** The last clause is kept when nobody new is going to sleep and a waker that
    steps does not pass a process that is. *)
Lemma going_from s s' i l :
  sw_inv s -> (forall w, pc s' w = upd (pc s) i l w) ->
  (forall j, going s' j -> going s j) -> (cond s' = true -> cond s = true) ->
  (forall j k, (j < nproc)%nat -> going s' j -> (k <= j)%nat -> i <> j -> waker_at (pc s i) k ->
     exists k', (k' <= j)%nat /\ waker_at l k') ->
  forall j, (j < nproc)%nat -> going s' j -> cond s' = false \/ coming s' j.
Proof.
  intros I Hpc Hgo Hc Hw j Hj Hg.
  destruct (cond s') eqn:Ec; [|by left]. right. eapply coming_step; [exact Hpc|intros k Hk Hij; by apply Hw|].
  destruct (si_going s I j Hj (Hgo j Hg)) as [?|?]; [|done]. rewrite Hc in * by done. done.
Qed.

Lemma going_kept s s' i l :
  sw_inv s -> (forall w, pc s' w = upd (pc s) i l w) ->
  (forall j, asleep s' j = true -> asleep s j = true) -> (cond s' = true -> cond s = true) ->
  l <> SlpMark -> l <> SlpSwitch -> (forall k, ~ waker_at (pc s i) k) ->
  forall j, (j < nproc)%nat -> going s' j -> cond s' = false \/ coming s' j.
Proof.
  intros I Hpc Ha Hc Hl1 Hl2 Hw. apply (going_from s s' i l); auto.
  - intros j Hg. unfold going in *. rewrite !Hpc in Hg. destruct (decide (j = i)) as [->|];
      [rewrite !upd_same in Hg|rewrite !upd_other in Hg by done]; destruct Hg as [?|[?|?]]; auto; done.
  - intros j k _ _ _ _ Hk. by destruct (Hw k).
Qed.

(** Who is going, when [i] moved to a point that is not one of sleep's. *)
Lemma going_goto s i l j :
  (forall k, asleep s k = true -> pc s k = SlpSwitch \/ pc s k = SlpOff) ->
  l <> SlpMark -> l <> SlpSwitch -> pc s i <> SlpSwitch -> pc s i <> SlpOff ->
  going (goto i l s) j -> going s j /\ j <> i.
Proof.
  intros Ha Hl1 Hl2 Hp1 Hp2 Hg. unfold going in *. simpl in Hg. destruct (decide (j = i)) as [->|];
    [rewrite !upd_same in Hg|rewrite !upd_other in Hg by done; done].
  destruct Hg as [?|[?|Hg]]; [done|done|]. by destruct (Ha i Hg).
Qed.

(** Reading the owner of a lock after one lock changed hands. *)
Lemma upd_lock (f : nat -> option nat) a v j o :
  f j = Some o -> (j = a -> v = Some o) -> upd f a v j = Some o.
Proof. intros Hf Ha. unfold upd. case_decide; auto. Qed.

Ltac sw_case Hp :=
  constructor; simpl; rewrite ?Hp; simpl; try done; auto;
  try (intros; rewrite ?upd_same; done);
  try (intros; apply upd_lock; [assumption|]; intros; congruence);
  try (intros; rewrite ?upd_same; congruence);
  try (by intros [?|?]).

Ltac sw_going s i l I :=
  match goal with |- forall j, _ -> going ?s' j -> _ => apply (going_from s s' i l I); simpl; try done end.

(** The steps that owe nothing to the last clause. *)
Ltac sw_plain Hp I :=
  sw_case Hp;
  match goal with
  | |- forall j, _ -> going ?s' j -> _ =>
      try (solve [eapply (going_kept _ s' _ _ I); simpl; rewrite ?Hp; try done; by intros ? [?|?]])
  | |- lk _ = _ => simpl; auto
  | Has : _ -> _ \/ _ |- _ -> _ \/ _ => let Ha := fresh in intros Ha; by destruct (Has Ha)
  | |- _ => idtac
  end.

Lemma sw_step_inv s s' : sw_inv s -> sw_step s s' -> sw_inv s'.
Proof.
  intros I Hs. destruct Hs as
    [s i Hp|s i Hp Hl|s i b Hp Hc|s i Hp Hc|s i Hp Hl|s i Hp|s i Hp|s i Hp|s i Hp Ha Hl|s i Hp|s i Hp Hl|s i Hp
    |s i Hp|s i Hp Hl|s i Hp|s i k Hp Hk Hki Hl|s i Hp|s i k Hp|s i k Hp Hk];
    eapply (step_ok_inv s _ i _ I); (try pose proof (si_own s I i) as Hown; rewrite Hp in Hown; simpl in Hown);
    (pose proof (si_asleep s I i) as Has; rewrite Hp in Has);
    (pose proof (proj2 (si_lk s I i)) as Hlk; rewrite Hp in Hlk; simpl in Hlk).
  all: sw_plain Hp I.
  - intros _. apply (si_false s I i). by left.
  - intros j _ _. left. apply (si_false s I i). by right.
  - intros j Hj Hne. by rewrite upd_other in Hj.
  - sw_going s i SlpSwitch I.
    + intros j. unfold going. simpl. unfold upd. case_decide; [subst; auto|done].
    + intros j k _ _ _ _. by rewrite Hp; intros [?|?].
  - intros o Ho Hne. rewrite Hown in Ho by done. congruence.
  - intros o Ho Hne. rewrite Hown in Ho by done. congruence.
  - intros j Hj Hg. right. apply (going_goto (with_cond true s)) in Hg as [_ Hji]; simpl;
      [|apply (si_asleep s I)|done|done|by rewrite Hp|by rewrite Hp].
    exists i, O. split_and!; [lia|congruence|]. left. simpl. by rewrite upd_same.
  - intros k0 [= <-]. by rewrite upd_same.
  - sw_going s i (WkTest k) I.
    + intros j Hg. apply (going_goto (with_pl k (Some i) s)) in Hg as [? _]; simpl; try done;
        [apply (si_asleep s I)|by rewrite Hp|by rewrite Hp].
    + intros j k0 _ _ Hk0 _ Hw. exists k0. split; [done|]. rewrite Hp in Hw. destruct Hw as [[= ->]|?]; [by right|done].
  - sw_going s i (WkNext (S i)) I.
    + intros j Hg. apply going_goto in Hg as [? _]; simpl; try done;
        [apply (si_asleep s I)|by rewrite Hp|by rewrite Hp].
    + intros j k0 _ _ Hk0 Hij Hw. rewrite Hp in Hw. destruct Hw as [[= <-]|?]; [|done].
      exists (S i). split; [lia|by left].
  - intros j o Hj Ho Hne. apply upd_lock; [done|]. intros ->. destruct (si_test s I i k Hp). congruence.
  - intros o Ho Hne. apply upd_lock; [done|]. intros <-. by destruct (si_test s I i i Hp).
  - intros j. unfold upd. by case_decide.
  - destruct (si_test s I i k Hp). rewrite upd_other by done. intros Ha. by destruct (Has Ha).
  - destruct (si_test s I i k Hp) as [Hpl Hik].
    assert (Hg' : forall j, going (goto i (WkNext (S k)) (with_pl k None (with_asleep k false s))) j -> going s j /\ j <> k).
    { intros j Hg. unfold going in *. simpl in Hg. destruct (decide (j = k)) as [->|Hjk].
      - rewrite upd_same, !upd_other in Hg by congruence. exfalso. destruct Hg as [Hg|[Hg|Hg]]; [..|done];
          pose proof (si_own s I k) as Ho; rewrite Hg in Ho; rewrite Ho in Hpl by done; congruence.
      - rewrite (upd_other (asleep s)) in Hg by done. split; [|done]. destruct (decide (j = i)) as [->|];
          [rewrite !upd_same in Hg|rewrite !upd_other in Hg by done; done]. destruct Hg as [?|[?|?]]; [done|done|auto]. }
    sw_going s i (WkNext (S k)) I.
    + intros j Hg. by apply Hg'.
    + intros j k0 _ Hg Hk0 _ Hw. apply Hg' in Hg as [_ Hjk]. rewrite Hp in Hw. destruct Hw as [?|[= <-]]; [done|].
      exists (S k). split; [lia|by left].
  - sw_going s i Idle I.
    + intros j Hg. apply (going_goto (with_lk None s)) in Hg as [? _]; simpl; try done;
        [apply (si_asleep s I)|by rewrite Hp|by rewrite Hp].
    + intros j k0 Hj _ Hk0 _ Hw. rewrite Hp in Hw. destruct Hw as [[= <-]|?]; [lia|done].
Qed.

(** ** Property *)

(** C18: no wakeup is lost.  In every reachable state, however the CPUs
    interleave, if the condition holds and no process is between setting it and
    the end of its wakeup scan, then no process is asleep on the channel or
    committed to going to sleep on it. *)
Theorem no_lost_wakeup s :
  steps sw_step sw_init s -> cond s = true ->
  (forall w k, pc s w <> WkNext k /\ pc s w <> WkTest k) ->
  forall i, (i < nproc)%nat ->
    asleep s i = false /\ pc s i <> SlpLock /\ pc s i <> SlpUnlock /\ pc s i <> SlpMark /\ pc s i <> SlpSwitch.
Proof.
  intros Hs Hc Hw i Hi.
  assert (I : sw_inv s) by (eapply steps_invariant; eauto using sw_step_inv, sw_init_inv).
  assert (Hg : ~ going s i).
  { intros Hg. destruct (si_going s I i Hi Hg) as [?|(w & k & _ & _ & [Hk|Hk])]; [congruence|..];
      by destruct (Hw w k). }
  unfold going in Hg. split_and!.
  - destruct (asleep s i); [|done]. destruct Hg. auto.
  - intros E. assert (cond s = false) by (apply (si_false s I i); auto). congruence.
  - intros E. assert (cond s = false) by (apply (si_false s I i); auto). congruence.
  - auto.
  - auto.
Qed.
End protocol.

(** Process 0 goes to sleep, process 1 wakes it. *)
Module SwExample.
Definition steps_of (l : list (sw -> sw)) : sw := foldl (fun s f => f s) sw_init l.
Definition path : list (sw -> sw) :=
  [ goto 0 Want; (fun s => goto 0 Test (with_lk (Some 0%nat) s)); goto 0 SlpLock;
    (fun s => goto 0 SlpUnlock (with_pl 0 (Some 0%nat) s)); (fun s => goto 0 SlpMark (with_lk None s));
    (fun s => goto 0 SlpSwitch (with_asleep 0 true s)); (fun s => goto 0 SlpOff (with_pl 0 None s));
    goto 1 WkWant; (fun s => goto 1 WkSet (with_lk (Some 1%nat) s)); (fun s => goto 1 (WkNext 0) (with_cond true s));
    (fun s => goto 1 (WkTest 0) (with_pl 0 (Some 1%nat) s));
    (fun s => goto 1 (WkNext 1) (with_pl 0 None (with_asleep 0 false s)));
    goto 1 (WkNext 2); (fun s => goto 1 Idle (with_lk None s)) ].

Lemma reached : steps (sw_step 2) sw_init (steps_of path).
Proof.
  unfold steps_of, path. cbn [foldl].
  eapply steps_trans; [|apply sw_wk_done with (k := 2%nat); [reflexivity|lia]].
  eapply steps_trans; [|apply sw_wk_skip; reflexivity].
  eapply steps_trans; [|apply sw_wk_test; reflexivity].
  eapply steps_trans; [|apply sw_wk_next; [reflexivity|lia|discriminate|reflexivity]].
  eapply steps_trans; [|apply sw_wk_set; reflexivity].
  eapply steps_trans; [|apply sw_wk_want; reflexivity].
  eapply steps_trans; [|apply sw_wk_start; reflexivity].
  eapply steps_trans; [|apply sw_slp_switch; reflexivity].
  eapply steps_trans; [|apply sw_slp_mark; reflexivity].
  eapply steps_trans; [|apply sw_slp_unlock; reflexivity].
  eapply steps_trans; [|apply sw_slp_lock; reflexivity].
  eapply steps_trans; [|apply sw_test_wait; reflexivity].
  eapply steps_trans; [|apply sw_want; reflexivity].
  eapply steps_trans; [|apply sw_start; reflexivity].
  apply steps_refl.
Qed.
End SwExample.

Lemma no_lost_wakeup_witness : asleep (SwExample.steps_of SwExample.path) 0 = false.
Proof.
  apply (no_lost_wakeup 2 (SwExample.steps_of SwExample.path) SwExample.reached eq_refl).
  - intros w k. destruct w as [|[|w]]; split; discriminate.
  - lia.
Defined.
