(* ===== verification/Grep.v ===== *)
(** grep, [src/xv6-riscv/user/grep.c]: the Kernighan and Pike matcher and the
    loop that filters lines through a 1024-byte buffer.

    A C string is the list of its bytes before the NUL, so [re[0]] is the head
    of the list, or 0 at its end; reading past the NUL does not happen. *)

From stdpp Require Import base list.
From S2P Require Import Prelude.

(** Characters *)
Definition CH_caret : Z := 94.
Definition CH_dollar : Z := 36.
Definition CH_dot : Z := 46.
Definition CH_star : Z := 42.
Definition CH_nl : Z := 10.

(** do { if(matchhere(re, text)) return 1; } while( *text!='\0' && ( *text++==c || c=='.'));
    [mh] is matchhere on the rest of the pattern. *)
Fixpoint matchstar (c : Z) (mh : list Z -> bool) (text : list Z) : bool :=
  if mh text then true
  else
    match text with
    | [] => false
    | t :: text' => if (t =? c) || (c =? CH_dot) then matchstar c mh text' else false
    end.

Fixpoint matchhere (re text : list Z) : bool :=
  match re with
  | [] => true
  | c :: re1 =>
      match re1 with
      | s :: re2 =>
          if s =? CH_star then matchstar c (matchhere re2) text
          else
            match text with
            | [] => false
            | t :: text' => if (c =? CH_dot) || (c =? t) then matchhere re1 text' else false
            end
      | [] =>
          if c =? CH_dollar then match text with [] => true | _ => false end
          else
            match text with
            | [] => false
            | t :: text' => if (c =? CH_dot) || (c =? t) then matchhere re1 text' else false
            end
      end
  end.

(** do { if(matchhere(re, text)) return 1; } while( *text++ != '\0'); *)
Fixpoint match_anywhere (re text : list Z) : bool :=
  if matchhere re text then true
  else match text with [] => false | _ :: text' => match_anywhere re text' end.

Definition match_ (re text : list Z) : bool :=
  match re with
  | c :: re' => if c =? CH_caret then matchhere re' text else match_anywhere re text
  | [] => match_anywhere re text
  end.

(** strchr(p, '\n'): the text before and after the first newline *)
Fixpoint strchr_nl (p : list Z) : option (list Z * list Z) :=
  match p with
  | [] => None
  | c :: p' =>
      if c =? CH_nl then Some ([], p')
      else match strchr_nl p' with Some (a, b) => Some (c :: a, b) | None => None end
  end.

(** The inner while: prints the matching lines of the buffer, and returns the
    output with what is left after the last newline. *)
Fixpoint grep_lines (fuel : nat) (pattern p : list Z) : list Z * list Z :=
  match fuel with
  | O => ([], p)
  | S fuel =>
      match strchr_nl p with
      | None => ([], p)
      | Some (line, rest) =>
          let '(out, kept) := grep_lines fuel pattern rest in
          ((if match_ pattern line then line ++ [CH_nl] else []) ++ out, kept)
      end
  end.

Section grep.
(** read(fd, buf, n) on the input that remains: what it delivers, and the rest. *)
Context (read : Z -> list Z -> list Z * list Z).

Definition BUFSZ : Z := 1024.

(** The outer while; [buf] is the text kept from the last round.  Every turn
    but the last consumes input, so length input + 1 turns are enough. *)
Fixpoint grep_loop (fuel : nat) (pattern buf input : list Z) : option (list Z) :=
  match fuel with
  | O => None
  | S fuel =>
      let '(got, input') := read (BUFSZ - Z.of_nat (length buf) - 1) input in
      match got with
      | [] => Some []
      | _ =>
          let m := buf ++ got in
          let '(out, kept) := grep_lines (length m) pattern m in
          match grep_loop fuel pattern kept input' with
          | Some out' => Some (out ++ out')
          | None => None
          end
      end
  end.

Definition grep (pattern input : list Z) : option (list Z) :=
  grep_loop (S (length input)) pattern [] input.
End grep.

(** ** What a pattern means *)

(** An item of a pattern: a character, and whether it is starred. *)
Fixpoint parse_re (re : list Z) : list (Z * bool) * bool :=
  match re with
  | [] => ([], false)
  | c :: re1 =>
      match re1 with
      | s :: re2 =>
          if s =? CH_star then let '(l, d) := parse_re re2 in ((c, true) :: l, d)
          else let '(l, d) := parse_re re1 in ((c, false) :: l, d)
      | [] => if c =? CH_dollar then ([], true) else ([(c, false)], false)
      end
  end.

Definition fits (c t : Z) : Prop := c = CH_dot \/ c = t.

(** The words a sequence of items stands for. *)
Inductive words : list (Z * bool) -> list Z -> Prop :=
| words_nil : words [] []
| words_one c t l w : fits c t -> words l w -> words ((c, false) :: l) (t :: w)
| words_none c l w : words l w -> words ((c, true) :: l) w
| words_more c t l w : fits c t -> words ((c, true) :: l) w -> words ((c, true) :: l) (t :: w).

(** [re] matches a prefix of [text], all of it when [re] ends with $. *)
Definition prefix_match (re text : list Z) : Prop :=
  exists w post, text = w ++ post /\ words (fst (parse_re re)) w /\ (snd (parse_re re) = true -> post = []).

Lemma fits_dec c t : (c =? CH_dot) || (c =? t) = true <-> fits c t.
Proof. unfold fits. rewrite orb_true_iff, !Z.eqb_eq. done. Qed.

Lemma matchstar_spec c mh text :
  matchstar c mh text = true <->
  exists w post, text = w ++ post /\ Forall (fits c) w /\ mh post = true.
Proof.
  induction text as [|t text IH]; cbn [matchstar].
  - destruct (mh []) eqn:E; (split; [intros H|intros (w & post & H & _ & Hm)]); try done.
    + by exists [], [].
    + symmetry in H. apply app_eq_nil in H as [-> ->]. congruence.
  - destruct (mh (t :: text)) eqn:E.
    { split; [|done]. intros _. by exists [], (t :: text). }
    split.
    + intros H. case_test_in H; [|done]. apply IH in H as (w & post & -> & Hw & Hm).
      exists (t :: w), post. split_and!; [done| |done]. constructor; [|done]. unfold fits.
      apply orb_true_iff in E0 as [?%Z.eqb_eq|?%Z.eqb_eq]; auto.
    + intros (w & post & Hw & Hf & Hm). destruct w as [|u w]; [simpl in Hw; congruence|].
      injection Hw as <- ->. inversion_clear Hf as [|? ? Hc Hf'].
      replace ((t =? c) || (c =? CH_dot)) with true.
      * apply IH. by exists w, post.
      * symmetry. apply orb_true_iff. rewrite !Z.eqb_eq. destruct Hc; auto.
Qed.

Lemma words_star c l w : words ((c, true) :: l) w <-> exists a b, w = a ++ b /\ Forall (fits c) a /\ words l b.
Proof.
  split.
  - remember ((c, true) :: l) as il eqn:E. induction 1 as [|c' t l' w Hf Hw IH|c' l' w Hw IH|c' t l' w Hf Hw IH];
      simplify_eq/=.
    + by exists [], w.
    + destruct IH as (a & b & -> & Ha & Hb); [done|]. exists (t :: a), b. split_and!; [done|by constructor|done].
  - intros (a & b & -> & Ha & Hb). induction Ha; simpl; by constructor.
Qed.

Lemma matchhere_spec re text : matchhere re text = true <-> prefix_match re text.
Proof.
  assert (Hgen : forall n re, (length re <= n)%nat -> forall text, matchhere re text = true <-> prefix_match re text).
  2:{ by apply (Hgen (length re)). }
  clear. induction n as [|n IH]; intros re Hn text.
  { destruct re; [|simpl in Hn; lia]. split; [|done]. intros _. exists [], text. split_and!; [done|constructor|done]. }
  destruct re as [|c re1]; [split; [|done]; intros _; exists [], text; split_and!; [done|constructor|done]|].
  (* one plain character *)
  assert (Hone : forall re1', (length re1' <= n)%nat -> parse_re (c :: re1') = ((c, false) :: fst (parse_re re1'), snd (parse_re re1')) ->
     match text with [] => false | t :: text' => if (c =? CH_dot) || (c =? t) then matchhere re1' text' else false end = true
     <-> prefix_match (c :: re1') text).
  { intros re1' Hl Hp. unfold prefix_match. rewrite Hp. cbn [fst snd]. destruct text as [|t text'].
    - split; [done|]. intros (w & post & E & Hw & _). symmetry in E. apply app_eq_nil in E as [-> ->]. inversion Hw.
    - split.
      + intros H. case_test_in H; [|done]. apply fits_dec in E. apply IH in H as (w & post & -> & Hw & Hd); [|done].
        exists (t :: w), post. split_and!; [done|by constructor|done].
      + intros (w & post & E & Hw & Hd). inversion Hw as [|? t' ? w' Hf Hw'| | ]; subst. injection E as <- ->.
        rewrite (proj2 (fits_dec _ _) Hf). apply IH; [done|]. by exists w', post. }
  simpl in Hn. destruct re1 as [|s re2].
  - cbn [matchhere]. destruct (c =? CH_dollar) eqn:Ed.
    + unfold prefix_match. cbn [parse_re]. rewrite Ed. cbn [fst snd]. destruct text as [|t text'].
      * split; [|done]. intros _. exists [], []. split_and!; [done|constructor|done].
      * split; [done|]. intros (w & post & E & Hw & Hd). rewrite (Hd eq_refl) in E. by inversion Hw; subst.
    + apply (Hone []); [simpl; lia|]. cbn [parse_re]. by rewrite Ed.
  - cbn [matchhere]. destruct (s =? CH_star) eqn:Es.
    + rewrite matchstar_spec. unfold prefix_match. cbn [parse_re]. rewrite Es.
      destruct (parse_re re2) as [l d] eqn:Ep. cbn [fst snd]. split.
      * intros (w & post & -> & Hf & Hm). apply IH in Hm as (w2 & post2 & -> & Hw2 & Hd2); [|simpl in Hn; lia].
        rewrite Ep in Hw2, Hd2. exists (w ++ w2), post2. split_and!; [by rewrite app_assoc|apply words_star; eauto|done].
      * intros (w & post & -> & Hw & Hd). apply words_star in Hw as (a & b & -> & Ha & Hb).
        exists a, (b ++ post). rewrite app_assoc. split_and!; [done|done|]. apply IH; [simpl in Hn; lia|].
        exists b, post. by rewrite Ep.
    + apply (Hone (s :: re2)); [simpl in *; lia|]. cbn [parse_re]. rewrite Es.
      by destruct (match re2 with [] => _ | _ => _ end).
Qed.

(** ** Lines *)

(** The complete lines of a text, without their newlines, and what follows the
    last newline. *)
Fixpoint split_lines (p : list Z) : list (list Z) * list Z :=
  match p with
  | [] => ([], [])
  | c :: p' =>
      let '(ls, r) := split_lines p' in
      if c =? CH_nl then ([] :: ls, r)
      else match ls with [] => ([], c :: r) | l :: ls' => ((c :: l) :: ls', r) end
  end.

(** What grep is to print. *)
Definition selected (pattern : list Z) (ls : list (list Z)) : list Z :=
  concat (map (fun l => l ++ [CH_nl]) (List.filter (match_ pattern) ls)).

Lemma selected_app pattern a b : selected pattern (a ++ b) = selected pattern a ++ selected pattern b.
Proof. unfold selected. by rewrite List.filter_app, map_app, concat_app. Qed.

Lemma strchr_nl_spec p :
  match strchr_nl p with
  | None => split_lines p = ([], p)
  | Some (l, r) => split_lines p = (l :: fst (split_lines r), snd (split_lines r)) /\ (length r < length p)%nat
  end.
Proof.
  induction p as [|c p IH]; cbn [strchr_nl split_lines]; [done|]. destruct (c =? CH_nl).
  - destruct (split_lines p). split; [done|simpl; lia].
  - destruct (strchr_nl p) as [[a b]|]; [destruct IH as [-> ?]; split; [done|simpl; lia]|by rewrite IH].
Qed.

Lemma grep_lines_spec fuel pattern p :
  (length p <= fuel)%nat ->
  grep_lines fuel pattern p = (selected pattern (fst (split_lines p)), snd (split_lines p)).
Proof.
  revert p. induction fuel as [|fuel IH]; intros p Hp; cbn [grep_lines].
  { destruct p; [done|simpl in Hp; lia]. }
  pose proof (strchr_nl_spec p) as Hs. destruct (strchr_nl p) as [[l r]|].
  - destruct Hs as [-> Hl]. rewrite IH by lia. cbn [fst snd]. f_equal. unfold selected. cbn [List.filter].
    by destruct (match_ pattern l).
  - by rewrite Hs.
Qed.

Lemma split_lines_app a b :
  split_lines (a ++ b) =
  (fst (split_lines a) ++ fst (split_lines (snd (split_lines a) ++ b)), snd (split_lines (snd (split_lines a) ++ b))).
Proof.
  induction a as [|c a IH]; cbn [app split_lines fst snd]; [by destruct (split_lines b)|].
  rewrite IH. destruct (split_lines a) as [ls r]. cbn [fst snd]. destruct (c =? CH_nl) eqn:E; [done|].
  destruct ls as [|l ls]; [|done]. cbn [fst snd app split_lines]. rewrite E.
  destruct (split_lines (r ++ b)) as [[|l ls'] r']; done.
Qed.

Lemma split_lines_rest p : split_lines (snd (split_lines p)) = ([], snd (split_lines p)).
Proof.
  induction p as [|c p IH]; cbn [split_lines]; [done|]. destruct (split_lines p) as [ls r]. cbn [snd] in *.
  destruct (c =? CH_nl) eqn:E; [done|]. destruct ls; cbn [snd]; [|done]. cbn [split_lines]. by rewrite IH, E.
Qed.

(** The first line of a text that continues an open line. *)
Lemma split_lines_open buf p l ls r :
  split_lines buf = ([], buf) -> split_lines (buf ++ p) = (l :: ls, r) -> (length buf <= length l)%nat.
Proof.
  revert l ls r. induction buf as [|c buf IH]; intros l ls r Hb Hp; [simpl; lia|].
  cbn [split_lines app] in *. destruct (split_lines buf) as [lb rb] eqn:Eb. destruct (c =? CH_nl); [done|].
  destruct lb as [|]; [|done]. injection Hb as ->. destruct (split_lines (buf ++ p)) as [[|l' ls'] r'] eqn:Ep; [done|].
  injection Hp as <- -> ->. simpl. specialize (IH l' ls r eq_refl eq_refl). lia.
Qed.

Section grep_spec.
Context (read : Z -> list Z -> list Z * list Z).

(** read delivers a prefix of the input, no longer than asked, and nothing only
    at the end of the input or when nothing was asked for. *)
Definition read_ok : Prop := forall n inp, 0 <= n ->
  inp = fst (read n inp) ++ snd (read n inp) /\ Z.of_nat (length (fst (read n inp))) <= n /\
  (fst (read n inp) = [] -> inp = [] \/ n = 0).

Lemma grep_loop_spec fuel pattern buf inp :
  read_ok -> (length inp < fuel)%nat -> split_lines buf = ([], buf) -> (length buf <= 1023)%nat ->
  (forall l, l ∈ fst (split_lines (buf ++ inp)) -> (length l <= 1022)%nat) ->
  grep_loop read fuel pattern buf inp = Some (selected pattern (fst (split_lines (buf ++ inp)))).
Proof.
  intros Hread. revert buf inp. induction fuel as [|fuel IH]; intros buf inp Hf Hb Hl Hlen; [lia|].
  cbn [grep_loop]. unfold BUFSZ.
  destruct (Hread (1024 - Z.of_nat (length buf) - 1) inp ltac:(lia)) as (Hi & Hgot & Hend).
  destruct (read _ inp) as [got inp'] eqn:Er. cbn [fst snd] in *. destruct got as [|g got].
  - destruct (Hend eq_refl) as [-> |H0].
    + by rewrite app_nil_r, Hb.
    + destruct (split_lines (buf ++ inp)) as [[|l ls] r] eqn:E; [done|].
      pose proof (split_lines_open _ _ _ _ _ Hb E). specialize (Hlen l ltac:(left)). lia.
  - rewrite grep_lines_spec by lia. subst inp. rewrite app_assoc in Hlen |- *.
    set (m := buf ++ g :: got) in *. rewrite (split_lines_app m) in Hlen |- *. cbn [fst snd] in *.
    rewrite IH.
    + by rewrite selected_app.
    + rewrite length_app in Hf. simpl in Hf. lia.
    + apply split_lines_rest.
    + assert (Hsnd : forall p, (length (snd (split_lines p)) <= length p)%nat).
      { induction p as [|c p IHp]; cbn [split_lines]; [done|]. destruct (split_lines p) as [ls r]. cbn [snd] in *.
        destruct (c =? CH_nl); [|destruct ls]; simpl; lia. }
      pose proof (Hsnd m). subst m. rewrite length_app in *. simpl in *. lia.
    + intros l Hin. apply Hlen. apply elem_of_app. by right.
Qed.
End grep_spec.

Lemma match_anywhere_spec re text :
  match_anywhere re text = true <-> exists pre rest, text = pre ++ rest /\ prefix_match re rest.
Proof.
  induction text as [|t text IH]; cbn [match_anywhere].
  - destruct (matchhere re []) eqn:E.
    + apply matchhere_spec in E. split; [|done]. intros _. by exists [], [].
    + split; [done|]. intros (pre & rest & H & Hm). symmetry in H. apply app_eq_nil in H as [-> ->].
      apply matchhere_spec in Hm. congruence.
  - destruct (matchhere re (t :: text)) eqn:E.
    + apply matchhere_spec in E. split; [|done]. intros _. by exists [], (t :: text).
    + rewrite IH. split.
      * intros (pre & rest & -> & Hm). by exists (t :: pre), rest.
      * intros (pre & rest & H & Hm). destruct pre as [|p pre]; [simpl in H; subst rest; apply matchhere_spec in Hm; congruence|].
        injection H as <- ->. eauto.
Qed.

(** ** Properties *)

(** C21: the matcher decides the language of the pattern: match is 1 exactly
    when the text contains a stretch, at its start if the pattern begins with ^
    and at its end if it ends with $, that spells a word of the pattern, where
    a character stands for itself, a dot for any character and a starred item
    for any number of repetitions. *)
Theorem match_correct re text :
  match_ re text = true <->
  match re with
  | c :: re' => if c =? CH_caret then prefix_match re' text
                else exists pre rest, text = pre ++ rest /\ prefix_match re rest
  | [] => True
  end.
Proof.
  unfold match_. destruct re as [|c re'].
  - split; [done|]. intros _. apply match_anywhere_spec. exists [], text. split; [done|].
    exists [], text. split_and!; [done|constructor|done].
  - case_test; [apply matchhere_spec|apply match_anywhere_spec].
Qed.


