(* ===== verification/Sleeplock.v ===== *)
(** Sleeping locks, [src/xv6-riscv/kernel/sleeplock.c], for the state of any
    component that holds some.

    A component's state gives the spin locks held, the pid of the running
    process and the channels woken so far.  [sleep] hands the spin lock back and
    reports [Blocked]; the process runs again from the test of its loop, which
    is the whole operation from where it stopped.  [wakeup] records the channel:
    making its sleepers runnable is proc.c's part. *)

From stdpp Require Import base list.
From S2P Require Import Prelude Spinlock.

Class Thread (S : Type) := {
  thread_locks :: LockView S;
  mypid : S -> Z;
  woken : S -> list chan;
  set_woken : list chan -> S -> S;
  woken_set_woken : forall w s, woken (set_woken w s) = w;
  held_set_woken : forall w s, held (set_woken w s) = held s;
  woken_set_held : forall h s, woken (set_held h s) = woken s;
  mypid_set_woken : forall w s, mypid (set_woken w s) = mypid s;
  mypid_set_held : forall h s, mypid (set_held h s) = mypid s;
  set_woken_held : forall w h s, set_woken w (set_held h s) = set_held h (set_woken w s)
}.

Section thread.
Context {S : Type} `{Thread S}.

Definition sleep {A} (c : chan) (lk : lockid) : M S A :=
  lock_release lk ;;; (fun s => Blocked s).

Definition wakeup (c : chan) : M S unit := modify (fun s => set_woken (c :: woken s) s).
End thread.

(** struct sleeplock; the spin lock inside is [LSleep id], [id] standing for
    the address of the sleep lock. *)
Record sleeplock := MkSleep { slocked : Z; spid : Z }.

(** initsleeplock(lk, name) *)
Definition initsleeplock : sleeplock := MkSleep 0 0.

Section sleeplock_ops.
Context {S : Type} `{Thread S}.
Context (id : Z) (the_lock : S -> sleeplock) (set_lock : sleeplock -> S -> S).

Definition acquiresleep : M S unit :=
  lock_acquire (LSleep id) ;;;
  let! lk := get the_lock in
  if negb (slocked lk =? 0) then sleep (CSleepLock id) (LSleep id)
  else
    let! me := get mypid in
    modify (set_lock (MkSleep 1 me)) ;;;
    lock_release (LSleep id).

Definition releasesleep : M S unit :=
  lock_acquire (LSleep id) ;;;
  modify (set_lock (MkSleep 0 0)) ;;;
  wakeup (CSleepLock id) ;;;
  lock_release (LSleep id).

Definition holdingsleep : M S bool :=
  lock_acquire (LSleep id) ;;;
  let! lk := get the_lock in
  let! me := get mypid in
  lock_release (LSleep id) ;;;
  ret (negb (slocked lk =? 0) && (spid lk =? me))%bool.

(** What the three do when the caller does not hold the inner spin lock. *)
Section facts.
Hypothesis the_lock_held : forall h s, the_lock (set_held h s) = the_lock s.
Hypothesis set_lock_held : forall k h s, set_lock k (set_held h s) = set_held h (set_lock k s).
Hypothesis held_set_lock : forall k s, held (set_lock k s) = held s.
Hypothesis woken_set_lock : forall k s, woken (set_lock k s) = woken s.

Lemma acquiresleep_free s :
  LSleep id ∉ held s -> slocked (the_lock s) = 0 ->
  acquiresleep s = Ret tt (set_lock (MkSleep 1 (mypid s)) s).
Proof.
  intros Hh Hf. destruct (lock_pair (LSleep id) s Hh) as [Ha Hr].
  unfold acquiresleep, bind. rewrite Ha. unfold get, modify. rewrite the_lock_held, Hf. simpl.
  rewrite mypid_set_held, set_lock_held.
  rewrite (lock_release_top _ _ (held s)); [|by rewrite held_set_held|done].
  by rewrite set_held_twice, <- (held_set_lock (MkSleep 1 (mypid s)) s), set_held_id.
Qed.

Lemma acquiresleep_busy s :
  LSleep id ∉ held s -> slocked (the_lock s) <> 0 -> acquiresleep s = Blocked s.
Proof.
  intros Hh Hf. destruct (lock_pair (LSleep id) s Hh) as [Ha Hr].
  unfold acquiresleep, bind. rewrite Ha. unfold get. rewrite the_lock_held.
  rewrite (proj2 (Z.eqb_neq _ _) Hf). simpl. unfold sleep, bind. by rewrite Hr.
Qed.

Lemma holdingsleep_eq s :
  LSleep id ∉ held s ->
  holdingsleep s = Ret (negb (slocked (the_lock s) =? 0) && (spid (the_lock s) =? mypid s))%bool s.
Proof.
  intros Hh. destruct (lock_pair (LSleep id) s Hh) as [Ha Hr].
  unfold holdingsleep, bind. rewrite Ha. unfold get. rewrite the_lock_held, mypid_set_held. by rewrite Hr.
Qed.

Lemma releasesleep_eq s :
  LSleep id ∉ held s ->
  releasesleep s = Ret tt (set_woken (CSleepLock id :: woken s) (set_lock (MkSleep 0 0) s)).
Proof.
  intros Hh. destruct (lock_pair (LSleep id) s Hh) as [Ha Hr].
  unfold releasesleep, bind. rewrite Ha. unfold modify, wakeup. simpl.
  unfold modify. rewrite set_lock_held, woken_set_held, set_woken_held, woken_set_lock.
  rewrite (lock_release_top _ _ (held s)); [|by rewrite held_set_held|done].
  rewrite set_held_twice. f_equal.
  rewrite <- (held_set_lock (MkSleep 0 0) s) at 1.
  rewrite <- (held_set_woken (CSleepLock id :: woken s)). apply set_held_id.
Qed.
End facts.
End sleeplock_ops.
