(* ===== verification/Ring.v ===== *)
(** Doubly linked rings, as bio.c keeps its buffers: the list a ring represents,
    and the effect of unlinking a node and of inserting one after the head. *)

From stdpp Require Import base list sets.
From S2P Require Import Prelude.

(** From [x] the nodes of [l] follow in order, then [y], linked both ways. *)
Fixpoint seg (nx pv : nat -> nat) (x : nat) (l : list nat) (y : nat) : Prop :=
  match l with
  | [] => nx x = y /\ pv y = x
  | z :: l' => nx x = z /\ pv z = x /\ seg nx pv z l' y
  end.

(** The ring headed by [h] that holds [l]. *)
Definition ring (nx pv : nat -> nat) (h : nat) (l : list nat) : Prop :=
  seg nx pv h l h /\ NoDup (h :: l).

Lemma seg_app nx pv x l1 z l2 y :
  seg nx pv x (l1 ++ z :: l2) y <-> seg nx pv x l1 z /\ seg nx pv z l2 y.
Proof.
  revert x. induction l1 as [|a l1 IH]; intros x; simpl; [tauto|]. rewrite IH. tauto.
Qed.

Lemma seg_next_frame nx pv x l y a v : a ∉ x :: l -> seg nx pv x l y -> seg (upd nx a v) pv x l y.
Proof.
  revert x. induction l as [|z l IH]; intros x Ha; simpl; rewrite not_elem_of_cons in Ha;
    destruct Ha as [Hx Hl]; rewrite upd_other by congruence; [done|]. intros (? & ? & ?). auto.
Qed.

Lemma seg_prev_frame nx pv x l y a v :
  a ∉ l -> a <> y -> seg nx pv x l y -> seg nx (upd pv a v) x l y.
Proof.
  revert x. induction l as [|z l IH]; intros x Ha Hy; simpl.
  - by rewrite upd_other.
  - rewrite not_elem_of_cons in Ha. destruct Ha. rewrite upd_other by done. intros (? & ? & ?). auto.
Qed.

(** The neighbours of a node of a segment lie in it. *)
Lemma seg_prev_in nx pv x l1 b l2 y : seg nx pv x (l1 ++ b :: l2) y -> pv b ∈ x :: l1.
Proof.
  revert x. induction l1 as [|z l1 IH]; intros x; simpl.
  - intros (? & -> & ?). left.
  - intros (? & ? & H). apply IH in H. by right.
Qed.

Lemma seg_next_in nx pv x l1 b l2 y : seg nx pv x (l1 ++ b :: l2) y -> nx b ∈ l2 ++ [y].
Proof.
  rewrite seg_app. intros [_ H]. destruct l2 as [|z l2]; simpl in *; destruct H as (-> & ?); left.
Qed.

(** b->next->prev = b->prev; b->prev->next = b->next; *)
Lemma seg_unlink nx pv x l1 b l2 y :
  seg nx pv x (l1 ++ b :: l2) y -> NoDup (l1 ++ b :: l2) -> x ∉ l1 ++ b :: l2 -> y ∉ l1 ++ b :: l2 ->
  seg (upd nx (pv b) (nx b)) (upd pv (nx b) (pv b)) x (l1 ++ l2) y.
Proof.
  revert x. induction l1 as [|z l1 IH]; intros x Hs Hd Hx Hy.
  - simpl in Hs, Hd, Hx, Hy. destruct Hs as (_ & Hp & Hs). rewrite Hp. destruct l2 as [|z l2]; simpl in *.
    + destruct Hs as [-> _]. by rewrite !upd_same.
    + destruct Hs as (-> & _ & Hs). rewrite !upd_same. split_and!; [done..|].
      apply NoDup_cons in Hd as [_ [Hz _]%NoDup_cons]. rewrite !not_elem_of_cons in Hx, Hy.
      apply seg_prev_frame; [done|naive_solver|]. apply seg_next_frame; [|done].
      rewrite not_elem_of_cons. naive_solver.
  - simpl in Hs, Hd, Hx, Hy. destruct Hs as (H1 & H2 & Hs).
    apply NoDup_cons in Hd as [Hz Hd]. rewrite not_elem_of_cons in Hx, Hy. simpl.
    pose proof (seg_prev_in _ _ _ _ _ _ _ Hs) as Hp. pose proof (seg_next_in _ _ _ _ _ _ _ Hs) as Hn.
    rewrite elem_of_cons in Hp. rewrite elem_of_app, list_elem_of_singleton in Hn.
    rewrite elem_of_app, elem_of_cons in Hz, Hx, Hy.
    assert (x <> pv b) by (intros E; rewrite <- E in Hp; tauto).
    assert (z <> nx b) by (intros E; rewrite <- E in Hn; naive_solver).
    rewrite !upd_other by done.
    split_and!; [done..|]. apply IH; rewrite ?elem_of_app, ?elem_of_cons; tauto.
Qed.

(** b->next = head.next; b->prev = &head; head.next->prev = b; head.next = b; *)
Lemma seg_insert nx pv h l b :
  seg nx pv h l h -> NoDup (h :: l) -> b ∉ h :: l ->
  seg (upd (upd nx b (nx h)) h b) (upd (upd pv b h) (nx h) b) h (b :: l) h.
Proof.
  intros Hs Hd Hb. apply NoDup_cons in Hd as [Hh Hd]. apply not_elem_of_cons in Hb as [Hbh Hbl].
  destruct l as [|z l]; simpl in *.
  - destruct Hs as [-> ?]. rewrite upd_same, upd_other, !upd_same by done.
    rewrite upd_other by done. by rewrite !upd_same.
  - destruct Hs as (-> & _ & Hs). apply NoDup_cons in Hd as [Hz Hd].
    rewrite upd_same, (upd_other _ z), !upd_same by set_solver.
    rewrite upd_other, !upd_same by done. split_and!; [done..|].
    apply seg_next_frame; [set_solver|]. apply seg_next_frame; [set_solver|].
    apply seg_prev_frame; [done|set_solver|]. apply seg_prev_frame; [set_solver|done|done].
Qed.

(** Both: a node moves to the front. *)
Lemma ring_to_front nx pv h l1 b l2 :
  ring nx pv h (l1 ++ b :: l2) ->
  let nx1 := upd nx (pv b) (nx b) in
  let pv1 := upd pv (nx b) (pv b) in
  ring (upd (upd nx1 b (nx1 h)) h b) (upd (upd pv1 b h) (nx1 h) b) h (b :: l1 ++ l2).
Proof.
  intros [Hs Hd] nx1 pv1. pose proof Hd as [Hh Hd']%NoDup_cons.
  assert (P : h :: l1 ++ b :: l2 ≡ₚ h :: b :: l1 ++ l2) by (by constructor; symmetry; apply Permutation_middle).
  rewrite P in Hd. split; [|done]. apply seg_insert.
  - by apply seg_unlink.
  - apply NoDup_cons in Hd as [? [? ?]%NoDup_cons]. apply NoDup_cons. set_solver.
  - apply NoDup_cons in Hd as [? [? ?]%NoDup_cons]. set_solver.
Qed.

(** A new node at the front *)
Lemma ring_insert nx pv h l b :
  ring nx pv h l -> b ∉ h :: l ->
  ring (upd (upd nx b (nx h)) h b) (upd (upd pv b h) (nx h) b) h (b :: l).
Proof.
  intros [Hs Hd] Hb. split; [by apply seg_insert|].
  apply NoDup_cons in Hd as [? ?]. apply NoDup_cons. split; [set_solver|]. apply NoDup_cons. set_solver.
Qed.

(** Neighbours of a node are other nodes. *)
Lemma ring_neighbours nx pv h l b : ring nx pv h l -> b ∈ l -> nx b <> b /\ pv b <> b.
Proof.
  intros [Hs Hd] Hb. apply list_elem_of_split in Hb as (l1 & l2 & ->).
  pose proof (seg_prev_in _ _ _ _ _ _ _ Hs) as Hp. pose proof (seg_next_in _ _ _ _ _ _ _ Hs) as Hn.
  rewrite NoDup_cons, NoDup_app, NoDup_cons in Hd. destruct Hd as (Hh & _ & Hd & Hb & _).
  rewrite elem_of_cons in Hp. rewrite elem_of_app, list_elem_of_singleton in Hn.
  rewrite elem_of_app, elem_of_cons in Hh. split; intros E; rewrite E in *; [naive_solver|].
  destruct Hp as [->|Hp]; [tauto|]. apply (Hd _ Hp). left.
Qed.

(** Read backwards, a segment is a segment with the links exchanged. *)
Lemma seg_reverse nx pv x l y : seg nx pv x l y -> seg pv nx y (reverse l) x.
Proof.
  revert x. induction l as [|z l IH]; intros x; simpl; [naive_solver|]. intros (H1 & H2 & H).
  rewrite reverse_cons. apply seg_app. split; [by apply IH|]. simpl. naive_solver.
Qed.

Lemma ring_reverse nx pv h l : ring nx pv h l -> ring pv nx h (reverse l).
Proof.
  intros [Hs Hd]. split; [by apply seg_reverse|].
  eapply NoDup_Permutation_proper; [|exact Hd]. constructor. apply reverse_Permutation.
Qed.
