(* ===== verification/Bio.v ===== *)
(** The buffer cache, [src/xv6-riscv/kernel/bio.c]: the buffers, their LRU ring
    threaded through next and prev, and the disk below.

    The state is what bio.c's globals hold; [disk] is the content of the device,
    one block at a time, and [wlog] the block writes it has received, oldest
    first, from which the content after a crash is rebuilt.  virtio_disk_rw is
    the transfer of one whole block, the unit the device writes atomically. *)

From stdpp Require Import base list strings.
From S2P Require Import Prelude Spinlock Sleeplock.

Definition NBUF : nat := 30.
Definition BSIZE : Z := 1024.
Definition ROOTDEV : Z := 1.

(** A disk block: its bytes. *)
Definition block : Type := list Z.

(** struct buf; the links are kept in the state, since the list head has them too. *)
Record buf := MkBuf {
  valid : Z; dev : Z; blockno : Z; lock : sleeplock; refcnt : Z; data : block }.

(** A node of the ring: a buffer, or [HEAD] for bcache.head. *)
Definition HEAD : nat := NBUF.

Record bst := MkB {
  bheld : list lockid; bme : Z; bwoken : list chan;
  bufs : nat -> buf; bnext : nat -> nat; bprev : nat -> nat;
  disk : Z -> block; wlog : list (Z * block) }.

Definition set_bheld h s := MkB h (bme s) (bwoken s) (bufs s) (bnext s) (bprev s) (disk s) (wlog s).
Definition set_bwoken w s := MkB (bheld s) (bme s) w (bufs s) (bnext s) (bprev s) (disk s) (wlog s).
Definition set_bme p s := MkB (bheld s) p (bwoken s) (bufs s) (bnext s) (bprev s) (disk s) (wlog s).
Definition set_bufs f s := MkB (bheld s) (bme s) (bwoken s) f (bnext s) (bprev s) (disk s) (wlog s).
Definition set_next f s := MkB (bheld s) (bme s) (bwoken s) (bufs s) f (bprev s) (disk s) (wlog s).
Definition set_prev f s := MkB (bheld s) (bme s) (bwoken s) (bufs s) (bnext s) f (disk s) (wlog s).
Definition set_disk f w s := MkB (bheld s) (bme s) (bwoken s) (bufs s) (bnext s) (bprev s) f w.

Definition set_valid v b := MkBuf v (dev b) (blockno b) (lock b) (refcnt b) (data b).
Definition set_dev v b := MkBuf (valid b) v (blockno b) (lock b) (refcnt b) (data b).
Definition set_blockno v b := MkBuf (valid b) (dev b) v (lock b) (refcnt b) (data b).
Definition set_lock v b := MkBuf (valid b) (dev b) (blockno b) v (refcnt b) (data b).
Definition set_refcnt v b := MkBuf (valid b) (dev b) (blockno b) (lock b) v (data b).
Definition set_data v b := MkBuf (valid b) (dev b) (blockno b) (lock b) (refcnt b) v.

#[export] Instance bst_locks : LockView bst := {
  held := bheld; set_held := set_bheld;
  held_set_held := fun _ _ => eq_refl; set_held_twice := fun _ _ _ => eq_refl;
  set_held_id := fun s => match s with MkB _ _ _ _ _ _ _ _ => eq_refl end }.

#[export] Instance bst_thread : Thread bst := {
  thread_locks := bst_locks; mypid := bme; woken := bwoken; set_woken := set_bwoken;
  woken_set_woken := fun _ _ => eq_refl; held_set_woken := fun _ _ => eq_refl;
  woken_set_held := fun _ _ => eq_refl; mypid_set_woken := fun _ _ => eq_refl;
  mypid_set_held := fun _ _ => eq_refl; set_woken_held := fun _ _ _ => eq_refl }.

(** b->field reads and writes *)
Definition getb (b : nat) : M bst buf := get (fun s => bufs s b).
Definition upd_buf (b : nat) (f : buf -> buf) (s : bst) : bst := set_bufs (upd (bufs s) b (f (bufs s b))) s.
Definition setb (b : nat) (f : buf -> buf) : M bst unit := modify (upd_buf b f).
Definition setnext (b n : nat) : M bst unit := modify (fun s => set_next (upd (bnext s) b n) s).
Definition setprev (b n : nat) : M bst unit := modify (fun s => set_prev (upd (bprev s) b n) s).

(** The sleep lock inside a buffer *)
Definition buf_lock (b : nat) (s : bst) : sleeplock := lock (bufs s b).
Definition set_buf_lock (b : nat) (k : sleeplock) (s : bst) : bst := upd_buf b (set_lock k) s.
Definition acquiresleep_buf b : M bst unit := acquiresleep (Z.of_nat b) (buf_lock b) (set_buf_lock b).
Definition releasesleep_buf b : M bst unit := releasesleep (Z.of_nat b) (set_buf_lock b).
Definition holdingsleep_buf b : M bst bool := holdingsleep (Z.of_nat b) (buf_lock b).

Definition virtio_disk_rw (b : nat) (write : bool) : M bst unit :=
  modify (fun s =>
    let bf := bufs s b in
    if write then
      set_disk (upd (disk s) (blockno bf) (data bf)) (wlog s ++ [(blockno bf, data bf)]) s
    else upd_buf b (set_data (disk s (blockno bf))) s).

(** The body of binit's loop, and binit *)
Definition binit_one (b : nat) : M bst unit :=
  let! hn := get (fun s => bnext s HEAD) in
  setnext b hn ;;;
  setprev b HEAD ;;;
  setb b (set_lock initsleeplock) ;;;
  let! hn := get (fun s => bnext s HEAD) in
  setprev hn b ;;;
  setnext HEAD b.

Definition binit : M bst unit :=
  setprev HEAD HEAD ;;;
  setnext HEAD HEAD ;;;
  for_each (seq 0 NBUF) binit_one.

(** for(b = bcache.head.next; b != &bcache.head; b = b->next): the buffer that
    caches the block.  The ring has NBUF buffers, so NBUF + 1 turns are enough. *)
Fixpoint find_cached (fuel : nat) (d bn : Z) (b : nat) (s : bst) : option (option nat) :=
  match fuel with
  | O => None
  | S fuel =>
      if (b =? HEAD)%nat then Some None
      else if ((dev (bufs s b) =? d) && (blockno (bufs s b) =? bn))%bool then Some (Some b)
      else find_cached fuel d bn (bnext s b) s
  end.

(** for(b = bcache.head.prev; b != &bcache.head; b = b->prev): the least
    recently used buffer without references. *)
Fixpoint find_lru (fuel : nat) (b : nat) (s : bst) : option (option nat) :=
  match fuel with
  | O => None
  | S fuel =>
      if (b =? HEAD)%nat then Some None
      else if refcnt (bufs s b) =? 0 then Some (Some b)
      else find_lru fuel (bprev s b) s
  end.

(** bget up to acquiresleep(&b->lock), which is its only blocking call. *)
Definition bget_ref (d bn : Z) : M bst nat :=
  lock_acquire LBcache ;;;
  let! r := get (fun s => find_cached (S NBUF) d bn (bnext s HEAD) s) in
  match r with
  | None => out_of_fuel
  | Some (Some b) =>
      setb b (fun bf => set_refcnt (u32 (refcnt bf + 1)) bf) ;;;
      lock_release LBcache ;;;
      ret b
  | Some None =>
      let! r := get (fun s => find_lru (S NBUF) (bprev s HEAD) s) in
      match r with
      | None => out_of_fuel
      | Some None => panic "bget: no buffers"
      | Some (Some b) =>
          setb b (fun bf => set_refcnt 1 (set_valid 0 (set_blockno bn (set_dev d bf)))) ;;;
          lock_release LBcache ;;;
          ret b
      end
  end.

Definition bget (d bn : Z) : M bst nat :=
  let! b := bget_ref d bn in
  acquiresleep_buf b ;;;
  ret b.

(** if(!b->valid) { virtio_disk_rw(b, 0); b->valid = 1; } *)
Definition bfill (b : nat) : M bst unit :=
  let! bf := getb b in
  when valid bf =? 0 then
    virtio_disk_rw b false ;;;
    setb b (set_valid 1).

Definition bread (d bn : Z) : M bst nat :=
  let! b := bget d bn in
  bfill b ;;;
  ret b.

Definition bwrite (b : nat) : M bst unit :=
  let! h := holdingsleep_buf b in
  if negb h then panic "bwrite" else virtio_disk_rw b true.

(** brelse's six pointer assignments *)
Definition to_front (b : nat) : M bst unit :=
  let! bn := get (fun s => bnext s b) in
  let! bp := get (fun s => bprev s b) in
  setprev bn bp ;;;
  let! bp := get (fun s => bprev s b) in
  let! bn := get (fun s => bnext s b) in
  setnext bp bn ;;;
  let! hn := get (fun s => bnext s HEAD) in
  setnext b hn ;;;
  setprev b HEAD ;;;
  let! hn := get (fun s => bnext s HEAD) in
  setprev hn b ;;;
  setnext HEAD b.

Definition brelse (b : nat) : M bst unit :=
  let! h := holdingsleep_buf b in
  if negb h then panic "brelse"
  else
    releasesleep_buf b ;;;
    lock_acquire LBcache ;;;
    setb b (fun bf => set_refcnt (u32 (refcnt bf - 1)) bf) ;;;
    let! bf := getb b in
    (when refcnt bf =? 0 then to_front b) ;;;
    lock_release LBcache.

Definition bpin (b : nat) : M bst unit :=
  lock_acquire LBcache ;;;
  setb b (fun bf => set_refcnt (u32 (refcnt bf + 1)) bf) ;;;
  lock_release LBcache.

Definition bunpin (b : nat) : M bst unit :=
  lock_acquire LBcache ;;;
  setb b (fun bf => set_refcnt (u32 (refcnt bf - 1)) bf) ;;;
  lock_release LBcache.

(** The holder of a buffer stores into b->data. *)
Definition bstore (b : nat) (f : block -> block) : M bst unit :=
  setb b (fun bf => set_data (f (data bf)) bf).

(** The globals before binit: zeroed. *)
Definition buf0 : buf := MkBuf 0 0 0 initsleeplock 0 (replicate (Z.to_nat BSIZE) 0).
Definition bst0 (me : Z) (dk : Z -> block) : bst :=
  MkB [] me [] (fun _ => buf0) (fun _ => O) (fun _ => O) dk [].
