(* ===== verification/BioInv.v ===== *)
(** Correctness of the buffer cache (Bio): its invariant, what each operation
    does to the content of the blocks, and the machine of processes that use
    the cache concurrently. *)

From stdpp Require Import base list sets strings.
From S2P Require Import Prelude Spinlock Sleeplock Ring Bio.

Definition in_cache (i : nat) : Prop := (i < NBUF)%nat.
#[global] Hint Unfold in_cache : core.

(** Buffer [i] caches block [bn]. *)
Definition caches (s : bst) (i : nat) (bn : Z) : Prop :=
  in_cache i /\ dev (bufs s i) = ROOTDEV /\ blockno (bufs s i) = bn.

(** [x i] counts the references to buffer [i] other than that of the process
    that holds its lock: waiting processes and pins. *)
Record binv (x : nat -> Z) (s : bst) : Prop := {
  bi_ring : exists l, ring (bnext s) (bprev s) HEAD l /\ l ≡ₚ seq 0 NBUF;
  bi_uniq : forall i j bn, caches s i bn -> caches s j bn -> i = j;
  bi_dev : forall i, in_cache i ->
    dev (bufs s i) = ROOTDEV \/ (dev (bufs s i) = 0 /\ valid (bufs s i) = 0 /\ refcnt (bufs s i) = 0);
  bi_ref : forall i, in_cache i ->
    refcnt (bufs s i) = slocked (lock (bufs s i)) + x i /\ 0 <= x i < 2 ^ 31 /\
    0 <= slocked (lock (bufs s i)) <= 1;
  bi_clean : forall i, in_cache i -> valid (bufs s i) <> 0 -> refcnt (bufs s i) = 0 ->
    data (bufs s i) = disk s (blockno (bufs s i));
  bi_len : (forall bn, length (disk s bn) = Z.to_nat BSIZE) /\
    (forall i, in_cache i -> valid (bufs s i) <> 0 -> length (data (bufs s i)) = Z.to_nat BSIZE);
  bi_spin : LBcache ∉ bheld s /\ forall id, LSleep id ∉ bheld s
}.

(** What reading block [bn] through the cache gives: the cached copy, or the disk's. *)
Definition content (s : bst) (bn : Z) : block :=
  match list_find (fun i => dev (bufs s i) = ROOTDEV /\ blockno (bufs s i) = bn /\ valid (bufs s i) <> 0)
          (seq 0 NBUF) with
  | Some (_, i) => data (bufs s i)
  | None => disk s bn
  end.

(** The process that holds the lock of the buffer caching [bn]. *)
Definition owner (s : bst) (bn : Z) : option Z :=
  match list_find (fun i => dev (bufs s i) = ROOTDEV /\ blockno (bufs s i) = bn /\ slocked (lock (bufs s i)) <> 0)
          (seq 0 NBUF) with
  | Some (_, i) => Some (spid (lock (bufs s i)))
  | None => None
  end.

(** Looking for an index that satisfies a predicate at most one does. *)
Lemma list_find_unique (P : nat -> Prop) `{forall i, Decision (P i)} n i :
  (i < n)%nat -> P i -> (forall j, (j < n)%nat -> P j -> j = i) -> list_find P (seq 0 n) = Some (i, i).
Proof.
  intros Hi HP Hu. apply list_find_Some. split_and!; [by apply seq_lookup_Some|done|].
  intros j y Hj Hlt HPy. apply lookup_seq in Hj as [-> Hj']. simpl in *. specialize (Hu j). lia || naive_solver lia.
Qed.

Lemma list_find_absent (P : nat -> Prop) `{forall i, Decision (P i)} n :
  (forall j, (j < n)%nat -> ~ P j) -> list_find P (seq 0 n) = None.
Proof.
  intros Hn. apply list_find_None, Forall_forall. intros j Hj. apply elem_of_seq in Hj. apply Hn. lia.
Qed.

Section views.
Context (x : nat -> Z) (s : bst) (Hs : binv x s).

Lemma content_cached i bn : caches s i bn -> valid (bufs s i) <> 0 -> content s bn = data (bufs s i).
Proof.
  intros (Hi & Hd & Hb) Hv. unfold content. rewrite (list_find_unique _ NBUF i); [done..|].
  intros j Hj (? & ? & ?). by eapply (bi_uniq _ _ Hs); split_and!.
Qed.

Lemma content_uncached bn :
  (forall i, caches s i bn -> valid (bufs s i) = 0) -> content s bn = disk s bn.
Proof.
  intros Hn. unfold content. rewrite list_find_absent; [done|]. intros j Hj (? & ? & Hv). by apply Hv, Hn.
Qed.

Lemma owner_cached i bn :
  caches s i bn -> owner s bn = if decide (slocked (lock (bufs s i)) = 0) then None else Some (spid (lock (bufs s i))).
Proof.
  intros (Hi & Hd & Hb). unfold owner. case_decide as E.
  - rewrite list_find_absent; [done|]. intros j Hj (? & ? & Hl). apply Hl.
    replace j with i; [done|]. by eapply (bi_uniq _ _ Hs); split_and!.
  - rewrite (list_find_unique _ NBUF i); [done..|].
    intros j Hj (? & ? & ?). by eapply (bi_uniq _ _ Hs); split_and!.
Qed.

Lemma owner_uncached bn : (forall i, ~ caches s i bn) -> owner s bn = None.
Proof.
  intros Hn. unfold owner. rewrite list_find_absent; [done|]. intros j Hj (? & ? & _). by apply (Hn j).
Qed.

(** A block is cached by some buffer or by none. *)
Lemma caches_dec bn : {i | caches s i bn} + {forall i, ~ caches s i bn}.
Proof.
  destruct (list_find (fun i => dev (bufs s i) = ROOTDEV /\ blockno (bufs s i) = bn) (seq 0 NBUF)) as [[k i]|] eqn:E.
  - left. exists i. apply list_find_Some in E as (Hk & (? & ?) & _). apply lookup_seq in Hk as [-> ?]. by split_and!.
  - right. intros i (Hi & Hd). apply list_find_None in E. rewrite Forall_forall in E.
    apply (E i); [|done]. apply elem_of_seq. unfold in_cache in Hi. lia.
Qed.

(** The scan of the ring finds the buffer that caches the block, or none. *)
Lemma find_cached_seg fuel bn p l :
  seg (bnext s) (bprev s) p l HEAD -> NoDup (HEAD :: l) -> (length l < fuel)%nat -> (forall i, i ∈ l -> in_cache i) ->
  (exists i, i ∈ l /\ caches s i bn /\ find_cached fuel ROOTDEV bn (bnext s p) s = Some (Some i)) \/
  ((forall i, i ∈ l -> ~ caches s i bn) /\ find_cached fuel ROOTDEV bn (bnext s p) s = Some None).
Proof.
  revert p fuel. induction l as [|z l IH]; intros p [|fuel] Hseg Hd Hl Hin; simpl in Hl; try lia; cbn [seg] in Hseg; cbn [find_cached].
  - destruct Hseg as [-> _]. rewrite Nat.eqb_refl. right. split; [intros i Hi; by apply elem_of_nil in Hi|done].
  - destruct Hseg as (-> & _ & Hseg). apply NoDup_cons in Hd as [Hz Hd]. rewrite not_elem_of_cons in Hz.
    rewrite (proj2 (Nat.eqb_neq z HEAD)) by naive_solver. assert (Hcz : in_cache z) by (apply Hin; left).
    case_test; bool_to_prop; [left; exists z; split_and!; [left|by split_and!|done]|].
    destruct (IH z fuel) as [(i & Hi & Hc & Hf)|[Hn Hf]]; [done| |lia|intros; apply Hin; by right| |].
    + apply NoDup_cons in Hd as [? ?]. apply NoDup_cons. naive_solver.
    + left. exists i. split_and!; [by right|done..].
    + right. split; [|done]. intros i [->|Hi]%elem_of_cons; [|by apply Hn].
      intros (? & ? & ?). apply andb_false_iff in E as [E|E]; bool_to_prop; congruence.
Qed.

Lemma find_lru_seg fuel p l :
  seg (bprev s) (bnext s) p l HEAD -> NoDup (HEAD :: l) -> (length l < fuel)%nat ->
  (exists i, i ∈ l /\ refcnt (bufs s i) = 0 /\ find_lru fuel (bprev s p) s = Some (Some i)) \/
  ((forall i, i ∈ l -> refcnt (bufs s i) <> 0) /\ find_lru fuel (bprev s p) s = Some None).
Proof.
  revert p fuel. induction l as [|z l IH]; intros p [|fuel] Hseg Hd Hl; simpl in Hl; try lia; cbn [seg] in Hseg; cbn [find_lru].
  - destruct Hseg as [-> _]. rewrite Nat.eqb_refl. right. split; [intros i Hi; by apply elem_of_nil in Hi|done].
  - destruct Hseg as (-> & _ & Hseg). apply NoDup_cons in Hd as [Hz Hd]. rewrite not_elem_of_cons in Hz.
    rewrite (proj2 (Nat.eqb_neq z HEAD)) by naive_solver.
    case_test; bool_to_prop; [left; exists z; split_and!; [left|done..]|].
    destruct (IH z fuel) as [(i & Hi & Hc & Hf)|[Hn Hf]]; [done| |lia| |].
    + apply NoDup_cons in Hd as [? ?]. apply NoDup_cons. naive_solver.
    + left. exists i. split_and!; [by right|done..].
    + right. split; [|done]. intros i [->|Hi]%elem_of_cons; [done|by apply Hn].
Qed.

Lemma ring_cache l i : l ≡ₚ seq 0 NBUF -> i ∈ l <-> in_cache i.
Proof. intros ->. rewrite elem_of_seq. unfold in_cache. lia. Qed.

Lemma find_cached_spec bn :
  (exists i, caches s i bn /\ find_cached (S NBUF) ROOTDEV bn (bnext s HEAD) s = Some (Some i)) \/
  ((forall i, ~ caches s i bn) /\ find_cached (S NBUF) ROOTDEV bn (bnext s HEAD) s = Some None).
Proof.
  destruct (bi_ring _ _ Hs) as (l & [Hseg Hd] & Hp).
  destruct (find_cached_seg (S NBUF) bn HEAD l) as [(i & ? & ? & ?)|[Hn ?]]; [done|done| | | |].
  - rewrite (Permutation_length Hp), length_seq. lia.
  - intros. by apply (ring_cache l).
  - left. by exists i.
  - right. split; [|done]. intros i Hc. apply (Hn i); [|done]. apply (ring_cache l); [done|apply Hc].
Qed.

Lemma find_lru_spec :
  (exists i, in_cache i /\ refcnt (bufs s i) = 0 /\ find_lru (S NBUF) (bprev s HEAD) s = Some (Some i)) \/
  ((forall i, in_cache i -> refcnt (bufs s i) <> 0) /\ find_lru (S NBUF) (bprev s HEAD) s = Some None).
Proof.
  destruct (bi_ring _ _ Hs) as (l & Hr & Hp). destruct (ring_reverse _ _ _ _ Hr) as [Hseg Hd].
  destruct (find_lru_seg (S NBUF) HEAD (reverse l)) as [(i & Hi & ? & ?)|[Hn ?]]; [done|done| | |].
  - rewrite length_reverse, (Permutation_length Hp), length_seq. lia.
  - left. exists i. split; [|done]. by apply elem_of_reverse, (ring_cache l) in Hi.
  - right. split; [|done]. intros i Hc. apply (Hn i). by apply elem_of_reverse, (ring_cache l).
Qed.
End views.

(** ** The operations *)

(** What no operation on one buffer touches. *)
Record stable (s s' : bst) : Prop := {
  st_held : bheld s' = bheld s; st_me : bme s' = bme s;
  st_disk : disk s' = disk s; st_wlog : wlog s' = wlog s }.

#[export] Instance stable_preorder : PreOrder stable.
Proof. split; [by constructor|]. intros s1 s2 s3 [] []. constructor; congruence. Qed.

(** Two states in which the blocks have the same content and the same owners. *)
Record same_view (s s' : bst) : Prop := {
  sv_content : forall b, content s' b = content s b; sv_owner : forall b, owner s' b = owner s b }.

#[export] Instance same_view_preorder : PreOrder same_view.
Proof. split; [by constructor|]. intros s1 s2 s3 [] []. constructor; congruence. Qed.

(** Buffers that keep their block and what is known of it *)
Definition same_data (bf bf' : buf) : Prop :=
  dev bf' = dev bf /\ blockno bf' = blockno bf /\ valid bf' = valid bf /\ data bf' = data bf.

Section frames.
Context (x x' : nat -> Z) (s s' : bst) (Hs : binv x s) (Hs' : binv x' s').
Hypothesis same : forall i, in_cache i -> same_data (bufs s i) (bufs s' i).

Lemma caches_frame i b : caches s' i b <-> caches s i b.
Proof.
  unfold caches. split; intros (Hi & ? & ?); destruct (same i Hi) as (? & ? & ? & ?); split_and!; congruence.
Qed.

Lemma content_frame b : disk s' b = disk s b -> content s' b = content s b.
Proof.
  intros Hd. destruct (caches_dec s b) as [[i Hc]|Hn].
  - pose proof Hc as (Hi & _). destruct (same i Hi) as (_ & _ & Hv & Hdt). pose proof (proj2 (caches_frame i b) Hc) as Hc'.
    destruct (decide (valid (bufs s i) = 0)) as [E|E].
    + rewrite !content_uncached, Hd; [done| |]; intros j Hj.
      * by replace j with i by (by eapply (bi_uniq _ _ Hs)).
      * replace j with i by (by eapply (bi_uniq _ _ Hs')). congruence.
    + rewrite (content_cached _ _ Hs' i b Hc'), (content_cached _ _ Hs i b Hc); congruence.
  - rewrite !content_uncached, Hd; [done| |]; intros j Hj; [by destruct (Hn j)|].
    apply caches_frame in Hj. by destruct (Hn j).
Qed.

Lemma owner_frame b : (forall i, caches s i b -> lock (bufs s' i) = lock (bufs s i)) -> owner s' b = owner s b.
Proof.
  intros Hl. destruct (caches_dec s b) as [[i Hc]|Hn].
  - rewrite (owner_cached _ _ Hs' i b (proj2 (caches_frame i b) Hc)), (owner_cached _ _ Hs i b Hc).
    by rewrite (Hl i Hc).
  - rewrite !owner_uncached; [done|done|]. intros i Hc. apply (Hn i). by apply caches_frame.
Qed.
End frames.

(** A buffer changed in its reference count and lock only *)
Definition with_ref (i : nat) (r : Z) (k : sleeplock) (s : bst) : bst :=
  upd_buf i (fun bf => set_lock k (set_refcnt r bf)) s.

Lemma same_data_upd_buf i f s : same_data (bufs s i) (f (bufs s i)) ->
  forall j, in_cache j -> same_data (bufs s j) (bufs (upd_buf i f s) j).
Proof.
  intros Hf j _. unfold upd_buf. simpl. upd_at j i; [done|]. by split_and!.
Qed.

Lemma binv_with_ref x s i r k :
  binv x s -> in_cache i -> dev (bufs s i) = ROOTDEV -> 0 <= slocked k <= 1 ->
  0 <= r - slocked k < 2 ^ 31 ->
  (r = 0 -> valid (bufs s i) <> 0 -> data (bufs s i) = disk s (blockno (bufs s i))) ->
  binv (upd x i (r - slocked k)) (with_ref i r k s).
Proof.
  intros H Hi Hd Hk Hr Hc.
  assert (Hsame : forall j, in_cache j -> same_data (bufs s j) (bufs (with_ref i r k s) j)).
  { apply same_data_upd_buf. by split_and!. }
  constructor.
  - apply (bi_ring _ _ H).
  - intros a b bn Ha Hb. apply (bi_uniq _ _ H a b bn); by apply (caches_frame s (with_ref i r k s)).
  - intros j Hj. unfold with_ref, upd_buf; simpl. upd_at j i; [by left|by apply (bi_dev _ _ H)].
  - intros j Hj. unfold with_ref, upd_buf; simpl. upd_at j i; [lia|by apply (bi_ref _ _ H)].
  - intros j Hj. unfold with_ref, upd_buf; simpl. upd_at j i; [auto|by apply (bi_clean _ _ H)].
  - split; [apply (bi_len _ _ H)|]. intros j Hj. unfold with_ref, upd_buf; simpl.
    upd_at j i; by apply (bi_len _ _ H).
  - apply (bi_spin _ _ H).
Qed.

Lemma with_ref_view x s i r k :
  binv x s -> binv (upd x i (r - slocked k)) (with_ref i r k s) ->
  (k = lock (bufs s i)) -> same_view s (with_ref i r k s).
Proof.
  intros H H' ->. assert (Hsame : forall j, in_cache j -> same_data (bufs s j) (bufs (with_ref i r (lock (bufs s i)) s) j)).
  { apply same_data_upd_buf. by split_and!. }
  constructor; intros b.
  - by eapply content_frame.
  - eapply owner_frame; [done..|]. intros j _. unfold with_ref, upd_buf; simpl. by upd_at j i.
Qed.

Lemma u32_ref x s i d : binv x s -> in_cache i -> -1 <= d <= 1 -> 0 <= refcnt (bufs s i) + d ->
  u32 (refcnt (bufs s i) + d) = refcnt (bufs s i) + d.
Proof. intros H Hi Hd H0. destruct (bi_ref _ _ H i Hi) as (Hr & Hx & Hl). apply u32_small. lia. Qed.

Lemma bcache_acquire s l : l ∉ bheld s -> lock_acquire l s = Ret tt (set_bheld (l :: bheld s) s).
Proof. exact (lock_acquire_free l s). Qed.

Lemma bcache_release s l h : bheld s = l :: h -> l ∉ h -> lock_release l s = Ret tt (set_bheld h s).
Proof. exact (lock_release_top l s h). Qed.

Lemma bpin_eq x s i : binv x s -> in_cache i ->
  bpin i s = Ret tt (with_ref i (refcnt (bufs s i) + 1) (lock (bufs s i)) s).
Proof.
  intros H Hi. destruct (bi_spin _ _ H) as [Hb _]. unfold bpin, bind.
  rewrite (bcache_acquire s _ Hb). unfold setb, modify.
  rewrite (bcache_release _ _ (bheld s)) by done. f_equal. unfold with_ref, upd_buf, set_bufs. simpl.
  destruct (bi_ref _ _ H i Hi) as (? & ? & ?).
  rewrite (u32_ref x) by (done || lia). done.
Qed.

Lemma bunpin_eq x s i : binv x s -> in_cache i -> 0 < x i ->
  bunpin i s = Ret tt (with_ref i (refcnt (bufs s i) - 1) (lock (bufs s i)) s).
Proof.
  intros H Hi Hx. destruct (bi_spin _ _ H) as [Hb _]. unfold bunpin, bind.
  rewrite (bcache_acquire s _ Hb). unfold setb, modify.
  rewrite (bcache_release _ _ (bheld s)) by done. f_equal. unfold with_ref, upd_buf, set_bufs. simpl.
  destruct (bi_ref _ _ H i Hi) as (? & ? & ?).
  unfold Z.sub. rewrite (u32_ref x) by (done || lia). done.
Qed.

(** bget's recycled buffer *)
Definition recycled (i : nat) (bn : Z) (s : bst) : bst :=
  upd_buf i (fun bf => MkBuf 0 ROOTDEV bn (lock bf) 1 (data bf)) s.

Lemma recycled_other i bn s j : j <> i -> bufs (recycled i bn s) j = bufs s j.
Proof. intros. unfold recycled, upd_buf. simpl. by rewrite upd_other. Qed.
Lemma recycled_same i bn s : bufs (recycled i bn s) i = MkBuf 0 ROOTDEV bn (lock (bufs s i)) 1 (data (bufs s i)).
Proof. unfold recycled, upd_buf. simpl. by rewrite upd_same. Qed.

Lemma binv_recycled x s i bn :
  binv x s -> in_cache i -> refcnt (bufs s i) = 0 -> (forall j, ~ caches s j bn) ->
  binv (upd x i (x i + 1)) (recycled i bn s).
Proof.
  intros H Hi Hr Hn. destruct (bi_ref _ _ H i Hi) as (Hr' & Hx & Hl).
  assert (Hother : forall j b, caches (recycled i bn s) j b -> j <> i -> caches s j b).
  { intros j b (Hj & Hd & Hb) Hne. rewrite recycled_other in Hd, Hb by done. by split_and!. }
  assert (Hthis : forall b, caches (recycled i bn s) i b -> b = bn).
  { intros b (_ & _ & Hb). by rewrite recycled_same in Hb. }
  constructor.
  - apply (bi_ring _ _ H).
  - intros a c b Ha Hc. destruct (decide (a = i)) as [->|Na], (decide (c = i)) as [->|Nc]; [done| | |].
    + apply Hthis in Ha as ->. by destruct (Hn c); apply Hother.
    + apply Hthis in Hc as ->. by destruct (Hn a); apply Hother.
    + apply (bi_uniq _ _ H a c b); by apply Hother.
  - intros j Hj. destruct (decide (j = i)) as [->|Nj].
    + rewrite recycled_same. by left.
    + rewrite recycled_other by done. by apply (bi_dev _ _ H).
  - intros j Hj. destruct (decide (j = i)) as [->|Nj].
    + rewrite recycled_same, upd_same. simpl. lia.
    + rewrite recycled_other, upd_other by done. by apply (bi_ref _ _ H).
  - intros j Hj. destruct (decide (j = i)) as [->|Nj].
    + rewrite recycled_same. simpl. lia.
    + rewrite recycled_other by done. by apply (bi_clean _ _ H).
  - split; [apply (bi_len _ _ H)|]. intros j Hj. destruct (decide (j = i)) as [->|Nj].
    + rewrite recycled_same. simpl. lia.
    + rewrite recycled_other by done. by apply (bi_len _ _ H).
  - apply (bi_spin _ _ H).
Qed.

Lemma recycled_caches_other x s i bn j b :
  binv x s -> j <> i -> caches (recycled i bn s) j b <-> caches s j b.
Proof. intros H Hne. unfold caches. by rewrite recycled_other. Qed.

Lemma recycled_content x s i bn b :
  binv x s -> in_cache i -> refcnt (bufs s i) = 0 -> (forall j, ~ caches s j bn) ->
  content (recycled i bn s) b = content s b.
Proof.
  intros H Hi Hr Hn. pose proof (binv_recycled _ _ _ _ H Hi Hr Hn) as H'.
  destruct (caches_dec s b) as [[j Hc]|Hc].
  - destruct (decide (j = i)) as [->|Nj].
    + (* the block given up: its buffer was clean *)
      assert (b <> bn) by (intros ->; by apply (Hn i)).
      transitivity (disk s b).
      * rewrite content_uncached; [done|]. intros k Hk. destruct (decide (k = i)) as [->|Nk]; [by rewrite recycled_same|].
        apply (recycled_caches_other x) in Hk; [|done|done]. destruct Nk. by eapply (bi_uniq _ _ H).
      * destruct (decide (valid (bufs s i) = 0)) as [E|E].
        -- rewrite content_uncached; [done|]. intros k Hk. by replace k with i by (by eapply (bi_uniq _ _ H)).
        -- rewrite (content_cached _ _ H i b Hc E), (bi_clean _ _ H i Hi E Hr). by destruct Hc as (_ & _ & ->).
    + assert (Hc' : caches (recycled i bn s) j b) by (by apply (recycled_caches_other x)).
      destruct (decide (valid (bufs s j) = 0)) as [E|E].
      * rewrite !content_uncached; [done| |]; intros k Hk.
        -- by replace k with j by (by eapply (bi_uniq _ _ H)).
        -- replace k with j by (by eapply (bi_uniq _ _ H')). by rewrite recycled_other.
      * rewrite (content_cached _ _ H' j b Hc'), (content_cached _ _ H j b Hc) by (by rewrite ?recycled_other). by rewrite recycled_other.
  - rewrite !content_uncached; [done| |]; intros k Hk; [by destruct (Hc k)|].
    destruct (decide (k = i)) as [->|Nk]; [by rewrite recycled_same|].
    apply (recycled_caches_other x) in Hk; [|done|done]. by destruct (Hc k).
Qed.

Lemma recycled_owner x s i bn b :
  binv x s -> in_cache i -> refcnt (bufs s i) = 0 -> (forall j, ~ caches s j bn) ->
  owner (recycled i bn s) b = owner s b.
Proof.
  intros H Hi Hr Hn. pose proof (binv_recycled _ _ _ _ H Hi Hr Hn) as H'.
  assert (Hfree : slocked (lock (bufs s i)) = 0) by (destruct (bi_ref _ _ H i Hi) as (? & ? & ?); lia).
  destruct (caches_dec (recycled i bn s) b) as [[j Hc]|Hc].
  - rewrite (owner_cached _ _ H' j b Hc). destruct (decide (j = i)) as [->|Nj].
    + rewrite recycled_same. simpl. rewrite decide_True by done.
      rewrite owner_uncached; [done|]. intros k. destruct Hc as (_ & _ & Hb). rewrite recycled_same in Hb.
      simpl in Hb. subst b. apply Hn.
    + rewrite recycled_other by done. apply (recycled_caches_other x) in Hc; [|done|done].
      by rewrite (owner_cached _ _ H j b Hc).
  - rewrite (owner_uncached _ _ Hc). destruct (caches_dec s b) as [[j Hc']|Hc'].
    + destruct (decide (j = i)) as [->|Nj].
      * rewrite (owner_cached _ _ H i b Hc'). by rewrite decide_True.
      * destruct (Hc j). by apply (recycled_caches_other x).
    + by rewrite owner_uncached.
Qed.

Lemma find_cached_held fuel d bn b h s : find_cached fuel d bn b (set_bheld h s) = find_cached fuel d bn b s.
Proof. revert b. induction fuel as [|fuel IH]; intros b; simpl; [done|]. by rewrite IH. Qed.

Lemma find_lru_held fuel b h s : find_lru fuel b (set_bheld h s) = find_lru fuel b s.
Proof. revert b. induction fuel as [|fuel IH]; intros b; simpl; [done|]. by rewrite IH. Qed.

(** bget_ref adds a reference to the buffer that caches the block, recycling the
    least recently used free buffer when there is none; the contents and the
    owners stay. *)
Lemma bget_ref_spec x s bn :
  binv x s -> (forall i, caches s i bn -> x i + 1 < 2 ^ 31) ->
  (exists i, caches s i bn) \/ (exists i, in_cache i /\ refcnt (bufs s i) = 0) ->
  exists i s', bget_ref ROOTDEV bn s = Ret i s' /\ binv (upd x i (x i + 1)) s' /\ caches s' i bn /\
    same_view s s' /\ stable s s' /\ bwoken s' = bwoken s /\
    (forall j, j <> i -> bufs s' j = bufs s j) /\ lock (bufs s' i) = lock (bufs s i) /\
    (caches s i bn /\ same_data (bufs s i) (bufs s' i) \/ refcnt (bufs s i) = 0 /\ forall j, ~ caches s j bn).
Proof.
  intros H Hx Hroom. destruct (bi_spin _ _ H) as [Hb _].
  unfold bget_ref, bind. rewrite (bcache_acquire s _ Hb). unfold get.
  rewrite find_cached_held. change (bnext (set_bheld _ s)) with (bnext s). destruct (find_cached_spec x s H bn) as [(i & Hc & ->)|[Hn ->]].
  - pose proof Hc as (Hi & Hd & Hbn). destruct (bi_ref _ _ H i Hi) as (Hr & Hxi & Hl). specialize (Hx i Hc).
    exists i, (with_ref i (refcnt (bufs s i) + 1) (lock (bufs s i)) s).
    assert (Heq : upd x i (x i + 1) = upd x i (refcnt (bufs s i) + 1 - slocked (lock (bufs s i)))) by (f_equal; lia).
    assert (H' : binv (upd x i (x i + 1)) (with_ref i (refcnt (bufs s i) + 1) (lock (bufs s i)) s)).
    { rewrite Heq. apply binv_with_ref; [done..|lia|lia]. }
    split_and!.
    + unfold setb, modify. rewrite (bcache_release _ _ (bheld s)) by done. unfold ret. f_equal.
      unfold upd_buf, set_bufs, with_ref, upd_buf, set_bufs. simpl.
      rewrite (u32_ref x) by (done || lia). by destruct s.
    + done.
    + unfold caches, with_ref, upd_buf. simpl. by rewrite upd_same.
    + rewrite Heq in H'. by apply (with_ref_view x).
    + by constructor.
    + done.
    + intros j Hj. unfold with_ref, upd_buf. simpl. by rewrite upd_other.
    + unfold with_ref, upd_buf. simpl. by rewrite upd_same.
    + left. split; [done|]. apply (same_data_upd_buf i); [|done]. by split_and!.
  - rewrite find_lru_held. change (bprev (set_bheld _ s)) with (bprev s). destruct (find_lru_spec x s H) as [(i & Hi & Hr & ->)|[Hall _]].
    2: { destruct Hroom as [[i Hi]|(i & Hi & Hri)]; [by destruct (Hn i)|by destruct (Hall i)]. }
    exists i, (recycled i bn s). split_and!.
    + unfold setb, modify. rewrite (bcache_release _ _ (bheld s)) by done. unfold ret. f_equal.
    + by apply binv_recycled.
    + unfold caches. by rewrite recycled_same.
    + constructor; intros; [by eapply recycled_content|by eapply recycled_owner].
    + by constructor.
    + done.
    + intros. by apply recycled_other.
    + by rewrite recycled_same.
    + right. done.
Qed.

(** bget returns only when the block is cached or some buffer is free. *)
Lemma bget_ref_room x s bn i s' :
  binv x s -> bget_ref ROOTDEV bn s = Ret i s' ->
  (exists i, caches s i bn) \/ (exists i, in_cache i /\ refcnt (bufs s i) = 0).
Proof.
  intros H E. destruct (bi_spin _ _ H) as [Hb _]. unfold bget_ref, bind in E. rewrite (bcache_acquire _ _ Hb) in E.
  unfold get in E. rewrite find_cached_held in E. change (bnext (set_bheld ?h s)) with (bnext s) in E.
  destruct (find_cached_spec _ _ H bn) as [(j & Hc & _)|[_ Hf']]; [left; by exists j|]. rewrite Hf' in E.
  rewrite find_lru_held in E. change (bprev (set_bheld ?h s)) with (bprev s) in E.
  destruct (find_lru_spec _ _ H) as [(j & ? & ? & _)|[_ Hf]]; [right; by exists j|]. by rewrite Hf in E.
Qed.

(** acquiresleep(&b->lock) turns one reference into the holder's. *)
Lemma acquiresleep_buf_spec x s i :
  binv x s -> in_cache i -> dev (bufs s i) = ROOTDEV -> slocked (lock (bufs s i)) = 0 -> 0 < x i ->
  acquiresleep_buf i s = Ret tt (with_ref i (refcnt (bufs s i)) (MkSleep 1 (bme s)) s) /\
  binv (upd x i (x i - 1)) (with_ref i (refcnt (bufs s i)) (MkSleep 1 (bme s)) s).
Proof.
  intros H Hi Hd Hl Hx. destruct (bi_ref _ _ H i Hi) as (Hr & Hxi & _). split.
  - unfold acquiresleep_buf. rewrite acquiresleep_free; [done|done|done|done|apply (bi_spin _ _ H)|done].
  - replace (x i - 1) with (refcnt (bufs s i) - slocked (MkSleep 1 (bme s))) by (simpl; lia).
    apply binv_with_ref; simpl; (done || lia).
Qed.

Lemma acquiresleep_buf_busy x s i :
  binv x s -> slocked (lock (bufs s i)) <> 0 -> acquiresleep_buf i s = Blocked s.
Proof.
  intros H Hl. unfold acquiresleep_buf. apply acquiresleep_busy; [done|apply (bi_spin _ _ H)|done].
Qed.

(** Steps that change one buffer [i], which caches [bn] and is in use, in its
    data and validity, and perhaps block [bn] of the disk. *)
Section one_buf.
Context (x : nat -> Z) (s s' : bst) (i : nat) (bn : Z).
Hypothesis H : binv x s.
Hypothesis Hc : caches s i bn.
Hypothesis Hoth : forall j, j <> i -> bufs s' j = bufs s j.
Hypothesis Hkeep : dev (bufs s' i) = dev (bufs s i) /\ blockno (bufs s' i) = blockno (bufs s i) /\
  lock (bufs s' i) = lock (bufs s i) /\ refcnt (bufs s' i) = refcnt (bufs s i).
Hypothesis Hdisk : forall b, b <> bn -> disk s' b = disk s b.

Lemma one_caches j b : caches s' j b <-> caches s j b.
Proof.
  unfold caches. destruct (decide (j = i)) as [->|]; [|by rewrite Hoth].
  destruct Hkeep as (-> & -> & _). done.
Qed.

Lemma one_binv :
  refcnt (bufs s i) <> 0 -> bnext s' = bnext s -> bprev s' = bprev s -> bheld s' = bheld s ->
  length (disk s' bn) = Z.to_nat BSIZE ->
  (valid (bufs s' i) <> 0 -> length (data (bufs s' i)) = Z.to_nat BSIZE) ->
  binv x s'.
Proof.
  intros Hr Hn Hp Hh Hl1 Hl2. destruct Hkeep as (K1 & K2 & K3 & K4). pose proof Hc as (Hi & Hd & Hb).
  constructor.
  - rewrite Hn, Hp. apply (bi_ring _ _ H).
  - intros a b c Ha Hb'. apply one_caches in Ha, Hb'. by eapply (bi_uniq _ _ H).
  - intros j Hj. destruct (decide (j = i)) as [->|]; [left; congruence|rewrite Hoth by done; by apply (bi_dev _ _ H)].
  - intros j Hj. destruct (decide (j = i)) as [->|]; [rewrite K3, K4|rewrite Hoth by done]; by apply (bi_ref _ _ H).
  - intros j Hj. destruct (decide (j = i)) as [->|Nj]; [congruence|]. rewrite Hoth by done. intros Hv Hz.
    destruct (bi_dev _ _ H j Hj) as [Hdj|(_ & ? & _)]; [|congruence].
    rewrite Hdisk; [by apply (bi_clean _ _ H)|]. intros E. apply Nj. eapply (bi_uniq _ _ H j i bn); [by split_and!|done].
  - split.
    + intros b. destruct (decide (b = bn)) as [->|]; [done|]. rewrite Hdisk by done. apply (bi_len _ _ H).
    + intros j Hj. destruct (decide (j = i)) as [->|]; [done|]. rewrite Hoth by done. by apply (bi_len _ _ H).
  - rewrite Hh. apply (bi_spin _ _ H).
Qed.

Hypothesis H' : binv x s'.

Lemma one_content b : b <> bn -> content s' b = content s b.
Proof.
  intros Hb. destruct (caches_dec s b) as [[j Hj]|Hn].
  - assert (j <> i) by (intros ->; destruct Hj as (_ & _ & ?), Hc as (_ & _ & ?); congruence).
    destruct (decide (valid (bufs s j) = 0)) as [E|E].
    + rewrite !content_uncached, Hdisk; [done|done| |]; intros k Hk.
      * by replace k with j by (by eapply (bi_uniq _ _ H)).
      * apply one_caches in Hk. replace k with j by (by eapply (bi_uniq _ _ H)). by rewrite Hoth.
    + rewrite (content_cached _ _ H' j b), (content_cached _ _ H j b); rewrite ?Hoth; try done. by apply one_caches.
  - rewrite !content_uncached, Hdisk; [done|done| |]; intros k Hk; [by destruct (Hn k)|].
    apply one_caches in Hk. by destruct (Hn k).
Qed.

Lemma one_owner b : owner s' b = owner s b.
Proof.
  destruct (caches_dec s b) as [[j Hj]|Hn].
  - rewrite (owner_cached _ _ H' j b), (owner_cached _ _ H j b) by (done || by apply one_caches).
    destruct (decide (j = i)) as [->|]; [|by rewrite Hoth]. by destruct Hkeep as (_ & _ & -> & _).
  - rewrite !owner_uncached; [done|done|]. intros k Hk. apply one_caches in Hk. by apply (Hn k).
Qed.
End one_buf.

Lemma bufs_upd_same i f s : bufs (upd_buf i f s) i = f (bufs s i).
Proof. unfold upd_buf. simpl. by rewrite upd_same. Qed.
Lemma bufs_upd_other i f s j : j <> i -> bufs (upd_buf i f s) j = bufs s j.
Proof. intros. unfold upd_buf. simpl. by rewrite upd_other. Qed.

(** if(!b->valid) { virtio_disk_rw(b, 0); b->valid = 1; } *)
Lemma bfill_spec x s i bn :
  binv x s -> caches s i bn -> slocked (lock (bufs s i)) = 1 ->
  exists s', bfill i s = Ret tt s' /\ binv x s' /\ same_view s s' /\ stable s s' /\ bwoken s' = bwoken s /\
    caches s' i bn /\ valid (bufs s' i) <> 0 /\ data (bufs s' i) = content s bn /\
    lock (bufs s' i) = lock (bufs s i) /\ refcnt (bufs s' i) = refcnt (bufs s i) /\
    (forall j, j <> i -> bufs s' j = bufs s j).
Proof.
  intros H Hc Hl. pose proof Hc as (Hi & Hd & Hbn). unfold bfill, bind, getb, get. case_test; bool_to_prop.
  2: { exists s. split_and!; try done. by rewrite (content_cached _ _ H i bn Hc). }
  set (s' := upd_buf i (set_valid 1) (upd_buf i (set_data (disk s (blockno (bufs s i)))) s)). exists s'.
  assert (Hcon : content s bn = disk s bn).
  { apply content_uncached. intros j Hj. by replace j with i by (by eapply (bi_uniq _ _ H)). }
  assert (Hi' : bufs s' i = set_valid 1 (set_data (disk s bn) (bufs s i))).
  { unfold s'. by rewrite !bufs_upd_same, Hbn. }
  assert (Ho : forall j, j <> i -> bufs s' j = bufs s j) by (intros; unfold s'; by rewrite !bufs_upd_other).
  assert (Hk : dev (bufs s' i) = dev (bufs s i) /\ blockno (bufs s' i) = blockno (bufs s i) /\
    lock (bufs s' i) = lock (bufs s i) /\ refcnt (bufs s' i) = refcnt (bufs s i)) by (by rewrite Hi').
  destruct (bi_ref _ _ H i Hi) as (Hr & Hx & _).
  assert (H' : binv x s').
  { eapply (one_binv x s s' i bn); try done; [lia|apply (bi_len _ _ H)|]. rewrite Hi'. intros. apply (bi_len _ _ H). }
  assert (Hc' : caches s' i bn) by (by eapply one_caches).
  split_and!; try done; rewrite ?Hi'; try done.
  constructor; intros b; [|by eapply one_owner].
  destruct (decide (b = bn)) as [->|Hb]; [|by eapply one_content].
  rewrite (content_cached _ _ H' i bn), Hi', Hcon; [done|done|by rewrite Hi'].
Qed.

(** The running process holds buffer [i], which caches [bn] and has its data. *)
Definition holds (s : bst) (i : nat) (bn : Z) : Prop :=
  caches s i bn /\ valid (bufs s i) <> 0 /\ lock (bufs s i) = MkSleep 1 (bme s).

Lemma holds_content x s i bn : binv x s -> holds s i bn -> content s bn = data (bufs s i).
Proof. intros H (Hc & Hv & _). by eapply content_cached. Qed.

Lemma holds_owner x s i bn : binv x s -> holds s i bn -> owner s bn = Some (bme s).
Proof. intros H (Hc & Hv & Hl). rewrite (owner_cached _ _ H i bn Hc), Hl. by rewrite decide_False. Qed.

Lemma holdingsleep_buf_holds x s i bn : binv x s -> holds s i bn -> holdingsleep_buf i s = Ret true s.
Proof.
  intros H (Hc & Hv & Hl). unfold holdingsleep_buf. rewrite holdingsleep_eq; [|done|apply (bi_spin _ _ H)].
  unfold buf_lock. rewrite Hl. simpl. by rewrite Z.eqb_refl.
Qed.

Lemma holds_in_use x s i bn : binv x s -> holds s i bn -> refcnt (bufs s i) = 1 + x i.
Proof. intros H ((Hi & _) & _ & Hl). destruct (bi_ref _ _ H i Hi) as (-> & _). by rewrite Hl. Qed.

(** bwrite copies the buffer to the disk. *)
Lemma bwrite_spec x s i bn :
  binv x s -> holds s i bn ->
  exists s', bwrite i s = Ret tt s' /\ binv x s' /\ same_view s s' /\ bufs s' = bufs s /\
    bheld s' = bheld s /\ bme s' = bme s /\ bwoken s' = bwoken s /\
    disk s' bn = content s bn /\ (forall b, b <> bn -> disk s' b = disk s b) /\
    wlog s' = wlog s ++ [(bn, content s bn)].
Proof.
  intros H Hh. pose proof Hh as (Hc & Hv & Hl). pose proof Hc as (Hi & Hd & Hbn).
  unfold bwrite, bind. rewrite (holdingsleep_buf_holds x s i bn H Hh). simpl. unfold virtio_disk_rw, modify.
  set (s' := set_disk _ _ s). exists s'. rewrite (holds_content x s i bn H Hh).
  destruct (bi_ref _ _ H i Hi) as (Hr & Hx & _). rewrite Hl in Hr. simpl in Hr.
  assert (Hdk : forall b, b <> bn -> disk s' b = disk s b) by (intros; unfold s'; simpl; by rewrite Hbn, upd_other).
  assert (Hdn : disk s' bn = data (bufs s i)) by (unfold s'; simpl; by rewrite Hbn, upd_same).
  assert (H' : binv x s').
  { eapply (one_binv x s s' i bn); try done; [simpl; lia|rewrite Hdn; by apply (bi_len _ _ H)|]. intros. by apply (bi_len _ _ H). }
  split_and!; try done; [|by unfold s'; simpl; rewrite Hbn]. constructor; intros b; [|done].
  destruct (decide (b = bn)) as [->|Hb]; [|by eapply one_content].
  by rewrite (content_cached _ _ H' i bn), (content_cached _ _ H i bn).
Qed.

(** A store into the buffer changes the content of its block. *)
Lemma bstore_spec x s i bn f :
  binv x s -> holds s i bn -> length (f (content s bn)) = Z.to_nat BSIZE ->
  exists s', bstore i f s = Ret tt s' /\ binv x s' /\ stable s s' /\ bwoken s' = bwoken s /\ holds s' i bn /\
    content s' bn = f (content s bn) /\ (forall b, b <> bn -> content s' b = content s b) /\
    (forall b, owner s' b = owner s b) /\ (forall j, j <> i -> bufs s' j = bufs s j) /\
    refcnt (bufs s' i) = refcnt (bufs s i).
Proof.
  intros H Hh Hlen. pose proof Hh as (Hc & Hv & Hl). pose proof Hc as (Hi & Hd & Hbn).
  rewrite (holds_content x s i bn H Hh) in *.
  unfold bstore, setb, modify. set (s' := upd_buf _ _ s). exists s'.
  assert (Hi' : bufs s' i = set_data (f (data (bufs s i))) (bufs s i)) by (unfold s'; by rewrite bufs_upd_same).
  assert (Ho : forall j, j <> i -> bufs s' j = bufs s j) by (intros; unfold s'; by rewrite !bufs_upd_other).
  assert (Hk : dev (bufs s' i) = dev (bufs s i) /\ blockno (bufs s' i) = blockno (bufs s i) /\
    lock (bufs s' i) = lock (bufs s i) /\ refcnt (bufs s' i) = refcnt (bufs s i)) by (by rewrite Hi').
  destruct (bi_ref _ _ H i Hi) as (Hr & Hx & _). rewrite Hl in Hr. simpl in Hr.
  assert (H' : binv x s').
  { eapply (one_binv x s s' i bn); try done; [lia|apply (bi_len _ _ H)|]. by rewrite Hi'. }
  assert (Hc' : caches s' i bn) by (by eapply one_caches).
  split_and!; try done; rewrite ?Hi'; try done.
  - unfold holds. by rewrite Hi'.
  - rewrite (content_cached _ _ H' i bn), Hi'; [done|done|by rewrite Hi'].
  - intros. by eapply one_content.
  - intros. by eapply one_owner.
Qed.

(** The ring after brelse's pointer assignments *)
Lemma to_front_spec s i :
  (exists l, ring (bnext s) (bprev s) HEAD l /\ l ≡ₚ seq 0 NBUF) -> in_cache i ->
  exists s', to_front i s = Ret tt s' /\ bufs s' = bufs s /\ stable s s' /\ bwoken s' = bwoken s /\
    exists l, ring (bnext s') (bprev s') HEAD l /\ l ≡ₚ seq 0 NBUF.
Proof.
  intros (l & Hr & Hp) Hi.
  assert (Hin : i ∈ l) by (by apply (ring_cache l)).
  destruct (ring_neighbours _ _ _ _ _ Hr Hin) as [Hnx Hpv].
  apply list_elem_of_split in Hin as (l1 & l2 & ->).
  assert (HEAD <> i) by (intros <-; destruct Hr as [_ Hd]; apply NoDup_cons in Hd as [Hd _]; apply Hd; set_solver).
  eexists. split_and!.
  - unfold to_front, bind, get, setnext, setprev, modify. reflexivity.
  - done.
  - by constructor.
  - done.
  - exists (i :: l1 ++ l2). split; [|by rewrite <- Hp, Permutation_middle]. simpl.
    rewrite !(upd_other (bprev s) (bnext s i)) by done. rewrite (upd_other _ i) by done.
    by apply ring_to_front in Hr.
Qed.

(** A state that differs in its ring only *)
Lemma binv_ring x s s' :
  binv x s -> bufs s' = bufs s -> disk s' = disk s -> bheld s' = bheld s ->
  (exists l, ring (bnext s') (bprev s') HEAD l /\ l ≡ₚ seq 0 NBUF) -> binv x s'.
Proof.
  intros H Hb Hd Hh Hr. destruct H. constructor; try done; unfold caches in *; rewrite ?Hb, ?Hd, ?Hh; done.
Qed.

Lemma view_ring s s' b : bufs s' = bufs s -> disk s' = disk s -> content s' b = content s b /\ owner s' b = owner s b.
Proof. intros Hb Hd. unfold content, owner. by rewrite Hb, Hd. Qed.

(** The invariant looks at the buffers one by one. *)
Lemma binv_ext x x' s s' :
  (forall j, x' j = x j) -> (forall j, bufs s' j = bufs s j) -> bnext s' = bnext s -> bprev s' = bprev s ->
  disk s' = disk s -> bheld s' = bheld s -> binv x s -> binv x' s'.
Proof.
  intros Hx Hb Hn Hp Hd Hh H. destruct H.
  constructor; unfold caches in *; rewrite ?Hn, ?Hp, ?Hd, ?Hh; try done.
  - intros i j bn. rewrite !Hb. eauto.
  - intros i. rewrite Hb. eauto.
  - intros i. rewrite Hb, Hx. eauto.
  - intros i. rewrite Hb. eauto.
  - split; [apply bi_len0|]. intros i. rewrite Hb. apply bi_len0.
Qed.

(** The holder's reference and lock given back *)
Lemma unlocked_spec x s s1 i bn :
  binv x s -> holds s i bn -> (x i = 0 -> content s bn = disk s bn) ->
  bufs s1 i = set_lock (MkSleep 0 0) (set_refcnt (x i) (bufs s i)) -> (forall j, j <> i -> bufs s1 j = bufs s j) ->
  stable s s1 -> bnext s1 = bnext s -> bprev s1 = bprev s ->
  binv x s1 /\ (forall b, content s1 b = content s b) /\ owner s1 bn = None /\
  (forall b, b <> bn -> owner s1 b = owner s b).
Proof.
  intros H Hh Hcl Hi1 Ho1 [S1 S2 S3 S4] Hn Hp. pose proof Hh as (Hc & Hv & Hl). pose proof Hc as (Hi & Hd & Hbn).
  destruct (bi_ref _ _ H i Hi) as (Hr & Hx & _). rewrite Hl in Hr. simpl in Hr.
  rewrite (holds_content x s i bn H Hh) in Hcl.
  assert (H1 : binv x s1).
  { apply (binv_ext (upd x i (x i - 0)) x (with_ref i (x i) (MkSleep 0 0) s) s1); try done.
    - intros j. upd_at j i; [lia|done].
    - intros j. unfold with_ref. destruct (decide (j = i)) as [->|];
        [by rewrite Hi1, bufs_upd_same|by rewrite Ho1, bufs_upd_other].
    - apply (binv_with_ref x s i (x i) (MkSleep 0 0)); simpl; try done; [lia|]. intros. by rewrite Hbn, Hcl. }
  assert (Hsame : forall j, in_cache j -> same_data (bufs s j) (bufs s1 j)).
  { intros j Hj. destruct (decide (j = i)) as [->|]; [rewrite Hi1|rewrite Ho1 by done]; by split_and!. }
  split_and!; intros.
  - done.
  - eapply content_frame; [done..|by rewrite S3].
  - rewrite (owner_cached _ _ H1 i bn), Hi1; [done|]. by eapply caches_frame.
  - eapply owner_frame; [done..|]. intros j (Hj & ? & ?). rewrite Ho1; [done|]. intros ->. congruence.
Qed.

(** brelse gives the lock and the reference back; a block nobody else refers
    to must be the same on disk, since its buffer may be recycled. *)
Lemma brelse_spec x s i bn :
  binv x s -> holds s i bn -> (x i = 0 -> content s bn = disk s bn) ->
  exists s', brelse i s = Ret tt s' /\ binv x s' /\ stable s s' /\
    bwoken s' = CSleepLock (Z.of_nat i) :: bwoken s /\
    (forall b, content s' b = content s b) /\ owner s' bn = None /\
    (forall b, b <> bn -> owner s' b = owner s b) /\
    (forall j, j <> i -> bufs s' j = bufs s j) /\
    bufs s' i = set_lock (MkSleep 0 0) (set_refcnt (x i) (bufs s i)).
Proof.
  intros H Hh Hcl. pose proof Hh as (Hc & Hv & Hl). pose proof Hc as (Hi & Hd & Hbn).
  pose proof (holds_in_use _ _ _ _ H Hh) as Hr. destruct (bi_ref _ _ H i Hi) as (_ & Hx & _).
  destruct (bi_spin _ _ H) as [Hsp Hss].
  set (s1 := upd_buf i (fun bf => set_refcnt (u32 (refcnt bf - 1)) bf)
    (set_bwoken (CSleepLock (Z.of_nat i) :: bwoken s) (set_buf_lock i (MkSleep 0 0) s))).
  assert (Hi1 : bufs s1 i = set_lock (MkSleep 0 0) (set_refcnt (x i) (bufs s i))).
  { unfold s1, set_buf_lock. rewrite bufs_upd_same. simpl. rewrite upd_same. simpl. rewrite Hr.
    by replace (1 + x i - 1) with (x i) by lia; rewrite u32_small by lia. }
  assert (Ho1 : forall j, j <> i -> bufs s1 j = bufs s j).
  { intros. unfold s1, set_buf_lock. rewrite bufs_upd_other by done. simpl. by rewrite upd_other. }
  destruct (unlocked_spec x s s1 i bn H Hh Hcl Hi1 Ho1) as (H1 & V1 & V2 & V3); [by constructor|done|done|].
  unfold brelse, bind. rewrite (holdingsleep_buf_holds x s i bn H Hh). cbn [negb].
  unfold releasesleep_buf. rewrite releasesleep_eq; [|done|done|done|apply Hss].
  rewrite (bcache_acquire _ LBcache) by done.
  match goal with |- context [setb i ?f ?st] => change (setb i f st) with (@Ret bst unit tt (set_bheld (LBcache :: bheld s) s1)) end.
  cbv beta iota. change (getb i ?st) with (@Ret bst buf (bufs st i) st). cbv beta iota.
  change (bufs (set_bheld (LBcache :: bheld s) s1) i) with (bufs s1 i). rewrite Hi1. simpl refcnt.
  case_test; bool_to_prop.
  - destruct (to_front_spec (set_bheld (LBcache :: bheld s) s1) i) as (s3 & -> & B3 & S3 & W3 & R3); [apply (bi_ring _ _ H1)|done|].
    destruct S3 as [S31 S32 S33 S34]. rewrite (bcache_release _ _ (bheld s)) by done.
    exists (set_bheld (bheld s) s3). simpl in *. split_and!.
    + done.
    + by apply (binv_ring x s1).
    + by constructor.
    + done.
    + intros b. rewrite (proj1 (view_ring s1 (set_bheld (bheld s) s3) b B3 S33)). done.
    + rewrite (proj2 (view_ring s1 (set_bheld (bheld s) s3) bn B3 S33)). done.
    + intros b Hb. rewrite (proj2 (view_ring s1 (set_bheld (bheld s) s3) b B3 S33)). by apply V3.
    + intros j Hj. rewrite B3. by apply Ho1.
    + by rewrite B3.
  - unfold ret. rewrite (bcache_release _ _ (bheld s)) by done.
    exists (set_bheld (bheld s) s1). split_and!; try done.
Qed.
