(* ===== verification/BioConc.v ===== *)
(** The buffer cache under concurrent use: processes interleave inside bread,
    bwrite, brelse, bpin and bunpin, and the cache refines a map from blocks to
    contents in which a block belongs to one process at a time. *)

From stdpp Require Import base list sets strings.
From S2P Require Import Prelude Spinlock Sleeplock Ring Bio BioInv.

(** ** binit *)

(** One turn of binit's loop puts its buffer in front. *)
Lemma binit_one_spec i l s :
  ring (bnext s) (bprev s) HEAD l -> i ∉ HEAD :: l ->
  exists s', binit_one i s = Ret tt s' /\ ring (bnext s') (bprev s') HEAD (i :: l) /\
    ((forall j, bufs s j = buf0) -> forall j, bufs s' j = buf0) /\
    stable s s'.
Proof.
  intros Hr Hi. eexists. split_and!.
  - unfold binit_one, bind, get, setnext, setprev, setb, modify. reflexivity.
  - simpl. rewrite (upd_other _ i) by set_solver. by apply ring_insert.
  - intros Hb j. simpl. unfold upd. case_decide; [|apply Hb]. by rewrite Hb.
  - by constructor.
Qed.

Lemma binit_loop_spec n a l s :
  ring (bnext s) (bprev s) HEAD l -> (forall i, i ∈ seq a n -> i ∉ HEAD :: l) ->
  exists s', for_each (seq a n) binit_one s = Ret tt s' /\
    ring (bnext s') (bprev s') HEAD (reverse (seq a n) ++ l) /\
    ((forall j, bufs s j = buf0) -> forall j, bufs s' j = buf0) /\ stable s s'.
Proof.
  revert a l s. induction n as [|n IH]; intros a l s Hr Hn; cbn [seq for_each].
  - exists s. split_and!; done.
  - destruct (binit_one_spec a l s Hr) as (s1 & E1 & R1 & B1 & S1); [apply Hn; left|].
    destruct (IH (S a) (a :: l) s1 R1) as (s2 & E2 & R2 & B2 & S2).
    { intros i Hi. rewrite !not_elem_of_cons. specialize (Hn i). rewrite not_elem_of_cons in Hn.
      split_and!; [apply Hn; by right|apply elem_of_seq in Hi; lia|apply Hn; by right]. }
    exists s2. rewrite (bind_ret_intro _ _ _ _ _ E1). split_and!; [done| |auto|by etrans].
    by rewrite reverse_cons, <- app_assoc.
Qed.

Lemma binit_spec me dk :
  exists s, binit (bst0 me dk) = Ret tt s /\
    ring (bnext s) (bprev s) HEAD (reverse (seq 0 NBUF)) /\ (forall j, bufs s j = buf0) /\ stable (bst0 me dk) s.
Proof.
  destruct (binit_loop_spec NBUF 0 []
    (set_next (upd (fun _ => O) HEAD HEAD) (set_prev (upd (fun _ => O) HEAD HEAD) (bst0 me dk)))) as (s & E & R & B & St).
  - split; [by simpl; rewrite !upd_same|]. apply NoDup_singleton.
  - intros i Hi. apply elem_of_seq in Hi. rewrite list_elem_of_singleton. unfold HEAD. lia.
  - exists s. rewrite app_nil_r in R. split_and!; [exact E|done|by apply B|]. destruct St. by constructor.
Qed.

Definition after_binit (me : Z) (dk : Z -> block) : bst :=
  match binit (bst0 me dk) with Ret _ s => s | _ => bst0 me dk end.

Lemma binit_binv me dk :
  (forall b, length (dk b) = Z.to_nat BSIZE) ->
  binit (bst0 me dk) = Ret tt (after_binit me dk) /\ binv (fun _ => 0) (after_binit me dk) /\
  stable (bst0 me dk) (after_binit me dk) /\ (forall j, bufs (after_binit me dk) j = buf0).
Proof.
  intros Hl. unfold after_binit. destruct (binit_spec me dk) as (s & -> & Hr & Hb & [Hh ? Hd ?]).
  split_and!; [done| |by constructor|done]. constructor.
  - exists (reverse (seq 0 NBUF)). split; [done|apply reverse_Permutation].
  - intros i j bn (_ & Hdev & _). by rewrite Hb in Hdev.
  - intros i _. rewrite Hb. by right.
  - intros i _. rewrite Hb. simpl. lia.
  - intros i _. rewrite Hb. done.
  - rewrite Hd. split; [done|]. intros i _. by rewrite Hb.
  - rewrite Hh. split; [|intros id]; apply not_elem_of_nil.
Qed.

(** From here on the state after binit is known by these facts only. *)
#[global] Opaque after_binit.

(** ** The machine *)

(** [waits p] is the buffer whose lock process [p] waits for inside bget, and
    [pins i] the references bpin has taken. *)
Record bm := MkBm { cache : bst; waits : Z -> option nat; pins : nat -> Z }.

Section machine.
Context (procs : list Z) (Hprocs : NoDup procs) (Hfew : (length procs <= 64)%nat).

Definition extra (m : bm) (i : nat) : Z :=
  Z.of_nat (length (filter (fun p => waits m p = Some i) procs)) + pins m i.

(** Process [p] holds buffer [i], read from disk. *)
Definition uses (m : bm) (p : Z) (i : nat) : Prop :=
  in_cache i /\ dev (bufs (cache m) i) = ROOTDEV /\ lock (bufs (cache m) i) = MkSleep 1 p /\ valid (bufs (cache m) i) <> 0.

(** A process that releases a buffer nobody else refers to has written it. *)
Definition written (m : bm) (i : nat) : Prop :=
  extra m i = 0 -> data (bufs (cache m) i) = disk (cache m) (blockno (bufs (cache m) i)).

Inductive bm_step : bm -> bm -> Prop :=
| bs_ref m p bn i s' :                      (* bget, up to acquiresleep *)
    p ∈ procs -> waits m p = None ->
    bget_ref ROOTDEV bn (set_bme p (cache m)) = Ret i s' ->
    bm_step m (MkBm s' (upd (waits m) p (Some i)) (pins m))
| bs_lock m p i s' :                        (* bget returns *)
    p ∈ procs -> waits m p = Some i ->
    acquiresleep_buf i (set_bme p (cache m)) = Ret tt s' ->
    bm_step m (MkBm s' (upd (waits m) p None) (pins m))
| bs_fill m p i s' :                        (* the rest of bread *)
    in_cache i -> dev (bufs (cache m) i) = ROOTDEV -> lock (bufs (cache m) i) = MkSleep 1 p ->
    bfill i (set_bme p (cache m)) = Ret tt s' ->
    bm_step m (MkBm s' (waits m) (pins m))
| bs_store m p i f s' :
    uses m p i -> length (f (data (bufs (cache m) i))) = Z.to_nat BSIZE ->
    bstore i f (set_bme p (cache m)) = Ret tt s' ->
    bm_step m (MkBm s' (waits m) (pins m))
| bs_write m p i s' :
    uses m p i -> bwrite i (set_bme p (cache m)) = Ret tt s' ->
    bm_step m (MkBm s' (waits m) (pins m))
| bs_release m p i s' :
    uses m p i -> written m i -> brelse i (set_bme p (cache m)) = Ret tt s' ->
    bm_step m (MkBm s' (waits m) (pins m))
| bs_pin m p i s' :
    uses m p i -> pins m i < 2 ^ 30 -> bpin i (set_bme p (cache m)) = Ret tt s' ->
    bm_step m (MkBm s' (waits m) (upd (pins m) i (pins m i + 1)))
| bs_unpin m p i s' :
    uses m p i -> 0 < pins m i -> bunpin i (set_bme p (cache m)) = Ret tt s' ->
    bm_step m (MkBm s' (waits m) (upd (pins m) i (pins m i - 1))).

(** The specification: contents, and who may use a block. *)
Definition astate : Type := (Z -> block) * (Z -> option Z).
Definition abs (m : bm) : astate := (content (cache m), owner (cache m)).

Inductive astep : astate -> astate -> Prop :=
| as_idle c o c' o' : (forall b, c' b = c b) -> (forall b, o' b = o b) -> astep (c, o) (c', o')
| as_acquire p bn c o c' o' :
    o bn = None -> (forall b, c' b = c b) -> o' bn = Some p -> (forall b, b <> bn -> o' b = o b) ->
    astep (c, o) (c', o')
| as_store p bn f c o c' o' :
    o bn = Some p -> c' bn = f (c bn) -> (forall b, b <> bn -> c' b = c b) -> (forall b, o' b = o b) ->
    astep (c, o) (c', o')
| as_release p bn c o c' o' :
    o bn = Some p -> (forall b, c' b = c b) -> o' bn = None -> (forall b, b <> bn -> o' b = o b) ->
    astep (c, o) (c', o').

(** The invariant of the machine *)
Definition bm_inv (m : bm) : Prop :=
  binv (extra m) (cache m) /\ (forall i, 0 <= pins m i <= 2 ^ 30) /\
  (forall p i, p ∈ procs -> waits m p = Some i -> in_cache i /\ dev (bufs (cache m) i) = ROOTDEV).

Definition bm_init (me : Z) (dk : Z -> block) : bm := MkBm (after_binit me dk) (fun _ => None) (fun _ => 0).

Lemma filter_count_upd (w : Z -> option nat) p o i (l : list Z) :
  NoDup l -> p ∈ l ->
  Z.of_nat (length (filter (fun q => upd w p o q = Some i) l)) =
  Z.of_nat (length (filter (fun q => w q = Some i) l)) +
  (if decide (o = Some i) then 1 else 0) - (if decide (w p = Some i) then 1 else 0).
Proof.
  induction 1 as [|q l Hq Hl IH]; intros Hp; [by apply elem_of_nil in Hp|]. rewrite !filter_cons.
  apply elem_of_cons in Hp as [->|Hp].
  - assert (E : filter (fun r => upd w q o r = Some i) l = filter (fun r => w r = Some i) l).
    { apply filter_ext_in. intros r Hr. rewrite upd_other; [done|]. by intros ->. }
    rewrite E, upd_same. repeat case_decide; simpl; lia || done.
  - assert (q <> p) by (by intros ->). rewrite upd_other by done. specialize (IH Hp).
    destruct (decide (w q = Some i)); simpl length; lia.
Qed.

Lemma extra_waits m s' p o i : p ∈ procs ->
  extra (MkBm s' (upd (waits m) p o) (pins m)) i =
  extra m i + (if decide (o = Some i) then 1 else 0) - (if decide (waits m p = Some i) then 1 else 0).
Proof. intros Hp. unfold extra. simpl. rewrite filter_count_upd by done. lia. Qed.

Lemma waiting_counts m p i : p ∈ procs -> waits m p = Some i -> (forall j, 0 <= pins m j) -> 0 < extra m i.
Proof.
  intros Hp Hw Hpin. unfold extra. specialize (Hpin i).
  assert (p ∈ filter (fun p => waits m p = Some i) procs) as Hf by (by apply list_elem_of_filter).
  destruct (filter (fun p => waits m p = Some i) procs); [by apply elem_of_nil in Hf|simpl; lia].
Qed.

Lemma extra_bound m i : (forall i, 0 <= pins m i <= 2 ^ 30) -> 0 <= extra m i /\ extra m i + 1 < 2 ^ 31.
Proof.
  intros Hp. specialize (Hp i). unfold extra.
  pose proof (length_filter (fun p => waits m p = Some i) procs). lia.
Qed.

Lemma binv_me x s p : binv x s -> binv x (set_bme p s).
Proof. by apply binv_ext. Qed.

Lemma bufs_me p s : bufs (set_bme p s) = bufs s.
Proof. done. Qed.

Lemma cache_init me dk : cache (bm_init me dk) = after_binit me dk.
Proof. done. Qed.

Lemma binv_x x x' s : (forall j, x' j = x j) -> binv x s -> binv x' s.
Proof. intros. by eapply binv_ext. Qed.

Lemma caches_unique x s i j b : binv x s -> caches s i b -> caches s j b -> i = j.
Proof. intros H. apply (bi_uniq _ _ H). Qed.

(** A process that uses a buffer holds the cache's copy of its block. *)
Lemma uses_holds m p i : bm_inv m -> uses m p i ->
  holds (set_bme p (cache m)) i (blockno (bufs (cache m) i)).
Proof. intros _ (Hi & Hd & Hl & Hv). by split_and!. Qed.

Definition step_ok (m m' : bm) : Prop := bm_inv m' /\ astep (abs m) (abs m').

Lemma step_ref m p bn i s' :
  bm_inv m -> p ∈ procs -> waits m p = None -> bget_ref ROOTDEV bn (set_bme p (cache m)) = Ret i s' ->
  step_ok m (MkBm s' (upd (waits m) p (Some i)) (pins m)).
Proof.
  intros (H & Hpin & Hw) Hp Hnone E. pose proof (binv_me _ _ p H) as H'.
  destruct (bget_ref_spec _ _ bn H') as (i' & s2 & E2 & B2 & C2 & V2 & S2 & W2 & O2 & L2 & D2).
  { intros. apply extra_bound; done. }
  { by eapply bget_ref_room. }
  rewrite E in E2. injection E2 as <- <-. split; [split_and!|].
  - eapply binv_x; [|exact B2]. intros j. rewrite extra_waits by done. rewrite Hnone, (decide_False (P:=None = _)) by done.
    upd_at j i; [rewrite decide_True by done; lia|]. rewrite decide_False by congruence. lia.
  - done.
  - intros q j Hq. simpl. upd_at q p.
    + intros [= <-]. split; apply C2.
    + intros Hj. destruct (Hw q j Hq Hj) as [? Hd]. split; [done|].
      destruct (decide (j = i)) as [->|Nj]; [apply C2|]. by rewrite O2.
  - apply as_idle; intros b; simpl; [by rewrite (sv_content _ _ V2)|by rewrite (sv_owner _ _ V2)].
Qed.

Lemma step_lock m p i s' :
  bm_inv m -> p ∈ procs -> waits m p = Some i -> acquiresleep_buf i (set_bme p (cache m)) = Ret tt s' ->
  step_ok m (MkBm s' (upd (waits m) p None) (pins m)).
Proof.
  intros (H & Hpin & Hw) Hp Hwait E. pose proof (binv_me _ _ p H) as H'. destruct (Hw p i Hp Hwait) as [Hi Hd].
  destruct (decide (slocked (lock (bufs (cache m) i)) = 0)) as [Hl|Hl].
  2: { by rewrite (acquiresleep_buf_busy _ _ i H' Hl) in E. }
  assert (Hx : 0 < extra m i) by (apply (waiting_counts m p); [done..|intros j; apply Hpin]).
  destruct (acquiresleep_buf_spec _ _ i H' Hi Hd Hl Hx) as [E2 B2]. rewrite E in E2. injection E2 as ->.
  assert (Hsame : forall j, in_cache j -> same_data (bufs (cache m) j) (bufs (with_ref i (refcnt (bufs (cache m) i)) (MkSleep 1 p) (set_bme p (cache m))) j)).
  { apply (same_data_upd_buf i _ (set_bme p (cache m))). by split_and!. }
  split; [split_and!|].
  - eapply binv_x; [|exact B2]. intros j. rewrite extra_waits by done. rewrite Hwait, (decide_False (P:=None = _)) by done.
    upd_at j i; [rewrite decide_True by done; lia|]. rewrite decide_False by congruence. lia.
  - done.
  - intros q j Hq. simpl. upd_at q p; [done|]. intros Hj. destruct (Hw q j Hq Hj) as [Hj' Hd']. split; [done|].
    destruct (Hsame j Hj') as (Hdd & _). by etrans.
  - apply (as_acquire p (blockno (bufs (cache m) i))); simpl.
    + rewrite (owner_cached _ _ H i) by done. by rewrite decide_True.
    + intros b. by apply (content_frame _ _ _ _ H B2 Hsame).
    + rewrite (owner_cached _ _ B2 i); [|by apply (caches_frame _ _ Hsame)]. unfold with_ref. by rewrite bufs_upd_same.
    + intros b Hb. apply (owner_frame _ _ _ _ H B2 Hsame). intros j (_ & _ & Hj). unfold with_ref.
      rewrite bufs_upd_other; [done|]. intros ->. congruence.
Qed.

(** Steps that leave [waits] and the devices of the buffers as they are *)
Lemma waits_kept m s' (p : nat -> Z) :
  bm_inv m -> (forall i, in_cache i -> dev (bufs (cache m) i) = ROOTDEV -> dev (bufs s' i) = ROOTDEV) ->
  forall q j, q ∈ procs -> waits (MkBm s' (waits m) p) q = Some j ->
  in_cache j /\ dev (bufs (cache (MkBm s' (waits m) p)) j) = ROOTDEV.
Proof. intros (_ & _ & Hw) Hdev q j Hq Hj. destruct (Hw q j Hq Hj) as [? ?]. split; [done|]. by apply Hdev. Qed.

Lemma step_fill m p i s' :
  bm_inv m -> in_cache i -> dev (bufs (cache m) i) = ROOTDEV -> lock (bufs (cache m) i) = MkSleep 1 p ->
  bfill i (set_bme p (cache m)) = Ret tt s' -> step_ok m (MkBm s' (waits m) (pins m)).
Proof.
  intros Hm Hi Hd Hl E. pose proof Hm as (H & Hpin & _). pose proof (binv_me _ _ p H) as H'.
  destruct (bfill_spec _ _ i (blockno (bufs (cache m) i)) H') as (s2 & E2 & B2 & V2 & _ & _ & C2 & _ & _ & _ & _ & O2);
    [by split_and!|simpl; by rewrite Hl|]. rewrite E in E2. injection E2 as <-. split; [split_and!|].
  - exact B2.
  - exact Hpin.
  - apply waits_kept; [done|]. intros j _ Hj. destruct (decide (j = i)) as [->|Nj]; [apply C2|]. by rewrite O2.
  - apply as_idle; intros b; simpl; [by rewrite (sv_content _ _ V2)|by rewrite (sv_owner _ _ V2)].
Qed.

Lemma step_store m p i f s' :
  bm_inv m -> uses m p i -> length (f (data (bufs (cache m) i))) = Z.to_nat BSIZE ->
  bstore i f (set_bme p (cache m)) = Ret tt s' -> step_ok m (MkBm s' (waits m) (pins m)).
Proof.
  intros Hm Hu Hlen E. pose proof Hm as (H & Hpin & _). pose proof (binv_me _ _ p H) as H'.
  pose proof (uses_holds m p i Hm Hu) as Hh. set (bn := blockno (bufs (cache m) i)) in *.
  pose proof (holds_content _ _ _ _ H' Hh) as Hcon. pose proof (holds_owner _ _ _ _ H' Hh) as Hown.
  destruct (bstore_spec _ _ i bn f H' Hh) as (s2 & E2 & B2 & _ & _ & Hh2 & C1 & C2 & O2 & F2 & _); [by rewrite Hcon|].
  rewrite E in E2. injection E2 as <-. split; [split_and!|].
  - exact B2.
  - exact Hpin.
  - apply waits_kept; [done|]. intros j _ Hj. destruct (decide (j = i)) as [->|Nj]; [apply Hh2|]. by rewrite F2.
  - by apply (as_store p bn f).
Qed.

Lemma step_write m p i s' :
  bm_inv m -> uses m p i -> bwrite i (set_bme p (cache m)) = Ret tt s' -> step_ok m (MkBm s' (waits m) (pins m)).
Proof.
  intros Hm Hu E. pose proof Hm as (H & Hpin & _). pose proof (binv_me _ _ p H) as H'.
  destruct (bwrite_spec _ _ i _ H' (uses_holds m p i Hm Hu)) as (s2 & E2 & B2 & V2 & F2 & _).
  rewrite E in E2. injection E2 as <-. split; [split_and!|].
  - exact B2.
  - exact Hpin.
  - apply waits_kept; [done|]. intros j _ Hj. by rewrite F2.
  - apply as_idle; intros b; simpl; [by rewrite (sv_content _ _ V2)|by rewrite (sv_owner _ _ V2)].
Qed.

Lemma step_release m p i s' :
  bm_inv m -> uses m p i -> written m i -> brelse i (set_bme p (cache m)) = Ret tt s' ->
  step_ok m (MkBm s' (waits m) (pins m)).
Proof.
  intros Hm Hu Hwr E. pose proof Hm as (H & Hpin & _). pose proof (binv_me _ _ p H) as H'.
  pose proof (uses_holds m p i Hm Hu) as Hh. set (bn := blockno (bufs (cache m) i)) in *.
  destruct (brelse_spec _ _ i bn H' Hh) as (s2 & E2 & B2 & _ & _ & C2 & O1 & O2 & F2 & Fi).
  { intros Hx. rewrite (holds_content _ _ _ _ H' Hh). by apply Hwr. }
  rewrite E in E2. injection E2 as <-. split; [split_and!|].
  - exact B2.
  - exact Hpin.
  - apply waits_kept; [done|]. intros j _ Hj. destruct (decide (j = i)) as [->|Nj]; [by rewrite Fi|]. by rewrite F2.
  - apply (as_release p bn); [by apply (holds_owner _ _ _ _ H' Hh)|done..].
Qed.

(** bpin and bunpin change a reference count and nothing else. *)
Lemma step_with_ref m p i r d :
  bm_inv m -> uses m p i -> -1 <= d <= 1 -> 0 <= pins m i + d <= 2 ^ 30 -> r = refcnt (bufs (cache m) i) + d ->
  step_ok m (MkBm (with_ref i r (lock (bufs (cache m) i)) (set_bme p (cache m))) (waits m) (upd (pins m) i (pins m i + d))).
Proof.
  intros Hm (Hi & Hd & Hl & Hv) Hdd Hb ->. pose proof Hm as (H & Hpin & _). pose proof (binv_me _ _ p H) as H'.
  destruct (bi_ref _ _ H i Hi) as (Hr & Hx & _). rewrite Hl in Hr. simpl in Hr.
  pose proof (extra_bound m i Hpin) as [Hx0 Hx1].
  assert (Hxd : 0 <= extra m i + d) by (unfold extra; lia).
  assert (B : binv (upd (extra m) i (refcnt (bufs (cache m) i) + d - slocked (lock (bufs (cache m) i))))
    (with_ref i (refcnt (bufs (cache m) i) + d) (lock (bufs (cache m) i)) (set_bme p (cache m)))).
  { rewrite Hl in *. apply binv_with_ref; simpl; (done || lia). }
  split; [split_and!|].
  - eapply binv_x; [|exact B]. intros j. unfold extra; simpl. upd_at j i; [|done]. rewrite Hl. simpl. unfold extra in Hr. lia.
  - intros j. simpl. upd_at j i; [lia|]. apply Hpin.
  - apply waits_kept; [done|]. intros j _ Hj. unfold with_ref. destruct (decide (j = i)) as [->|Nj];
      [by rewrite bufs_upd_same|by rewrite bufs_upd_other].
  - pose proof (with_ref_view _ _ i _ _ H' B eq_refl) as V.
    apply as_idle; intros b; simpl; [by rewrite (sv_content _ _ V)|by rewrite (sv_owner _ _ V)].
Qed.

Lemma bm_step_ok m m' : bm_inv m -> bm_step m m' -> step_ok m m'.
Proof.
  intros Hm Hst. destruct Hst as [m p bn i s' Hp Hn E|m p i s' Hp Hw E|m p i s' Hi Hd Hl E|m p i f s' Hu Hl E|m p i s' Hu E
    |m p i s' Hu Hw E|m p i s' Hu Hb E|m p i s' Hu Hb E].
  - by eapply step_ref.
  - by eapply step_lock.
  - by eapply step_fill.
  - by eapply step_store.
  - by eapply step_write.
  - by eapply step_release.
  - pose proof Hm as (H & Hpin & _). rewrite (bpin_eq _ _ i (binv_me _ _ p H)) in E by apply Hu. injection E as <-.
    specialize (Hpin i). apply step_with_ref; (done || lia).
  - pose proof Hm as (H & Hpin & _). rewrite (bunpin_eq (extra m) _ i (binv_me _ _ p H)) in E.
    + injection E as <-. specialize (Hpin i). apply (step_with_ref m p i _ (-1)); (done || lia).
    + apply Hu.
    + unfold extra. lia.
Qed.

Lemma bm_init_inv me dk : (forall b, length (dk b) = Z.to_nat BSIZE) -> bm_inv (bm_init me dk).
Proof.
  intros Hl. destruct (binit_binv me dk Hl) as (_ & H & _ & _). split_and!.
  - eapply binv_x; [|exact H]. intros j. unfold extra, bm_init. cbn [waits pins]. by rewrite filter_none.
  - intros i. cbn [bm_init pins]. lia.
  - intros p i _ Hw. discriminate.
Qed.

Lemma bm_reachable m m' : bm_inv m -> steps bm_step m m' -> bm_inv m' /\ steps astep (abs m) (abs m').
Proof.
  intros Hm Hs. induction Hs as [m|m m1 m2 Hs IH Hst]; [split; [done|constructor]|].
  destruct (IH Hm) as [Hm1 IHs]. destruct (bm_step_ok _ _ Hm1 Hst) as [? ?]. split; [done|]. by econstructor.
Qed.
End machine.


