(* ===== verification/BioSeq.v ===== *)
(** The buffer cache as one process sees it: what the logging layer and the
    file system rely on.  [L] lists the blocks the log has pinned, [O] the blocks
    the process holds. *)

From stdpp Require Import base list sets strings.
From S2P Require Import Prelude Spinlock Sleeplock Ring Bio BioInv.

(** The pins of a buffer: one when its block is logged. *)
Definition pinx (L : list Z) (s : bst) (i : nat) : Z :=
  if decide (dev (bufs s i) = ROOTDEV /\ blockno (bufs s i) ∈ L) then 1 else 0.

Record bq (L O : list Z) (s : bst) : Prop := {
  bq_inv : binv (pinx L s) s;
  bq_logged : forall b, b ∈ L -> exists i, caches s i b /\ valid (bufs s i) <> 0;
  bq_owner : forall b, owner s b = if decide (b ∈ O) then Some (bme s) else None }.

(** Handles kept by a step *)
Definition keeps_handles (s s' : bst) : Prop := forall j b, holds s j b -> holds s' j b.

Lemma pinx_caches L s i b : caches s i b -> pinx L s i = if decide (b ∈ L) then 1 else 0.
Proof. intros (_ & Hd & Hb). unfold pinx. by rewrite (decide_ext _ (b ∈ L)) by (rewrite Hd, Hb; tauto). Qed.

Lemma pinx_ext L s s' i :
  dev (bufs s' i) = dev (bufs s i) -> blockno (bufs s' i) = blockno (bufs s i) -> pinx L s' i = pinx L s i.
Proof. intros Hd Hb. unfold pinx. by rewrite Hd, Hb. Qed.

(** The counts of references matter at the buffers only. *)
Lemma binv_counts x x' s : (forall j, in_cache j -> x' j = x j) -> binv x s -> binv x' s.
Proof.
  intros Hx H. pose proof (bi_ref _ _ H) as Hr. destruct H. constructor; try done.
  intros j Hj. rewrite Hx by done. by apply Hr.
Qed.

(** The order of the logged blocks does not matter. *)
Lemma bq_ext L L' O O' s : (forall b, b ∈ L <-> b ∈ L') -> (forall b, b ∈ O <-> b ∈ O') -> bq L O s -> bq L' O' s.
Proof.
  intros HL HO [H1 H2 H3]. constructor.
  - eapply binv_ext; [|done..|exact H1]. intros j. unfold pinx. apply decide_ext. by rewrite HL.
  - intros b Hb. apply H2. by apply HL.
  - intros b. rewrite H3. apply decide_ext. by rewrite HO.
Qed.

(** Fewer blocks in use than buffers: some buffer is free. *)
Lemma bq_room L O s :
  bq L O s -> (length L + length O < NBUF)%nat -> exists i, in_cache i /\ refcnt (bufs s i) = 0.
Proof.
  intros [H Hl Ho] Hroom.
  destruct (find_lru_spec _ _ H) as [(i & ? & ? & _)|[Hall _]]; [by exists i|exfalso].
  set (bs := (fun i => blockno (bufs s i)) <$> seq 0 NBUF).
  assert (Hdev : forall i, in_cache i -> dev (bufs s i) = ROOTDEV).
  { intros i Hi. destruct (bi_dev _ _ H i Hi) as [?|(_ & _ & ?)]; [done|]. by destruct (Hall i). }
  assert (Hnd : NoDup bs).
  { apply NoDup_fmap_2_strong; [|apply NoDup_seq]. intros i j Hi Hj Heq. apply elem_of_seq in Hi, Hj.
    eapply (bi_uniq _ _ H); split_and!; [|apply Hdev| | |apply Hdev|]; unfold in_cache; (done || lia). }
  assert (Hsub : bs ⊆ L ++ O).
  { intros b Hb. apply list_elem_of_fmap in Hb as (i & -> & Hi). apply elem_of_seq in Hi.
    assert (Hi' : in_cache i) by (unfold in_cache; lia).
    assert (Hc : caches s i (blockno (bufs s i))) by (split_and!; auto).
    destruct (bi_ref _ _ H i Hi') as (Hr & Hx & Hk). specialize (Hall i Hi').
    rewrite (pinx_caches L s i _ Hc) in Hr. apply elem_of_app. case_decide as E; [by left|right].
    specialize (Ho (blockno (bufs s i))). rewrite (owner_cached _ _ H i _ Hc) in Ho.
    rewrite decide_False in Ho by lia. by case_decide. }
  pose proof (submseteq_length _ _ (NoDup_submseteq _ _ Hnd Hsub)) as Hlen.
  unfold bs in Hlen. rewrite length_fmap, length_seq, length_app in Hlen. lia.
Qed.

Lemma bq_held L O s i bn : bq L O s -> holds s i bn -> bn ∈ O.
Proof.
  intros [H _ Ho] Hh. specialize (Ho bn). rewrite (holds_owner _ _ _ _ H Hh) in Ho. by case_decide.
Qed.

(** bread of a block nobody holds *)
Lemma bread_spec x s bn :
  binv x s -> (forall i, in_cache i -> x i + 1 < 2 ^ 31) -> owner s bn = None ->
  (exists i, caches s i bn) \/ (exists i, in_cache i /\ refcnt (bufs s i) = 0) ->
  exists i s', bread ROOTDEV bn s = Ret i s' /\ binv x s' /\ holds s' i bn /\ stable s s' /\
    (forall b, content s' b = content s b) /\ owner s' bn = Some (bme s) /\
    (forall b, b <> bn -> owner s' b = owner s b) /\ (forall j, j <> i -> bufs s' j = bufs s j) /\
    slocked (lock (bufs s i)) = 0 /\
    (caches s i bn \/ refcnt (bufs s i) = 0 /\ forall j, ~ caches s j bn).
Proof.
  intros H Hx Ho Hroom.
  destruct (bget_ref_spec _ _ bn H) as (i & s1 & E1 & B1 & C1 & V1 & S1 & W1 & O1 & L1 & D1); [intros i Hc; apply Hx, Hc|done|].
  pose proof (bi_ref _ _ H i (proj1 C1)) as (_ & Hxi & _).
  assert (Hfree : slocked (lock (bufs s1 i)) = 0).
  { rewrite <- (sv_owner _ _ V1) in Ho. rewrite (owner_cached _ _ B1 i bn C1) in Ho. by case_decide. }
  destruct (acquiresleep_buf_spec _ _ i B1) as [E2 B2]; [apply C1|apply C1|done|rewrite upd_same; lia|].
  set (s2 := with_ref i (refcnt (bufs s1 i)) (MkSleep 1 (bme s1)) s1) in *.
  assert (D2 : forall j, in_cache j -> same_data (bufs s1 j) (bufs s2 j)) by (apply same_data_upd_buf; by split_and!).
  assert (C2 : caches s2 i bn) by (by apply (caches_frame _ _ D2)).
  assert (L2 : lock (bufs s2 i) = MkSleep 1 (bme s1)) by (unfold s2, with_ref; by rewrite bufs_upd_same).
  destruct (bfill_spec _ _ i bn B2 C2) as (s3 & E3 & B3 & V3 & S3 & W3 & C3 & Hv3 & Hd3 & L3 & R3 & O3); [by rewrite L2|].
  assert (S2 : stable s1 s2) by (by constructor). pose proof (st_me _ _ S1). pose proof (st_me _ _ S3) as M3.
  change (bme s2) with (bme s1) in M3.
  exists i, s3. split_and!.
  - unfold bread, bget, bind, ret. by rewrite E1, E2, E3.
  - eapply binv_ext; [|done..|exact B3]. intros j. upd_at j i; lia || done.
  - split_and!; [exact C3|done|congruence].
  - etrans; [exact S1|]. by etrans.
  - intros b. rewrite (sv_content _ _ V3), (content_frame _ _ _ _ B1 B2 D2 b eq_refl). apply (sv_content _ _ V1).
  - rewrite (sv_owner _ _ V3), (owner_cached _ _ B2 i bn C2), L2. by rewrite decide_False; [simpl; congruence|].
  - intros b Hb. rewrite (sv_owner _ _ V3), <- (sv_owner _ _ V1). apply (owner_frame _ _ _ _ B1 B2 D2).
    intros j (_ & _ & Hj). unfold s2, with_ref. rewrite bufs_upd_other; [done|]. intros ->.
    destruct C1 as (_ & _ & ?). congruence.
  - intros j Hj. rewrite O3 by done. unfold s2, with_ref. rewrite bufs_upd_other by done. by apply O1.
  - by rewrite <- L1.
  - destruct D1 as [[? _]|?]; [by left|by right].
Qed.

(** bread of a block not held: its content, behind a new handle. *)
Lemma bread_q L O s bn :
  bq L O s -> bn ∉ O -> bn ∈ L \/ (length L + length O < NBUF)%nat ->
  exists i s', bread ROOTDEV bn s = Ret i s' /\ bq L (bn :: O) s' /\ holds s' i bn /\ stable s s' /\
    (forall b, content s' b = content s b) /\ keeps_handles s s'.
Proof.
  intros Hq Hn Hroom. pose proof Hq as [H Hl Ho].
  destruct (bread_spec _ _ bn H) as (i & s' & E & B & Hh & S & V & O1 & O2 & F & Hlk & D).
  { intros i _. unfold pinx. case_decide; lia. }
  { rewrite Ho. by rewrite decide_False. }
  { destruct Hroom as [Hb|Hb]; [left; destruct (Hl bn Hb) as (i & ? & _); by exists i|right; by eapply bq_room]. }
  pose proof Hh as (Hc & Hv & Hk). exists i, s'.
  assert (Hold : forall b, caches s i b -> b ∈ L -> b = bn).
  { intros b Hcb Hb. destruct D as [(_ & _ & <-)|[Hr Hnc]]; [by destruct Hcb as (_ & _ & <-)|].
    destruct (bi_ref _ _ H i) as (Hr' & _ & Hk'); [apply Hcb|]. rewrite (pinx_caches L s i b Hcb) in Hr'.
    rewrite decide_True in Hr' by done. lia. }
  assert (Hpin : forall j, in_cache j -> pinx L s' j = pinx L s j).
  { intros j Hj. destruct (decide (j = i)) as [->|]; [|by rewrite (pinx_ext L s s') by (by rewrite F)].
    rewrite (pinx_caches L s' i bn Hc). destruct D as [D|[Hr Hnc]]; [by rewrite (pinx_caches L s i bn)|].
    rewrite decide_False; [|intros Hb; destruct (Hl bn Hb) as (k & ? & _); by apply (Hnc k)].
    destruct (bi_ref _ _ H i Hj) as (Hr' & Hx & _). rewrite Hr, Hlk in Hr'. lia. }
  split_and!; try done.
  - constructor.
    + by eapply binv_counts.
    + intros b Hb. destruct (Hl b Hb) as (j & Hj & Hvj). destruct (decide (j = i)) as [->|Nj].
      * rewrite (Hold b Hj Hb). by exists i.
      * exists j. unfold caches. by rewrite F.
    + intros b. rewrite (st_me _ _ S). destruct (decide (b = bn)) as [->|Nb].
      * rewrite O1. rewrite decide_True; [done|left].
      * rewrite O2, Ho by done. apply decide_ext. rewrite elem_of_cons. naive_solver.
  - intros j b (Hcj & Hvj & Hkj). assert (j <> i) by (intros ->; by rewrite Hkj in Hlk).
    unfold holds, caches. rewrite F, (st_me _ _ S) by done. done.
Qed.

(** A store changes the content of the block held. *)
Lemma bstore_q L O s i bn f :
  bq L O s -> holds s i bn -> length (f (content s bn)) = Z.to_nat BSIZE ->
  exists s', bstore i f s = Ret tt s' /\ bq L O s' /\ stable s s' /\
    content s' bn = f (content s bn) /\ (forall b, b <> bn -> content s' b = content s b) /\ keeps_handles s s'.
Proof.
  intros [H Hl Ho] Hh Hlen.
  destruct (bstore_spec _ _ i bn f H Hh Hlen) as (s' & E & B & S & W & Hh' & C1 & C2 & O' & F & R).
  assert (Hpin : forall j, pinx L s' j = pinx L s j).
  { intros j. destruct (decide (j = i)) as [->|]; apply pinx_ext; try (by rewrite F);
      destruct Hh as ((_ & ? & ?) & _), Hh' as ((_ & ? & ?) & _); congruence. }
  exists s'. split_and!; try done.
  - constructor.
    + by eapply binv_ext.
    + intros b Hb. destruct (Hl b Hb) as (j & Hj & Hvj). destruct (decide (j = i)) as [->|Nj].
      * assert (b = bn) as -> by (destruct Hj as (_ & _ & <-), Hh as ((_ & _ & <-) & _); done).
        exists i. split; apply Hh'.
      * exists j. unfold caches. by rewrite F.
    + intros b. by rewrite O', (st_me _ _ S).
  - intros j b (Hcj & Hvj & Hkj). destruct (decide (j = i)) as [->|Nj].
    + assert (b = bn) as -> by (destruct Hcj as (_ & _ & <-), Hh as ((_ & _ & <-) & _); done). done.
    + unfold holds, caches. by rewrite F, (st_me _ _ S).
Qed.

Lemma bwrite_q L O s i bn :
  bq L O s -> holds s i bn ->
  exists s', bwrite i s = Ret tt s' /\ bq L O s' /\ (forall b, content s' b = content s b) /\
    bheld s' = bheld s /\ bme s' = bme s /\
    disk s' bn = content s bn /\ (forall b, b <> bn -> disk s' b = disk s b) /\
    wlog s' = wlog s ++ [(bn, content s bn)] /\ keeps_handles s s'.
Proof.
  intros [H Hl Ho] Hh.
  destruct (bwrite_spec _ _ i bn H Hh) as (s' & E & B & V & F & Hhd & Hm & Hw & D1 & D2 & Wl).
  exists s'. split_and!; try done.
  - constructor.
    + eapply binv_ext; [|done..|exact B]. intros j. unfold pinx. by rewrite F.
    + intros b Hb. unfold caches. rewrite F. by apply Hl.
    + intros b. by rewrite (sv_owner _ _ V), Hm.
  - apply (sv_content _ _ V).
  - intros j b. unfold holds, caches. by rewrite F, Hm.
Qed.

Lemma brelse_q L O s i bn :
  bq L O s -> holds s i bn -> bn ∈ L \/ content s bn = disk s bn ->
  exists s', brelse i s = Ret tt s' /\ bq L (remove_one bn O) s' /\ stable s s' /\
    (forall b, content s' b = content s b) /\ (forall j b, b <> bn -> holds s j b -> holds s' j b).
Proof.
  intros [H Hl Ho] Hh Hcl. pose proof Hh as (Hc & Hv & Hk).
  destruct (brelse_spec _ _ i bn H Hh) as (s' & E & B & S & W & C & O1 & O2 & F & Fi).
  { rewrite (pinx_caches L s i bn Hc). case_decide; [lia|]. naive_solver. }
  assert (Hkeep : forall j, dev (bufs s' j) = dev (bufs s j) /\ blockno (bufs s' j) = blockno (bufs s j) /\ valid (bufs s' j) = valid (bufs s j)).
  { intros j. destruct (decide (j = i)) as [->|]; [by rewrite Fi|by rewrite F]. }
  exists s'. split_and!; try done.
  - constructor.
    + eapply binv_ext; [|done..|exact B]. intros j. apply pinx_ext; apply Hkeep.
    + intros b Hb. destruct (Hl b Hb) as (j & (? & ? & ?) & Hvj). exists j. unfold caches.
      destruct (Hkeep j) as (-> & -> & ->). done.
    + intros b. rewrite (st_me _ _ S). destruct (decide (b = bn)) as [->|Nb].
      * rewrite O1, decide_False; [done|]. rewrite elem_of_remove_one. naive_solver.
      * rewrite O2, Ho by done. apply decide_ext. rewrite elem_of_remove_one. naive_solver.
  - intros j b Hb (Hcj & Hvj & Hkj).
    assert (j <> i) by (intros ->; destruct Hcj as (_ & _ & <-), Hc as (_ & _ & <-); done).
    unfold holds, caches. by rewrite F, (st_me _ _ S).
Qed.

(** bpin and bunpin move a block into and out of the pinned ones. *)
Lemma with_ref_q L L' O s i bn r :
  bq L O s -> holds s i bn -> (forall b, b <> bn -> b ∈ L' <-> b ∈ L) ->
  r = 1 + (if decide (bn ∈ L') then 1 else 0) ->
  bq L' O (with_ref i r (lock (bufs s i)) s) /\ stable s (with_ref i r (lock (bufs s i)) s) /\
  (forall b, content (with_ref i r (lock (bufs s i)) s) b = content s b) /\
  keeps_handles s (with_ref i r (lock (bufs s i)) s).
Proof.
  intros [H Hl Ho] Hh HL ->. pose proof Hh as (Hc & Hv & Hk). set (r := 1 + _). set (s' := with_ref i r _ s).
  assert (B : binv (upd (pinx L s) i (r - slocked (lock (bufs s i)))) s').
  { apply binv_with_ref; rewrite ?Hk; simpl; try done; try apply Hc; unfold r; case_decide; lia. }
  pose proof (with_ref_view _ _ i r _ H B eq_refl) as V.
  assert (D : forall j, in_cache j -> same_data (bufs s j) (bufs s' j)) by (apply same_data_upd_buf; by split_and!).
  assert (Hlk : forall j, lock (bufs s' j) = lock (bufs s j)).
  { intros j. unfold s', with_ref. destruct (decide (j = i)) as [->|]; [by rewrite bufs_upd_same|by rewrite bufs_upd_other]. }
  split_and!; [|by constructor|apply (sv_content _ _ V)|].
  - constructor.
    + eapply binv_counts; [|exact B]. intros j Hj. destruct (D j Hj) as (Dd & Db & _).
      destruct (decide (j = i)) as [->|Nj]; [rewrite upd_same|rewrite upd_other by done].
      * rewrite Hk. unfold r. rewrite (pinx_caches L' s' i bn); [simpl; lia|]. by apply (caches_frame _ _ D).
      * rewrite (pinx_ext L' s s' j Dd Db). unfold pinx. apply decide_ext.
        destruct (decide (dev (bufs s j) = ROOTDEV)); [|naive_solver]. rewrite HL; [done|].
        intros Hb. assert (j = i) by (eapply (bi_uniq _ _ H); [by split_and!|done]). done.
    + intros b Hb. destruct (decide (b = bn)) as [->|Nb].
      * exists i. split; [by apply (caches_frame _ _ D)|]. destruct (D i (proj1 Hc)) as (_ & _ & -> & _). done.
      * destruct (Hl b) as (j & Hj & Hvj); [by apply HL|]. exists j. split; [by apply (caches_frame _ _ D)|].
        destruct (D j (proj1 Hj)) as (_ & _ & -> & _). done.
    + intros b. rewrite (sv_owner _ _ V). apply Ho.
  - intros j b (Hcj & Hvj & Hkj). split_and!.
    + by apply (caches_frame _ _ D).
    + destruct (D j (proj1 Hcj)) as (_ & _ & -> & _). done.
    + by rewrite Hlk.
Qed.

Lemma bpin_q L O s i bn :
  bq L O s -> holds s i bn -> bn ∉ L ->
  exists s', bpin i s = Ret tt s' /\ bq (bn :: L) O s' /\ stable s s' /\
    (forall b, content s' b = content s b) /\ keeps_handles s s'.
Proof.
  intros Hq Hh Hn. pose proof Hq as [H _ _]. pose proof Hh as (Hc & _ & _). eexists. split; [eapply bpin_eq; [exact H|apply Hc]|].
  apply (with_ref_q L _ O s i bn); [done|done|intros; rewrite elem_of_cons; naive_solver|].
  rewrite (holds_in_use _ _ _ _ H Hh), (pinx_caches L s i bn Hc), decide_False by done.
  rewrite decide_True; [lia|left].
Qed.

Lemma bunpin_q L O s i bn :
  bq L O s -> holds s i bn -> bn ∈ L ->
  exists s', bunpin i s = Ret tt s' /\ bq (remove_one bn L) O s' /\ stable s s' /\
    (forall b, content s' b = content s b) /\ keeps_handles s s'.
Proof.
  intros Hq Hh Hn. pose proof Hq as [H _ _]. pose proof Hh as (Hc & _ & _).
  assert (Hp : pinx L s i = 1) by (by rewrite (pinx_caches L s i bn Hc), decide_True).
  eexists. split; [eapply bunpin_eq; [exact H|apply Hc|lia]|].
  apply (with_ref_q L _ O s i bn); [done|done|intros; rewrite elem_of_remove_one; naive_solver|].
  rewrite (holds_in_use _ _ _ _ H Hh), Hp, decide_False; [lia|]. rewrite elem_of_remove_one. naive_solver.
Qed.
