(* ===== verification/Bytes.v ===== *)
(** Little-endian fields inside a block of bytes, as the casts of buf->data to
    struct logheader, struct dinode, uint and struct dirent arrays read them. *)

From stdpp Require Import base list.
From S2P Require Import Prelude.

Fixpoint le_get (d : list Z) (off : nat) (n : nat) : Z :=
  match n with
  | O => 0
  | S n => nth off d 0 + 256 * le_get d (S off) n
  end.

Fixpoint le_put (d : list Z) (off : nat) (v : Z) (n : nat) : list Z :=
  match n with
  | O => d
  | S n => le_put (<[off := v mod 256]> d) (S off) (v / 256) n
  end.

Definition get16 (d : list Z) (off : Z) : Z := le_get d (Z.to_nat off) 2.
Definition put16 (d : list Z) (off v : Z) : list Z := le_put d (Z.to_nat off) v 2.
Definition get32 (d : list Z) (off : Z) : Z := le_get d (Z.to_nat off) 4.
Definition put32 (d : list Z) (off v : Z) : list Z := le_put d (Z.to_nat off) v 4.

(** Every entry is a byte. *)
Definition isbytes (d : list Z) : Prop := forall x, x ∈ d -> 0 <= x < 256.

Lemma length_le_put d off v n : length (le_put d off v n) = length d.
Proof.
  revert d off v. induction n as [|n IH]; intros; simpl; [done|]. by rewrite IH, length_insert.
Qed.

Lemma nth_insert_same (d : list Z) i v : (i < length d)%nat -> nth i (<[i := v]> d) 0 = v.
Proof. intros. apply nth_lookup_Some. by apply list_lookup_insert_eq. Qed.

Lemma nth_insert_other (d : list Z) i j v : i <> j -> nth j (<[i := v]> d) 0 = nth j d 0.
Proof. intros. by rewrite !nth_lookup, list_lookup_insert_ne. Qed.

Lemma nth_le_put d off v n j : (j < off \/ off + n <= j)%nat -> nth j (le_put d off v n) 0 = nth j d 0.
Proof.
  revert d off v. induction n as [|n IH]; intros d off v Hj; simpl; [done|].
  rewrite IH by lia. apply nth_insert_other. lia.
Qed.

Lemma le_get_ext d d' off n :
  (forall j, (off <= j < off + n)%nat -> nth j d 0 = nth j d' 0) -> le_get d off n = le_get d' off n.
Proof.
  revert off. induction n as [|n IH]; intros off H; simpl; [done|]. rewrite (H off) by lia.
  f_equal. f_equal. apply IH. intros. apply H. lia.
Qed.

Lemma le_get_put_same d off v n :
  (off + n <= length d)%nat -> le_get (le_put d off v n) off n = v mod 256 ^ Z.of_nat n.
Proof.
  revert d off v. induction n as [|n IH]; intros d off v Hl; simpl le_get; simpl le_put.
  - by rewrite Z.mod_1_r.
  - rewrite IH by (rewrite length_insert; lia). rewrite nth_le_put by lia.
    rewrite nth_insert_same by lia. rewrite Nat2Z.inj_succ, Z.pow_succ_r by lia.
    rewrite Z.rem_mul_r by lia. done.
Qed.

Lemma le_get_put_other d off v n off' n' :
  (off' + n' <= off \/ off + n <= off')%nat -> le_get (le_put d off v n) off' n' = le_get d off' n'.
Proof. intros H. apply le_get_ext. intros j Hj. apply nth_le_put. lia. Qed.

Lemma isbytes_Forall d : Forall (fun x => 0 <= x < 256) d -> isbytes d.
Proof. by rewrite Forall_forall. Qed.

Lemma isbytes_nth d i : isbytes d -> 0 <= nth i d 0 < 256.
Proof.
  intros H. destruct (le_lt_dec (length d) i) as [Hl|Hl].
  - rewrite nth_overflow by lia. lia.
  - destruct (lookup_lt_is_Some_2 d i Hl) as [x Hx]. rewrite (nth_lookup_Some _ _ _ _ Hx).
    apply H, list_elem_of_lookup. by exists i.
Qed.

Lemma isbytes_insert d i v : isbytes d -> 0 <= v < 256 -> isbytes (<[i := v]> d).
Proof.
  intros H Hv x Hx. apply list_elem_of_lookup in Hx as [j Hj]. apply list_lookup_insert_Some in Hj as [(_ & <- & _)|[_ Hj]]; [done|].
  apply H. apply list_elem_of_lookup. by exists j.
Qed.

Lemma isbytes_le_put d off v n : isbytes d -> isbytes (le_put d off v n).
Proof.
  revert d off v. induction n as [|n IH]; intros d off v H; simpl; [done|].
  apply IH, isbytes_insert; [done|]. apply Z.mod_pos_bound. lia.
Qed.

Lemma le_get_range d off n : isbytes d -> 0 <= le_get d off n < 256 ^ Z.of_nat n.
Proof.
  intros H. revert off. induction n as [|n IH]; intros off; simpl le_get; [simpl; lia|].
  rewrite Nat2Z.inj_succ, Z.pow_succ_r by lia. pose proof (isbytes_nth d off H). specialize (IH (S off)). lia.
Qed.

(** The fields of the widths used *)
Section fields.
Implicit Types (d : list Z) (off v : Z).

Lemma length_put16 d off v : length (put16 d off v) = length d.
Proof. apply length_le_put. Qed.
Lemma length_put32 d off v : length (put32 d off v) = length d.
Proof. apply length_le_put. Qed.

Lemma get16_put16_same d off v :
  0 <= off -> off + 2 <= Z.of_nat (length d) -> get16 (put16 d off v) off = u16 v.
Proof. intros. unfold get16, put16. rewrite le_get_put_same by lia. done. Qed.
Lemma get32_put32_same d off v :
  0 <= off -> off + 4 <= Z.of_nat (length d) -> get32 (put32 d off v) off = u32 v.
Proof. intros. unfold get32, put32. rewrite le_get_put_same by lia. done. Qed.
Lemma get32_put32_other d off off' v :
  0 <= off -> 0 <= off' -> off' + 4 <= off \/ off + 4 <= off' -> get32 (put32 d off v) off' = get32 d off'.
Proof. intros. apply le_get_put_other. lia. Qed.
Lemma get16_put16_other d off off' v :
  0 <= off -> 0 <= off' -> off' + 2 <= off \/ off + 2 <= off' -> get16 (put16 d off v) off' = get16 d off'.
Proof. intros. apply le_get_put_other. lia. Qed.
Lemma get32_put16_other d off off' v :
  0 <= off -> 0 <= off' -> off' + 4 <= off \/ off + 2 <= off' -> get32 (put16 d off v) off' = get32 d off'.
Proof. intros. apply le_get_put_other. lia. Qed.
Lemma get16_put32_other d off off' v :
  0 <= off -> 0 <= off' -> off' + 2 <= off \/ off + 4 <= off' -> get16 (put32 d off v) off' = get16 d off'.
Proof. intros. apply le_get_put_other. lia. Qed.
Lemma get32_range d off : isbytes d -> 0 <= get32 d off < 2 ^ 32.
Proof. apply (le_get_range d _ 4). Qed.
Lemma get16_range d off : isbytes d -> 0 <= get16 d off < 2 ^ 16.
Proof. apply (le_get_range d _ 2). Qed.
End fields.

#[export] Hint Rewrite length_put16 length_put32 : kernel.
