(* ===== verification/Log.v ===== *)
(** Write-ahead logging, [src/xv6-riscv/kernel/log.c], over the buffer cache. *)

From stdpp Require Import base list strings.
From S2P Require Import Prelude Spinlock Sleeplock Bytes Bio.

Definition MAXOPBLOCKS : Z := 10.
Definition LOGSIZE : Z := MAXOPBLOCKS * 3.

(** struct log with its struct logheader; the lock is [LLog]. *)
Record logst := MkLog {
  start : Z; size : Z; outstanding : Z; committing : Z; ldev : Z; lhn : Z; lhblock : list Z }.

Definition log0 : logst := MkLog 0 0 0 0 0 0 (replicate (Z.to_nat LOGSIZE) 0).

Definition set_layout a b d l := MkLog a b (outstanding l) (committing l) d (lhn l) (lhblock l).
Definition set_outstanding v l := MkLog (start l) (size l) v (committing l) (ldev l) (lhn l) (lhblock l).
Definition set_committing v l := MkLog (start l) (size l) (outstanding l) v (ldev l) (lhn l) (lhblock l).
Definition set_lhn v l := MkLog (start l) (size l) (outstanding l) (committing l) (ldev l) v (lhblock l).
Definition set_lhblock v l := MkLog (start l) (size l) (outstanding l) (committing l) (ldev l) (lhn l) v.

Record lst := MkL { bio : bst; lg : logst }.
Definition set_bio b s := MkL b (lg s).
Definition set_lg l s := MkL (bio s) l.

#[export] Instance lst_locks : LockView lst := {
  held := fun s => held (bio s); set_held := fun h s => set_bio (set_held h (bio s)) s;
  held_set_held := fun _ _ => eq_refl; set_held_twice := fun _ _ _ => eq_refl;
  set_held_id := fun s => match s with MkL (MkB _ _ _ _ _ _ _ _) _ => eq_refl end }.

#[export] Instance lst_thread : Thread lst := {
  thread_locks := lst_locks; mypid := fun s => mypid (bio s); woken := fun s => woken (bio s);
  set_woken := fun w s => set_bio (set_woken w (bio s)) s;
  woken_set_woken := fun _ _ => eq_refl; held_set_woken := fun _ _ => eq_refl;
  woken_set_held := fun _ _ => eq_refl; mypid_set_woken := fun _ _ => eq_refl;
  mypid_set_held := fun _ _ => eq_refl; set_woken_held := fun _ _ _ => eq_refl }.

(** Code of bio.c *)
Definition liftb {A} (c : M bst A) : M lst A := fun s =>
  match c (bio s) with
  | Ret a b => Ret a (set_bio b s)
  | Panic msg => Panic msg
  | Blocked b => Blocked (set_bio b s)
  | OutOfFuel => OutOfFuel
  end.

Definition getl : M lst logst := get lg.
Definition setl (f : logst -> logst) : M lst unit := modify (fun s => set_lg (f (lg s)) s).

(** b->data and b->blockno of a buffer *)
Definition bdata (b : nat) : M lst block := get (fun s => data (bufs (bio s) b)).
Definition bblockno (b : nat) : M lst Z := get (fun s => blockno (bufs (bio s) b)).

(** The header as a struct: n at offset 0, block[i] at 4 + 4 i, all ints. *)
Definition hdr_n (d : block) : Z := s32 (get32 d 0).
Definition hdr_block (d : block) (i : Z) : Z := s32 (get32 d (4 + 4 * i)).

(** for(tail = 0; tail < log.lh.n; tail++) *)
Fixpoint install_loop (tail : Z) (fuel : nat) (recovering : bool) : M lst unit :=
  match fuel with
  | O => ret tt
  | S fuel =>
      let! l := getl in
      let! lbuf := liftb (bread (ldev l) (start l + tail + 1)) in
      let! dbuf := liftb (bread (ldev l) (rd (lhblock l) tail)) in
      let! d := bdata lbuf in
      liftb (bstore dbuf (fun _ => d)) ;;;
      liftb (bwrite dbuf) ;;;
      (when negb recovering then liftb (bunpin dbuf)) ;;;
      liftb (brelse lbuf) ;;;
      liftb (brelse dbuf) ;;;
      install_loop (tail + 1) fuel recovering
  end.

Definition install_trans (recovering : bool) : M lst unit :=
  let! l := getl in install_loop 0 (Z.to_nat (lhn l)) recovering.

Definition read_head : M lst unit :=
  let! l := getl in
  let! b := liftb (bread (ldev l) (start l)) in
  let! d := bdata b in
  setl (set_lhn (hdr_n d)) ;;;
  setl (fun l => set_lhblock
    (for_up 0 (Z.to_nat (lhn l)) (fun i bl => wr bl i (hdr_block d i)) (lhblock l)) l) ;;;
  liftb (brelse b).

(** The header block with n and the first n block numbers stored into it *)
Definition put_header (l : logst) (d : block) : block :=
  for_up 0 (Z.to_nat (lhn l)) (fun i d => put32 d (4 + 4 * i) (rd (lhblock l) i)) (put32 d 0 (lhn l)).

Definition write_head : M lst unit :=
  let! l := getl in
  let! b := liftb (bread (ldev l) (start l)) in
  liftb (bstore b (put_header l)) ;;;
  liftb (bwrite b) ;;;
  liftb (brelse b).

Definition recover_from_log : M lst unit :=
  read_head ;;;
  install_trans true ;;;
  setl (set_lhn 0) ;;;
  write_head.

(** initlog(dev, sb) with sb->logstart and sb->nlog; the header is 4 + 4 LOGSIZE bytes. *)
Definition initlog (dev logstart nlog : Z) : M lst unit :=
  if BSIZE <=? 4 + 4 * LOGSIZE then panic "initlog: too big logheader"
  else
    setl (set_layout logstart nlog dev) ;;;
    recover_from_log.

(** One turn of begin_op's loop: a sleeping process runs begin_op again when it
    is woken, since sleep returns with the lock held. *)
Definition begin_op : M lst unit :=
  lock_acquire LLog ;;;
  let! l := getl in
  if negb (committing l =? 0) then sleep CLog LLog
  else if LOGSIZE <? lhn l + (outstanding l + 1) * MAXOPBLOCKS then sleep CLog LLog
  else
    setl (set_outstanding (outstanding l + 1)) ;;;
    lock_release LLog.

(** for(tail = 0; tail < log.lh.n; tail++) *)
Fixpoint write_log_loop (tail : Z) (fuel : nat) : M lst unit :=
  match fuel with
  | O => ret tt
  | S fuel =>
      let! l := getl in
      let! to := liftb (bread (ldev l) (start l + tail + 1)) in
      let! from := liftb (bread (ldev l) (rd (lhblock l) tail)) in
      let! d := bdata from in
      liftb (bstore to (fun _ => d)) ;;;
      liftb (bwrite to) ;;;
      liftb (brelse from) ;;;
      liftb (brelse to) ;;;
      write_log_loop (tail + 1) fuel
  end.

Definition write_log : M lst unit :=
  let! l := getl in write_log_loop 0 (Z.to_nat (lhn l)).

Definition commit : M lst unit :=
  let! l := getl in
  when 0 <? lhn l then
    write_log ;;;
    write_head ;;;
    install_trans false ;;;
    setl (set_lhn 0) ;;;
    write_head.

Definition end_op : M lst unit :=
  lock_acquire LLog ;;;
  setl (fun l => set_outstanding (outstanding l - 1) l) ;;;
  let! l := getl in
  if negb (committing l =? 0) then panic "log.committing"
  else
    let! do_commit :=
      if outstanding l =? 0 then setl (set_committing 1) ;;; ret true
      else wakeup CLog ;;; ret false in
    lock_release LLog ;;;
    when do_commit then
      commit ;;;
      lock_acquire LLog ;;;
      setl (set_committing 0) ;;;
      wakeup CLog ;;;
      lock_release LLog.

(** for (i = 0; i < log.lh.n; i++) if (log.lh.block[i] == b->blockno) break; *)
Fixpoint find_logged (l : logst) (bn : Z) (i : Z) (fuel : nat) : Z :=
  match fuel with
  | O => i
  | S fuel => if rd (lhblock l) i =? bn then i else find_logged l bn (i + 1) fuel
  end.

Definition log_write (b : nat) : M lst unit :=
  lock_acquire LLog ;;;
  let! l := getl in
  if ((LOGSIZE <=? lhn l) || (size l - 1 <=? lhn l))%bool then panic "too big a transaction"
  else if outstanding l <? 1 then panic "log_write outside of trans"
  else
    let! bn := bblockno b in
    let i := find_logged l bn 0 (Z.to_nat (lhn l)) in
    setl (fun l => set_lhblock (wr (lhblock l) i bn) l) ;;;
    (when i =? lhn l then
      liftb (bpin b) ;;;
      setl (fun l => set_lhn (lhn l + 1) l)) ;;;
    lock_release LLog.
