(* ===== verification/LogInv.v ===== *)
(** What the code of log.c does to the disk: the writes of a commit and of a
    recovery, in order. *)

From stdpp Require Import base list sets strings.
From S2P Require Import Prelude Spinlock Sleeplock Ring Bio BioInv BioSeq Bytes Log.

Lemma liftb_ret {A} (c : M bst A) s a b : c (bio s) = Ret a b -> liftb c s = Ret a (set_bio b s).
Proof. unfold liftb. by intros ->. Qed.

Lemma liftb_ret' {A} (c : M bst A) s b0 a b : c b0 = Ret a b -> liftb c (set_bio b0 s) = Ret a (set_bio b s).
Proof. apply (liftb_ret c (set_bio b0 s)). Qed.

(** Run the next call of a sequence, whose result is given. *)
Ltac run_call E :=
  first [ rewrite (bind_ret_intro _ _ _ _ _ (liftb_ret _ _ _ _ E))
        | rewrite (bind_ret_intro _ _ _ _ _ (liftb_ret' _ _ _ _ _ E)) ].

(** Releasing what was just taken *)
Lemma remove_one_last (a : Z) : remove_one a [a] = [].
Proof. apply remove_one_head. apply not_elem_of_nil. Qed.

(** The part of the state no call of the log's loops changes *)
Record quiet (s s' : bst) : Prop := { qt_held : bheld s' = bheld s; qt_me : bme s' = bme s }.
#[export] Instance quiet_preorder : PreOrder quiet.
Proof. split; [by constructor|]. intros s1 s2 s3 [] []. constructor; congruence. Qed.
Lemma stable_quiet s s' : stable s s' -> quiet s s'.
Proof. intros []. by constructor. Qed.

(** The disk after a sequence of block writes *)
Definition apply_writes (D : Z -> block) (w : list (Z * block)) : Z -> block :=
  foldl (fun D '(a, d) => upd D a d) D w.

Lemma apply_writes_app D w w' : apply_writes D (w ++ w') = apply_writes (apply_writes D w) w'.
Proof. apply foldl_app. Qed.

Lemma apply_writes_ext D D' w b : D b = D' b -> apply_writes D w b = apply_writes D' w b.
Proof.
  revert D D'. induction w as [|[a d] w IH]; intros D D' H; simpl; [done|]. apply IH. unfold upd. by case_decide.
Qed.

(** A block not written keeps its content. *)
Lemma apply_writes_other D w b : b ∉ w.*1 -> apply_writes D w b = D b.
Proof.
  revert D. induction w as [|[a d] w IH]; intros D H; simpl in *; [done|].
  rewrite not_elem_of_cons in H. rewrite IH by tauto. apply upd_other. tauto.
Qed.

(** A block written once has what was written. *)
Lemma apply_writes_in D w a d : NoDup w.*1 -> (a, d) ∈ w -> apply_writes D w a = d.
Proof.
  revert D. induction w as [|[a' d'] w IH]; intros D Hn Hin; simpl in *; [by apply elem_of_nil in Hin|].
  apply NoDup_cons in Hn as [Ha Hn]. apply elem_of_cons in Hin as [[= -> ->]|Hin]; [|by apply IH].
  rewrite apply_writes_other by done. apply upd_same.
Qed.

(** The effect on cache and disk of writing blocks through them, in order *)
Record wrote (w : list (Z * block)) (s s' : bst) : Prop := {
  wr_content : forall b, content s' b = apply_writes (content s) w b;
  wr_disk : forall b, disk s' b = apply_writes (disk s) w b;
  wr_wlog : wlog s' = wlog s ++ w;
  wr_quiet : quiet s s' }.

Lemma wrote_nil s : wrote [] s s.
Proof. constructor; try done. by rewrite app_nil_r. Qed.

Lemma wrote_app w w' s s1 s2 : wrote w s s1 -> wrote w' s1 s2 -> wrote (w ++ w') s s2.
Proof.
  intros [A1 A2 A3 A4] [B1 B2 B3 B4]. constructor.
  - intros b. rewrite B1, apply_writes_app. by apply apply_writes_ext.
  - intros b. rewrite B2, apply_writes_app. by apply apply_writes_ext.
  - by rewrite B3, A3, app_assoc.
  - by etrans.
Qed.

Lemma wrote_one a d s s' :
  content s' a = d -> disk s' a = d -> (forall b, b <> a -> content s' b = content s b) ->
  (forall b, b <> a -> disk s' b = disk s b) -> wlog s' = wlog s ++ [(a, d)] -> quiet s s' ->
  wrote [(a, d)] s s'.
Proof.
  intros H1 H2 H3 H4 H5 H6. constructor; try done; intros b; simpl; unfold upd; case_decide; subst; auto.
Qed.

Section log.
Context (l : logst).
Hypothesis Hdev : ldev l = ROOTDEV.
Notation st := (start l).
Notation home i := (rd (lhblock l) i).

Lemma content_len L O s b : bq L O s -> length (content s b) = Z.to_nat BSIZE.
Proof.
  intros [H _ _]. destruct (bi_len _ _ H) as [H1 H2]. destruct (caches_dec s b) as [[i Hc]|Hn].
  - destruct (decide (valid (bufs s i) = 0)) as [E|E].
    + rewrite content_uncached; [apply H1|]. intros j Hj. by replace j with i by (by eapply (bi_uniq _ _ H)).
    + rewrite (content_cached _ _ H i b Hc E). by apply H2; [apply Hc|].
  - rewrite content_uncached; [apply H1|]. intros j Hj. by destruct (Hn j).
Qed.

(** One turn of write_log: the cached block goes to its place in the log. *)
Lemma write_log_turn L s tail k :
  lg s = l -> bq L [] (bio s) -> (length L < NBUF)%nat -> home tail ∈ L -> st + tail + 1 ∉ L ->
  exists s', write_log_loop tail (S k) s = write_log_loop (tail + 1) k (set_bio s' s) /\
    bq L [] s' /\ wrote [(st + tail + 1, content (bio s) (home tail))] (bio s) s'.
Proof.
  intros Hl Hq Hroom Hin Hout. cbn [write_log_loop]. unfold getl.
  rewrite (bind_ret_intro (get lg) _ s (lg s) s eq_refl), Hl, Hdev.
  destruct (bread_q L [] (bio s) (st + tail + 1) Hq) as (ito & s1 & E1 & Q1 & H1 & S1 & C1 & K1);
    [apply not_elem_of_nil|right; simpl; lia|]. run_call E1.
  assert (home tail <> st + tail + 1) by congruence.
  destruct (bread_q L _ s1 (home tail) Q1) as (ifr & s2 & E2 & Q2 & H2 & S2 & C2 & K2); [set_solver|by left|].
  run_call E2. cbn [bio set_bio].
  unfold bdata at 1. rewrite (bind_ret_intro (get _) _ _ _ _ eq_refl). cbn [bio set_bio].
  rewrite <- (holds_content _ _ _ _ (bq_inv _ _ _ Q2) H2), C2, C1.
  destruct (bstore_q _ _ s2 ito (st + tail + 1) (fun _ => content (bio s) (home tail)) Q2) as (s3 & E3 & Q3 & S3 & C3 & C3' & K3);
    [by apply K2|by eapply content_len|]. run_call E3.
  destruct (bwrite_q _ _ s3 ito (st + tail + 1) Q3) as (s4 & E4 & Q4 & C4 & Hh4 & Hm4 & D4 & D4' & W4 & K4); [by apply K3, K2|].
  run_call E4.
  destruct (brelse_q _ _ s4 ifr (home tail) Q4) as (s5 & E5 & Q5 & S5 & C5 & K5); [by apply K4, K3|by left|].
  run_call E5.
  destruct (brelse_q _ _ s5 ito (st + tail + 1) Q5) as (s6 & E6 & Q6 & S6 & C6 & K6);
    [apply K5; [congruence|]; by apply K4, K3, K2|right; by rewrite C5, C4, (st_disk _ _ S5), D4|].
  run_call E6. exists s6. split; [done|]. split.
  - eapply bq_ext; [done| |exact Q6]. intros b. rewrite !elem_of_remove_one. set_solver.
  - destruct S1, S2, S3, S5, S6. apply wrote_one.
    + by rewrite C6, C5, C4, C3.
    + rewrite st_disk3, st_disk2, D4. done.
    + intros b Hb. by rewrite C6, C5, C4, C3', C2, C1.
    + intros b Hb. rewrite st_disk3, st_disk2, D4', st_disk1, st_disk0, st_disk; done.
    + rewrite st_wlog3, st_wlog2, W4, st_wlog1, st_wlog0, st_wlog, C3. done.
    + constructor; congruence.
Qed.

(** The writes of write_log from entry [tail] on, [C] being the contents. *)
Definition log_writes (C : Z -> block) (tail : Z) (k : nat) : list (Z * block) :=
  (fun i => (st + i + 1, C (home i))) <$> seqZ tail (Z.of_nat k).

Lemma seqZ_S tail k : seqZ tail (Z.of_nat (S k)) = tail :: seqZ (tail + 1) (Z.of_nat k).
Proof. rewrite seqZ_cons by lia. f_equal; f_equal; lia. Qed.

Lemma fmap_seqZ_ext {A} (f g : Z -> A) tail k :
  (forall i, tail <= i < tail + k -> f i = g i) -> f <$> seqZ tail k = g <$> seqZ tail k.
Proof. intros H. apply list_fmap_ext. intros j x Hx. apply H. apply elem_of_seqZ. by eapply list_elem_of_lookup_2. Qed.

Lemma write_log_loop_spec L k s tail :
  lg s = l -> bq L [] (bio s) -> (length L < NBUF)%nat ->
  (forall i, tail <= i < tail + Z.of_nat k -> home i ∈ L /\ st + i + 1 ∉ L) ->
  exists s', write_log_loop tail k s = Ret tt (set_bio s' s) /\ bq L [] s' /\
    wrote (log_writes (content (bio s)) tail k) (bio s) s'.
Proof.
  revert s tail. induction k as [|k IH]; intros s tail Hl Hq Hroom Hh.
  - exists (bio s). cbn [write_log_loop]. split_and!; [by destruct s|done|apply wrote_nil].
  - destruct (write_log_turn L s tail k Hl Hq Hroom) as (s1 & -> & Q1 & W1); [apply Hh; lia|apply Hh; lia|].
    destruct (IH (set_bio s1 s) (tail + 1)) as (s2 & -> & Q2 & W2); [done|done|done|intros; apply Hh; lia|].
    exists s2. split_and!; [done|done|]. unfold log_writes. rewrite seqZ_S, fmap_cons.
    apply (wrote_app [_] _ _ s1); [done|]. erewrite fmap_seqZ_ext; [exact W2|]. intros i Hi. f_equal.
    cbn [bio set_bio]. rewrite (wr_content _ _ _ W1), apply_writes_other; [done|].
    simpl. destruct (Hh i ltac:(lia)) as [? _]. destruct (Hh tail ltac:(lia)) as [_ ?]. rewrite list_elem_of_singleton. congruence.
Qed.

(** write_head stores the header in its block and on disk. *)
Lemma length_put_header d : length (put_header l d) = length d.
Proof.
  unfold put_header. generalize 0 at 1. intros a.
  assert (H : forall n a d, length (for_up a n (fun i d => put32 d (4 + 4 * i) (home i)) d) = length d).
  { induction n as [|n IH]; intros; simpl; [done|]. by rewrite IH, length_put32. }
  by rewrite H, length_put32.
Qed.

Lemma write_head_spec L s :
  lg s = l -> bq L [] (bio s) -> (length L < NBUF)%nat -> st ∉ L ->
  exists s', write_head s = Ret tt (set_bio s' s) /\ bq L [] s' /\
    wrote [(st, put_header l (content (bio s) st))] (bio s) s'.
Proof.
  intros Hl Hq Hroom Hout. unfold write_head, getl.
  rewrite (bind_ret_intro (get lg) _ s (lg s) s eq_refl), Hl, Hdev.
  destruct (bread_q L [] (bio s) st Hq) as (i & s1 & E1 & Q1 & H1 & S1 & C1 & K1); [apply not_elem_of_nil|right; simpl; lia|].
  run_call E1.
  destruct (bstore_q _ _ s1 i st (put_header l) Q1 H1) as (s2 & E2 & Q2 & S2 & C2 & C2' & K2);
    [rewrite length_put_header; by eapply content_len|]. run_call E2.
  destruct (bwrite_q _ _ s2 i st Q2) as (s3 & E3 & Q3 & C3 & Hh3 & Hm3 & D3 & D3' & W3 & K3); [by apply K2|].
  run_call E3.
  destruct (brelse_q _ _ s3 i st Q3) as (s4 & E4 & Q4 & S4 & C4 & K4); [by apply K3, K2|right; by rewrite C3, D3|].
  exists s4. rewrite (liftb_ret' _ _ _ _ _ E4). split; [done|]. split.
  - by rewrite remove_one_last in Q4.
  - rewrite C1 in C2. destruct S1, S2, S4. apply wrote_one.
    + by rewrite C4, C3, C2.
    + by rewrite st_disk1, D3, C2.
    + intros b Hb. by rewrite C4, C3, C2', C1.
    + intros b Hb. rewrite st_disk1, D3', st_disk0, st_disk; done.
    + rewrite st_wlog1, W3, st_wlog0, st_wlog, C2. done.
    + constructor; congruence.
Qed.

(** One turn of install_trans: a log block goes home. *)
Lemma install_turn L s tail k rec :
  lg s = l -> bq L [] (bio s) -> (length L < NBUF)%nat -> (rec = false -> home tail ∈ L) -> (rec = true -> L = []) ->
  st + tail + 1 ∉ L -> home tail <> st + tail + 1 -> content (bio s) (st + tail + 1) = disk (bio s) (st + tail + 1) ->
  exists s', install_loop tail (S k) rec s = install_loop (tail + 1) k rec (set_bio s' s) /\
    bq (remove_one (home tail) L) [] s' /\
    wrote [(home tail, content (bio s) (st + tail + 1))] (bio s) s'.
Proof.
  intros Hl Hq Hroom Hin Hrec Hout Hne Hcl. cbn [install_loop]. unfold getl.
  rewrite (bind_ret_intro (get lg) _ s (lg s) s eq_refl), Hl, Hdev.
  destruct (bread_q L [] (bio s) (st + tail + 1) Hq) as (il & s1 & E1 & Q1 & H1 & S1 & C1 & K1);
    [apply not_elem_of_nil|right; simpl; lia|]. run_call E1.
  destruct (bread_q L _ s1 (home tail) Q1) as (id & s2 & E2 & Q2 & H2 & S2 & C2 & K2); [set_solver| |].
  { destruct rec; [right; rewrite (Hrec eq_refl); simpl; unfold NBUF; lia|left; by apply Hin]. }
  run_call E2. cbn [bio set_bio].
  unfold bdata at 1. rewrite (bind_ret_intro (get _) _ _ _ _ eq_refl). cbn [bio set_bio].
  rewrite <- (holds_content _ _ _ _ (bq_inv _ _ _ Q2) (K2 _ _ H1)), C2, C1.
  destruct (bstore_q _ _ s2 id (home tail) (fun _ => content (bio s) (st + tail + 1)) Q2 H2) as (s3 & E3 & Q3 & S3 & C3 & C3' & K3);
    [by eapply content_len|]. run_call E3.
  destruct (bwrite_q _ _ s3 id (home tail) Q3) as (s4 & E4 & Q4 & C4 & Hh4 & Hm4 & D4 & D4' & W4 & K4); [by apply K3|].
  run_call E4.
  assert (exists s5, (when negb rec then liftb (bunpin id)) (set_bio s4 s) = Ret tt (set_bio s5 s) /\
    bq (remove_one (home tail) L) [home tail; st + tail + 1] s5 /\ stable s4 s5 /\
    (forall b, content s5 b = content s4 b) /\ keeps_handles s4 s5) as (s5 & E5 & Q5 & S5 & C5 & K5).
  { destruct rec; simpl.
    - rewrite (Hrec eq_refl) in *. exists s4. split_and!; [done|exact Q4|done|done|]. intros j b Hj. exact Hj.
    - destruct (bunpin_q _ _ s4 id (home tail) Q4) as (s5 & E5 & ? & ? & ? & ?); [by apply K4, K3|by apply Hin|].
      exists s5. rewrite (liftb_ret' _ _ _ _ _ E5). done. }
  rewrite (bind_ret_intro _ _ _ _ _ E5).
  destruct (brelse_q _ _ s5 il (st + tail + 1) Q5) as (s6 & E6 & Q6 & S6 & C6 & K6);
    [by apply K5, K4, K3, K2|right; rewrite C5, C4, C3', C2, C1, (st_disk _ _ S5), D4', (st_disk _ _ S3), (st_disk _ _ S2), (st_disk _ _ S1) by congruence; done|].
  run_call E6.
  destruct (brelse_q _ _ s6 id (home tail) Q6) as (s7 & E7 & Q7 & S7 & C7 & K7);
    [apply K6; [congruence|]; by apply K5, K4, K3|right; by rewrite C6, C5, C4, (st_disk _ _ S6), (st_disk _ _ S5), D4|].
  run_call E7. exists s7. split; [done|]. split.
  - eapply bq_ext; [done| |exact Q7]. intros b. rewrite !elem_of_remove_one. set_solver.
  - destruct S1, S2, S3, S5, S6, S7. apply wrote_one.
    + by rewrite C7, C6, C5, C4, C3.
    + by rewrite st_disk4, st_disk3, st_disk2, D4.
    + intros b Hb. by rewrite C7, C6, C5, C4, C3', C2, C1.
    + intros b Hb. rewrite st_disk4, st_disk3, st_disk2, D4', st_disk1, st_disk0, st_disk; done.
    + rewrite st_wlog4, st_wlog3, st_wlog2, W4, st_wlog1, st_wlog0, st_wlog, C3. done.
    + constructor; congruence.
Qed.

(** The writes of install_trans *)
Definition install_writes (C : Z -> block) (tail : Z) (k : nat) : list (Z * block) :=
  (fun i => (home i, C (st + i + 1))) <$> seqZ tail (Z.of_nat k).

Lemma install_loop_spec rec L k s tail :
  lg s = l -> bq L [] (bio s) -> (length L < NBUF)%nat ->
  (rec = false -> forall i, tail <= i < tail + Z.of_nat k -> home i ∈ L) -> (rec = true -> L = []) ->
  (forall b, b ∈ L -> exists i, tail <= i < tail + Z.of_nat k /\ home i = b) ->
  (forall i j, tail <= i < tail + Z.of_nat k -> tail <= j < tail + Z.of_nat k -> home i = home j -> i = j) ->
  (forall i j, tail <= i < tail + Z.of_nat k -> tail <= j < tail + Z.of_nat k -> home i <> st + j + 1) ->
  (forall i, tail <= i < tail + Z.of_nat k -> content (bio s) (st + i + 1) = disk (bio s) (st + i + 1)) ->
  exists s', install_loop tail k rec s = Ret tt (set_bio s' s) /\ bq [] [] s' /\
    wrote (install_writes (content (bio s)) tail k) (bio s) s'.
Proof.
  revert L s tail. induction k as [|k IH]; intros L s tail Hl Hq Hroom Hin Hrec Hsub Hinj Hout Hcl.
  - exists (bio s). cbn [install_loop]. split_and!; [by destruct s| |apply wrote_nil].
    eapply bq_ext; [|done|exact Hq]. intros b. split; [|by intros ?%elem_of_nil]. intros Hb.
    destruct (Hsub b Hb) as (i & ? & _). lia.
  - assert (Hnl : forall i, tail <= i < tail + Z.of_nat (S k) -> st + i + 1 ∉ L).
    { intros i Hi Hb. destruct (Hsub _ Hb) as (j & Hj & E). by apply (Hout j i). }
    destruct (install_turn L s tail k rec Hl Hq Hroom) as (s1 & -> & Q1 & W1);
      [intros; apply Hin; (done || lia)|done|apply Hnl; lia|apply Hout; lia|apply Hcl; lia|].
    assert (Hold : forall i, tail + 1 <= i < tail + 1 + Z.of_nat k -> content s1 (st + i + 1) = content (bio s) (st + i + 1) /\
      disk s1 (st + i + 1) = disk (bio s) (st + i + 1)).
    { intros i Hi. rewrite (wr_content _ _ _ W1), (wr_disk _ _ _ W1), !apply_writes_other; [done| |];
        simpl; rewrite list_elem_of_singleton; intros E; apply (Hout tail i); (lia || done). }
    destruct (IH (remove_one (home tail) L) (set_bio s1 s) (tail + 1)) as (s2 & -> & Q2 & W2); try done.
    + unfold remove_one. pose proof (length_filter (fun y => y <> home tail) L). lia.
    + intros Hf i Hi. apply elem_of_remove_one. split; [|apply Hin; (done || lia)].
      intros E. apply Hinj in E; lia.
    + intros Ht. by rewrite (Hrec Ht).
    + intros b [Hb Hb']%elem_of_remove_one. destruct (Hsub b Hb') as (i & Hi & <-). exists i. split; [|done].
      destruct (decide (i = tail)) as [->|]; [done|lia].
    + intros i j Hi Hj. apply Hinj; lia.
    + intros i j Hi Hj. apply Hout; lia.
    + intros i Hi. cbn [bio set_bio]. destruct (Hold i Hi) as [-> ->]. apply Hcl. lia.
    + exists s2. split_and!; [done|done|]. unfold install_writes. rewrite seqZ_S, fmap_cons.
      apply (wrote_app [_] _ _ s1); [done|]. erewrite fmap_seqZ_ext; [exact W2|]. intros i Hi.
      cbn [bio set_bio]. by rewrite (proj1 (Hold i Hi)).
Qed.
End log.

(** ** The header block *)

Lemma put_entries_get (h : Z -> Z) n a d j :
  0 <= a -> 4 + 4 * (a + Z.of_nat n) <= Z.of_nat (length d) -> 0 <= j ->
  get32 (for_up a n (fun i d => put32 d (4 + 4 * i) (h i)) d) (4 + 4 * j) =
    if decide (a <= j < a + Z.of_nat n) then u32 (h j) else get32 d (4 + 4 * j).
Proof.
  revert a d. induction n as [|n IH]; intros a d Ha Hl Hj; cbn [for_up].
  - by rewrite decide_False by lia.
  - rewrite IH by (rewrite ?length_put32; lia). destruct (Z.eq_dec j a) as [->|Hne].
    + rewrite decide_False, decide_True by lia.
      apply get32_put32_same; lia.
    + rewrite get32_put32_other by lia. apply decide_ext. lia.
Qed.

Lemma put_entries_n (h : Z -> Z) n a d :
  0 <= a -> get32 (for_up a n (fun i d => put32 d (4 + 4 * i) (h i)) d) 0 = get32 d 0.
Proof.
  revert a d. induction n as [|n IH]; intros a d Ha; cbn [for_up]; [done|].
  rewrite IH by lia. apply get32_put32_other; lia.
Qed.

Lemma s32_u32 v : - 2 ^ 31 <= v < 2 ^ 31 -> s32 (u32 v) = v.
Proof.
  intros H. unfold s32, u32. rewrite Zplus_mod_idemp_l. rewrite Z.mod_small by lia. lia.
Qed.

(** Reading back what write_head stored *)
Lemma put_header_get l d :
  length d = Z.to_nat BSIZE -> 0 <= lhn l <= LOGSIZE -> (forall i, 0 <= i < lhn l -> - 2 ^ 31 <= rd (lhblock l) i < 2 ^ 31) ->
  hdr_n (put_header l d) = lhn l /\ (forall i, 0 <= i < lhn l -> hdr_block (put_header l d) i = rd (lhblock l) i).
Proof.
  intros Hl Hn Hb. unfold LOGSIZE, MAXOPBLOCKS, BSIZE in *. split.
  - unfold hdr_n, put_header. rewrite put_entries_n by lia. rewrite get32_put32_same by lia. apply s32_u32. lia.
  - intros i Hi. unfold hdr_block, put_header. rewrite put_entries_get by (rewrite ?length_put32; lia).
    rewrite decide_True by lia.
    apply s32_u32. auto.
Qed.

(** read_head's loop *)
Lemma read_entries_rd (h : Z -> Z) n a bl j :
  0 <= a -> a + Z.of_nat n <= Z.of_nat (length bl) -> 0 <= j ->
  rd (for_up a n (fun i bl => wr bl i (h i)) bl) j =
    if decide (a <= j < a + Z.of_nat n) then h j else rd bl j.
Proof.
  revert a bl. induction n as [|n IH]; intros a bl Ha Hl Hj; cbn [for_up].
  - by rewrite decide_False by lia.
  - rewrite IH by (rewrite ?length_wr; lia). destruct (Z.eq_dec j a) as [->|Hne].
    + rewrite decide_False, decide_True by lia.
      apply rd_wr_same. lia.
    + rewrite rd_wr_other by lia. apply decide_ext. lia.
Qed.
