(* ===== verification/LogCrash.v ===== *)
(** Crash safety of the log: a commit interrupted at any disk write, followed by
    any number of interrupted recoveries and one that completes, leaves either
    all of the transaction's blocks or none of them on disk. *)

From stdpp Require Import base list sets strings.
From S2P Require Import Prelude Spinlock Sleeplock Ring Bio BioInv BioConc BioSeq Bytes Log LogInv.

(** ** Boot and recovery *)

(** A block neither logged nor held is the same in the cache and on disk. *)
Lemma bq_clean L O s b : bq L O s -> b ∉ L -> b ∉ O -> content s b = disk s b.
Proof.
  intros [H _ Ho] HL HO. destruct (caches_dec s b) as [[i Hc]|Hn].
  - destruct (decide (valid (bufs s i) = 0)) as [E|E].
    + apply content_uncached. intros j Hj. by replace j with i by (by eapply (bi_uniq _ _ H)).
    + rewrite (content_cached _ _ H i b Hc E). pose proof Hc as (Hi & _ & Hb). rewrite <- Hb. apply (bi_clean _ _ H); [done..|].
      destruct (bi_ref _ _ H i Hi) as (-> & _ & ?). rewrite (pinx_caches L s i b Hc), decide_False by done.
      specialize (Ho b). rewrite decide_False, (owner_cached _ _ H i b Hc) in Ho by done.
      destruct (decide (slocked (lock (bufs s i)) = 0)) as [->|]; [lia|discriminate].
  - apply content_uncached. intros j Hj. by destruct (Hn j).
Qed.

(** The machine after a restart: empty memory, the disk as the crash left it. *)
Definition boot (me : Z) (D : Z -> block) : lst := MkL (after_binit me D) log0.

Lemma boot_bq me D :
  (forall b, length (D b) = Z.to_nat BSIZE) ->
  bq [] [] (bio (boot me D)) /\ disk (bio (boot me D)) = D /\ wlog (bio (boot me D)) = [].
Proof.
  intros Hl. unfold boot. cbn [bio]. destruct (binit_binv me D Hl) as (_ & H & [? ? Hd Hw] & Hb).
  split; [|by split; [exact Hd|exact Hw]]. constructor.
  - eapply binv_counts; [|exact H]. intros j _. unfold pinx. by rewrite Hb.
  - intros b Hin. exfalso. by apply elem_of_nil in Hin.
  - intros b. rewrite owner_uncached, decide_False; [reflexivity|apply not_elem_of_nil|].
    intros i (_ & Hdv & _). rewrite Hb in Hdv. discriminate Hdv.
Qed.

Section layout.
Context (st sz : Z).
Hypothesis Hsz : 1 <= sz <= LOGSIZE.

(** A block of the log, header included *)
Definition in_log (b : Z) : Prop := st <= b < st + sz.

(** A disk whose log header makes sense: what mkfs, commits and recoveries,
    interrupted or not, produce. *)
Record wf_disk (D : Z -> block) : Prop := {
  wd_len : forall b, length (D b) = Z.to_nat BSIZE;
  wd_n : 0 <= hdr_n (D st) < sz;
  wd_out : forall i, 0 <= i < hdr_n (D st) -> ~ in_log (hdr_block (D st) i);
  wd_inj : forall i j, 0 <= i < hdr_n (D st) -> 0 <= j < hdr_n (D st) ->
    hdr_block (D st) i = hdr_block (D st) j -> i = j }.

(** What the disk holds for a reader once its log is installed *)
Definition logical (D : Z -> block) (b : Z) : block :=
  match list_find (fun i => hdr_block (D st) i = b) (seqZ 0 (hdr_n (D st))) with
  | Some (_, i) => D (st + i + 1)
  | None => D b
  end.

Lemma logical_in D i : wf_disk D -> 0 <= i < hdr_n (D st) -> logical D (hdr_block (D st) i) = D (st + i + 1).
Proof.
  intros W Hi. unfold logical.
  destruct (list_find _ _) as [[k j]|] eqn:E.
  - apply list_find_Some in E as (Hk & Hj & _). apply lookup_seqZ in Hk as [-> Hk].
    rewrite (wd_inj _ W (0 + Z.of_nat k) i); [done|lia|lia|done].
  - apply list_find_None in E. rewrite Forall_forall in E. destruct (E i); [|done]. apply elem_of_seqZ. lia.
Qed.

Lemma logical_out D b :
  (forall i, 0 <= i < hdr_n (D st) -> hdr_block (D st) i <> b) -> logical D b = D b.
Proof.
  intros Hn. unfold logical. destruct (list_find _ _) as [[k j]|] eqn:E; [|done].
  apply list_find_Some in E as (Hk & Hj & _). apply lookup_seqZ in Hk as [-> Hk]. exfalso. apply (Hn (0 + Z.of_nat k)); [lia|done].
Qed.

(** The writes of a recovery from [D]: the log installed, the header cleared *)
Definition recovery_writes (D : Z -> block) : list (Z * block) :=
  ((fun i => (hdr_block (D st) i, D (st + i + 1))) <$> seqZ 0 (hdr_n (D st))) ++ [(st, put32 (D st) 0 0)].

Lemma read_head_spec s d :
  ldev (lg s) = ROOTDEV -> bq [] [] (bio s) -> content (bio s) (start (lg s)) = d ->
  0 <= hdr_n d <= Z.of_nat (length (lhblock (lg s))) ->
  exists s', read_head s = Ret tt s' /\ bq [] [] (bio s') /\ wrote [] (bio s) (bio s') /\
    start (lg s') = start (lg s) /\ size (lg s') = size (lg s) /\ ldev (lg s') = ROOTDEV /\ lhn (lg s') = hdr_n d /\
    outstanding (lg s') = outstanding (lg s) /\ committing (lg s') = committing (lg s) /\
    length (lhblock (lg s')) = length (lhblock (lg s)) /\
    (forall i, 0 <= i < hdr_n d -> rd (lhblock (lg s')) i = hdr_block d i).
Proof.
  intros Hd Hq Hc Hn. unfold read_head, getl. rewrite (bind_ret_intro (get lg) _ s (lg s) s eq_refl), Hd.
  destruct (bread_q [] [] (bio s) (start (lg s)) Hq) as (i & s1 & E1 & Q1 & H1 & S1 & C1 & K1);
    [apply not_elem_of_nil|right; simpl; unfold NBUF; lia|]. run_call E1.
  unfold bdata at 1. rewrite (bind_ret_intro (get _) _ _ _ _ eq_refl). cbn [bio set_bio].
  rewrite <- (holds_content _ _ _ _ (bq_inv _ _ _ Q1) H1), C1, Hc.
  rewrite (bind_ret_intro (setl _) _ _ tt _ eq_refl), (bind_ret_intro (setl _) _ _ tt _ eq_refl).
  destruct (brelse_q _ _ s1 i (start (lg s)) Q1 H1) as (s2 & E2 & Q2 & S2 & C2 & K2).
  { right. rewrite C1, (st_disk _ _ S1). apply (bq_clean [] []); [done|apply not_elem_of_nil..]. }
  unfold liftb. cbn [bio set_lg set_bio lg]. rewrite E2. eexists. split; [reflexivity|]. cbn [bio lg set_bio set_lg]. split_and!; try done.
  - by rewrite remove_one_last in Q2.
  - destruct S1, S2. constructor.
    + intros b. by rewrite C2, C1.
    + intros b. simpl. congruence.
    + rewrite app_nil_r. congruence.
    + constructor; congruence.
  - simpl. clear. generalize (lhblock (lg s)) 0. induction (Z.to_nat (hdr_n d)) as [|n IH]; intros bl a; simpl; [done|].
    by rewrite IH, length_wr.
  - intros j Hj. simpl. rewrite (read_entries_rd (hdr_block d)) by lia. by rewrite decide_True by lia.
Qed.

(** A recovery performs [recovery_writes] and leaves an empty log. *)
Lemma initlog_run D s :
  wf_disk D -> bq [] [] (bio s) -> disk (bio s) = D -> length (lhblock (lg s)) = Z.to_nat LOGSIZE ->
  exists s', initlog ROOTDEV st sz s = Ret tt s' /\
    wlog (bio s') = wlog (bio s) ++ recovery_writes D /\
    (forall b, disk (bio s') b = apply_writes D (recovery_writes D) b) /\
    bq [] [] (bio s') /\ lhn (lg s') = 0 /\ start (lg s') = st /\ size (lg s') = sz /\ ldev (lg s') = ROOTDEV /\
    outstanding (lg s') = outstanding (lg s) /\ committing (lg s') = committing (lg s) /\
    length (lhblock (lg s')) = Z.to_nat LOGSIZE /\ quiet (bio s) (bio s').
Proof.
  intros W Q0 <- HL. set (D := disk (bio s)) in *.
  assert (C0 : forall b, content (bio s) b = D b) by (intros b; apply (bq_clean [] []); [done|apply not_elem_of_nil..]).
  pose proof (wd_n _ W) as Hn. unfold initlog. change (BSIZE <=? 4 + 4 * LOGSIZE) with false. cbn iota.
  rewrite (bind_ret_intro (setl _) _ _ tt _ eq_refl). unfold recover_from_log.
  set (s0 := set_lg _ s).
  destruct (read_head_spec s0 (D st) eq_refl Q0 (C0 st)) as (s1 & E1 & Q1 & W1 & A1 & A2 & A3 & A4 & A5 & A6 & A7 & A8).
  { change (lhblock (lg s0)) with (lhblock (lg s)). rewrite HL. unfold LOGSIZE, MAXOPBLOCKS in *. lia. }
  rewrite (bind_ret_intro _ _ _ _ _ E1).
  assert (C1 : forall b, content (bio s1) b = D b) by (intros; rewrite (wr_content _ _ _ W1); apply C0).
  assert (D1 : forall b, disk (bio s1) b = D b) by (intros; by rewrite (wr_disk _ _ _ W1)).
  assert (Hhome : forall i, 0 <= i < 0 + Z.of_nat (Z.to_nat (hdr_n (D st))) -> rd (lhblock (lg s1)) i = hdr_block (D st) i) by (intros; apply A8; lia).
  destruct (install_loop_spec (lg s1) A3 true [] (Z.to_nat (hdr_n (D st))) s1 0) as (s2 & E2 & Q2 & W2); try done.
  { simpl. unfold NBUF. lia. }
  { intros b Hb. by apply elem_of_nil in Hb. }
  { intros i j Hi Hj. rewrite !Hhome by done. apply (wd_inj _ W); lia. }
  { intros i j Hi Hj. rewrite Hhome, A1 by done. intros E. apply (wd_out _ W i); [lia|]. rewrite E. unfold in_log. simpl. lia. }
  { intros i Hi. by rewrite C1, D1. }
  assert (E2' : install_trans true s1 = Ret tt (set_bio s2 s1)) by (unfold install_trans, getl; by rewrite bind_get, A4).
  rewrite (bind_ret_intro _ _ _ _ _ E2'), (bind_ret_intro (setl _) _ _ tt _ eq_refl).
  set (s3 := set_lg _ _).
  destruct (write_head_spec (lg s3) A3 [] s3 eq_refl Q2) as (s4 & E4 & Q4 & W4); [simpl; unfold NBUF; lia|apply not_elem_of_nil|].
  change (start (lg s3)) with (start (lg s1)) in W4. rewrite A1 in W4.
  assert (Hiw : install_writes (lg s1) (content (bio s1)) 0 (Z.to_nat (hdr_n (D st))) =
    (fun i => (hdr_block (D st) i, D (st + i + 1))) <$> seqZ 0 (hdr_n (D st))).
  { unfold install_writes. rewrite Z2Nat.id by lia. apply fmap_seqZ_ext. intros i Hi. rewrite Hhome by lia. by rewrite C1, A1. }
  assert (Hw : wrote (recovery_writes D) (bio s) s4).
  { apply (wrote_app _ _ _ s2).
    - rewrite <- Hiw. exact (wrote_app [] _ _ _ _ W1 W2).
    - replace (put32 (D st) 0 0) with (put_header (lg s3) (content (bio s3) (start (lg s0)))); [exact W4|].
      change (content (bio s3) (start (lg s0))) with (content s2 st).
      unfold put_header. change (lhn (lg s3)) with 0. change (Z.to_nat 0) with O. cbn [for_up].
      rewrite (wr_content _ _ _ W2), apply_writes_other; [by rewrite C1|]. rewrite Hiw, <- list_fmap_compose.
      intros Hin. apply list_elem_of_fmap in Hin as (i & Hi & Hi'). apply elem_of_seqZ in Hi'.
      apply (wd_out _ W i); [lia|]. simpl in Hi. rewrite <- Hi. unfold in_log. lia. }
  exists (set_bio s4 s3). split_and!; try done; [apply (wr_wlog _ _ _ Hw)|apply (wr_disk _ _ _ Hw)|simpl; by rewrite A7|apply (wr_quiet _ _ _ Hw)].
Qed.

(** ** Crashes *)

Lemma in_log_entry i n : 0 <= i < n -> n < sz -> in_log (st + i + 1).
Proof. unfold in_log. lia. Qed.

Lemma logical_same D D' b :
  D' st = D st -> (forall i, 0 <= i < hdr_n (D st) -> D' (st + i + 1) = D (st + i + 1)) ->
  ((forall i, 0 <= i < hdr_n (D st) -> hdr_block (D st) i <> b) -> D' b = D b) ->
  logical D' b = logical D b.
Proof.
  intros H1 H2 H3. unfold logical. rewrite H1. destruct (list_find _ _) as [[k i]|] eqn:E.
  - apply list_find_Some in E as (Hk & _). apply lookup_seqZ in Hk as [-> Hk]. apply H2. lia.
  - apply list_find_None in E. rewrite Forall_forall in E. apply H3. intros i Hi. apply E, elem_of_seqZ. lia.
Qed.

Lemma wf_disk_same D D' :
  wf_disk D -> D' st = D st -> (forall b, length (D' b) = Z.to_nat BSIZE) -> wf_disk D'.
Proof. intros [H1 H2 H3 H4] E Hl. constructor; rewrite ?E; done. Qed.

Lemma hdr_n_cleared d : length d = Z.to_nat BSIZE -> hdr_n (put32 d 0 0) = 0.
Proof. intros Hl. unfold hdr_n. rewrite get32_put32_same; [done|lia|]. rewrite Hl. unfold BSIZE. lia. Qed.

Lemma wf_disk_empty D : (forall b, length (D b) = Z.to_nat BSIZE) -> hdr_n (D st) = 0 -> wf_disk D.
Proof. intros Hl H. constructor; rewrite ?H; (done || lia). Qed.

Lemma apply_writes_len D w :
  (forall b, length (D b) = Z.to_nat BSIZE) -> (forall a d, (a, d) ∈ w -> length d = Z.to_nat BSIZE) ->
  forall b, length (apply_writes D w b) = Z.to_nat BSIZE.
Proof.
  revert D. induction w as [|[a d] w IH]; intros D HD Hw b; simpl; [done|].
  apply IH; [|intros; eapply Hw; by right]. intros b'. unfold upd. case_decide; [|done]. eapply Hw. left.
Qed.

(** A prefix of writes followed by one last write *)
Lemma take_snoc {A} j (w : list A) x : take j (w ++ [x]) = take j w \/ take j (w ++ [x]) = w ++ [x].
Proof.
  destruct (decide (j <= length w)%nat) as [H|H].
  - left. by rewrite take_app_le.
  - right. apply take_ge. rewrite length_app. simpl. lia.
Qed.

Section recovering.
Context (D : Z -> block) (W : wf_disk D).
Notation installs := ((fun i => (hdr_block (D st) i, D (st + i + 1))) <$> seqZ 0 (hdr_n (D st))).

Lemma installs_in a d : (a, d) ∈ installs -> exists i, 0 <= i < hdr_n (D st) /\ a = hdr_block (D st) i /\ d = D (st + i + 1).
Proof. intros (i & [= -> ->] & Hi%elem_of_seqZ)%list_elem_of_fmap. exists i. split_and!; (done || lia). Qed.

Lemma installs_fst a : a ∈ installs.*1 -> exists i, 0 <= i < hdr_n (D st) /\ a = hdr_block (D st) i.
Proof.
  intros ([a' d] & -> & Hin)%list_elem_of_fmap. destruct (installs_in _ _ Hin) as (i & ? & ? & _). by exists i.
Qed.

Lemma installs_nodup : NoDup installs.*1.
Proof.
  rewrite <- list_fmap_compose. apply NoDup_fmap_2_strong; [|apply NoDup_seqZ].
  intros i j Hi Hj. apply elem_of_seqZ in Hi, Hj. simpl. apply (wd_inj _ W); lia.
Qed.

(** Installing some of the log changes neither the header nor the log. *)
Lemma installs_log j b : in_log b -> apply_writes D (take j installs) b = D b.
Proof.
  intros Hb. apply apply_writes_other. intros Hin. rewrite fmap_take in Hin.
  apply subseteq_take, installs_fst in Hin as (i & Hi & ->). by apply (wd_out _ W i).
Qed.

(** A block is logged or not. *)
Lemma entry_dec b :
  (exists i, 0 <= i < hdr_n (D st) /\ hdr_block (D st) i = b) \/ (b ∉ installs.*1 /\ forall i, 0 <= i < hdr_n (D st) -> hdr_block (D st) i <> b).
Proof.
  destruct (decide (b ∈ installs.*1)) as [Hin|Hn].
  - left. destruct (installs_fst b Hin) as (i & ? & ->). by exists i.
  - right. split; [done|]. intros i Hi <-. apply Hn. apply list_elem_of_fmap. eexists (_, _). split; [done|].
    apply list_elem_of_fmap. exists i. split; [done|]. apply elem_of_seqZ. lia.
Qed.

Lemma recovered b : ~ in_log b -> apply_writes D (recovery_writes D) b = logical D b.
Proof.
  intros Hb. unfold recovery_writes. rewrite apply_writes_app. simpl.
  rewrite upd_other by (intros ->; apply Hb; unfold in_log; lia).
  destruct (entry_dec b) as [(i & Hi & <-)|[Hn Hn']].
  - rewrite logical_in by done. apply apply_writes_in; [apply installs_nodup|].
    apply list_elem_of_fmap. exists i. split; [done|]. apply elem_of_seqZ. lia.
  - rewrite logical_out by done. by apply apply_writes_other.
Qed.

Lemma recovered_header : hdr_n (apply_writes D (recovery_writes D) st) = 0.
Proof.
  unfold recovery_writes. rewrite apply_writes_app. simpl. rewrite upd_same. apply hdr_n_cleared, (wd_len _ W).
Qed.

Lemma recovery_writes_len a d : (a, d) ∈ recovery_writes D -> length d = Z.to_nat BSIZE.
Proof.
  intros [Hin|Hin]%elem_of_app.
  - destruct (installs_in _ _ Hin) as (i & _ & _ & ->). apply (wd_len _ W).
  - apply list_elem_of_singleton in Hin as [= -> ->]. rewrite length_put32. apply (wd_len _ W).
Qed.

(** A recovery cut short after [j] writes changes nothing a later one sees. *)
Lemma recovery_crash j :
  wf_disk (apply_writes D (take j (recovery_writes D))) /\
  (forall b, ~ in_log b -> logical (apply_writes D (take j (recovery_writes D))) b = logical D b).
Proof.
  assert (Hlen : forall b, length (apply_writes D (take j (recovery_writes D)) b) = Z.to_nat BSIZE).
  { apply apply_writes_len; [apply (wd_len _ W)|]. intros a d Hin%subseteq_take. by eapply recovery_writes_len. }
  assert (Hst : in_log st) by (unfold in_log; lia). pose proof (wd_n _ W).
  assert (take j (recovery_writes D) = take j installs \/ take j (recovery_writes D) = recovery_writes D) as [E|E]
    by apply take_snoc; rewrite E in Hlen |- *.
  - split; [apply (wf_disk_same D); [done|by apply installs_log|done]|]. intros b Hb. apply logical_same.
    + by apply installs_log.
    + intros i Hi. apply installs_log. eapply in_log_entry; [done|lia].
    + intros Hn. apply apply_writes_other. rewrite fmap_take. intros Hin%subseteq_take.
      apply installs_fst in Hin as (i & Hi & ->). by apply (Hn i).
  - pose proof recovered_header as Hh. split; [by apply wf_disk_empty|]. intros b Hb.
    rewrite logical_out by (rewrite Hh; lia). apply (recovered b Hb).
Qed.
End recovering.

(** ** Commit *)

(** A transaction that has logged the blocks [L], in this order, while the
    process holds [O]: the state between begin_op and end_op. *)
Record txok (L O : list Z) (s : lst) : Prop := {
  tx_bq : bq L O (bio s);
  tx_layout : start (lg s) = st /\ size (lg s) = sz /\ ldev (lg s) = ROOTDEV;
  tx_n : lhn (lg s) = Z.of_nat (length L);
  tx_blocks : forall i, (i < length L)%nat -> L !! i = Some (rd (lhblock (lg s)) (Z.of_nat i));
  tx_len : length (lhblock (lg s)) = Z.to_nat LOGSIZE;
  tx_nodup : NoDup L;
  tx_size : Z.of_nat (length L) < sz;
  tx_out : forall b, b ∈ L -> ~ in_log b /\ 0 <= b < 2 ^ 31;
  tx_hdr : hdr_n (disk (bio s) st) = 0 }.

Section committing.
Context (L : list Z) (s : lst) (T : txok L [] s).
Notation l := (lg s).
Notation n := (lhn (lg s)).
Notation home i := (rd (lhblock (lg s)) i).
Notation C := (content (bio s)).

Lemma home_in i : 0 <= i < n -> home i ∈ L.
Proof.
  intros Hi. rewrite (tx_n _ _ _ T) in Hi. rewrite <- (Z2Nat.id i) by lia.
  eapply list_elem_of_lookup_2, (tx_blocks _ _ _ T). lia.
Qed.

Lemma home_of b : b ∈ L -> exists i, 0 <= i < n /\ home i = b.
Proof.
  intros (i & Hi)%list_elem_of_lookup. pose proof (lookup_lt_Some _ _ _ Hi) as Hl. exists (Z.of_nat i).
  rewrite (tx_n _ _ _ T). split; [lia|]. rewrite (tx_blocks _ _ _ T i Hl) in Hi. by injection Hi.
Qed.

Lemma home_inj i j : 0 <= i < n -> 0 <= j < n -> home i = home j -> i = j.
Proof.
  rewrite (tx_n _ _ _ T). intros Hi Hj E.
  enough (Z.to_nat i = Z.to_nat j) by lia.
  eapply NoDup_lookup; [apply (tx_nodup _ _ _ T)| |].
  - apply (tx_blocks _ _ _ T). lia.
  - rewrite (tx_blocks _ _ _ T) by lia. rewrite !Z2Nat.id by lia. by rewrite E.
Qed.

Lemma home_out i : 0 <= i < n -> ~ in_log (home i) /\ 0 <= home i < 2 ^ 31.
Proof. intros Hi. apply (tx_out _ _ _ T). by apply home_in. Qed.

Lemma n_range : 0 <= n < sz.
Proof. rewrite (tx_n _ _ _ T). pose proof (tx_size _ _ _ T). lia. Qed.

(** The header that commits, and the writes of a commit *)
Definition header : block := put_header l (C st).
Definition commit_logging : list (Z * block) := (fun i => (st + i + 1, C (home i))) <$> seqZ 0 n.
Definition commit_installs : list (Z * block) := (fun i => (home i, C (home i))) <$> seqZ 0 n.
Definition commit_writes : list (Z * block) :=
  commit_logging ++ [(st, header)] ++ commit_installs ++ [(st, put32 header 0 0)].

Lemma header_get : hdr_n header = n /\ forall i, 0 <= i < n -> hdr_block header i = home i.
Proof.
  apply put_header_get.
  - eapply content_len, (tx_bq _ _ _ T).
  - pose proof n_range. lia.
  - intros i Hi. pose proof (home_out i Hi). lia.
Qed.

Lemma header_len : length header = Z.to_nat BSIZE.
Proof. unfold header. rewrite length_put_header. eapply content_len, (tx_bq _ _ _ T). Qed.

Lemma not_logged b : in_log b -> b ∉ L.
Proof. intros Hb Hin. by apply (tx_out _ _ _ T) in Hin as [? _]. Qed.

Lemma few_logged : (length L < NBUF)%nat.
Proof. pose proof (tx_size _ _ _ T). unfold LOGSIZE, MAXOPBLOCKS, NBUF in *. lia. Qed.

Lemma commit_logging_nodup : NoDup commit_logging.*1.
Proof.
  unfold commit_logging. rewrite <- list_fmap_compose. apply NoDup_fmap_2_strong; [|apply NoDup_seqZ].
  intros a b _ _. simpl. lia.
Qed.

Lemma commit_logging_in i : 0 <= i < n -> (st + i + 1, C (home i)) ∈ commit_logging.
Proof. intros Hi. apply list_elem_of_fmap. exists i. split; [done|]. apply elem_of_seqZ. lia. Qed.

Lemma commit_logging_fst b : b ∈ commit_logging.*1 -> st < b < st + sz.
Proof.
  unfold commit_logging. rewrite <- list_fmap_compose. pose proof n_range.
  intros (i & -> & Hi%elem_of_seqZ)%list_elem_of_fmap. simpl. lia.
Qed.

(** write_log and the first write_head *)
Lemma commit_log_phase :
  exists s2, bind write_log (fun _ => write_head) s = Ret tt (set_bio s2 s) /\ bq L [] s2 /\
    wrote (commit_logging ++ [(st, header)]) (bio s) s2 /\
    forall i, 0 <= i < n -> content s2 (st + i + 1) = C (home i) /\ disk s2 (st + i + 1) = C (home i).
Proof.
  destruct (tx_layout _ _ _ T) as (Hst & Hs & Hdev). pose proof n_range as Hn. pose proof (tx_bq _ _ _ T) as Q0.
  destruct (write_log_loop_spec l Hdev L (Z.to_nat n) s 0 eq_refl Q0 few_logged) as (s1 & E1 & Q1 & W1).
  { intros i Hi. split; [apply home_in; lia|]. apply not_logged. rewrite Hst. eapply in_log_entry; [|apply Hn]. lia. }
  assert (E1' : write_log s = Ret tt (set_bio s1 s)) by (unfold write_log, getl; by rewrite bind_get).
  rewrite (bind_ret_intro _ _ _ _ _ E1').
  assert (HW1 : log_writes l C 0 (Z.to_nat n) = commit_logging) by (unfold log_writes; by rewrite Z2Nat.id, Hst by lia).
  rewrite HW1 in W1. assert (Hin_st : in_log st) by (unfold in_log; lia).
  destruct (write_head_spec l Hdev L (set_bio s1 s) eq_refl Q1 few_logged) as (s2 & E2 & Q2 & W2); [rewrite Hst; by apply not_logged|].
  rewrite Hst in W2. cbn [bio set_bio] in W2. replace (content s1 st) with (C st) in W2.
  2: { rewrite (wr_content _ _ _ W1), apply_writes_other; [done|]. intros ?%commit_logging_fst. lia. }
  pose proof (wrote_app _ _ _ _ _ W1 W2) as W12. exists s2. split_and!; [done|done|done|].
  intros i Hi. rewrite (wr_content _ _ _ W12), (wr_disk _ _ _ W12), !apply_writes_app. simpl. rewrite !upd_other by lia.
  by rewrite !(apply_writes_in _ _ _ _ commit_logging_nodup (commit_logging_in i Hi)).
Qed.

Lemma commit_spec :
  0 < n ->
  exists s', commit s = Ret tt s' /\ wrote commit_writes (bio s) (bio s') /\ bq [] [] (bio s') /\ lg s' = set_lhn 0 l.
Proof.
  intros Hpos. destruct (tx_layout _ _ _ T) as (Hst & Hs & Hdev). pose proof n_range as Hn.
  destruct commit_log_phase as (s2 & E2 & Q2 & W2 & HC).
  unfold commit, getl. rewrite bind_get, (proj2 (Z.ltb_lt 0 n) Hpos).
  apply bind_ret_inv in E2 as ([] & s1 & E1 & E2). rewrite (bind_ret_intro _ _ _ _ _ E1), (bind_ret_intro _ _ _ _ _ E2).
  destruct (install_loop_spec l Hdev false L (Z.to_nat n) (set_bio s2 s) 0 eq_refl Q2 few_logged) as (s3 & E3 & Q3 & W3).
  { intros _ i Hi. apply home_in. lia. }
  { done. }
  { intros b Hb. destruct (home_of b Hb) as (i & ? & ?). exists i. split; [lia|done]. }
  { intros i j Hi Hj. apply home_inj; lia. }
  { intros i j Hi Hj E. destruct (home_out i) as [Ho _]; [lia|]. apply Ho. rewrite E, Hst. eapply in_log_entry; [|apply Hn]. lia. }
  { intros i Hi. rewrite Hst. cbn [bio set_bio]. destruct (HC i) as [-> ->]; [lia|done]. }
  assert (E3' : install_trans false (set_bio s2 s) = Ret tt (set_bio s3 s)) by (unfold install_trans, getl; by rewrite bind_get).
  assert (HW3 : install_writes l (content s2) 0 (Z.to_nat n) = commit_installs).
  { unfold install_writes. rewrite Z2Nat.id, Hst by lia. apply fmap_seqZ_ext. intros i Hi. by rewrite (proj1 (HC i ltac:(lia))). }
  cbn [bio set_bio] in W3. rewrite HW3 in W3. pose proof (wrote_app _ _ _ _ _ W2 W3) as W23.
  rewrite (bind_ret_intro _ _ _ _ _ E3'), (bind_ret_intro (setl _) _ _ tt _ eq_refl). set (s4 := set_lg _ _).
  destruct (write_head_spec (lg s4) Hdev [] s4 eq_refl Q3) as (s5 & E5 & Q5 & W5); [simpl; unfold NBUF; lia|apply not_elem_of_nil|].
  exists (set_bio s5 s4). split_and!; [exact E5| |exact Q5|done].
  unfold commit_writes. rewrite !app_assoc. apply (wrote_app _ _ _ s3); [done|].
  change (start (lg s4)) with (start l) in W5. rewrite Hst in W5. cbn [bio set_bio set_lg] in W5.
  replace (put32 header 0 0) with (put_header (lg s4) (content (bio s4) st)); [exact W5|].
  unfold put_header at 1. change (lhn (lg s4)) with 0. change (Z.to_nat 0) with O. cbn [for_up]. f_equal.
  change (content (bio s4) st) with (content s3 st).
  rewrite (wr_content _ _ _ W23), !apply_writes_app, apply_writes_other; [simpl; apply upd_same|].
  intros Hin. unfold commit_installs in Hin. rewrite <- list_fmap_compose in Hin.
  apply list_elem_of_fmap in Hin as (i & Hi & Hi'%elem_of_seqZ). simpl in Hi. destruct (home_out i) as [Ho _]; [lia|].
  apply Ho. rewrite <- Hi. unfold in_log. lia.
Qed.
(** The disk of an interrupted commit *)
Notation D0 := (disk (bio s)).

Lemma commit_installs_fst b : b ∈ commit_installs.*1 -> b ∈ L.
Proof.
  unfold commit_installs. rewrite <- list_fmap_compose.
  intros (i & -> & Hi%elem_of_seqZ)%list_elem_of_fmap. simpl. apply home_in. lia.
Qed.

Lemma commit_installs_nodup : NoDup commit_installs.*1.
Proof.
  unfold commit_installs. rewrite <- list_fmap_compose. apply NoDup_fmap_2_strong; [|apply NoDup_seqZ].
  intros a b Ha%elem_of_seqZ Hb%elem_of_seqZ. simpl. apply home_inj; lia.
Qed.

Lemma commit_installs_in b : b ∈ L -> (b, C b) ∈ commit_installs.
Proof.
  intros (i & Hi & <-)%home_of. apply list_elem_of_fmap. exists i. split; [done|]. apply elem_of_seqZ. lia.
Qed.

Lemma not_logging b : ~ in_log b -> b ∉ commit_logging.*1.
Proof. intros Hb ?%commit_logging_fst. apply Hb. unfold in_log. lia. Qed.

Lemma commit_writes_len a d : (a, d) ∈ commit_writes -> length d = Z.to_nat BSIZE.
Proof.
  pose proof (tx_bq _ _ _ T) as Q. unfold commit_writes. rewrite !elem_of_app, !list_elem_of_singleton.
  intros [Hin|[[= -> ->]|[Hin|[= -> ->]]]]; rewrite ?length_put32; try apply header_len;
    apply list_elem_of_fmap in Hin as (i & [= -> ->] & _); by eapply content_len.
Qed.

(** Before the header is written the old blocks are there. *)
Lemma crash_before k :
  Z.of_nat k <= n ->
  hdr_n (apply_writes D0 (take k commit_writes) st) = 0 /\
  forall b, ~ in_log b -> apply_writes D0 (take k commit_writes) b = D0 b.
Proof.
  intros Hk. assert (E : take k commit_writes = take k commit_logging).
  { unfold commit_writes. apply take_app_le. unfold commit_logging. rewrite length_fmap, length_seqZ. lia. }
  rewrite E. split; [rewrite apply_writes_other; [apply (tx_hdr _ _ _ T)|]|intros b Hb; apply apply_writes_other];
    rewrite fmap_take; intros Hin%subseteq_take.
  - apply commit_logging_fst in Hin. lia.
  - by apply not_logging in Hin.
Qed.

(** Afterwards the log, or the home locations, have the new ones. *)
Lemma crash_after_prefix k :
  n < Z.of_nat k ->
  (exists j, take k commit_writes = (commit_logging ++ [(st, header)]) ++ take j commit_installs) \/
  take k commit_writes = commit_writes.
Proof.
  intros Hk. assert (Hlen : length commit_logging = Z.to_nat n) by (unfold commit_logging; by rewrite length_fmap, length_seqZ).
  pose proof n_range. assert (E : take k commit_writes = commit_logging ++ (st, header) :: take (k - S (Z.to_nat n)) (commit_installs ++ [(st, put32 header 0 0)])).
  { unfold commit_writes. rewrite take_app, Hlen, take_ge by lia. f_equal.
    replace (k - Z.to_nat n)%nat with (S (k - S (Z.to_nat n))) by lia. done. }
  destruct (take_snoc (A := Z * block) (k - S (Z.to_nat n)) commit_installs (st, put32 header 0 0)) as [E'|E'].
  - left. exists (k - S (Z.to_nat n))%nat. rewrite E, <- app_assoc. simpl. do 2 f_equal. exact E'.
  - right. rewrite E. unfold commit_writes. simpl. do 2 f_equal. exact E'.
Qed.

Lemma old_is_new b : b ∉ L -> D0 b = C b.
Proof. intros Hb. symmetry. apply (bq_clean L []); [apply (tx_bq _ _ _ T)|done|apply not_elem_of_nil]. Qed.

Lemma crash_installing j :
  let D := apply_writes D0 ((commit_logging ++ [(st, header)]) ++ take j commit_installs) in
  (forall b, length (D b) = Z.to_nat BSIZE) -> wf_disk D /\ forall b, ~ in_log b -> logical D b = C b.
Proof.
  intros D Hlen. destruct header_get as [Hn Hb]. pose proof n_range as Hr.
  assert (Hlog : forall b, in_log b -> D b = apply_writes D0 (commit_logging ++ [(st, header)]) b).
  { intros b Hin. unfold D. rewrite apply_writes_app. apply apply_writes_other. rewrite fmap_take.
    intros Hx%subseteq_take. apply commit_installs_fst in Hx. by apply not_logged in Hin. }
  assert (Hst : D st = header) by (rewrite Hlog by (unfold in_log; lia); rewrite apply_writes_app; simpl; apply upd_same).
  assert (W : wf_disk D).
  { constructor; rewrite ?Hst, ?Hn; [done|done| |].
    - intros i Hi. rewrite Hb by done. by apply home_out.
    - intros i j' Hi Hj. rewrite !Hb by done. by apply home_inj. }
  split; [done|]. intros b Hout. destruct (decide (b ∈ L)) as [Hin|Hin].
  - destruct (home_of b Hin) as (i & Hi & <-). rewrite <- Hb, <- Hst by done. rewrite logical_in by (done || by rewrite Hst, Hn).
    rewrite Hst, Hb by done. rewrite Hlog by (eapply in_log_entry; [done|lia]). rewrite apply_writes_app. simpl. rewrite upd_other by lia.
    apply apply_writes_in; [apply commit_logging_nodup|by apply commit_logging_in].
  - rewrite logical_out.
    + unfold D. rewrite apply_writes_other; [by apply old_is_new|]. rewrite !fmap_app, fmap_take, !elem_of_app.
      intros [[Hx|Hx]|Hx%subseteq_take].
      * by apply not_logging in Hx.
      * apply list_elem_of_singleton in Hx as ->. apply Hout. unfold in_log. simpl. lia.
      * by apply commit_installs_fst in Hx.
    + rewrite Hst, Hn. intros i Hi. rewrite Hb by done. intros <-. by apply Hin, home_in.
Qed.

Lemma commit_done b : ~ in_log b -> apply_writes D0 commit_writes b = C b.
Proof.
  intros Hout. unfold commit_writes. rewrite !apply_writes_app. simpl. rewrite upd_other by (intros ->; apply Hout; unfold in_log; lia).
  destruct (decide (b ∈ L)) as [Hin|Hin].
  - apply apply_writes_in; [apply commit_installs_nodup|by apply commit_installs_in].
  - rewrite apply_writes_other by (by intros ?%commit_installs_fst).
    rewrite upd_other by (intros ->; apply Hout; unfold in_log; lia).
    rewrite apply_writes_other by (by apply not_logging). by apply old_is_new.
Qed.

(** Whenever the crash comes, the disk is well formed and holds the old blocks
    or the new ones. *)
Lemma commit_crash k :
  let D := apply_writes D0 (take k commit_writes) in
  wf_disk D /\ (Z.of_nat k <= n -> forall b, ~ in_log b -> logical D b = D0 b) /\
  (n < Z.of_nat k -> forall b, ~ in_log b -> logical D b = C b).
Proof.
  intros D. assert (Hlen : forall b, length (D b) = Z.to_nat BSIZE).
  { apply apply_writes_len; [apply (bi_len _ _ (bq_inv _ _ _ (tx_bq _ _ _ T)))|].
    intros a d Hin%subseteq_take. by eapply commit_writes_len. }
  destruct (Z.le_gt_cases (Z.of_nat k) n) as [Hk|Hk].
  - destruct (crash_before k Hk) as [Hh Hb]. split_and!; [by apply wf_disk_empty| |lia]. intros _ b Hout.
    rewrite logical_out; [by apply Hb|]. unfold D. rewrite Hh. lia.
  - destruct (crash_after_prefix k Hk) as [[j E]|E]; unfold D in *; rewrite E in *.
    + destruct (crash_installing j Hlen) as [? ?]. split_and!; [done|lia|done].
    + assert (Hh : hdr_n (apply_writes D0 commit_writes st) = 0).
      { unfold commit_writes. rewrite !app_assoc, apply_writes_app. simpl. rewrite upd_same. apply hdr_n_cleared, header_len. }
      split_and!; [by apply wf_disk_empty|lia|]. intros _ b Hout. rewrite logical_out by (rewrite Hh; lia). by apply commit_done.
Qed.
End committing.
End layout.
