(* ===== verification/LogTx.v ===== *)
(** Transactions: begin_op, log_write and end_op keep the transaction state
    [txok], and what end_op commits survives crashes. *)

From stdpp Require Import base list sets strings.
From S2P Require Import Prelude Spinlock Sleeplock Ring Bio BioInv BioConc BioSeq Bytes Log LogInv LogCrash.

(** The blocks logged after log_write of [bn] *)
Definition logged (bn : Z) (L : list Z) : list Z := if decide (bn ∈ L) then L else L ++ [bn].

Lemma elem_of_logged bn L b : b ∈ logged bn L <-> b = bn \/ b ∈ L.
Proof. unfold logged. case_decide; [|rewrite elem_of_app, list_elem_of_singleton]; naive_solver. Qed.

Section tx.
Context (st sz : Z).
Hypothesis Hsz : 1 <= sz <= LOGSIZE.
Notation txok := (txok st sz).

(** The spin locks held do not matter to the cache, but for its own. *)
Lemma bq_bheld L O s h :
  LBcache ∉ h -> (forall id, LSleep id ∉ h) -> bq L O s -> bq L O (set_bheld h s).
Proof.
  intros H1 H2 [[] Hl Ho]. constructor; [|done|done]. constructor; try done.
Qed.

Lemma bq_nospin L O s : bq L O s -> LBcache ∉ bheld s /\ forall id, LSleep id ∉ bheld s.
Proof. intros [H _ _]. apply (bi_spin _ _ H). Qed.

Lemma bq_with_llog L O s : bq L O s -> bq L O (set_bheld (LLog :: bheld s) s).
Proof. intros Q. destruct (bq_nospin _ _ _ Q) as [H1 H2]. apply bq_bheld; [set_solver|set_solver|done]. Qed.

Lemma llog_acquire s : LLog ∉ bheld (bio s) ->
  lock_acquire LLog s = Ret tt (set_bio (set_bheld (LLog :: bheld (bio s)) (bio s)) s).
Proof. exact (lock_acquire_free LLog s). Qed.

Lemma llog_release s h : bheld (bio s) = LLog :: h -> LLog ∉ h ->
  lock_release LLog s = Ret tt (set_bio (set_bheld h (bio s)) s).
Proof. exact (lock_release_top LLog s h). Qed.

(** The scan of log_write: the entry of the block, or the first free one *)
Lemma find_logged_spec l bn (L : list Z) k a :
  (forall i, (i < length L)%nat -> L !! i = Some (rd (lhblock l) (Z.of_nat i))) ->
  a + Z.of_nat k = Z.of_nat (length L) -> 0 <= a ->
  (forall i, 0 <= i < a -> rd (lhblock l) i <> bn) ->
  let r := find_logged l bn a k in
  (bn ∈ L /\ 0 <= r < Z.of_nat (length L) /\ rd (lhblock l) r = bn) \/ (bn ∉ L /\ r = Z.of_nat (length L)).
Proof.
  intros HL. revert a. induction k as [|k IH]; intros a Hk Ha Hn; cbn [find_logged].
  - right. split; [|lia]. intros (i & Hi)%list_elem_of_lookup. pose proof (lookup_lt_Some _ _ _ Hi).
    rewrite HL in Hi by done. injection Hi as E. apply (Hn (Z.of_nat i)); [lia|done].
  - case_test; bool_to_prop.
    + left. split_and!; [|lia|lia|done]. eapply list_elem_of_lookup_2. rewrite (HL (Z.to_nat a)) by lia.
      rewrite Z2Nat.id by lia. by f_equal.
    + apply IH; [lia|lia|]. intros i Hi. destruct (decide (i = a)) as [->|]; [done|apply Hn; lia].
Qed.

Lemma log_write_spec L O s i bn :
  txok L O s -> LLog ∉ bheld (bio s) -> 1 <= outstanding (lg s) -> holds (bio s) i bn ->
  ~ in_log st sz bn -> 0 <= bn < 2 ^ 31 -> Z.of_nat (length L) < sz - 1 ->
  exists s', log_write i s = Ret tt s' /\ txok (logged bn L) O s' /\ stable (bio s) (bio s') /\
    (forall b, content (bio s') b = content (bio s) b) /\ keeps_handles (bio s) (bio s') /\
    outstanding (lg s') = outstanding (lg s) /\ committing (lg s') = committing (lg s).
Proof.
  intros T Hlk Hout Hh Hbn Hbn' Hroom. destruct (tx_layout _ _ _ _ _ T) as (Hst & Hs & Hd). pose proof (tx_n _ _ _ _ _ T) as Hn.
  pose proof (tx_bq _ _ _ _ _ T) as Q. pose proof (tx_len _ _ _ _ _ T) as Hlen.
  unfold log_write. rewrite (bind_ret_intro _ _ _ _ _ (llog_acquire s Hlk)). unfold getl, bblockno. rewrite bind_get.
  cbn [lg set_bio]. rewrite (proj2 (Z.leb_gt LOGSIZE (lhn (lg s)))), (proj2 (Z.leb_gt (size (lg s) - 1) (lhn (lg s)))) by lia.
  cbn [orb]. rewrite (proj2 (Z.ltb_ge (outstanding (lg s)) 1)) by lia. rewrite bind_get. cbn [bio set_bio].
  assert (Hb : blockno (bufs (set_bheld (LLog :: bheld (bio s)) (bio s)) i) = bn) by apply Hh. rewrite Hb.
  rewrite (bind_ret_intro (setl _) _ _ tt _ eq_refl). cbn [lg bio set_bio set_lg].
  destruct (find_logged_spec (lg s) bn L (Z.to_nat (lhn (lg s))) 0) as [(Hin & Hr & Hrd)|(Hnin & Hr)];
    [apply (tx_blocks _ _ _ _ _ T)|lia|lia|lia| |].
  - (* absorbed *)
    set (r := find_logged _ _ _ _) in *. rewrite (proj2 (Z.eqb_neq r (lhn (lg s)))) by lia.
    rewrite (bind_ret_intro (ret tt) _ _ tt _ eq_refl).
    rewrite (llog_release _ (bheld (bio s))) by done. eexists. split; [reflexivity|]. cbn [bio lg set_bio set_lg].
    replace (logged bn L) with L by (unfold logged; by rewrite decide_True).
    assert (Hwr : wr (lhblock (lg s)) r bn = lhblock (lg s)).
    { apply rd_ext; [apply length_wr|]. intros j Hj. rewrite length_wr in Hj. destruct (Z.eq_dec j r) as [->|].
      - by rewrite rd_wr_same.
      - by rewrite rd_wr_other by lia. }
    rewrite Hwr. destruct T. split_and!; [|by constructor|done|intros j b Hj; exact Hj|done|done].
    constructor; try done. by destruct s as [[] []].
  - set (r := find_logged _ _ _ _) in *. rewrite Hr, (proj2 (Z.eqb_eq _ (lhn (lg s)))) by lia.
    destruct (bpin_q L O (set_bheld (LLog :: bheld (bio s)) (bio s)) i bn) as (b' & E & Q' & S' & C' & K');
      [by apply bq_with_llog|exact Hh|done|].
    set (X := set_lg _ (set_bio _ s)).
    assert (Epin : bind (liftb (bpin i)) (fun _ => setl (fun l => set_lhn (lhn l + 1) l)) X =
      Ret tt (set_lg (set_lhn (lhn (lg X) + 1) (lg X)) (set_bio b' X))) by (unfold bind; by rewrite (liftb_ret _ X _ _ E)).
    rewrite (bind_ret_intro _ _ _ _ _ Epin).
    destruct S' as [S1 S2 S3 S4].
    rewrite (llog_release _ (bheld (bio s))) by done. eexists. split; [reflexivity|]. cbn [bio lg set_bio set_lg].
    replace (logged bn L) with (L ++ [bn]) by (unfold logged; by rewrite decide_False).
    destruct (bq_nospin _ _ _ Q) as [N1 N2]. split_and!; [|by constructor|done|done|done|done].
    constructor; cbn [bio lg set_bio set_lg]; try done.
    + apply bq_bheld; [done|done|]. eapply bq_ext; [|done|exact Q']. intros b. rewrite elem_of_app, elem_of_cons, list_elem_of_singleton. tauto.
    + simpl. rewrite length_app. simpl. lia.
    + intros j Hj. simpl. rewrite length_app in Hj. simpl in Hj. destruct (decide (j = length L)) as [->|].
      * rewrite lookup_app_r, Nat.sub_diag by lia. simpl. by rewrite rd_wr_same by lia.
      * rewrite lookup_app_l by lia. rewrite rd_wr_other by lia. apply (tx_blocks _ _ _ _ _ T). lia.
    + simpl. by rewrite length_wr.
    + apply NoDup_app. split_and!; [apply (tx_nodup _ _ _ _ _ T)|set_solver|apply NoDup_singleton].
    + rewrite length_app. simpl. lia.
    + intros b [Hb'|Hb']%elem_of_app; [by apply (tx_out _ _ _ _ _ T)|]. by apply list_elem_of_singleton in Hb' as ->.
    + simpl. rewrite S3. apply (tx_hdr _ _ _ _ _ T).
Qed.

(** begin_op admits an operation when nobody commits and LOGSIZE has room for it. *)
Lemma begin_op_spec L O s :
  txok L O s -> LLog ∉ bheld (bio s) -> committing (lg s) = 0 ->
  lhn (lg s) + (outstanding (lg s) + 1) * MAXOPBLOCKS <= LOGSIZE ->
  exists s', begin_op s = Ret tt s' /\ txok L O s' /\ bio s' = bio s /\
    outstanding (lg s') = outstanding (lg s) + 1 /\ committing (lg s') = 0.
Proof.
  intros T Hlk Hc Hroom. unfold begin_op. rewrite (bind_ret_intro _ _ _ _ _ (llog_acquire s Hlk)).
  unfold getl. rewrite bind_get. cbn [lg set_bio]. rewrite Hc, (proj2 (Z.ltb_ge _ _) Hroom). simpl.
  rewrite (bind_ret_intro (setl _) _ _ tt _ eq_refl). cbn [lg bio set_bio set_lg].
  rewrite (llog_release _ (bheld (bio s))) by done. eexists. split; [reflexivity|]. cbn [bio lg set_bio set_lg].
  assert (Hb : set_bheld (bheld (bio s)) (set_bheld (LLog :: bheld (bio s)) (bio s)) = bio s) by (by destruct (bio s)).
  rewrite Hb. split_and!; try done. destruct T. by constructor.
Qed.

(** A state whose log differs in the counters only *)
Lemma txok_counters L O s s' a b :
  txok L O s -> bio s' = bio s -> lg s' = set_outstanding a (set_committing b (lg s)) -> txok L O s'.
Proof. intros [] Hb Hl. constructor; rewrite ?Hb, ?Hl; done. Qed.

Lemma txok_bheld L O s h :
  LBcache ∉ h -> (forall id, LSleep id ∉ h) -> txok L O s -> txok L O (set_bio (set_bheld h (bio s)) s).
Proof. intros H1 H2 []. constructor; try done. by apply bq_bheld. Qed.

(** Cut short anywhere, the writes [w] leave the old blocks or the new ones. *)
Definition crash_atomic (old new : Z -> block) (w : list (Z * block)) : Prop :=
  forall k, let D := apply_writes old (take k w) in
    wf_disk st sz D /\
    ((forall b, ~ in_log st sz b -> logical st D b = old b) \/
     (forall b, ~ in_log st sz b -> logical st D b = new b)) /\
    ((length w <= k)%nat -> forall b, ~ in_log st sz b -> logical st D b = new b).

Lemma commit_tx L s :
  txok L [] s -> exists s' w, commit s = Ret tt s' /\ wrote w (bio s) (bio s') /\ txok [] [] s' /\ lg s' = set_lhn 0 (lg s) /\
    (forall b, ~ in_log st sz b -> disk (bio s') b = content (bio s) b) /\
    crash_atomic (disk (bio s)) (content (bio s)) w.
Proof.
  intros T. destruct (tx_layout _ _ _ _ _ T) as (H1 & H2 & H3). pose proof (tx_bq _ _ _ _ _ T) as Q.
  destruct (Z.le_gt_cases (lhn (lg s)) 0) as [Hn|Hn].
  - assert (L = []) as -> by (destruct L; [done|]; rewrite (tx_n _ _ _ _ _ T) in Hn; simpl in Hn; lia).
    exists s, []. assert (Hcl : forall b, content (bio s) b = disk (bio s) b) by (intros; apply (bq_clean [] []); [done|apply not_elem_of_nil..]).
    assert (Hw : wf_disk st sz (disk (bio s))).
    { apply wf_disk_empty; [done|apply (bi_len _ _ (bq_inv _ _ _ Q))|apply (tx_hdr _ _ _ _ _ T)]. }
    split_and!.
    + unfold commit, getl. rewrite bind_get. by rewrite (proj2 (Z.ltb_ge _ _) Hn).
    + apply wrote_nil.
    + done.
    + destruct s as [b' l']. cbn [lg] in *. pose proof (tx_n _ _ _ _ _ T) as E. simpl in E. destruct l'. simpl in *. by subst.
    + intros b _. by rewrite Hcl.
    + intros k. rewrite take_nil. change (apply_writes (disk (bio s)) []) with (disk (bio s)).
      assert (Hlg : forall b, logical st (disk (bio s)) b = disk (bio s) b).
      { intros b. apply logical_out. rewrite (tx_hdr _ _ _ _ _ T). lia. }
      split_and!; [done|by left|]. intros. by rewrite Hlg, Hcl.
  - destruct (commit_spec st sz Hsz L s T Hn) as (s' & E & W & Q' & Hl). exists s', (commit_writes st s).
    split_and!; [done|done| |done| |].
    + constructor; rewrite ?Hl; simpl; try done; try lia.
      * apply (tx_len _ _ _ _ _ T).
      * constructor.
      * intros b Hb. by apply elem_of_nil in Hb.
      * rewrite (wr_disk _ _ _ W). unfold commit_writes. rewrite !app_assoc, apply_writes_app. simpl. rewrite upd_same.
        by eapply hdr_n_cleared, header_len.
    + intros b Hb. rewrite (wr_disk _ _ _ W). by eapply commit_done.
    + intros k. destruct (commit_crash st sz Hsz L s T k) as (Hw & Hold & Hnew). split_and!; [done| |].
      * destruct (Z.le_gt_cases (Z.of_nat k) (lhn (lg s))); [left; by apply Hold|right; by apply Hnew].
      * intros Hk. apply Hnew. unfold commit_writes, commit_logging in Hk.
        rewrite !length_app, length_fmap, length_seqZ in Hk. simpl in Hk. lia.
Qed.

Lemma end_op_spec L s :
  txok L [] s -> LLog ∉ bheld (bio s) -> committing (lg s) = 0 -> outstanding (lg s) = 1 ->
  exists s' w, end_op s = Ret tt s' /\ wlog (bio s') = wlog (bio s) ++ w /\ txok [] [] s' /\
    bheld (bio s') = bheld (bio s) /\ outstanding (lg s') = 0 /\ committing (lg s') = 0 /\
    (forall b, ~ in_log st sz b -> disk (bio s') b = content (bio s) b) /\
    crash_atomic (disk (bio s)) (content (bio s)) w.
Proof.
  intros T Hlk Hc Ho. unfold end_op. rewrite (bind_ret_intro _ _ _ _ _ (llog_acquire s Hlk)).
  rewrite (bind_ret_intro (setl _) _ _ tt _ eq_refl). unfold getl. rewrite bind_get. cbn [lg bio set_bio set_lg].
  cbn [committing set_outstanding outstanding]. rewrite Hc, Ho. change (negb (0 =? 0)) with false. change (1 - 1 =? 0) with true. cbv iota.
  rewrite (bind_ret_intro (bind (setl _) _) _ _ true _ eq_refl). cbn [lg bio set_bio set_lg].
  erewrite (bind_ret_intro (lock_release LLog)); [|by apply (llog_release _ (bheld (bio s)))]. cbn [lg bio set_bio set_lg].
  set (s1 := set_bio _ _). assert (Hb1 : bio s1 = bio s) by (unfold s1; cbn [bio set_bio]; by destruct (bio s)).
  assert (T1 : txok L [] s1) by (apply (txok_counters L [] s s1 0 1); [done|done|reflexivity]).
  destruct (commit_tx L s1 T1) as (s2 & w & E & W & T2 & L2 & D2 & X2). rewrite (bind_ret_intro _ _ _ _ _ E).
  rewrite Hb1 in *. assert (Hh2 : bheld (bio s2) = bheld (bio s)) by apply (qt_held _ _ (wr_quiet _ _ _ W)).
  destruct (bq_nospin _ _ _ (tx_bq _ _ _ _ _ T2)) as [N1 N2].
  rewrite (bind_ret_intro _ _ _ _ _ (llog_acquire s2 ltac:(by rewrite Hh2))).
  rewrite (bind_ret_intro (setl _) _ _ tt _ eq_refl), (bind_ret_intro (wakeup CLog) _ _ tt _ eq_refl).
  erewrite (llog_release _ (bheld (bio s2))); [|reflexivity|by rewrite Hh2].
  eexists _, w. split; [reflexivity|]. cbn [bio lg set_bio set_lg]. split_and!.
  - simpl. apply (wr_wlog _ _ _ W).
  - destruct T2. constructor; try done. simpl. destruct tx_bq as [[] ? ?]. constructor; [|done|done]. by constructor.
  - exact Hh2.
  - simpl. by rewrite L2.
  - done.
  - exact D2.
  - exact X2.
Qed.

(** Calls of bio.c inside a transaction *)
Lemma txok_bio L O O' s b' :
  txok L O s -> bq L O' b' -> disk b' = disk (bio s) -> txok L O' (set_bio b' s).
Proof. intros [] Q Hd. constructor; try done. simpl. by rewrite Hd. Qed.

Lemma initlog_tx D s :
  wf_disk st sz D -> bq [] [] (bio s) -> disk (bio s) = D -> length (lhblock (lg s)) = Z.to_nat LOGSIZE ->
  exists s', initlog ROOTDEV st sz s = Ret tt s' /\ wlog (bio s') = wlog (bio s) ++ recovery_writes st D /\
    txok [] [] s' /\ outstanding (lg s') = outstanding (lg s) /\ committing (lg s') = committing (lg s) /\
    bheld (bio s') = bheld (bio s) /\ forall b, ~ in_log st sz b -> disk (bio s') b = logical st D b.
Proof.
  intros W Q Hd Hl. destruct (initlog_run st sz Hsz D s W Q Hd Hl) as (s' & E & Wl & D' & Q' & N & A & B & C & O1 & C1 & HL & Qt).
  exists s'. split_and!; try done.
  - constructor; rewrite ?N; try done; simpl; try lia.
    + constructor.
    + intros b Hb. by apply elem_of_nil in Hb.
    + rewrite D'. by apply recovered_header with sz.
  - apply (qt_held _ _ Qt).
  - intros b Hb. rewrite D'. by apply recovered with sz.
Qed.
End tx.

(** A recovery from [D] is cut short by another crash, which leaves [D']. *)
Definition crashed (st sz : Z) (D D' : Z -> block) : Prop :=
  exists me s j, initlog ROOTDEV st sz (boot me D) = Ret tt s /\ D' = apply_writes D (take j (wlog (bio s))).

Lemma boot_initlog st sz me D :
  1 <= sz <= LOGSIZE -> wf_disk st sz D ->
  exists r, initlog ROOTDEV st sz (boot me D) = Ret tt r /\ wlog (bio r) = recovery_writes st D /\
    txok st sz [] [] r /\ forall b, ~ in_log st sz b -> disk (bio r) b = logical st D b.
Proof.
  intros Hsz W. destruct (boot_bq me D (wd_len _ _ _ W)) as (Q & Hd & Hw).
  destruct (initlog_tx st sz Hsz D (boot me D) W Q Hd) as (r & E & Wl & T & _ & _ & _ & V).
  { unfold boot, log0. cbn [lg lhblock]. apply length_replicate. }
  exists r. rewrite Hw in Wl. split_and!; [exact E|exact Wl|exact T|exact V].
Qed.

Lemma crashed_steps st sz D D' :
  1 <= sz <= LOGSIZE -> wf_disk st sz D -> steps (crashed st sz) D D' ->
  wf_disk st sz D' /\ forall b, ~ in_log st sz b -> logical st D' b = logical st D b.
Proof.
  intros Hsz W Hs. induction Hs as [D|D D1 D2 Hs IH Hc]; [done|]. destruct (IH W) as [W1 L1].
  destruct Hc as (me & s & j & E & ->). destruct (boot_initlog st sz me D1 Hsz W1) as (r & E' & Wl & _).
  rewrite E in E'. injection E' as <-. rewrite Wl. destruct (recovery_crash st sz Hsz D1 W1 j) as [W2 L2].
  split; [done|]. intros b Hb. by rewrite L2, L1.
Qed.

(** C1: When the last operation of a transaction calls end_op, the commit
    returns and puts every logged block on disk; and if the machine stops after
    any number of its disk writes, is restarted, and stops again any number of
    times during recovery, the recovery that completes leaves on disk either
    every block as it was before or every block as the transaction wrote it: the
    new ones when the commit had done all its writes.  The log is empty then.
    Blocks are those outside the log area, and a block write is atomic. *)
Theorem log_crash_atomic st sz L s :
  1 <= sz <= LOGSIZE -> txok st sz L [] s -> LLog ∉ bheld (bio s) ->
  committing (lg s) = 0 -> outstanding (lg s) = 1 ->
  exists s' w, end_op s = Ret tt s' /\ wlog (bio s') = wlog (bio s) ++ w /\ txok st sz [] [] s' /\
    (forall b, ~ in_log st sz b -> disk (bio s') b = content (bio s) b) /\
    forall k D me, steps (crashed st sz) (apply_writes (disk (bio s)) (take k w)) D ->
      exists r, initlog ROOTDEV st sz (boot me D) = Ret tt r /\ txok st sz [] [] r /\
        ((forall b, ~ in_log st sz b -> disk (bio r) b = disk (bio s) b) \/
         (forall b, ~ in_log st sz b -> disk (bio r) b = content (bio s) b)) /\
        ((length w <= k)%nat -> forall b, ~ in_log st sz b -> disk (bio r) b = content (bio s) b).
Proof.
  intros Hsz T Hlk Hc Ho. destruct (end_op_spec st sz Hsz L s T Hlk Hc Ho) as (s' & w & E & Wl & T' & _ & _ & _ & D' & X).
  exists s', w. split_and!; [done..|]. intros k D me Hs. destruct (X k) as (W & Hold & Hnew).
  destruct (crashed_steps st sz _ _ Hsz W Hs) as [W' L']. destruct (boot_initlog st sz me D Hsz W') as (r & Er & _ & Tr & Vr).
  exists r. split_and!; [exact Er|exact Tr| |].
  - destruct Hold as [Hb|Hb]; [left|right]; intros b Hout; by rewrite Vr, L', Hb.
  - intros Hk b Hout. by rewrite Vr, L', Hnew.
Qed.

(** A transaction that writes block 100 of an empty disk *)
Lemma one_block_tx :
  exists s, txok 2 30 [100] [] s /\ LLog ∉ bheld (bio s) /\ committing (lg s) = 0 /\ outstanding (lg s) = 1 /\
    content (bio s) 100 = replicate (Z.to_nat BSIZE) 7 /\ disk (bio s) 100 = replicate (Z.to_nat BSIZE) 0.
Proof.
  set (D := fun _ : Z => replicate (Z.to_nat BSIZE) 0).
  assert (Hsz : 1 <= 30 <= LOGSIZE) by (unfold LOGSIZE, MAXOPBLOCKS; lia).
  assert (Hl : forall b, length (D b) = Z.to_nat BSIZE) by (intros; apply length_replicate).
  assert (W : wf_disk 2 30 D) by (apply wf_disk_empty; [done|done|reflexivity]).
  destruct (boot_bq 1 D Hl) as (Q & Hd & Hw). destruct (binit_binv 1 D Hl) as (_ & _ & [Hh _ _ _] & _).
  assert (Hlog : length (lhblock (lg (boot 1 D))) = Z.to_nat LOGSIZE) by apply length_replicate.
  destruct (initlog_tx 2 30 Hsz D (boot 1 D) W Q Hd Hlog) as (s0 & _ & _ & T0 & O0 & C0 & H0 & V0).
  change (bheld (bio (boot 1 D))) with (bheld (after_binit 1 D)) in H0. rewrite Hh in H0.
  change (outstanding (lg (boot 1 D))) with 0 in O0. change (committing (lg (boot 1 D))) with 0 in C0.
  assert (N0 : LLog ∉ bheld (bio s0)) by (rewrite H0; apply not_elem_of_nil).
  assert (Hout : ~ in_log 2 30 100) by (unfold in_log; lia).
  assert (D0 : disk (bio s0) 100 = replicate (Z.to_nat BSIZE) 0) by (rewrite V0 by done; reflexivity).
  clear - Hsz T0 O0 C0 H0 N0 Hout D0.
  destruct (begin_op_spec 2 30 [] [] s0 T0 N0 C0) as (s1 & _ & T1 & B1 & O1 & C1);
    [rewrite O0, (tx_n _ _ _ _ _ T0); unfold LOGSIZE, MAXOPBLOCKS; simpl; lia|].
  destruct (bread_q [] [] (bio s1) 100 (tx_bq _ _ _ _ _ T1)) as (i & b2 & _ & Q2 & H2 & S2 & C2 & _);
    [apply not_elem_of_nil|right; simpl; unfold NBUF; lia|].
  destruct (bstore_q _ _ b2 i 100 (fun _ => replicate (Z.to_nat BSIZE) 7) Q2 H2) as (b3 & _ & Q3 & S3 & C3 & _ & K3); [apply length_replicate|].
  assert (T3 : txok 2 30 [] [100] (set_bio b3 s1)).
  { eapply txok_bio; [exact T1|exact Q3|]. by rewrite (st_disk _ _ S3), (st_disk _ _ S2). }
  destruct (log_write_spec 2 30 Hsz [] [100] (set_bio b3 s1) i 100 T3) as (s4 & _ & T4 & S4 & C4 & K4 & O4 & M4).
  { cbn [bio set_bio]. by rewrite (st_held _ _ S3), (st_held _ _ S2), B1. }
  { cbn [lg set_bio]. lia. }
  { apply K3, H2. }
  { exact Hout. }
  { lia. }
  { simpl. lia. }
  destruct (brelse_q _ _ (bio s4) i 100 (tx_bq _ _ _ _ _ T4)) as (b5 & _ & Q5 & S5 & C5 & _); [by apply K4, K3|left; apply (proj2 (elem_of_logged 100 [] 100)); by left|].
  exists (set_bio b5 s4). split_and!.
  - eapply txok_bio; [exact T4| |apply (st_disk _ _ S5)]. by rewrite remove_one_last in Q5.
  - cbn [bio set_bio] in *. by rewrite (st_held _ _ S5), (st_held _ _ S4), (st_held _ _ S3), (st_held _ _ S2), B1.
  - cbn [lg set_bio] in *. congruence.
  - cbn [lg set_bio] in *. lia.
  - cbn [bio set_bio] in *. rewrite C5, C4. exact C3.
  - cbn [bio set_bio] in *. rewrite (st_disk _ _ S5), (st_disk _ _ S4), (st_disk _ _ S3), (st_disk _ _ S2), B1. exact D0.
Qed.

Lemma log_crash_atomic_witness :
  exists s s' w, end_op s = Ret tt s' /\ disk (bio s) 100 <> disk (bio s') 100 /\
    forall k D me, steps (crashed 2 30) (apply_writes (disk (bio s)) (take k w)) D ->
      exists r, initlog ROOTDEV 2 30 (boot me D) = Ret tt r /\
        (disk (bio r) 100 = disk (bio s) 100 \/ disk (bio r) 100 = disk (bio s') 100).
Proof.
  destruct one_block_tx as (s & T & Hlk & Hc & Ho & Hnew & Hold).
  assert (Hsz : 1 <= 30 <= LOGSIZE) by (unfold LOGSIZE, MAXOPBLOCKS; lia).
  assert (Hout : ~ in_log 2 30 100) by (unfold in_log; lia).
  destruct (log_crash_atomic 2 30 [100] s Hsz T Hlk Hc Ho) as (s' & w & E & _ & _ & D' & X).
  exists s, s', w. rewrite (D' 100 Hout), Hnew, Hold. split; [exact E|]. split; [vm_compute; discriminate|].
  intros k D me Hs. destruct (X k D me Hs) as (r & Er & _ & Hb & _). exists r. split; [exact Er|].
  destruct Hb as [Hb|Hb]; rewrite (Hb 100 Hout); [left; exact Hold|right; exact Hnew].
Defined.
