(* ===== verification/Txn.v ===== *)
(** What the logging layer gives the file system inside a transaction: blocks
    read, changed, logged and released.  The file system is verified against this
    machine, and log.c with bio.c implements it ([transaction_refines]).

    A buffer is named by its block number.  A call the lower layers would not
    survive is a panic here: no buffer left, too big a transaction, a buffer
    released with a change that was never logged, or a write to the log area. *)

From stdpp Require Import base list sets strings.
From S2P Require Import Prelude Spinlock Sleeplock Ring Bio BioInv BioSeq Bytes Log LogInv LogCrash LogTx.

(** Contents, blocks held, blocks logged, blocks changed and not logged *)
Record txst := MkTx { tcont : Z -> block; thold : list Z; tlog : list Z; tdirty : list Z }.

Section machine.
Context (logstart nlog : Z).

Definition tx_bread (bn : Z) : M txst Z := fun t =>
  if decide (bn ∈ thold t) then Blocked t
  else if decide (bn ∈ tlog t \/ (length (tlog t) + length (thold t) < NBUF)%nat) then
    Ret bn (MkTx (tcont t) (bn :: thold t) (tlog t) (tdirty t))
  else Panic "bget: no buffers".

Definition tx_data (bn : Z) : M txst block := get (fun t => tcont t bn).

Definition tx_store (bn : Z) (f : block -> block) : M txst unit := fun t =>
  if decide (bn ∈ thold t /\ length (f (tcont t bn)) = Z.to_nat BSIZE) then
    Ret tt (MkTx (upd (tcont t) bn (f (tcont t bn))) (thold t) (tlog t) (bn :: tdirty t))
  else Panic "store outside a held buffer".

Definition tx_log_write (bn : Z) : M txst unit := fun t =>
  if decide (bn ∈ thold t /\ (bn < logstart \/ logstart + nlog <= bn) /\ 0 <= bn < 2 ^ 31) then
    if decide (Z.of_nat (length (tlog t)) < nlog - 1) then
      Ret tt (MkTx (tcont t) (thold t) (logged bn (tlog t)) (remove_one bn (tdirty t)))
    else Panic "too big a transaction"
  else Panic "log_write of a wrong block".

Definition tx_brelse (bn : Z) : M txst unit := fun t =>
  if decide (bn ∈ thold t) then
    if decide (bn ∈ tdirty t) then Panic "change not logged"
    else Ret tt (MkTx (tcont t) (remove_one bn (thold t)) (tlog t) (tdirty t))
  else Panic "brelse".
End machine.

(** ** The implementation *)

Section refinement.
Context (logstart nlog : Z).
Hypothesis Hnlog : 1 <= nlog <= LOGSIZE.

(** The state of bio.c and log.c that stands for [t]: [hm] gives the buffer of
    each held block. *)
Record implements (c : lst) (t : txst) (hm : Z -> nat) : Prop := {
  im_tx : txok logstart nlog (tlog t) (thold t) c;
  im_content : forall b, content (bio c) b = tcont t b;
  im_handles : forall b, b ∈ thold t -> holds (bio c) (hm b) b;
  im_clean : forall b, b ∈ thold t -> b ∉ tdirty t -> b ∈ tlog t \/ content (bio c) b = disk (bio c) b;
  im_lock : LLog ∉ bheld (bio c);
  im_op : 1 <= outstanding (lg c) }.

Lemma bread_implements c t hm bn t' :
  implements c t hm -> tx_bread bn t = Ret bn t' ->
  exists i c', liftb (bread ROOTDEV bn) c = Ret i c' /\ implements c' t' (upd hm bn i).
Proof.
  intros [T C H K N O] E. unfold tx_bread in E. repeat case_decide; try discriminate. injection E as <-.
  destruct (bread_q _ _ _ bn (tx_bq _ _ _ _ _ T)) as (i & b' & Eb & Q & Hh & S & Cb & Kb); [done|done|].
  exists i, (set_bio b' c). rewrite (liftb_ret _ _ _ _ Eb). split; [done|]. constructor; cbn [tcont thold tlog tdirty bio lg set_bio].
  - eapply txok_bio; [exact T|exact Q|apply (st_disk _ _ S)].
  - intros b. by rewrite Cb.
  - intros b. upd_at b bn; [done|]. intros [->|Hb]%elem_of_cons; [done|]. by apply Kb, H.
  - intros b Hb Hd. rewrite Cb, (st_disk _ _ S). apply elem_of_cons in Hb as [->|Hb]; [|by apply K].
    destruct (decide (bn ∈ tlog t)); [by left|right]. by eapply bq_clean; [apply (tx_bq _ _ _ _ _ T)|..].
  - by rewrite (st_held _ _ S).
  - done.
Qed.

Lemma store_implements c t hm bn f t' :
  implements c t hm -> tx_store bn f t = Ret tt t' ->
  exists c', liftb (bstore (hm bn) f) c = Ret tt c' /\ implements c' t' hm.
Proof.
  intros [T C H K N O] E. unfold tx_store in E. case_decide as D; [|discriminate]. destruct D as [Hh Hl]. injection E as <-.
  destruct (bstore_q _ _ _ (hm bn) bn f (tx_bq _ _ _ _ _ T)) as (b' & Eb & Q & S & C1 & C2 & Kb); [by apply H|by rewrite C|].
  exists (set_bio b' c). rewrite (liftb_ret _ _ _ _ Eb). split; [done|]. constructor; cbn [tcont thold tlog tdirty bio lg set_bio].
  - eapply txok_bio; [exact T|exact Q|apply (st_disk _ _ S)].
  - intros b. upd_at b bn; [by rewrite C1, C|by rewrite C2].
  - intros b Hb. by apply Kb, H.
  - intros b Hb [Hne Hd]%not_elem_of_cons. rewrite C2, (st_disk _ _ S) by done. by apply K.
  - by rewrite (st_held _ _ S).
  - done.
Qed.

Lemma log_write_implements c t hm bn t' :
  implements c t hm -> tx_log_write logstart nlog bn t = Ret tt t' ->
  exists c', log_write (hm bn) c = Ret tt c' /\ implements c' t' hm.
Proof.
  intros [T C H K N O] E. unfold tx_log_write in E. case_decide as D; [|discriminate]. destruct D as (Hh & Hb & Hb').
  case_decide as D; [|discriminate]. injection E as <-.
  destruct (log_write_spec logstart nlog Hnlog _ _ c (hm bn) bn T N O) as (c' & Ec & T' & S & C' & Kh & O' & _);
    [by apply H|unfold in_log; lia|done|done|].
  exists c'. split; [done|]. constructor; cbn [tcont thold tlog tdirty].
  - exact T'.
  - intros b. by rewrite C'.
  - intros b Hbh. by apply Kh, H.
  - intros b Hbh Hd. rewrite C', (st_disk _ _ S). destruct (decide (b = bn)) as [->|Hne].
    + left. apply elem_of_logged. by left.
    + destruct (K b Hbh) as [?|?]; [|left; apply elem_of_logged; by right|by right].
      intros Hin. apply Hd. apply elem_of_remove_one. done.
  - by rewrite (st_held _ _ S).
  - by rewrite O'.
Qed.

Lemma brelse_implements c t hm bn t' :
  implements c t hm -> tx_brelse bn t = Ret tt t' ->
  exists c', liftb (brelse (hm bn)) c = Ret tt c' /\ implements c' t' hm.
Proof.
  intros [T C H K N O] E. unfold tx_brelse in E. repeat case_decide; try discriminate. injection E as <-.
  destruct (brelse_q _ _ _ (hm bn) bn (tx_bq _ _ _ _ _ T)) as (b' & Eb & Q & S & Cb & Kb); [by apply H|by apply K|].
  exists (set_bio b' c). rewrite (liftb_ret _ _ _ _ Eb). split; [done|]. constructor; cbn [tcont thold tlog tdirty bio lg set_bio].
  - eapply txok_bio; [exact T|exact Q|apply (st_disk _ _ S)].
  - intros b. by rewrite Cb.
  - intros b [Hne Hb]%elem_of_remove_one. apply Kb; [done|by apply H].
  - intros b [Hne Hb]%elem_of_remove_one Hd. rewrite Cb, (st_disk _ _ S). by apply K.
  - by rewrite (st_held _ _ S).
  - done.
Qed.

Lemma data_implements c t hm bn :
  implements c t hm -> bn ∈ thold t -> bdata (hm bn) c = Ret (tcont t bn) c.
Proof.
  intros [T C H K N O] Hb. unfold bdata, get. f_equal. rewrite <- C. symmetry.
  eapply holds_content; [apply (bq_inv _ _ _ (tx_bq _ _ _ _ _ T))|by apply H].
Qed.
End refinement.

(** C20: bread, stores to a buffer, log_write and brelse of bio.c and log.c
    implement the transaction machine the file system is verified against: from
    a state that stands for [t], whenever the machine's operation returns, so
    does the code's, with the same data and in a state that stands for the new
    one. *)
Theorem transaction_refines logstart nlog c t hm bn :
  1 <= nlog <= LOGSIZE -> implements logstart nlog c t hm ->
  (forall t', tx_bread bn t = Ret bn t' ->
     exists i c', liftb (bread ROOTDEV bn) c = Ret i c' /\ implements logstart nlog c' t' (upd hm bn i)) /\
  (bn ∈ thold t -> bdata (hm bn) c = Ret (tcont t bn) c) /\
  (forall f t', tx_store bn f t = Ret tt t' ->
     exists c', liftb (bstore (hm bn) f) c = Ret tt c' /\ implements logstart nlog c' t' hm) /\
  (forall t', tx_log_write logstart nlog bn t = Ret tt t' ->
     exists c', log_write (hm bn) c = Ret tt c' /\ implements logstart nlog c' t' hm) /\
  (forall t', tx_brelse bn t = Ret tt t' ->
     exists c', liftb (brelse (hm bn)) c = Ret tt c' /\ implements logstart nlog c' t' hm).
Proof.
  intros Hn I. split_and!; intros.
  - by eapply bread_implements.
  - by eapply data_implements.
  - by eapply store_implements.
  - by eapply log_write_implements.
  - by eapply brelse_implements.
Qed.

Lemma transaction_refines_witness :
  exists c i c', liftb (bread ROOTDEV 100) c = Ret i c' /\
    implements 2 30 c' (MkTx (content (bio c)) [100] [100] []) (upd (fun _ => O) 100 i).
Proof.
  destruct one_block_tx as (c & T & Hlk & Hc & Ho & _ & _). exists c.
  set (t := MkTx (content (bio c)) [] [100] []).
  assert (I : implements 2 30 c t (fun _ => O)).
  { constructor; [exact T|intros b; reflexivity|intros b Hb|intros b Hb|exact Hlk|lia];
      exfalso; by apply elem_of_nil in Hb. }
  assert (Hn : 1 <= 30 <= LOGSIZE) by (unfold LOGSIZE, MAXOPBLOCKS; lia).
  destruct (transaction_refines 2 30 c t (fun _ => O) 100 Hn I) as (Hr & _). apply Hr.
  unfold tx_bread, t. cbn [thold tlog tcont tdirty]. rewrite decide_False by apply not_elem_of_nil.
  rewrite decide_True; [reflexivity|left; left].
Defined.
