(* ===== verification/Fs.v ===== *)
(** The file system, [src/xv6-riscv/kernel/fs.c], inside a transaction: block
    allocator, inodes, directories and path names.

    A buffer is the number of its block (Txn).  Inodes in memory are entries of
    the table, named by index.  Directory entries and names live in kernel
    memory, at the addresses the code passes around; [de_lookup] and [de_link]
    are the stack slots of the two local struct dirent. *)

From stdpp Require Import base list sets strings.
From S2P Require Import Prelude Memory KString Spinlock Sleeplock Bytes Bio Log Txn.

(** ** fs.h *)

Definition FSMAGIC : Z := 0x10203040.
Definition ROOTINO : Z := 1.
Definition NDIRECT : Z := 12.
Definition NINDIRECT : Z := BSIZE / 4.
Definition MAXFILE : Z := NDIRECT + NINDIRECT.
Definition DIRSIZ : Z := 14.
Definition DIRENT : Z := 16.           (* sizeof(struct dirent) *)
Definition DINODE : Z := 64.           (* sizeof(struct dinode) *)
Definition IPB : Z := BSIZE / DINODE.
Definition BPB : Z := BSIZE * 8.
Definition NINODE : nat := 50.
Definition MAXPATH : nat := 128.

Definition T_DIR : Z := 1.
Definition T_FILE : Z := 2.
Definition T_DEVICE : Z := 3.

Record superblock := MkSb {
  magic : Z; sbsize : Z; nblocks : Z; ninodes : Z; nlog : Z; logstart : Z; inodestart : Z; bmapstart : Z }.

Definition IBLOCK (i : Z) (sb : superblock) : Z := i / IPB + inodestart sb.
Definition BBLOCK (b : Z) (sb : superblock) : Z := b / BPB + bmapstart sb.

(** Two's complement reading of 16 bits, the type short *)
Definition s16 (x : Z) : Z := (x + 2 ^ 15) mod 2 ^ 16 - 2 ^ 15.

(** ** State *)

(** struct inode *)
Record inode := MkInode {
  idev : Z; inum : Z; iref : Z; ilk : sleeplock; ivalid : Z;
  itype : Z; imajor : Z; iminor : Z; nlink : Z; isize : Z; addrs : list Z }.

Definition inode0 : inode := MkInode 0 0 0 initsleeplock 0 0 0 0 0 0 (replicate 13 0).

Definition set_iref v i := MkInode (idev i) (inum i) v (ilk i) (ivalid i) (itype i) (imajor i) (iminor i) (nlink i) (isize i) (addrs i).
Definition set_ilk v i := MkInode (idev i) (inum i) (iref i) v (ivalid i) (itype i) (imajor i) (iminor i) (nlink i) (isize i) (addrs i).
Definition set_ivalid v i := MkInode (idev i) (inum i) (iref i) (ilk i) v (itype i) (imajor i) (iminor i) (nlink i) (isize i) (addrs i).
Definition set_itype v i := MkInode (idev i) (inum i) (iref i) (ilk i) (ivalid i) v (imajor i) (iminor i) (nlink i) (isize i) (addrs i).
Definition set_nlink v i := MkInode (idev i) (inum i) (iref i) (ilk i) (ivalid i) (itype i) (imajor i) (iminor i) v (isize i) (addrs i).
Definition set_isize v i := MkInode (idev i) (inum i) (iref i) (ilk i) (ivalid i) (itype i) (imajor i) (iminor i) (nlink i) v (addrs i).
Definition set_addrs v i := MkInode (idev i) (inum i) (iref i) (ilk i) (ivalid i) (itype i) (imajor i) (iminor i) (nlink i) (isize i) v.
Definition set_device ma mi i := MkInode (idev i) (inum i) (iref i) (ilk i) (ivalid i) (itype i) ma mi (nlink i) (isize i) (addrs i).

Record fst := MkF {
  tx : txst; sb : superblock; itab : nat -> inode; fmem : mem;
  fheld : list lockid; fme : Z; fwoken : list chan; fcwd : nat }.

Definition set_tx t s := MkF t (sb s) (itab s) (fmem s) (fheld s) (fme s) (fwoken s) (fcwd s).
Definition set_itab f s := MkF (tx s) (sb s) f (fmem s) (fheld s) (fme s) (fwoken s) (fcwd s).
Definition set_fmem m s := MkF (tx s) (sb s) (itab s) m (fheld s) (fme s) (fwoken s) (fcwd s).
Definition set_fheld h s := MkF (tx s) (sb s) (itab s) (fmem s) h (fme s) (fwoken s) (fcwd s).
Definition set_fwoken w s := MkF (tx s) (sb s) (itab s) (fmem s) (fheld s) (fme s) w (fcwd s).

#[export] Instance fst_locks : LockView fst := {
  held := fheld; set_held := set_fheld;
  held_set_held := fun _ _ => eq_refl; set_held_twice := fun _ _ _ => eq_refl;
  set_held_id := fun s => match s with MkF _ _ _ _ _ _ _ _ => eq_refl end }.

#[export] Instance fst_thread : Thread fst := {
  thread_locks := fst_locks; mypid := fme; woken := fwoken; set_woken := set_fwoken;
  woken_set_woken := fun _ _ => eq_refl; held_set_woken := fun _ _ => eq_refl;
  woken_set_held := fun _ _ => eq_refl; mypid_set_woken := fun _ _ => eq_refl;
  mypid_set_held := fun _ _ => eq_refl; set_woken_held := fun _ _ _ => eq_refl }.

(** Calls of the logging layer *)
Definition liftx {A} (c : M txst A) : M fst A := fun s =>
  match c (tx s) with
  | Ret a t => Ret a (set_tx t s)
  | Panic msg => Panic msg
  | Blocked t => Blocked (set_tx t s)
  | OutOfFuel => OutOfFuel
  end.

Definition bread (dev bn : Z) : M fst Z := liftx (tx_bread bn).
Definition bdata (bp : Z) : M fst block := liftx (tx_data bp).
Definition bstore (bp : Z) (f : block -> block) : M fst unit := liftx (tx_store bp f).
Definition log_write (bp : Z) : M fst unit :=
  let! sb := get sb in liftx (tx_log_write (logstart sb) (nlog sb) bp).
Definition brelse (bp : Z) : M fst unit := liftx (tx_brelse bp).

(** ip->field reads and writes *)
Definition geti (ip : nat) : M fst inode := get (fun s => itab s ip).
Definition seti (ip : nat) (f : inode -> inode) : M fst unit :=
  modify (fun s => set_itab (upd (itab s) ip (f (itab s ip))) s).

(** The sleep lock inside an inode; the buffers have the lower addresses. *)
Definition ilock_id (ip : nat) : Z := 1000 + Z.of_nat ip.
Definition inode_lock (ip : nat) (s : fst) : sleeplock := ilk (itab s ip).
Definition set_inode_lock (ip : nat) (k : sleeplock) (s : fst) : fst :=
  set_itab (upd (itab s) ip (set_ilk k (itab s ip))) s.
Definition acquiresleep_i ip : M fst unit := acquiresleep (ilock_id ip) (inode_lock ip) (set_inode_lock ip).
Definition releasesleep_i ip : M fst unit := releasesleep (ilock_id ip) (set_inode_lock ip).
Definition holdingsleep_i ip : M fst bool := holdingsleep (ilock_id ip) (inode_lock ip).

(** ** Super block: fsinit runs before the first transaction, on the log itself *)

Definition sb_of (d : block) : superblock :=
  MkSb (get32 d 0) (get32 d 4) (get32 d 8) (get32 d 12) (get32 d 16) (get32 d 20) (get32 d 24) (get32 d 28).

Definition readsb (dev : Z) : M lst superblock :=
  let! bp := liftb (Bio.bread dev 1) in
  let! d := Log.bdata bp in
  liftb (Bio.brelse bp) ;;;
  ret (sb_of d).

Definition fsinit (dev : Z) : M lst superblock :=
  let! sb := readsb dev in
  if negb (magic sb =? FSMAGIC) then panic "invalid file system"
  else initlog dev (logstart sb) (nlog sb) ;;; ret sb.

(** ** Blocks *)

Definition zero_block : block := replicate (Z.to_nat BSIZE) 0.

Definition bzero (dev bno : Z) : M fst unit :=
  let! bp := bread dev bno in
  bstore bp (fun _ => zero_block) ;;;
  log_write bp ;;;
  brelse bp.

(** for(bi = 0; bi < BPB && b + bi < sb.size; bi++): the first free bit *)
Fixpoint find_bit (d : block) (b size bi : Z) (fuel : nat) : option Z :=
  match fuel with
  | O => None
  | S fuel =>
      if b + bi <? size then
        let m := Z.shiftl 1 (bi mod 8) in
        if Z.land (rd d (bi / 8)) m =? 0 then Some bi else find_bit d b size (bi + 1) fuel
      else None
  end.

(** for(b = 0; b < sb.size; b += BPB); a uint size needs at most 2^32 / BPB turns,
    and the fuel given is size / BPB + 1. *)
Fixpoint balloc_loop (dev b : Z) (fuel : nat) : M fst Z :=
  match fuel with
  | O => out_of_fuel
  | S fuel =>
      let! s := get sb in
      if b <? sbsize s then
        let! bp := bread dev (BBLOCK b s) in
        let! d := bdata bp in
        match find_bit d b (sbsize s) 0 (Z.to_nat BPB) with
        | Some bi =>
            bstore bp (fun d => wr d (bi / 8) (Z.lor (rd d (bi / 8)) (Z.shiftl 1 (bi mod 8)))) ;;;
            log_write bp ;;;
            brelse bp ;;;
            bzero dev (b + bi) ;;;
            ret (b + bi)
        | None => brelse bp ;;; balloc_loop dev (b + BPB) fuel
        end
      else ret 0    (* out of blocks *)
  end.

Definition balloc (dev : Z) : M fst Z :=
  let! s := get sb in balloc_loop dev 0 (S (S (Z.to_nat (sbsize s / BPB)))).

Definition bfree (dev b : Z) : M fst unit :=
  let! s := get sb in
  let! bp := bread dev (BBLOCK b s) in
  let bi := b mod BPB in
  let m := Z.shiftl 1 (bi mod 8) in
  let! d := bdata bp in
  if Z.land (rd d (bi / 8)) m =? 0 then panic "freeing free block"
  else
    bstore bp (fun d => wr d (bi / 8) (Z.land (rd d (bi / 8)) (u8 (Z.lnot m)))) ;;;
    log_write bp ;;;
    brelse bp.

(** ** Inodes *)

(** struct dinode at (struct dinode * )bp->data + inum%IPB *)
Definition dip_off (inum : Z) : Z := inum mod IPB * DINODE.

Definition get_addrs (d : block) (o : Z) : list Z := (fun i => get32 d (o + 12 + 4 * i)) <$> seqZ 0 13.
Definition put_addrs (d : block) (o : Z) (a : list Z) : block :=
  for_up 0 13 (fun i d => put32 d (o + 12 + 4 * i) (rd a i)) d.

(** The fields of the disk inode stored from, and loaded into, the table entry *)
Definition put_dinode (o : Z) (i : inode) (d : block) : block :=
  put_addrs (put32 (put16 (put16 (put16 (put16 d o (itype i)) (o + 2) (imajor i)) (o + 4) (iminor i)) (o + 6) (nlink i))
    (o + 8) (isize i)) o (addrs i).

Definition load_dinode (o : Z) (d : block) (i : inode) : inode :=
  MkInode (idev i) (inum i) (iref i) (ilk i) (ivalid i)
    (s16 (get16 d o)) (s16 (get16 d (o + 2))) (s16 (get16 d (o + 4))) (s16 (get16 d (o + 6))) (get32 d (o + 8)) (get_addrs d o).

Definition iinit : M fst unit :=
  for_each (seq 0 NINODE) (fun i => seti i (set_ilk initsleeplock)).

(** iget's loop: an entry of the inode, and the first empty slot *)
Fixpoint iget_scan (l : list nat) (dev inum_ : Z) (empty : option nat) (s : fst) : option nat * option nat :=
  match l with
  | [] => (None, empty)
  | ip :: l =>
      let i := itab s ip in
      if ((0 <? iref i) && (idev i =? dev) && (inum i =? inum_))%bool then (Some ip, empty)
      else iget_scan l dev inum_ (match empty with None => if iref i =? 0 then Some ip else None | _ => empty end) s
  end.

Definition iget (dev inum_ : Z) : M fst nat :=
  lock_acquire LItable ;;;
  let! r := get (iget_scan (seq 0 NINODE) dev inum_ None) in
  match r with
  | (Some ip, _) =>
      seti ip (fun i => set_iref (iref i + 1) i) ;;;
      lock_release LItable ;;;
      ret ip
  | (None, None) => panic "iget: no inodes"
  | (None, Some ip) =>
      seti ip (fun i => MkInode dev inum_ 1 (ilk i) 0 (itype i) (imajor i) (iminor i) (nlink i) (isize i) (addrs i)) ;;;
      lock_release LItable ;;;
      ret ip
  end.

(** for(inum = 1; inum < sb.ninodes; inum++) *)
Fixpoint ialloc_loop (dev type inum_ : Z) (fuel : nat) : M fst (option nat) :=
  match fuel with
  | O => ret None
  | S fuel =>
      let! s := get sb in
      let! bp := bread dev (IBLOCK inum_ s) in
      let! d := bdata bp in
      if s16 (get16 d (dip_off inum_)) =? 0 then
        bstore bp (fun d => put16 (put_dinode (dip_off inum_) inode0 d) (dip_off inum_) type) ;;;
        log_write bp ;;;
        brelse bp ;;;
        let! ip := iget dev inum_ in
        ret (Some ip)
      else
        brelse bp ;;;
        ialloc_loop dev type (inum_ + 1) fuel
  end.

Definition ialloc (dev type : Z) : M fst (option nat) :=
  let! s := get sb in ialloc_loop dev type 1 (Z.to_nat (ninodes s - 1)).

Definition iupdate (ip : nat) : M fst unit :=
  let! s := get sb in
  let! i := geti ip in
  let! bp := bread (idev i) (IBLOCK (inum i) s) in
  bstore bp (put_dinode (dip_off (inum i)) i) ;;;
  log_write bp ;;;
  brelse bp.

Definition idup (ip : nat) : M fst nat :=
  lock_acquire LItable ;;;
  seti ip (fun i => set_iref (iref i + 1) i) ;;;
  lock_release LItable ;;;
  ret ip.

Definition ilock (ip : nat) : M fst unit :=
  let! i := geti ip in
  if iref i <? 1 then panic "ilock"
  else
    acquiresleep_i ip ;;;
    let! i := geti ip in
    when ivalid i =? 0 then
      let! s := get sb in
      let! bp := bread (idev i) (IBLOCK (inum i) s) in
      let! d := bdata bp in
      seti ip (load_dinode (dip_off (inum i)) d) ;;;
      brelse bp ;;;
      seti ip (set_ivalid 1) ;;;
      let! i := geti ip in
      if itype i =? 0 then panic "ilock: no type" else ret tt.

Definition iunlock (ip : nat) : M fst unit :=
  let! h := holdingsleep_i ip in
  let! i := geti ip in
  if (negb h || (iref i <? 1))%bool then panic "iunlock" else releasesleep_i ip.

(** ** Inode content *)

Definition bmap (ip : nat) (bn : Z) : M fst Z :=
  let! i := geti ip in
  if bn <? NDIRECT then
    let addr := rd (addrs i) bn in
    if addr =? 0 then
      let! addr := balloc (idev i) in
      if addr =? 0 then ret 0
      else seti ip (fun i => set_addrs (wr (addrs i) bn addr) i) ;;; ret addr
    else ret addr
  else
    let bn := bn - NDIRECT in
    if bn <? NINDIRECT then
      (* Load indirect block, allocating if necessary. *)
      let! addr :=
        if rd (addrs i) NDIRECT =? 0 then
          let! addr := balloc (idev i) in
          (when negb (addr =? 0) then seti ip (fun i => set_addrs (wr (addrs i) NDIRECT addr) i)) ;;;
          ret addr
        else ret (rd (addrs i) NDIRECT) in
      if addr =? 0 then ret 0
      else
        let! bp := bread (idev i) addr in
        let! a := bdata bp in
        let! addr :=
          if get32 a (4 * bn) =? 0 then
            let! addr := balloc (idev i) in
            (when negb (addr =? 0) then
              bstore bp (fun a => put32 a (4 * bn) addr) ;;;
              log_write bp) ;;;
            ret addr
          else ret (get32 a (4 * bn)) in
        brelse bp ;;;
        ret addr
    else panic "bmap: out of range".

(** for(i = 0; i < NDIRECT; i++) *)
Fixpoint itrunc_direct (ip : nat) (k : Z) (fuel : nat) : M fst unit :=
  match fuel with
  | O => ret tt
  | S fuel =>
      let! i := geti ip in
      (when negb (rd (addrs i) k =? 0) then
        bfree (idev i) (rd (addrs i) k) ;;;
        seti ip (fun i => set_addrs (wr (addrs i) k 0) i)) ;;;
      itrunc_direct ip (k + 1) fuel
  end.

(** for(j = 0; j < NINDIRECT; j++) *)
Fixpoint itrunc_indirect (dev : Z) (a : block) (j : Z) (fuel : nat) : M fst unit :=
  match fuel with
  | O => ret tt
  | S fuel =>
      (when negb (get32 a (4 * j) =? 0) then bfree dev (get32 a (4 * j))) ;;;
      itrunc_indirect dev a (j + 1) fuel
  end.

Definition itrunc (ip : nat) : M fst unit :=
  itrunc_direct ip 0 (Z.to_nat NDIRECT) ;;;
  let! i := geti ip in
  (when negb (rd (addrs i) NDIRECT =? 0) then
    let! bp := bread (idev i) (rd (addrs i) NDIRECT) in
    let! a := bdata bp in
    itrunc_indirect (idev i) a 0 (Z.to_nat NINDIRECT) ;;;
    brelse bp ;;;
    bfree (idev i) (rd (addrs i) NDIRECT) ;;;
    seti ip (fun i => set_addrs (wr (addrs i) NDIRECT 0) i)) ;;;
  seti ip (set_isize 0) ;;;
  iupdate ip.

Definition iput (ip : nat) : M fst unit :=
  lock_acquire LItable ;;;
  let! i := geti ip in
  (when ((iref i =? 1) && negb (ivalid i =? 0) && (nlink i =? 0))%bool then
    acquiresleep_i ip ;;;
    lock_release LItable ;;;
    itrunc ip ;;;
    seti ip (set_itype 0) ;;;
    iupdate ip ;;;
    seti ip (set_ivalid 0) ;;;
    releasesleep_i ip ;;;
    lock_acquire LItable) ;;;
  seti ip (fun i => set_iref (iref i - 1) i) ;;;
  lock_release LItable.

Definition iunlockput (ip : nat) : M fst unit := iunlock ip ;;; iput ip.

(** struct stat *)
Record stat := MkStat { st_dev : Z; st_ino : Z; st_type : Z; st_nlink : Z; st_size : Z }.

Definition stati (ip : nat) : M fst stat :=
  let! i := geti ip in ret (MkStat (idev i) (inum i) (itype i) (nlink i) (isize i)).

(** What proc.c gives for user addresses: copyout and copyin, each of which may
    fail after copying a part; [user_in] returns the bytes copied. *)
Class UserCopy := {
  user_out : mem -> Z -> list Z -> mem * bool;
  user_in : mem -> Z -> Z -> list Z * bool }.

Section io.
Context `{UserCopy}.

(** Bytes stored at consecutive addresses *)
Definition put_bytes (m : mem) (a : Z) (bs : list Z) : mem :=
  fun x => if ((a <=? x) && (x <? a + Z.of_nat (length bs)))%bool then u8 (rd bs (x - a)) else m x.

Definition either_copyout (user_dst : bool) (dst : Z) (bs : list Z) : M fst Z := fun s =>
  if user_dst then
    let '(m, ok) := user_out (fmem s) dst bs in
    Ret (if ok : bool then 0 else -1) (set_fmem m s)
  else Ret 0 (set_fmem (put_bytes (fmem s) dst bs) s).

Definition either_copyin (user_src : bool) (src n : Z) : M fst (list Z * bool) := fun s =>
  if user_src then Ret (user_in (fmem s) src n) s
  else Ret (region (fmem s) src (Z.to_nat n), true) s.

Definition min (a b : Z) : Z := if a <? b then a else b.

(** m bytes of a block from offset o, and their replacement *)
Definition slice (d : block) (o m : Z) : list Z := take (Z.to_nat m) (drop (Z.to_nat o) d).
Definition splice (d : block) (o : Z) (bs : list Z) : block :=
  take (Z.to_nat o) d ++ bs ++ drop (Z.to_nat o + length bs) d.

(** for(tot=0; tot<n; tot+=m, off+=m, dst+=m); every turn moves at least one
    byte, so n + 1 turns are enough. *)
Fixpoint readi_loop (ip : nat) (user_dst : bool) (dst off n tot : Z) (fuel : nat) : M fst Z :=
  match fuel with
  | O => out_of_fuel
  | S fuel =>
      if tot <? n then
        let! addr := bmap ip (off / BSIZE) in
        if addr =? 0 then ret tot
        else
          let! i := geti ip in
          let! bp := bread (idev i) addr in
          let m := min (n - tot) (BSIZE - off mod BSIZE) in
          let! d := bdata bp in
          let! r := either_copyout user_dst dst (slice d (off mod BSIZE) m) in
          if r =? -1 then brelse bp ;;; ret (-1)
          else
            brelse bp ;;;
            readi_loop ip user_dst (dst + m) (off + m) n (tot + m) fuel
      else ret tot
  end.

Definition readi (ip : nat) (user_dst : bool) (dst off n : Z) : M fst Z :=
  let! i := geti ip in
  if ((isize i <? off) || (u32 (off + n) <? off))%bool then ret 0
  else
    let n := if isize i <? u32 (off + n) then isize i - off else n in
    readi_loop ip user_dst dst off n 0 (S (Z.to_nat n)).

(** The loop of writei returns the bytes written and the final offset. *)
Fixpoint writei_loop (ip : nat) (user_src : bool) (src off n tot : Z) (fuel : nat) : M fst (Z * Z) :=
  match fuel with
  | O => out_of_fuel
  | S fuel =>
      if tot <? n then
        let! addr := bmap ip (off / BSIZE) in
        if addr =? 0 then ret (tot, off)
        else
          let! i := geti ip in
          let! bp := bread (idev i) addr in
          let m := min (n - tot) (BSIZE - off mod BSIZE) in
          let! r := either_copyin user_src src m in
          let '(bs, ok) := r in
          (when negb (length bs =? 0)%nat then bstore bp (fun d => splice d (off mod BSIZE) bs)) ;;;
          if negb ok then brelse bp ;;; ret (tot, off)
          else
            log_write bp ;;;
            brelse bp ;;;
            writei_loop ip user_src (src + m) (off + m) n (tot + m) fuel
      else ret (tot, off)
  end.

Definition writei (ip : nat) (user_src : bool) (src off n : Z) : M fst Z :=
  let! i := geti ip in
  if ((isize i <? off) || (u32 (off + n) <? off))%bool then ret (-1)
  else if MAXFILE * BSIZE <? u32 (off + n) then ret (-1)
  else
    let! r := writei_loop ip user_src src off n 0 (S (Z.to_nat n)) in
    let '(tot, off) := r in
    let! i := geti ip in
    (when isize i <? off then seti ip (set_isize off)) ;;;
    iupdate ip ;;;
    ret tot.

(** ** Directories *)

Context (de_lookup de_link : Z).

Definition getmem : M fst mem := get fmem.
Definition setmem (f : mem -> mem) : M fst unit := modify (fun s => set_fmem (f (fmem s)) s).

(** namecmp(s, t) *)
Definition namecmp (m : mem) (s t : Z) : Z := strncmp m s t DIRSIZ.

(** de.inum of the struct dirent at [de]; its name is at de + 2. *)
Definition de_inum (m : mem) (de : Z) : Z := load_le m de 2.
Definition de_name (de : Z) : Z := de + 2.

(** for(off = 0; off < dp->size; off += sizeof(de)), returning the entry found
    with its offset, which the caller stores in *poff *)
Fixpoint dirlookup_loop (dp : nat) (name off : Z) (fuel : nat) : M fst (option (nat * Z)) :=
  match fuel with
  | O => out_of_fuel
  | S fuel =>
      let! i := geti dp in
      if off <? isize i then
        let! r := readi dp false de_lookup off DIRENT in
        if negb (r =? DIRENT) then panic "dirlookup read"
        else
          let! m := getmem in
          if de_inum m de_lookup =? 0 then dirlookup_loop dp name (off + DIRENT) fuel
          else if namecmp m name (de_name de_lookup) =? 0 then
            let! ip := iget (idev i) (de_inum m de_lookup) in
            ret (Some (ip, off))
          else dirlookup_loop dp name (off + DIRENT) fuel
      else ret None
  end.

Definition dirlookup (dp : nat) (name : Z) : M fst (option (nat * Z)) :=
  let! i := geti dp in
  if negb (itype i =? T_DIR) then panic "dirlookup not DIR"
  else dirlookup_loop dp name 0 (S (S (Z.to_nat (isize i / DIRENT)))).

(** The search for an empty dirent: the offset where the loop stops *)
Fixpoint dirlink_loop (dp : nat) (off : Z) (fuel : nat) : M fst Z :=
  match fuel with
  | O => out_of_fuel
  | S fuel =>
      let! i := geti dp in
      if off <? isize i then
        let! r := readi dp false de_link off DIRENT in
        if negb (r =? DIRENT) then panic "dirlink read"
        else
          let! m := getmem in
          if de_inum m de_link =? 0 then ret off
          else dirlink_loop dp (off + DIRENT) fuel
      else ret off
  end.

Definition dirlink (dp : nat) (name inum_ : Z) : M fst Z :=
  let! r := dirlookup dp name in
  match r with
  | Some (ip, _) => iput ip ;;; ret (-1)
  | None =>
      let! i := geti dp in
      let! off := dirlink_loop dp 0 (S (S (Z.to_nat (isize i / DIRENT)))) in
      setmem (fun m => strncpy m (de_name de_link) name DIRSIZ) ;;;
      setmem (fun m => store_le m de_link inum_ 2) ;;;
      let! r := writei dp false de_link off DIRENT in
      if negb (r =? DIRENT) then ret (-1) else ret 0
  end.

(** ** Paths *)

Definition SLASH : Z := 47.

(** while( *path == '/') path++;  and  while( *path != '/' && *path != 0) path++; *)
Fixpoint skip_slashes (m : mem) (p : Z) (fuel : nat) : option Z :=
  match fuel with
  | O => None
  | S fuel => if m p =? SLASH then skip_slashes m (p + 1) fuel else Some p
  end.

Fixpoint skip_name (m : mem) (p : Z) (fuel : nat) : option Z :=
  match fuel with
  | O => None
  | S fuel => if (negb (m p =? SLASH) && negb (m p =? 0))%bool then skip_name m (p + 1) fuel else Some p
  end.

(** skipelem(path, name): the rest of the path, or 0 at its end; paths are
    shorter than MAXPATH. *)
Definition skipelem (path name : Z) : M fst Z :=
  let! m := getmem in
  match skip_slashes m path MAXPATH with
  | None => out_of_fuel
  | Some s =>
      if m s =? 0 then ret 0
      else
        match skip_name m s MAXPATH with
        | None => out_of_fuel
        | Some p =>
            let len := p - s in
            (if DIRSIZ <=? len then setmem (fun m => memmove m name s DIRSIZ)
             else
               setmem (fun m => memmove m name s len) ;;;
               setmem (fun m => store8 m (name + len) 0)) ;;;
            let! m := getmem in
            match skip_slashes m p MAXPATH with
            | None => out_of_fuel
            | Some p => ret p
            end
        end
  end.

Fixpoint namex_loop (ip : nat) (path : Z) (nameiparent : bool) (name : Z) (fuel : nat) : M fst (option nat) :=
  match fuel with
  | O => out_of_fuel
  | S fuel =>
      let! path := skipelem path name in
      if path =? 0 then
        if nameiparent then iput ip ;;; ret None
        else ret (Some ip)
      else
        ilock ip ;;;
        let! i := geti ip in
        if negb (itype i =? T_DIR) then iunlockput ip ;;; ret None
        else
          let! m := getmem in
          if (nameiparent && (m path =? 0))%bool then iunlock ip ;;; ret (Some ip)
          else
            let! next := dirlookup ip name in
            match next with
            | None => iunlockput ip ;;; ret None
            | Some (next, _) => iunlockput ip ;;; namex_loop next path nameiparent name fuel
            end
  end.

Definition namex (path : Z) (nameiparent : bool) (name : Z) : M fst (option nat) :=
  let! m := getmem in
  let! ip := if m path =? SLASH then iget ROOTDEV ROOTINO
             else let! cwd := get fcwd in idup cwd in
  namex_loop ip path nameiparent name MAXPATH.

(** [buf] is namei's local name[DIRSIZ]. *)
Definition namei (buf path : Z) : M fst (option nat) := namex path false buf.
Definition nameiparent (path name : Z) : M fst (option nat) := namex path true name.
End io.
