(* ===== verification/FsBlock.v ===== *)
(** Blocks of the file system: what reading and changing one block does, and
    the block allocator. *)

From stdpp Require Import base list sets strings.
From S2P Require Import Prelude Memory Spinlock Sleeplock Bytes Bio Log LogTx Txn Fs.

(** Fields of updated states *)
Ltac fsimpl := cbn [tx sb itab fmem fheld fme fwoken fcwd set_tx set_itab set_fmem set_fheld set_fwoken
  tcont thold tlog tdirty] in *.

(** ** Changing one block *)

(** Block [bn] rewritten by [f], and logged *)
Definition with_block (bn : Z) (f : block -> block) (s : fst) : fst :=
  set_tx (MkTx (upd (tcont (tx s)) bn (f (tcont (tx s) bn))) (thold (tx s)) (logged bn (tlog (tx s))) (tdirty (tx s))) s.

(** Block [bn] held *)
Definition with_hold (bn : Z) (s : fst) : fst :=
  set_tx (MkTx (tcont (tx s)) (bn :: thold (tx s)) (tlog (tx s)) (tdirty (tx s))) s.

(** The log has room for [k] more blocks, and so has the cache. *)
Definition room (s : fst) (k : Z) : Prop :=
  Z.of_nat (length (tlog (tx s))) + k < nlog (sb s) /\ nlog (sb s) <= LOGSIZE /\
  (length (thold (tx s)) <= 1)%nat /\ tdirty (tx s) = [].

(** A block that may be logged: outside the log area *)
Definition loggable (sb : superblock) (bn : Z) : Prop :=
  (bn < logstart sb \/ logstart sb + nlog sb <= bn) /\ 0 <= bn < 2 ^ 31.

Lemma length_logged bn L : (length (logged bn L) <= S (length L))%nat.
Proof. unfold logged. case_decide; [lia|]. rewrite length_app. simpl. lia. Qed.

Lemma room_with_block bn f s k : room s (k + 1) -> room (with_block bn f s) k.
Proof. intros (H1 & H2 & H3 & H4). unfold room. simpl. pose proof (length_logged bn (tlog (tx s))). split_and!; [lia|done..]. Qed.

Lemma room_weaken s k k' : room s k -> k' <= k -> room s k'.
Proof. intros (H1 & H2 & H3 & H4) Hk. split_and!; [lia|done..]. Qed.

Lemma tx_bread_room s bn : bn ∉ thold (tx s) -> room s 1 -> tx_bread bn (tx s) = Ret bn (tx (with_hold bn s)).
Proof.
  intros Hb (H1 & H2 & H3 & _). unfold tx_bread. rewrite decide_False, decide_True; [done| |done].
  right. unfold LOGSIZE, MAXOPBLOCKS in H2. unfold NBUF. lia.
Qed.

Lemma bread_run dev bn s : bn ∉ thold (tx s) -> room s 1 -> bread dev bn s = Ret bn (with_hold bn s).
Proof. intros Hb Hr. unfold bread, liftx. by rewrite (tx_bread_room s bn Hb Hr). Qed.

Lemma brelse_run bn s : bn ∉ thold (tx s) -> bn ∉ tdirty (tx s) -> brelse bn (with_hold bn s) = Ret tt s.
Proof.
  intros Hb Hd. unfold brelse, liftx, tx_brelse. simpl. rewrite decide_True by left. rewrite decide_False by done.
  unfold with_hold. simpl. rewrite remove_one_head by done. by destruct s as [[] ? ? ? ? ? ? ?].
Qed.

Lemma bdata_run bn s : bdata bn s = Ret (tcont (tx s) bn) s.
Proof. unfold bdata, liftx, tx_data, get. by destruct s. Qed.

(** bp = bread(dev, bn); ... bp->data ...; brelse(bp): the content, and no change *)
Lemma read_block {A} dev bn s (k : block -> M fst A) :
  bn ∉ thold (tx s) -> room s 1 ->
  bind (bread dev bn) (fun bp => bind (bdata bp) (fun d => bind (brelse bp) (fun _ => k d))) s = k (tcont (tx s) bn) s.
Proof.
  intros Hb Hr. rewrite (bind_ret_intro _ _ _ _ _ (bread_run dev bn s Hb Hr)).
  rewrite (bind_ret_intro _ _ _ _ _ (bdata_run bn (with_hold bn s))).
  rewrite (bind_ret_intro _ _ _ _ _ (brelse_run bn s Hb ltac:(destruct Hr as (_ & _ & _ & ->); apply not_elem_of_nil))). done.
Qed.

(** A store to the block held, logged *)
Lemma store_log_run bn f s :
  bn ∉ thold (tx s) -> room s 1 -> loggable (sb s) bn -> length (f (tcont (tx s) bn)) = Z.to_nat BSIZE ->
  bind (bstore bn f) (fun _ => log_write bn) (with_hold bn s) = Ret tt (with_hold bn (with_block bn f s)).
Proof.
  intros Hb (H1 & H2 & H3 & H4) [Hl Hl'] Hlen. unfold bind, bstore, liftx, tx_store, with_hold. fsimpl.
  rewrite decide_True by (split; [left|done]). unfold log_write, bind, get, liftx, tx_log_write. fsimpl.
  rewrite decide_True by (split; [left|split; [exact Hl|exact Hl']]). rewrite decide_True by lia.
  rewrite remove_one_head by (rewrite H4; apply not_elem_of_nil). done.
Qed.

(** bp = bread(dev, bn); change bp->data; log_write(bp); brelse(bp); *)
Lemma modify_block {A} dev bn f s (k : M fst A) :
  bn ∉ thold (tx s) -> room s 1 -> loggable (sb s) bn -> length (f (tcont (tx s) bn)) = Z.to_nat BSIZE ->
  bind (bread dev bn) (fun bp => bind (bstore bp f) (fun _ => bind (log_write bp) (fun _ => bind (brelse bp) (fun _ => k)))) s =
  k (with_block bn f s).
Proof.
  intros Hb Hr Hl Hlen. rewrite (bind_ret_intro _ _ _ _ _ (bread_run dev bn s Hb Hr)).
  pose proof (store_log_run bn f s Hb Hr Hl Hlen) as E. apply bind_ret_inv in E as ([] & s1 & E1 & E2).
  rewrite (bind_ret_intro _ _ _ _ _ E1), (bind_ret_intro _ _ _ _ _ E2).
  assert (Hd : tdirty (tx s) = []) by apply Hr.
  rewrite (bind_ret_intro _ _ _ _ _ (brelse_run bn (with_block bn f s) Hb ltac:(simpl; rewrite Hd; apply not_elem_of_nil))). done.
Qed.

Lemma modify_block_last dev bn f s :
  bn ∉ thold (tx s) -> room s 1 -> loggable (sb s) bn -> length (f (tcont (tx s) bn)) = Z.to_nat BSIZE ->
  bind (bread dev bn) (fun bp => bind (bstore bp f) (fun _ => bind (log_write bp) (fun _ => brelse bp))) s =
  Ret tt (with_block bn f s).
Proof.
  intros Hb Hr Hl Hlen. rewrite (bind_ret_intro _ _ _ _ _ (bread_run dev bn s Hb Hr)).
  pose proof (store_log_run bn f s Hb Hr Hl Hlen) as E. apply bind_ret_inv in E as ([] & s1 & E1 & E2).
  rewrite (bind_ret_intro _ _ _ _ _ E1), (bind_ret_intro _ _ _ _ _ E2).
  assert (Hd : tdirty (tx s) = []) by apply Hr. apply (brelse_run bn (with_block bn f s)); [done|].
  unfold with_block. fsimpl. rewrite Hd. apply not_elem_of_nil.
Qed.

Lemma bzero_run dev b s :
  b ∉ thold (tx s) -> room s 1 -> loggable (sb s) b -> bzero dev b s = Ret tt (with_block b (fun _ => zero_block) s).
Proof. intros. apply modify_block_last; [done..|]. apply length_replicate. Qed.

(** ** The allocator *)

(** The bit of block [b] in the bitmap *)
Definition bit_byte (b : Z) : Z := b mod BPB / 8.
Definition used (C : Z -> block) (sb : superblock) (b : Z) : bool :=
  Z.testbit (rd (C (BBLOCK b sb)) (bit_byte b)) (b mod 8).

(** The first data block *)
Definition datastart (sb : superblock) : Z := bmapstart sb + sbsize sb / BPB + 1.

(** The disk layout mkfs makes: boot and super block, log, inodes, bitmap, data *)
Record layout (sb : superblock) : Prop := {
  ly_log : 2 <= logstart sb /\ 1 <= nlog sb <= LOGSIZE /\ logstart sb + nlog sb <= inodestart sb;
  ly_inodes : 0 <= ninodes sb /\ inodestart sb + ninodes sb / IPB < bmapstart sb;
  ly_size : 0 <= sbsize sb < 2 ^ 31;
  ly_data : datastart sb <= sbsize sb }.

(** Contents that respect the layout: whole blocks of bytes, metadata marked used *)
Record fs_ok (C : Z -> block) (sb : superblock) : Prop := {
  fo_layout : layout sb;
  fo_len : forall b, length (C b) = Z.to_nat BSIZE;
  fo_bytes : forall b, isbytes (C b);
  fo_meta : forall b, 0 <= b < datastart sb -> used C sb b = true }.

(** The scan of a bitmap block finds the first free block it describes. *)
Lemma find_bit_spec d b size fuel bi :
  0 <= bi -> let r := find_bit d b size bi fuel in
  match r with
  | Some k => bi <= k < bi + Z.of_nat fuel /\ b + k < size /\ Z.testbit (rd d (k / 8)) (k mod 8) = false /\
      forall j, bi <= j < k -> Z.testbit (rd d (j / 8)) (j mod 8) = true
  | None => forall j, bi <= j < bi + Z.of_nat fuel -> b + j < size -> Z.testbit (rd d (j / 8)) (j mod 8) = true
  end.
Proof.
  revert bi. induction fuel as [|fuel IH]; intros bi Hbi; cbn [find_bit]; [intros; lia|].
  case_test; bool_to_prop; [|intros; lia]. rewrite land_bit by (apply Z.mod_pos_bound; lia).
  destruct (Z.testbit (rd d (bi / 8)) (bi mod 8)) eqn:E'; cbn [negb].
  - specialize (IH (bi + 1) ltac:(lia)). cbv zeta in *. destruct (find_bit d b size (bi + 1) fuel) as [k|].
    + destruct IH as (H1 & H2 & H3 & H4). split_and!; [lia|lia|done|done|].
      intros j Hj. destruct (Z.eq_dec j bi) as [->|]; [done|]. apply H4. lia.
    + intros j Hj Hsz. destruct (Z.eq_dec j bi) as [->|]; [done|]. apply IH; lia.
  - split_and!; [lia|lia|done|done|]. intros; lia.
Qed.

(** Bytes rewritten by balloc and bfree *)
Definition set_bit (b : Z) (d : block) : block :=
  wr d (bit_byte b) (Z.lor (rd d (bit_byte b)) (Z.shiftl 1 (b mod 8))).
Definition clear_bit (b : Z) (d : block) : block :=
  wr d (bit_byte b) (Z.land (rd d (bit_byte b)) (u8 (Z.lnot (Z.shiftl 1 (b mod 8))))).

Lemma bit_range b : 0 <= b -> 0 <= b mod BPB < BPB /\ 0 <= bit_byte b < BSIZE /\ 0 <= b mod 8 < 8 /\ b mod BPB mod 8 = b mod 8.
Proof.
  intros Hb. unfold bit_byte, BPB, BSIZE. pose proof (Z.mod_pos_bound b (1024 * 8)). pose proof (Z.mod_pos_bound b 8).
  split_and!; try lia; [apply Z.div_pos; lia|apply Z.div_lt_upper_bound; lia|].
  apply Z.mod_mod_divide. by exists 1024.
Qed.

(** Blocks with the same byte and bit of the same bitmap block are the same. *)
Lemma bit_unique sb b b' :
  0 <= b -> 0 <= b' -> BBLOCK b sb = BBLOCK b' sb -> bit_byte b = bit_byte b' -> b mod 8 = b' mod 8 -> b = b'.
Proof.
  intros Hb Hb' H1 H2 H3. destruct (bit_range b Hb) as (_ & _ & _ & E), (bit_range b' Hb') as (_ & _ & _ & E').
  unfold BBLOCK, bit_byte in *. rewrite (Z.div_mod b BPB), (Z.div_mod b' BPB) by (unfold BPB, BSIZE; lia).
  rewrite (Z.div_mod (b mod BPB) 8), (Z.div_mod (b' mod BPB) 8) by lia. f_equal; [f_equal; lia|]. lia.
Qed.

Lemma testbit_lor_bit x k j : 0 <= k -> 0 <= j -> Z.testbit (Z.lor x (Z.shiftl 1 k)) j = ((j =? k) || Z.testbit x j)%bool.
Proof.
  intros Hk Hj. rewrite Z.lor_spec, Z.shiftl_1_l. destruct (Z.eqb_spec j k) as [->|Hne].
  - rewrite Z.pow2_bits_true by done. apply orb_true_r.
  - rewrite Z.pow2_bits_false by done. apply orb_false_r.
Qed.

Lemma testbit_land_clear x k j :
  0 <= k < 8 -> 0 <= j < 8 -> Z.testbit (Z.land x (u8 (Z.lnot (Z.shiftl 1 k)))) j = (negb (j =? k) && Z.testbit x j)%bool.
Proof.
  intros Hk Hj. rewrite Z.land_spec. unfold u8. rewrite Z.mod_pow2_bits_low by lia. rewrite Z.lnot_spec, Z.shiftl_1_l by lia.
  destruct (Z.eqb_spec j k) as [->|Hne].
  - rewrite Z.pow2_bits_true by lia. apply andb_false_r.
  - rewrite Z.pow2_bits_false by done. by rewrite andb_true_r.
Qed.

(** A bitmap whose byte of [b] was rewritten so that bit [b] became [v] *)
Lemma used_update C sb b f v :
  0 <= b -> (forall c, length (C c) = Z.to_nat BSIZE) ->
  (forall c, c <> b -> 0 <= c -> BBLOCK c sb = BBLOCK b sb -> bit_byte c = bit_byte b ->
     Z.testbit (f (rd (C (BBLOCK b sb)) (bit_byte b))) (c mod 8) = Z.testbit (rd (C (BBLOCK b sb)) (bit_byte b)) (c mod 8)) ->
  Z.testbit (f (rd (C (BBLOCK b sb)) (bit_byte b))) (b mod 8) = v ->
  forall c, 0 <= c ->
  used (upd C (BBLOCK b sb) (wr (C (BBLOCK b sb)) (bit_byte b) (f (rd (C (BBLOCK b sb)) (bit_byte b))))) sb c =
  if decide (c = b) then v else used C sb c.
Proof.
  intros Hb Hlen Hoth Hthis c Hc. unfold used. destruct (bit_range b Hb) as (_ & Hby & _ & _). destruct (bit_range c Hc) as (_ & Hcy & _ & _).
  assert (Hl : 0 <= bit_byte b < Z.of_nat (length (C (BBLOCK b sb)))) by (rewrite Hlen; lia).
  case_decide as E.
  - subst c. rewrite upd_same, rd_wr_same by done. done.
  - destruct (decide (BBLOCK c sb = BBLOCK b sb)) as [Eb|Nb]; [|by rewrite upd_other].
    rewrite Eb, upd_same. destruct (Z.eq_dec (bit_byte c) (bit_byte b)) as [Ey|Ny].
    + rewrite Ey, rd_wr_same by done. by apply Hoth.
    + by rewrite rd_wr_other by lia.
Qed.

Lemma used_set_bit C sb b c :
  0 <= b -> 0 <= c -> (forall c, length (C c) = Z.to_nat BSIZE) ->
  used (upd C (BBLOCK b sb) (set_bit b (C (BBLOCK b sb)))) sb c = if decide (c = b) then true else used C sb c.
Proof.
  intros Hb Hc Hl. destruct (bit_range b Hb) as (_ & _ & H8 & _).
  apply (used_update C sb b (fun x => Z.lor x (Z.shiftl 1 (b mod 8))) true); try done.
  - intros c' Hne Hc' E1 E2. destruct (bit_range c' Hc') as (_ & _ & H8' & _). rewrite testbit_lor_bit by lia.
    rewrite (proj2 (Z.eqb_neq _ _)); [done|]. intros E3. by apply Hne, (bit_unique sb).
  - rewrite testbit_lor_bit, Z.eqb_refl by lia. done.
Qed.

Lemma used_clear_bit C sb b c :
  0 <= b -> 0 <= c -> (forall c, length (C c) = Z.to_nat BSIZE) ->
  used (upd C (BBLOCK b sb) (clear_bit b (C (BBLOCK b sb)))) sb c = if decide (c = b) then false else used C sb c.
Proof.
  intros Hb Hc Hl. destruct (bit_range b Hb) as (_ & _ & H8 & _).
  apply (used_update C sb b (fun x => Z.land x (u8 (Z.lnot (Z.shiftl 1 (b mod 8))))) false); try done.
  - intros c' Hne Hc' E1 E2. destruct (bit_range c' Hc') as (_ & _ & H8' & _). rewrite testbit_land_clear by lia.
    rewrite (proj2 (Z.eqb_neq _ _)); [done|]. intros E3. by apply Hne, (bit_unique sb).
  - rewrite testbit_land_clear, Z.eqb_refl by lia. done.
Qed.

(** The blocks a process may hold while it allocates: neither the bitmap nor a free block *)
Definition holds_none_of (s : fst) : Prop :=
  (forall b, bmapstart (sb s) <= b < datastart (sb s) -> b ∉ thold (tx s)) /\
  (forall b, 0 <= b < sbsize (sb s) -> used (tcont (tx s)) (sb s) b = false -> b ∉ thold (tx s)).

Lemma BBLOCK_range sb b : 0 <= b < sbsize sb -> bmapstart sb <= BBLOCK b sb < datastart sb.
Proof.
  intros Hb. unfold BBLOCK, datastart, BPB, BSIZE. pose proof (Z.div_pos b (1024 * 8)).
  pose proof (Z.div_le_mono b (sbsize sb) (1024 * 8)). lia.
Qed.

Lemma meta_loggable sb b : layout sb -> bmapstart sb <= b -> b < 2 ^ 31 -> loggable sb b.
Proof.
  intros [L1 L2 L3 L4] Hb Hb'. unfold loggable. assert (0 <= ninodes sb / IPB) by (apply Z.div_pos; [lia|done]). lia.
Qed.

Lemma free_is_data C sb b : fs_ok C sb -> 0 <= b < sbsize sb -> used C sb b = false -> datastart sb <= b.
Proof.
  intros F Hb Hu. destruct (Z.le_gt_cases (datastart sb) b); [done|]. rewrite (fo_meta _ _ F) in Hu by lia. done.
Qed.

(** The state after balloc has taken block [b] *)
Definition allocated (b : Z) (s : fst) : fst :=
  with_block b (fun _ => zero_block) (with_block (BBLOCK b (sb s)) (set_bit b) s).

Section in_group.
Context (sb : superblock) (b0 bi : Z).
Hypothesis Hb0 : b0 mod BPB = 0.
Hypothesis Hbi : 0 <= bi < BPB.

Lemma group_block : 0 <= b0 -> BBLOCK (b0 + bi) sb = BBLOCK b0 sb.
Proof.
  intros. unfold BBLOCK. f_equal. rewrite (Z.div_mod b0 BPB), Hb0, Z.add_0_r by (unfold BPB, BSIZE; lia).
  rewrite Z.mul_comm, Z.div_add_l, Z.div_mul, (Z.div_small bi) by (unfold BPB, BSIZE in *; lia). lia.
Qed.

Lemma group_byte : bit_byte (b0 + bi) = bi / 8.
Proof. unfold bit_byte. rewrite <- Zplus_mod_idemp_l, Hb0, Z.add_0_l. by rewrite (Z.mod_small bi BPB). Qed.

Lemma group_bit : 0 <= b0 -> (b0 + bi) mod 8 = bi mod 8.
Proof.
  intros. destruct (bit_range (b0 + bi)) as (_ & _ & _ & <-); [lia|].
  rewrite <- Zplus_mod_idemp_l, Hb0, Z.add_0_l. by rewrite (Z.mod_small bi BPB).
Qed.
End in_group.

Lemma layout_bmap sb : layout sb -> 0 <= bmapstart sb /\ 0 <= sbsize sb / BPB.
Proof.
  intros [L1 L2 L3 L4]. assert (0 <= ninodes sb / IPB) by (apply Z.div_pos; [lia|done]).
  split; [lia|]. apply Z.div_pos; [lia|done].
Qed.

Lemma balloc_loop_spec dev s fuel b0 :
  fs_ok (tcont (tx s)) (sb s) -> holds_none_of s -> room s 2 ->
  b0 mod BPB = 0 -> 0 <= b0 -> sbsize (sb s) <= b0 + BPB * (Z.of_nat fuel - 1) -> (1 <= fuel)%nat ->
  (forall b, 0 <= b < b0 -> b < sbsize (sb s) -> used (tcont (tx s)) (sb s) b = true) ->
  (exists b, b0 <= b < sbsize (sb s) /\ used (tcont (tx s)) (sb s) b = false /\
     (forall c, 0 <= c < b -> used (tcont (tx s)) (sb s) c = true) /\
     balloc_loop dev b0 fuel s = Ret b (allocated b s)) \/
  ((forall b, 0 <= b < sbsize (sb s) -> used (tcont (tx s)) (sb s) b = true) /\ balloc_loop dev b0 fuel s = Ret 0 s).
Proof.
  intros F Hh Hr Hm. pose proof (fo_layout _ _ F) as Ly. pose proof (ly_data _ Ly) as Hds. destruct (layout_bmap _ Ly) as [Hbm Hq]. pose proof (ly_size _ Ly).
  revert b0 Hm. induction fuel as [|fuel IH]; intros b0 Hm Hb0 Hf Hf1 Hall; [lia|]. cbn [balloc_loop]. rewrite bind_get.
  destruct (Z.ltb_spec b0 (sbsize (sb s))) as [Hlt|Hge].
  2: { right. split; [intros; apply Hall; lia|done]. }
  pose proof (BBLOCK_range (sb s) b0 ltac:(lia)) as HB.
  assert (Hnh : BBLOCK b0 (sb s) ∉ thold (tx s)) by (apply (proj1 Hh); lia).
  assert (Hr1 : room s 1) by (eapply room_weaken; [done|lia]).
  rewrite (bind_ret_intro _ _ _ _ _ (bread_run dev _ s Hnh Hr1)).
  rewrite (bind_ret_intro _ _ _ _ _ (bdata_run _ (with_hold _ s))).
  change (tcont (tx (with_hold (BBLOCK b0 (sb s)) s))) with (tcont (tx s)).
  pose proof (find_bit_spec (tcont (tx s) (BBLOCK b0 (sb s))) b0 (sbsize (sb s)) (Z.to_nat BPB) 0 ltac:(lia)) as Hfb. cbv zeta in Hfb.
  rewrite Z2Nat.id, Z.add_0_l in Hfb by done. destruct (find_bit _ _ _ _ _) as [bi|].
  - destruct Hfb as (Hbi & Hsz & Hfree & Hbefore). left. exists (b0 + bi).
    assert (Hbi' : 0 <= bi < BPB) by lia.
    pose proof (group_block (sb s) b0 bi Hm Hbi' Hb0) as G1. pose proof (group_byte b0 bi Hm Hbi') as G2. pose proof (group_bit b0 bi Hm Hbi' Hb0) as G3.
    assert (Hu : used (tcont (tx s)) (sb s) (b0 + bi) = false) by (unfold used; by rewrite G1, G2, G3).
    assert (Hgrp : forall b, b0 <= b < b0 + bi -> used (tcont (tx s)) (sb s) b = true).
    { intros b Hb. assert (Hb' : 0 <= b - b0 < BPB) by lia. replace b with (b0 + (b - b0)) by lia. unfold used.
      rewrite (group_block (sb s) b0 _ Hm Hb' Hb0), (group_byte b0 _ Hm Hb'), (group_bit b0 _ Hm Hb' Hb0). apply Hbefore. lia. }
    split_and!; [lia|lia|done| |].
    { intros c Hc. destruct (Z.lt_ge_cases c b0); [apply Hall; lia|apply Hgrp; lia]. }
    pose proof (free_is_data _ _ (b0 + bi) F ltac:(lia) Hu) as Hd.
    pose proof (store_log_run (BBLOCK b0 (sb s)) (set_bit (b0 + bi)) s Hnh Hr1 ltac:(apply meta_loggable; (done || lia))) as E.
    unfold set_bit in E at 1 2. rewrite G2, G3 in E.
    specialize (E ltac:(rewrite length_wr; apply (fo_len _ _ F))). apply bind_ret_inv in E as ([] & s1 & E1 & E2).
    rewrite (bind_ret_intro _ _ _ _ _ E1), (bind_ret_intro _ _ _ _ _ E2).
    assert (Hdr : tdirty (tx s) = []) by apply Hr.
    assert (Hlg : loggable (sb s) (b0 + bi)) by (apply meta_loggable; [done|unfold datastart in *; lia|lia]).
    set (s2 := with_block (BBLOCK b0 (sb s)) (set_bit (b0 + bi)) s).
    rewrite (bind_ret_intro _ _ _ _ _ (brelse_run _ s2 Hnh ltac:(unfold s2, with_block; fsimpl; rewrite Hdr; apply not_elem_of_nil))).
    rewrite (bind_ret_intro _ _ _ _ _ (bzero_run dev (b0 + bi) s2 ltac:(apply (proj2 Hh); (done || lia)) ltac:(by apply room_with_block) Hlg)).
    unfold allocated. rewrite G1. done.
  - assert (Hdr : tdirty (tx s) = []) by apply Hr.
    rewrite (bind_ret_intro _ _ _ _ _ (brelse_run _ s Hnh ltac:(rewrite Hdr; apply not_elem_of_nil))).
    destruct (IH (b0 + BPB)) as [(b & Hb & Hu & Hlow & E)|[Hu E]].
    + rewrite <- Zplus_mod_idemp_r, Z.mod_same, Z.add_0_r by done. done.
    + unfold BPB, BSIZE. lia.
    + lia.
    + unfold BPB, BSIZE in *. lia.
    + intros b Hb Hbs. destruct (Z.lt_ge_cases b b0); [apply Hall; lia|].
      assert (Hbi' : 0 <= b - b0 < BPB) by lia. replace b with (b0 + (b - b0)) by lia. unfold used.
      rewrite (group_block (sb s) b0 _ Hm Hbi' Hb0), (group_byte b0 _ Hm Hbi'), (group_bit b0 _ Hm Hbi' Hb0).
      apply Hfb; lia.
    + left. exists b. split_and!; [unfold BPB, BSIZE in *; lia|lia|done|done|done].
    + right. done.
Qed.

Lemma isbytes_lor x y : 0 <= x < 256 -> 0 <= y < 256 -> 0 <= Z.lor x y < 256.
Proof.
  intros Hx Hy. split; [apply Z.lor_nonneg; lia|].
  destruct (Z.eq_dec (Z.lor x y) 0) as [->|Hn]; [lia|]. apply (Z.log2_lt_pow2 _ 8).
  - assert (0 <= Z.lor x y) by (apply Z.lor_nonneg; lia). lia.
  - rewrite Z.log2_lor by lia. apply Z.max_lub_lt.
    + destruct (Z.eq_dec x 0) as [->|]; [done|]. apply Z.log2_lt_pow2; lia.
    + destruct (Z.eq_dec y 0) as [->|]; [done|]. apply Z.log2_lt_pow2; lia.
Qed.

Lemma bit_byte_value k : 0 <= k < 8 -> 0 <= Z.shiftl 1 k < 256.
Proof.
  intros Hk. rewrite Z.shiftl_1_l. split; [apply Z.pow_nonneg; lia|].
  change 256 with (2 ^ 8). apply Z.pow_lt_mono_r; lia.
Qed.

Lemma isbytes_land x y : 0 <= x < 256 -> 0 <= y < 256 -> 0 <= Z.land x y < 256.
Proof.
  intros Hx Hy. split; [apply Z.land_nonneg; lia|].
  destruct (Z.eq_dec (Z.land x y) 0) as [->|Hn]; [lia|]. apply (Z.log2_lt_pow2 _ 8).
  - assert (0 <= Z.land x y) by (apply Z.land_nonneg; lia). lia.
  - eapply Z.le_lt_trans; [apply Z.log2_land; lia|]. apply Z.min_lt_iff. left.
    destruct (Z.eq_dec x 0) as [->|]; [done|]. apply Z.log2_lt_pow2; lia.
Qed.

Lemma isbytes_rd d i : isbytes d -> 0 <= rd d i < 256.
Proof. intros H. unfold rd. by apply isbytes_nth. Qed.

Lemma isbytes_wr d i v : isbytes d -> 0 <= v < 256 -> isbytes (wr d i v).
Proof. apply isbytes_insert. Qed.

Lemma isbytes_set_bit b d : 0 <= b -> isbytes d -> isbytes (set_bit b d).
Proof.
  intros Hb Hd. destruct (bit_range b Hb) as (_ & _ & ? & _).
  apply isbytes_wr; [done|]. apply isbytes_lor; [by apply isbytes_rd|by apply bit_byte_value].
Qed.

Lemma isbytes_clear_bit b d : 0 <= b -> isbytes d -> isbytes (clear_bit b d).
Proof. intros Hb Hd. apply isbytes_wr; [done|]. apply isbytes_land; [by apply isbytes_rd|apply u8_range]. Qed.

Lemma isbytes_zero : isbytes zero_block.
Proof. intros x Hx. unfold zero_block in Hx. apply elem_of_replicate in Hx as [-> _]. lia. Qed.

(** Contents changed in one block keep what [fs_ok] says but for the bitmap. *)
Lemma fs_ok_upd C sb b d :
  fs_ok C sb -> length d = Z.to_nat BSIZE -> isbytes d ->
  (forall c, 0 <= c < datastart sb -> used (upd C b d) sb c = true) -> fs_ok (upd C b d) sb.
Proof.
  intros [H1 H2 H3 H4] Hl Hb Hm. constructor; [done| | |done]; intros c; unfold upd; case_decide; done.
Qed.

Lemma used_other C sb b d c : BBLOCK c sb <> b -> used (upd C b d) sb c = used C sb c.
Proof. intros Hne. unfold used. by rewrite upd_other. Qed.

Lemma tcont_with_block b f s : tcont (tx (with_block b f s)) = upd (tcont (tx s)) b (f (tcont (tx s) b)).
Proof. done. Qed.

(** What balloc changed *)
Lemma allocated_spec b s :
  fs_ok (tcont (tx s)) (sb s) -> datastart (sb s) <= b < sbsize (sb s) ->
  fs_ok (tcont (tx (allocated b s))) (sb s) /\
  (forall c, 0 <= c < sbsize (sb s) -> used (tcont (tx (allocated b s))) (sb s) c = if decide (c = b) then true else used (tcont (tx s)) (sb s) c) /\
  tcont (tx (allocated b s)) b = zero_block /\
  (forall c, c <> b -> c <> BBLOCK b (sb s) -> tcont (tx (allocated b s)) c = tcont (tx s) c).
Proof.
  intros F Hb. pose proof (fo_layout _ _ F) as Ly. destruct (layout_bmap _ Ly) as [Hbm Hq]. pose proof (ly_size _ Ly).
  assert (Hb0 : 0 <= b) by (unfold datastart in Hb; lia).
  unfold allocated. rewrite !tcont_with_block. set (C := tcont (tx s)) in *. set (sb0 := sb s) in *.
  set (C1 := upd C (BBLOCK b sb0) (set_bit b (C (BBLOCK b sb0)))).
  assert (HB : forall c, 0 <= c < sbsize sb0 -> BBLOCK c sb0 <> b).
  { intros c Hc. pose proof (BBLOCK_range sb0 c Hc). lia. }
  assert (Hu : forall c, 0 <= c < sbsize sb0 -> used (upd C1 b zero_block) sb0 c = if decide (c = b) then true else used C sb0 c).
  { intros c Hc. rewrite used_other by (by apply HB). apply used_set_bit; [done|lia|apply (fo_len _ _ F)]. }
  split_and!.
  - apply fs_ok_upd; [|apply length_replicate|apply isbytes_zero|].
    + apply fs_ok_upd; [done| | |].
      * unfold set_bit. rewrite length_wr. apply (fo_len _ _ F).
      * apply isbytes_set_bit; [done|apply (fo_bytes _ _ F)].
      * intros c Hc. rewrite used_set_bit by (lia || apply (fo_len _ _ F)). case_decide; [done|by apply (fo_meta _ _ F)].
    + intros c Hc. rewrite Hu by lia. case_decide; [done|by apply (fo_meta _ _ F)].
  - exact Hu.
  - by rewrite upd_same.
  - intros c Hc1 Hc2. rewrite upd_other by done. unfold C1. by rewrite upd_other.
Qed.

Lemma balloc_spec dev s :
  fs_ok (tcont (tx s)) (sb s) -> holds_none_of s -> room s 2 ->
  (exists b, datastart (sb s) <= b < sbsize (sb s) /\ used (tcont (tx s)) (sb s) b = false /\
     (forall c, 0 <= c < b -> used (tcont (tx s)) (sb s) c = true) /\ balloc dev s = Ret b (allocated b s)) \/
  ((forall b, 0 <= b < sbsize (sb s) -> used (tcont (tx s)) (sb s) b = true) /\ balloc dev s = Ret 0 s).
Proof.
  intros F Hh Hr. pose proof (ly_size _ (fo_layout _ _ F)). unfold balloc. rewrite bind_get.
  assert (Hq : 0 <= sbsize (sb s) / BPB) by (apply Z.div_pos; [lia|done]).
  destruct (balloc_loop_spec dev s (S (S (Z.to_nat (sbsize (sb s) / BPB)))) 0 F Hh Hr) as [(b & Hb & Hu & Hlow & E)|[Hu E]]; try done; try lia.
  - pose proof (Z.mul_succ_div_gt (sbsize (sb s)) BPB). unfold BPB, BSIZE in *. lia.
  - left. exists b. split_and!; [|lia|done|done|done]. apply (free_is_data _ _ b F); [lia|done].
  - by right.
Qed.

(** bfree clears the bit of a block in use, and panics on a free one. *)
Lemma bfree_spec dev b s :
  fs_ok (tcont (tx s)) (sb s) -> 0 <= b < sbsize (sb s) -> BBLOCK b (sb s) ∉ thold (tx s) -> room s 1 ->
  bfree dev b s = if used (tcont (tx s)) (sb s) b then Ret tt (with_block (BBLOCK b (sb s)) (clear_bit b) s)
                  else Panic "freeing free block".
Proof.
  intros F Hb Hn Hr. pose proof (fo_layout _ _ F) as Ly. destruct (layout_bmap _ Ly) as [Hbm Hq]. pose proof (ly_size _ Ly).
  unfold bfree. rewrite bind_get.
  rewrite (bind_ret_intro _ _ _ _ _ (bread_run dev _ s Hn Hr)).
  rewrite (bind_ret_intro _ _ _ _ _ (bdata_run _ (with_hold _ s))).
  change (tcont (tx (with_hold (BBLOCK b (sb s)) s))) with (tcont (tx s)).
  destruct (bit_range b ltac:(lia)) as (_ & _ & H8 & E8). change (b mod BPB / 8) with (bit_byte b). rewrite E8.
  rewrite land_bit by lia. fold (used (tcont (tx s)) (sb s) b). destruct (used (tcont (tx s)) (sb s) b); cbn [negb]; [|done].
  pose proof (BBLOCK_range (sb s) b Hb) as HB.
  pose proof (ly_data _ Ly). pose proof (store_log_run (BBLOCK b (sb s)) (clear_bit b) s Hn Hr) as E.
  specialize (E ltac:(apply meta_loggable; [done|lia|lia])).
  specialize (E ltac:(unfold clear_bit; rewrite length_wr; apply (fo_len _ _ F))).
  apply bind_ret_inv in E as ([] & s1 & E1 & E2).
  erewrite (bind_ret_intro (bstore _ _)); [|exact E1]. rewrite (bind_ret_intro _ _ _ _ _ E2).
  assert (Hdr : tdirty (tx s) = []) by apply Hr. apply (brelse_run _ (with_block (BBLOCK b (sb s)) (clear_bit b) s)); [done|].
  unfold with_block. fsimpl. rewrite Hdr. apply not_elem_of_nil.
Qed.

(** C13: With the layout mkfs makes, metadata marked used, room in the log for
    two blocks and no bitmap block held, balloc returns: the lowest-numbered bit
    of a free data block is taken, that block is zeroed, only it and its bitmap
    block change and only its bit does; or every block is in use and balloc
    returns 0 changing nothing.  bfree of a block in use makes exactly that block
    free again, and of a free block panics. *)
Theorem block_allocator_correct dev s :
  fs_ok (tcont (tx s)) (sb s) -> holds_none_of s -> room s 2 ->
  let C := tcont (tx s) in let size := sbsize (sb s) in
  ((exists b s', balloc dev s = Ret b s' /\ datastart (sb s) <= b < size /\ used C (sb s) b = false /\
      (forall c, 0 <= c < b -> used C (sb s) c = true) /\
      fs_ok (tcont (tx s')) (sb s) /\ tcont (tx s') b = zero_block /\
      (forall c, 0 <= c < size -> used (tcont (tx s')) (sb s) c = if decide (c = b) then true else used C (sb s) c) /\
      (forall c, c <> b -> c <> BBLOCK b (sb s) -> tcont (tx s') c = C c)) \/
   ((forall b, 0 <= b < size -> used C (sb s) b = true) /\ balloc dev s = Ret 0 s)) /\
  forall b, 0 <= b < size ->
    if used C (sb s) b then
      exists s', bfree dev b s = Ret tt s' /\
        (forall c, 0 <= c < size -> used (tcont (tx s')) (sb s) c = if decide (c = b) then false else used C (sb s) c) /\
        (forall c, c <> BBLOCK b (sb s) -> tcont (tx s') c = C c)
    else bfree dev b s = Panic "freeing free block".
Proof.
  intros F Hh Hr C size. split.
  - destruct (balloc_spec dev s F Hh Hr) as [(b & Hb & Hu & Hlow & E)|[Hu E]]; [left|by right].
    destruct (allocated_spec b s F Hb) as (H1 & H2 & H3 & H4). exists b, (allocated b s).
    exact (conj E (conj Hb (conj Hu (conj Hlow (conj H1 (conj H3 (conj H2 H4))))))).
  - intros b Hb. pose proof (BBLOCK_range (sb s) b Hb). rewrite (bfree_spec dev b s F Hb).
    + destruct (used C (sb s) b) eqn:E; fold C; rewrite E; [|done]. eexists. split; [reflexivity|]. split.
      * intros c Hc. rewrite tcont_with_block. apply used_clear_bit; [lia|lia|apply (fo_len _ _ F)].
      * intros c Hc. rewrite tcont_with_block. by apply upd_other.
    + apply (proj1 Hh). lia.
    + eapply room_weaken; [done|lia].
Qed.

(** A file system of 1000 blocks whose first 46 hold the metadata *)
Definition small_sb : superblock := MkSb FSMAGIC 1000 954 200 30 2 32 45.
Definition small_disk (b : Z) : block :=
  if b =? 45 then replicate 5 255 ++ [63] ++ replicate (Z.to_nat BSIZE - 6) 0 else zero_block.

Lemma small_fs_ok : fs_ok small_disk small_sb.
Proof.
  constructor.
  - by constructor.
  - intros b. unfold small_disk. case_match; vm_compute; reflexivity.
  - intros b. apply isbytes_Forall. unfold small_disk. case_match; [|by apply Forall_replicate].
    repeat apply Forall_app_2; [by apply Forall_replicate|by repeat constructor|by apply Forall_replicate].
  - intros b Hb. assert (H : Forall (fun b => used small_disk small_sb b = true) (seqZ 0 46)).
    { apply (bool_decide_unpack _). vm_compute. exact I. }
    rewrite Forall_forall in H. apply H. apply elem_of_seqZ. exact Hb.
Qed.

Definition small_fst (m : mem) : fst :=
  MkF (MkTx small_disk [] [] []) small_sb (fun _ => inode0) m [] 1 [] 0.

Lemma block_allocator_correct_witness :
  exists b s', balloc ROOTDEV (small_fst (fun _ => 0)) = Ret b s' /\ used (tcont (tx s')) small_sb b = true.
Proof.
  destruct (block_allocator_correct ROOTDEV (small_fst (fun _ => 0))) as [[(b & s' & E & Hb & _ & _ & _ & _ & Hu & _)|[Hall _]] _].
  - apply small_fs_ok.
  - split; intros; apply not_elem_of_nil.
  - split_and!; [done|done|simpl; lia|done].
  - exists b, s'. split; [exact E|]. cbn [sb small_fst] in Hu, Hb. rewrite Hu; [by rewrite decide_True|].
    change (sbsize small_sb) with 1000 in *. change (datastart small_sb) with 46 in Hb. lia.
  - exfalso. specialize (Hall 46). cbn [sb tx tcont small_fst] in Hall.
    assert (E : used small_disk small_sb 46 = false) by (vm_compute; reflexivity). rewrite E in Hall.
    assert (false = true) by (apply Hall; simpl; lia). discriminate.
Defined.
