(* ===== verification/Threads.v ===== *)
(** Threads that share semaphores, for the programs of [src/projects/project_5].

    A thread is a loop over a list of instructions; one step executes one
    instruction of one thread, so every interleaving of the semaphore calls and
    of the accesses to shared variables is a schedule.  [Zemaphore] justifies the
    single-step semaphore calls used here. *)

From stdpp Require Import base list.
From S2P Require Import Prelude.

(** ** Programs *)

Section machine.
Context {S_ : Type} `{EqDecision S_} {G : Type}.

Inductive instr :=
| Wait (s : S_)                          (* Zem_wait(&s) *)
| Post (s : S_)                          (* Zem_post(&s) *)
| Act (f : G -> G)                       (* assignments to shared variables *)
| Unless (c : G -> bool) (k : nat)       (* if(!c) skip the next k instructions *)
| Back (k : nat).                        (* jump back over k instructions *)

Record conf := MkConf { sem : S_ -> Z; glob : G; pc : nat -> nat }.

Context (prog : nat -> list instr).

(** while(1) around the body *)
Definition next (t k : nat) : nat := if decide (S k = length (prog t)) then 0%nat else S k.

Definition goto (t k : nat) (c : conf) : conf := MkConf (sem c) (glob c) (upd (pc c) t k).
Definition with_sem (s : S_) (v : Z) (c : conf) : conf := MkConf (upd (sem c) s v) (glob c) (pc c).
Definition with_glob (g : G) (c : conf) : conf := MkConf (sem c) g (pc c).

(** One instruction of thread t; None when it has to wait *)
Definition exec (t : nat) (c : conf) : option conf :=
  let k := pc c t in
  match prog t !! k with
  | None => None
  | Some (Wait s) => if 0 <? sem c s then Some (goto t (next t k) (with_sem s (sem c s - 1) c)) else None
  | Some (Post s) => Some (goto t (next t k) (with_sem s (sem c s + 1) c))
  | Some (Act f) => Some (goto t (next t k) (with_glob (f (glob c)) c))
  | Some (Unless p j) => Some (goto t (if p (glob c) then next t k else (k + 1 + j)%nat) c)
  | Some (Back j) => Some (goto t (k - j)%nat c)
  end.

Fixpoint run (sched : list nat) (c : conf) : option conf :=
  match sched with
  | [] => Some c
  | t :: sched => match exec t c with Some c' => run sched c' | None => None end
  end.

Context (n : nat).

(** Thread t < n takes a step *)
Inductive tstep : conf -> conf -> Prop :=
| tstep_exec t c c' : (t < n)%nat -> exec t c = Some c' -> tstep c c'.

Definition stuck (c : conf) : Prop := forall t, (t < n)%nat -> exec t c = None.

Lemma run_app l1 l2 c : run (l1 ++ l2) c = match run l1 c with Some c' => run l2 c' | None => None end.
Proof. revert c. induction l1 as [|t l1 IH]; intros c; simpl; [done|]. destruct (exec t c); [apply IH|done]. Qed.

Lemma run_steps l c c0 c' :
  Forall (fun t => (t < n)%nat) l -> steps tstep c0 c -> run l c = Some c' -> steps tstep c0 c'.
Proof.
  revert c. induction l as [|t l IH]; intros c Hl Hs E; simpl in E; [by injection E as <-|].
  apply Forall_cons in Hl as [Ht Hl]. destruct (exec t c) as [c1|] eqn:Ec; [|done].
  eapply IH; [done| |exact E]. eapply steps_trans; [exact Hs|]. by eapply tstep_exec.
Qed.
End machine.
Arguments instr : clear implicits.
Arguments conf : clear implicits.

(** Evaluate the successor of a line of a concrete program. *)
Ltac norm_next :=
  repeat match goal with
  | |- context [next ?prog ?p ?k] => let v := eval vm_compute in (next prog p k) in change (next prog p k) with v
  end.
