(* ===== verification/Zemaphore.v ===== *)
(** The semaphores of [src/projects/project_5/zemaphore.h]: a counter protected
    by a mutex, and a condition variable.

    Each thread is at a line of Zem_wait or Zem_post, or outside.  Cond_wait gives
    up the mutex and sleeps in one step; a sleeper may wake without a signal, as
    POSIX allows, and Cond_signal wakes some sleeper if there is one. *)

From stdpp Require Import base list.
From S2P Require Import Prelude Threads.

Inductive zpc :=
| Outside
| WaitLock      (* Mutex_lock(&z->lock) in Zem_wait *)
| WaitTest      (* while (z->value <= 0) *)
| WaitSleep     (* inside Cond_wait, without the mutex *)
| WaitRelock    (* woken, Cond_wait takes the mutex again *)
| WaitDec       (* z->value-- *)
| WaitUnlock
| PostLock
| PostInc       (* z->value++ *)
| PostSignal
| PostUnlock.

#[export] Instance zpc_eq_dec : EqDecision zpc.
Proof. solve_decision. Defined.

(** [waits] and [posts] count the decrements and increments made. *)
Record zst := MkZ { value : Z; mutex : option nat; zpcs : nat -> zpc; waits : Z; posts : Z }.

Definition at_ (t : nat) (p : zpc) (z : zst) : zst := MkZ (value z) (mutex z) (upd (zpcs z) t p) (waits z) (posts z).
Definition lock_ (o : option nat) (z : zst) : zst := MkZ (value z) o (zpcs z) (waits z) (posts z).
Definition dec_ (z : zst) : zst := MkZ (value z - 1) (mutex z) (zpcs z) (waits z + 1) (posts z).
Definition inc_ (z : zst) : zst := MkZ (value z + 1) (mutex z) (zpcs z) (waits z) (posts z + 1).

Definition Zem_init (v : Z) : zst := MkZ v None (fun _ => Outside) 0 0.

(** A line of Zem_wait by thread t *)
Inductive Zem_wait (t : nat) (z : zst) : zst -> Prop :=
| wait_lock : zpcs z t = WaitLock -> mutex z = None -> Zem_wait t z (at_ t WaitTest (lock_ (Some t) z))
| wait_sleep : zpcs z t = WaitTest -> value z <= 0 -> Zem_wait t z (at_ t WaitSleep (lock_ None z))
| wait_relock : zpcs z t = WaitRelock -> mutex z = None -> Zem_wait t z (at_ t WaitTest (lock_ (Some t) z))
| wait_pass : zpcs z t = WaitTest -> 0 < value z -> Zem_wait t z (at_ t WaitDec z)
| wait_dec : zpcs z t = WaitDec -> Zem_wait t z (at_ t WaitUnlock (dec_ z))
| wait_unlock : zpcs z t = WaitUnlock -> Zem_wait t z (at_ t Outside (lock_ None z)).

(** A line of Zem_post by thread t; u is the sleeper the signal wakes. *)
Inductive Zem_post (n t : nat) (z : zst) : zst -> Prop :=
| post_lock : zpcs z t = PostLock -> mutex z = None -> Zem_post n t z (at_ t PostInc (lock_ (Some t) z))
| post_inc : zpcs z t = PostInc -> Zem_post n t z (at_ t PostSignal (inc_ z))
| post_signal u : zpcs z t = PostSignal -> (u < n)%nat -> zpcs z u = WaitSleep ->
    Zem_post n t z (at_ t PostUnlock (at_ u WaitRelock z))
| post_signal_none : zpcs z t = PostSignal -> (forall u, (u < n)%nat -> zpcs z u <> WaitSleep) ->
    Zem_post n t z (at_ t PostUnlock z)
| post_unlock : zpcs z t = PostUnlock -> Zem_post n t z (at_ t Outside (lock_ None z)).

(** What the caller and the condition variable do on their own *)
Inductive env_step (t : nat) (z : zst) : zst -> Prop :=
| call_wait : zpcs z t = Outside -> env_step t z (at_ t WaitLock z)
| call_post : zpcs z t = Outside -> env_step t z (at_ t PostLock z)
| spurious : zpcs z t = WaitSleep -> env_step t z (at_ t WaitRelock z).

Section threads.
Context (n : nat).

(** A line of one of the two functions *)
Definition inside (z z' : zst) : Prop := exists t, (t < n)%nat /\ (Zem_wait t z z' \/ Zem_post n t z z').
Definition zstep (z z' : zst) : Prop := inside z z' \/ exists t, (t < n)%nat /\ env_step t z z'.

Definition owns (p : zpc) : bool :=
  match p with WaitTest | WaitDec | WaitUnlock | PostInc | PostSignal | PostUnlock => true | _ => false end.

(** Threads on their way to take a unit, or to wake one that will *)
Definition coming (p : zpc) : Z :=
  match p with WaitRelock | WaitTest | WaitDec | PostSignal => 1 | _ => 0 end.

Record zinv (v : Z) (z : zst) : Prop := {
  zi_owner : forall t, (t < n)%nat -> owns (zpcs z t) = true <-> mutex z = Some t;
  zi_some : forall t, mutex z = Some t -> (t < n)%nat;
  zi_value : value z = v + posts z - waits z /\ 0 <= value z;
  zi_dec : forall t, (t < n)%nat -> zpcs z t = WaitDec -> 0 < value z;
  zi_coming : forall u, (u < n)%nat -> zpcs z u = WaitSleep -> value z <= sum (fun t => coming (zpcs z t)) n }.

Lemma zinv_init v : 0 <= v -> zinv v (Zem_init v).
Proof. intros. constructor; simpl; try done. lia. Qed.

Lemma coming_nonneg z : 0 <= sum (fun i => coming (zpcs z i)) n.
Proof.
  destruct (sum_bounds (fun i => coming (zpcs z i)) n 0 1) as [H _]; [|lia].
  intros i _. destruct (zpcs z i); simpl; lia.
Qed.

(** The mutex: taken when free by a thread that then owns it, kept, or released *)
Lemma owner_step z t p o :
  (t < n)%nat -> (forall u, (u < n)%nat -> owns (zpcs z u) = true <-> mutex z = Some u) ->
  (mutex z = None /\ owns p = true /\ o = Some t) \/ (owns p = owns (zpcs z t) /\ o = mutex z) \/
  (owns (zpcs z t) = true /\ owns p = false /\ o = None) ->
  forall u, (u < n)%nat -> owns (upd (zpcs z) t p u) = true <-> o = Some u.
Proof.
  intros Ht H Hc u Hu. pose proof (H t Ht) as H1. pose proof (H u Hu) as H2. upd_at u t.
  - destruct Hc as [(E & -> & ->)|[(-> & ->)|(E & -> & ->)]]; [done|done|split; [done|done]].
  - destruct Hc as [(E & Hp & ->)|[(Hp & ->)|(E & Hp & ->)]].
    + rewrite H2, E. split; [done|]. congruence.
    + done.
    + rewrite H2. apply H1 in E. rewrite E. split; congruence.
Qed.

(** One thread moves to line p, with a new mutex and counters. *)
Lemma zinv_move v z t p val o w q :
  (t < n)%nat -> zinv v z ->
  (mutex z = None /\ owns p = true /\ o = Some t) \/ (owns p = owns (zpcs z t) /\ o = mutex z) \/
    (owns (zpcs z t) = true /\ owns p = false /\ o = None) ->
  val = v + q - w -> 0 <= val ->
  (val < value z -> zpcs z t = WaitDec) -> (p = WaitDec -> 0 < val) ->
  ((exists u, (u < n)%nat /\ upd (zpcs z) t p u = WaitSleep) ->
     val <= sum (fun i => coming (zpcs z i)) n + coming p - coming (zpcs z t)) ->
  zinv v (MkZ val o (upd (zpcs z) t p) w q).
Proof.
  intros Ht [Io Is _ Id _] Ho Ev Hv Hdec Hp Hc. constructor; simpl.
  - by eapply owner_step.
  - intros u ->. destruct Ho as [(_ & _ & [= ->])|[(_ & Eo)|(_ & _ & [=])]]; [done|]. by apply Is.
  - lia.
  - intros u Hu E. upd_at u t; [by apply Hp|]. pose proof (Id u Hu E). destruct (Z.lt_ge_cases val (value z)) as [Hlt|]; [|lia].
    apply Hdec in Hlt. assert (mutex z = Some u) by (apply Io; [done|by rewrite E]).
    assert (mutex z = Some t) by (apply Io; [done|by rewrite Hlt]). congruence.
  - intros u Hu E. rewrite (sum_upd coming) by done. apply Hc. by exists u.
Qed.

Lemma sleeper_bound v z t p :
  zinv v z -> p <> WaitSleep -> (exists u, (u < n)%nat /\ upd (zpcs z) t p u = WaitSleep) ->
  value z <= sum (fun i => coming (zpcs z i)) n.
Proof. intros I Hp (u & Hu & E). apply (zi_coming v z I u Hu). revert E. unfold upd. by case_decide. Qed.

(** The cases of [zinv_move] that change only line and mutex *)
Ltac zmove I Hp :=
  apply zinv_move; simpl; rewrite ?Hp; simpl; try done; try (apply I); try lia; auto;
  try (intros Hs; apply (sleeper_bound _ _ _ _ I) in Hs; [lia|done]).

Lemma Zem_wait_inv v z z' t : (t < n)%nat -> zinv v z -> Zem_wait t z z' -> zinv v z'.
Proof.
  intros Ht I Hst. pose proof (zi_value _ _ I) as [Ev Hv]. pose proof (coming_nonneg z).
  assert (Hown : owns (zpcs z t) = true -> mutex z = Some t) by (apply (zi_owner _ _ I t Ht)).
  destruct Hst as [Hp Hm|Hp Hz|Hp Hm|Hp Hz|Hp|Hp]; unfold at_, lock_, dec_; simpl.
  - zmove I Hp.
  - zmove I Hp. intros _. pose proof (sum_ge (fun i => coming (zpcs z i)) n t Ht) as Hge. cbv beta in Hge. rewrite Hp in Hge.
    simpl in Hge. enough (1 <= sum (fun i => coming (zpcs z i)) n) by lia. apply Hge. intros i _. destruct (zpcs z i); simpl; lia.
  - zmove I Hp.
  - zmove I Hp.
  - pose proof (zi_dec _ _ I t Ht Hp). zmove I Hp.
  - zmove I Hp.
Qed.

Lemma env_step_inv v z z' t : (t < n)%nat -> zinv v z -> env_step t z z' -> zinv v z'.
Proof.
  intros Ht I Hst. pose proof (zi_value _ _ I) as [Ev Hv]. destruct Hst as [Hp|Hp|Hp]; unfold at_; simpl; zmove I Hp.
Qed.

Lemma Zem_post_inv v z z' t : (t < n)%nat -> zinv v z -> Zem_post n t z z' -> zinv v z'.
Proof.
  intros Ht I Hst. pose proof (zi_value _ _ I) as [Ev Hv].
  destruct Hst as [Hp Hm|Hp|u Hp Hu Hpu|Hp Hn|Hp].
  - unfold at_, lock_; simpl. zmove I Hp.
  - unfold at_, inc_; simpl. zmove I Hp.
  - assert (I1 : zinv v (at_ u WaitRelock z)) by (eapply env_step_inv; [exact Hu|exact I|by apply spurious]).
    pose proof (zi_coming _ _ I u Hu Hpu) as Hc. assert (Hut : u <> t) by congruence.
    change (at_ t PostUnlock (at_ u WaitRelock z)) with
      (MkZ (value z) (mutex z) (upd (zpcs (at_ u WaitRelock z)) t PostUnlock) (waits z) (posts z)).
    apply zinv_move; try done; simpl; rewrite ?upd_other by done; rewrite ?Hp; auto; [lia|].
    intros _. rewrite (sum_upd coming), Hpu by done. simpl. lia.
  - unfold at_; simpl. zmove I Hp. intros (u & Hu & E). upd_at u t; [done|]. by destruct (Hn u Hu).
  - unfold at_, lock_; simpl. zmove I Hp.
Qed.

Lemma zstep_inv v z z' : zinv v z -> zstep z z' -> zinv v z'.
Proof. intros I [(t & Ht & [H|H])|(t & Ht & H)]; eauto using Zem_wait_inv, Zem_post_inv, env_step_inv. Qed.

(** When no line of the two functions can run, every thread is outside or asleep. *)
Lemma quiescent v z : zinv v z -> (forall z', ~ inside z z') ->
  forall t, (t < n)%nat -> zpcs z t = Outside \/ zpcs z t = WaitSleep.
Proof.
  intros I Hq. assert (Hx : forall t z', (t < n)%nat -> ~ (Zem_wait t z z' \/ Zem_post n t z z'))
    by (intros t z' Ht Hs; apply (Hq z'); by exists t).
  assert (Hm : mutex z = None).
  { destruct (mutex z) as [t|] eqn:Em; [exfalso|done]. pose proof (zi_some _ _ I t Em) as Ht.
    pose proof (proj2 (zi_owner _ _ I t Ht) Em) as Ho. destruct (zpcs z t) eqn:Hp; try discriminate Ho.
    - destruct (Z.le_gt_cases (value z) 0); (eapply Hx; [exact Ht|left; eauto using Zem_wait]).
    - eapply Hx; [exact Ht|left; eauto using Zem_wait].
    - eapply Hx; [exact Ht|left; eauto using Zem_wait].
    - eapply Hx; [exact Ht|right; eauto using Zem_post].
    - destruct (decide (Exists (fun u => zpcs z u = WaitSleep) (seq 0 n))) as [He|He].
      + apply Exists_exists in He as (u & Hu & E). apply elem_of_seq in Hu.
        eapply Hx; [exact Ht|right; eapply (post_signal n t z u); [done|lia|done]].
      + eapply Hx; [exact Ht|right; apply post_signal_none; [done|]]. intros u Hu E. apply He, Exists_exists.
        exists u. split; [apply elem_of_seq; lia|done].
    - eapply Hx; [exact Ht|right; eauto using Zem_post]. }
  intros t Ht. destruct (zpcs z t) eqn:Hp; auto; exfalso.
  all: try (assert (Ho : owns (zpcs z t) = true) by (by rewrite Hp); apply (zi_owner _ _ I t Ht) in Ho; congruence).
  all: eapply Hx; [exact Ht|]; (left; by eauto using Zem_wait) || (right; by eauto using Zem_post).
Qed.

(** C24: Zem_wait and Zem_post make a counting semaphore, however the threads
    interleave and whichever sleepers wake.  The counter is never negative and is
    the initial value plus the posts made minus the waits that returned or will;
    one thread at a time is between lock and unlock; and no wake-up is lost: when
    no thread inside the functions can go on, a thread still waiting means that
    the counter is 0. *)
Theorem zemaphore_correct v z :
  0 <= v -> steps zstep (Zem_init v) z ->
  value z = v + posts z - waits z /\ 0 <= value z /\
  (forall t u, (t < n)%nat -> (u < n)%nat -> owns (zpcs z t) = true -> owns (zpcs z u) = true -> t = u) /\
  ((forall z', ~ inside z z') -> (exists t, (t < n)%nat /\ zpcs z t <> Outside) -> value z = 0).
Proof.
  intros Hv Hs. assert (I : zinv v z) by (eapply steps_invariant; eauto using zstep_inv, zinv_init).
  destruct (zi_value _ _ I) as [Ev Hnn]. split_and!; [done|done|..].
  - intros t u Ht Hu Ot Ou. apply (zi_owner _ _ I) in Ot, Ou; try done. congruence.
  - intros Hq (t & Ht & Hp). pose proof (quiescent v z I Hq) as Q. destruct (Q t Ht) as [?|Hsl]; [done|].
    pose proof (zi_coming _ _ I t Ht Hsl) as Hc. rewrite (sum_ext _ (fun _ => 0)) in Hc.
    + destruct (sum_bounds (fun _ => 0) n 0 0) as [_ H0]; [intros; lia|]. lia.
    + intros i Hi. by destruct (Q i Hi) as [->| ->].
Qed.
End threads.

(** Thread 0 finds the counter at 0 and sleeps. *)
Definition asleep_at_zero : zst := at_ 0 WaitSleep (lock_ None (at_ 0 WaitTest (lock_ (Some 0%nat) (at_ 0 WaitLock (Zem_init 0))))).

Lemma zemaphore_correct_witness : value asleep_at_zero = 0.
Proof.
  apply (zemaphore_correct 1 0 asleep_at_zero); [lia| | |].
  - eapply steps_trans; [eapply steps_trans; [eapply steps_trans; [apply steps_refl|]|]|].
    + right. exists 0%nat. split; [lia|]. by apply call_wait.
    + left. exists 0%nat. split; [lia|]. left. by apply wait_lock.
    + left. exists 0%nat. split; [lia|]. left. by apply wait_sleep.
  - intros z' (t & Ht & H). assert (t = 0%nat) by lia. subst t. destruct H as [H|H]; destruct H; discriminate.
  - exists 0%nat. split; [lia|done].
Defined.
