(* ===== verification/Philosophers.v ===== *)
(** The dining philosophers of [src/projects/project_5]: 1-dp.c, 2-dp.c and
    3-dp.c, with n philosophers as threads over semaphores. *)

From stdpp Require Import base list.
From S2P Require Import Prelude Threads.

(** The semaphores of the three programs *)
Inductive sid := Fork (i : nat) | Mutex | Table.

#[export] Instance sid_eq_dec : EqDecision sid.
Proof. solve_decision. Defined.

Definition left (p : nat) : nat := p.

(** ** Two users per fork *)

Section forks.
Context (n : nat).
Hypothesis Hn : (2 <= n)%nat.

(** right of 2-dp.c and 3-dp.c *)
Definition right (p : nat) : nat := (p + 1) mod n.
Definition pred (i : nat) : nat := if decide (i = 0%nat) then (n - 1)%nat else (i - 1)%nat.

Lemma right_cases p : (p < n)%nat -> right p = if decide (p = n - 1)%nat then 0%nat else (p + 1)%nat.
Proof.
  intros Hp. unfold right. case_decide as E.
  - rewrite E. replace (n - 1 + 1)%nat with n by lia. apply Nat.Div0.mod_same.
  - apply Nat.mod_small. lia.
Qed.

Lemma right_lt p : (right p < n)%nat.
Proof. unfold right. apply Nat.mod_upper_bound. lia. Qed.
Lemma pred_lt i : (i < n)%nat -> (pred i < n)%nat.
Proof. unfold pred. case_decide; lia. Qed.
Lemma pred_right p : (p < n)%nat -> pred (right p) = p.
Proof. intros. rewrite right_cases by done. unfold pred. repeat case_decide; lia. Qed.
Lemma right_pred i : (i < n)%nat -> right (pred i) = i.
Proof. intros Hi. rewrite right_cases by (by apply pred_lt). unfold pred. repeat case_decide; lia. Qed.
Lemma right_ne p : (p < n)%nat -> right p <> p.
Proof. intros. rewrite right_cases by done. case_decide; lia. Qed.
Lemma pred_eq i t : (i < n)%nat -> (t < n)%nat -> pred i = t <-> i = right t.
Proof. intros Hi Ht. split; [intros <-; by rewrite right_pred|intros ->; by apply pred_right]. Qed.

(** Fork i is used by philosopher i, as its left fork on the lines where hl is 1,
    and by its other neighbour, as its right fork on the lines where hr is 1. *)
Definition shared (hl hr : nat -> Z) (pc : nat -> nat) (avail : nat -> Z) : Prop :=
  forall i, (i < n)%nat -> avail i = 1 - hl (pc i) - hr (pc (pred i)) /\ 0 <= avail i.

Lemma shared_step hl hr pc avail avail' t k :
  (t < n)%nat -> shared hl hr pc avail ->
  (forall i, (i < n)%nat -> avail' i =
     avail i - (if decide (i = t) then hl k - hl (pc t) else 0) - (if decide (i = right t) then hr k - hr (pc t) else 0)) ->
  (forall i, (i < n)%nat -> 0 <= avail' i) ->
  shared hl hr (upd pc t k) avail'.
Proof.
  intros Ht H Ha Hnn i Hi. split; [|by apply Hnn]. rewrite Ha by done. destruct (H i Hi) as [-> _].
  pose proof (pred_eq i t Hi Ht) as Hp. pose proof (right_ne t Ht). unfold upd at 1 2.
  case_decide as E; [subst i; rewrite (decide_False (P := t = right t)), (decide_False (P := pred t = t)) by naive_solver; lia|].
  case_decide as E2; [rewrite decide_True by (by apply Hp); rewrite (proj2 Hp E2); lia|].
  rewrite decide_False by naive_solver. lia.
Qed.

(** The two users of a fork never both have it. *)
Lemma shared_excl hl hr pc avail p :
  shared hl hr pc avail -> (p < n)%nat -> hr (pc p) = 1 -> hl (pc (right p)) = 1 -> False.
Proof. intros H Hp E1 E2. destruct (H (right p) (right_lt p)) as [E ?]. rewrite pred_right in E by done. lia. Qed.
End forks.

Definition between (lo hi k : nat) : Z := if decide (lo <= k <= hi)%nat then 1 else 0.

Lemma between_range lo hi k : 0 <= between lo hi k <= 1.
Proof. unfold between. case_decide; lia. Qed.

(** ** 3-dp.c: a table with n - 1 seats *)

Module Algorithm3.
Section table.
Context (n : nat).

(** get_forks and put_forks, inlined in the body of philosopher *)
Definition get_forks (p : nat) : list (instr sid unit) := [Wait (Fork (right n p)); Wait (Fork (left p))].
Definition put_forks (p : nat) : list (instr sid unit) := [Post (Fork (right n p)); Post (Fork (left p))].
Definition eat : instr sid unit := Act id.
Definition think : instr sid unit := Act id.

Definition philosopher (p : nat) : list (instr sid unit) :=
  [Wait Table] ++ get_forks p ++ [eat] ++ put_forks p ++ [Post Table; think].

Definition main_sem (s : sid) : Z :=
  match s with Table => Z.of_nat n - 1 | Fork i => if decide (i < n)%nat then 1 else 0 | Mutex => 0 end.
Definition main : conf sid unit := MkConf main_sem tt (fun _ => 0%nat).

Definition eating (c : conf sid unit) (p : nat) : Prop := pc c p = 3%nat.

Definition has_right := between 2 4.
Definition has_left := between 3 5.
Definition seated := between 1 6.

Record inv (c : conf sid unit) : Prop := {
  i_pc : forall p, (p < n)%nat -> (pc c p < 8)%nat;
  i_forks : shared n has_left has_right (pc c) (fun i => sem c (Fork i));
  i_table : sem c Table = Z.of_nat n - 1 - sum (fun p => seated (pc c p)) n /\ 0 <= sem c Table }.

Context (Hn : (2 <= n)%nat).

Lemma table_inv_main : inv main.
Proof.
  constructor; simpl.
  - intros. lia.
  - intros i Hi. rewrite decide_True by done. done.
  - rewrite (sum_ext _ (fun _ => 0)) by done. destruct (sum_bounds (fun _ => 0) n 0 0); [intros; lia|]. lia.
Qed.

(** Philosopher p moves to line k. *)
Lemma table_inv_move c c' p k :
  inv c -> (p < n)%nat -> (k < 8)%nat -> pc c' = upd (pc c) p k ->
  (forall i, (i < n)%nat -> sem c' (Fork i) =
     sem c (Fork i) - (if decide (i = p) then has_left k - has_left (pc c p) else 0)
                    - (if decide (i = right n p) then has_right k - has_right (pc c p) else 0)) ->
  (forall i, (i < n)%nat -> 0 <= sem c' (Fork i)) ->
  sem c' Table = sem c Table - (seated k - seated (pc c p)) -> 0 <= sem c' Table -> inv c'.
Proof.
  intros [Ipc If [It _]] Hp Hk Epc Hf Hf0 Et Et0. constructor.
  - intros q Hq. rewrite Epc. upd_at q p; [done|by apply Ipc].
  - rewrite Epc. by eapply shared_step.
  - split; [|done]. rewrite Et, It, Epc, (sum_upd seated) by done. lia.
Qed.

Lemma table_inv_step c c' : inv c -> tstep philosopher n c c' -> inv c'.
Proof.
  intros I Hst. revert I. destruct Hst as [p c c' Hp E]. intros I. pose proof (i_pc c I p Hp) as Hpc. pose proof (right_ne n Hn p Hp) as Hr.
  assert (Hs : forall i, (i < n)%nat -> 0 <= sem c (Fork i)) by (intros i Hi; by apply (i_forks c I)).
  pose proof (proj2 (i_table c I)) as Ht.
  unfold exec in E.
  destruct (pc c p) as [|[|[|[|[|[|[|[|?]]]]]]]] eqn:Epc; [..|lia]; cbn -[right Z.ltb goto] in E.
  all: try (destruct (0 <? _) eqn:Es; [|discriminate]; apply Z.ltb_lt in Es).
  all: injection E as <-; norm_next; eapply table_inv_move; [exact I|exact Hp| |reflexivity|..]; cbn [sem goto with_sem with_glob pc].
  all: rewrite ?Epc; unfold left, upd in *; try (intros i Hi; specialize (Hs i Hi)); try lia.
  all: repeat case_decide; simplify_eq; try done; try lia.
  all: unfold has_left, has_right, seated, between; repeat case_decide; lia.
Qed.

(** A philosopher that cannot go on waits for the table, or for a fork that its
    other user has. *)
Lemma table_waiting c p :
  inv c -> (p < n)%nat -> exec philosopher p c = None ->
  (pc c p = 0%nat /\ sem c Table = 0) \/
  (pc c p = 1%nat /\ has_left (pc c (right n p)) = 1) \/
  (pc c p = 2%nat /\ has_right (pc c (pred n p)) = 1).
Proof.
  intros I Hp E. pose proof (i_pc c I p Hp) as Hpc. unfold exec in E.
  destruct (pc c p) as [|[|[|[|[|[|[|[|?]]]]]]]] eqn:Epc; [..|lia]; cbn -[right Z.ltb goto] in E; try discriminate.
  all: destruct (0 <? _) eqn:Es; [discriminate|]; apply Z.ltb_ge in Es.
  - left. pose proof (proj2 (i_table c I)). split; [done|lia].
  - right; left. split; [done|]. destruct (i_forks c I (right n p) (right_lt n Hn p)) as [Ef Ef0].
    rewrite pred_right, Epc in Ef by done. unfold has_left, has_right, between in *. repeat case_decide; lia.
  - right; right. split; [done|]. unfold left in Es. destruct (i_forks c I p Hp) as [Ef Ef0].
    rewrite Epc in Ef. unfold has_left, has_right, between in *. repeat case_decide; lia.
Qed.

Lemma not_stuck c : inv c -> ~ stuck philosopher n c.
Proof.
  intros I Hst.
  assert (W : forall p, (p < n)%nat -> pc c p = 0%nat \/ (pc c p = 2%nat /\ pc c (pred n p) = 2%nat)).
  { assert (W1 : forall p, (p < n)%nat -> (pc c p <= 2)%nat).
    { intros p Hp. destruct (table_waiting c p I Hp (Hst p Hp)) as [[-> _]|[[-> _]|[-> _]]]; lia. }
    intros p Hp. destruct (table_waiting c p I Hp (Hst p Hp)) as [[-> _]|[[E H]|[E H]]]; [by left|exfalso|right].
    - pose proof (W1 _ (right_lt n Hn p)). unfold has_left, between in H. case_decide; lia.
    - split; [done|]. pose proof (W1 _ (pred_lt n Hn p Hp)). unfold has_right, between in H. case_decide; lia. }
  pose proof (i_table c I) as [Et Et0].
  destruct (decide (pc c (n - 1)%nat = 2%nat)) as [E2|E2].
  - assert (All : forall k, (k < n)%nat -> pc c (n - 1 - k)%nat = 2%nat).
    { induction k as [|k IH]; intros Hk; [by rewrite Nat.sub_0_r|]. specialize (IH ltac:(lia)).
      destruct (W (n - 1 - k)%nat ltac:(lia)) as [E|[_ E]]; [lia|]. unfold pred in E. rewrite decide_False in E by lia.
      by replace (n - 1 - S k)%nat with (n - 1 - k - 1)%nat by lia. }
    rewrite (sum_ext _ (fun _ => 1)) in Et.
    + destruct (sum_bounds (fun _ => 1) n 1 1); [intros; lia|]. lia.
    + intros p Hp. specialize (All (n - 1 - p)%nat ltac:(lia)). replace (n - 1 - (n - 1 - p))%nat with p in All by lia. by rewrite All.
  - assert (All : forall p, (p < n)%nat -> pc c p = 0%nat).
    { induction p as [|p IH]; intros Hp.
      - destruct (W 0%nat Hp) as [E|[_ E]]; [done|]. unfold pred in E. by rewrite decide_True in E by done.
      - destruct (W (S p) Hp) as [E|[_ E]]; [done|]. unfold pred in E. rewrite decide_False in E by done.
        replace (S p - 1)%nat with p in E by lia. rewrite IH in E by lia. done. }
    rewrite (sum_ext _ (fun _ => 0)) in Et by (intros p Hp; by rewrite All).
    destruct (sum_bounds (fun _ => 0) n 0 0); [intros; lia|].
    destruct (table_waiting c 0%nat I ltac:(lia) (Hst 0%nat ltac:(lia))) as [[_ ?]|[[E _]|[E _]]]; [lia|..]; rewrite All in E by lia; lia.
Qed.

(** Steps before philosopher p eats *)
Definition distance (k : nat) : Z := if decide (k <= 3)%nat then 3 - Z.of_nat k else 11 - Z.of_nat k.

Lemma distance_step c c' p :
  inv c -> (p < n)%nat -> pc c p <> 3%nat -> exec philosopher p c = Some c' ->
  sum (fun q => distance (pc c' q)) n = sum (fun q => distance (pc c q)) n - 1.
Proof.
  intros I Hp Hne E. pose proof (i_pc c I p Hp) as Hpc. unfold exec in E.
  destruct (pc c p) as [|[|[|[|[|[|[|[|?]]]]]]]] eqn:Epc; try lia; cbn -[right Z.ltb goto] in E.
  all: try (destruct (0 <? _) eqn:Es; [|discriminate]).
  all: injection E as <-; norm_next; cbn [pc goto with_sem with_glob]; rewrite (sum_upd distance), Epc by done.
  all: unfold distance; repeat case_decide; lia.
Qed.

(** A schedule in which nobody eats is short. *)
Lemma no_meal_short sched c c' :
  inv c -> Forall (fun p => (p < n)%nat) sched -> run philosopher sched c = Some c' ->
  (exists l1 p l2 c1, sched = l1 ++ p :: l2 /\ run philosopher l1 c = Some c1 /\ eating c1 p) \/
  Z.of_nat (length sched) <= sum (fun q => distance (pc c q)) n.
Proof.
  revert c. induction sched as [|p sched IH]; intros c I Hl E.
  - right. simpl. destruct (sum_bounds (fun q => distance (pc c q)) n 0 7); [|lia].
    intros q Hq. pose proof (i_pc c I q Hq). unfold distance. case_decide; lia.
  - apply Forall_cons in Hl as [Hp Hl]. simpl in E. destruct (exec philosopher p c) as [c1|] eqn:Ec; [|done].
    destruct (decide (pc c p = 3%nat)) as [E3|E3]; [left; by exists [], p, sched, c|].
    assert (I1 : inv c1) by (eapply table_inv_step; [exact I|by eapply tstep_exec]).
    destruct (IH c1 I1 Hl E) as [(l1 & q & l2 & c2 & -> & E1 & E2)|Hlen].
    + left. exists (p :: l1), q, l2, c2. split_and!; [done| |done]. simpl. by rewrite Ec.
    + right. rewrite (distance_step c c1 p I Hp E3 Ec) in Hlen. simpl length. lia.
Qed.

(** C16: With at least two philosophers, the table of 3-dp.c works, whatever the
    schedule.  From every reachable state some philosopher can take a step, and
    any execution of more than 7n steps contains a meal, so the table never
    deadlocks and meals never stop; and no two neighbours eat at the same time. *)
Theorem table_never_stops c :
  steps (tstep philosopher n) main c ->
  (exists p, (p < n)%nat /\ exec philosopher p c <> None) /\
  (forall sched c', Forall (fun p => (p < n)%nat) sched -> run philosopher sched c = Some c' ->
     (7 * n < length sched)%nat ->
     exists l1 p l2 c1, sched = l1 ++ p :: l2 /\ run philosopher l1 c = Some c1 /\ eating c1 p) /\
  (forall p, (p < n)%nat -> eating c p -> ~ eating c (right n p)).
Proof.
  intros Hs. assert (I : inv c) by (eapply steps_invariant; eauto using table_inv_step, table_inv_main). split_and!.
  - destruct (decide (Exists (fun p => exec philosopher p c <> None) (seq 0 n))) as [He|He].
    + apply Exists_exists in He as (p & Hp & E). apply elem_of_seq in Hp. exists p. split; [lia|done].
    + exfalso. apply (not_stuck c I). intros p Hp. destruct (exec philosopher p c) eqn:E; [|done].
      destruct He. apply Exists_exists. exists p. split; [apply elem_of_seq; lia|by rewrite E].
  - intros sched c' Hl E Hlen. destruct (no_meal_short sched c c' I Hl E) as [?|H]; [done|exfalso].
    destruct (sum_bounds (fun q => distance (pc c q)) n 0 7); [|lia].
    intros q Hq. pose proof (i_pc c I q Hq). unfold distance. case_decide; lia.
  - intros p Hp E1 E2. apply (shared_excl n Hn _ _ _ _ p (i_forks c I) Hp); [by rewrite E1|by rewrite E2].
Qed.
End table.

(** Of three philosophers, number 0 is eating. *)
Lemma table_never_stops_witness :
  exists c, run (philosopher 3) [0; 0; 0]%nat (main 3) = Some c /\ eating c 0 /\
    (exists p, (p < 3)%nat /\ exec (philosopher 3) p c <> None) /\ ~ eating c 1.
Proof.
  eexists. split; [reflexivity|]. split; [reflexivity|].
  match goal with |- (exists p, _ /\ exec _ p ?c <> None) /\ _ => destruct (table_never_stops 3 ltac:(lia) c) as (H1 & _ & H2) end.
  - eapply (run_steps (philosopher 3) 3 [0; 0; 0]%nat); [|apply steps_refl|reflexivity]. by repeat constructor; lia.
  - split; [exact H1|]. apply (H2 0%nat); [lia|reflexivity].
Defined.
End Algorithm3.

(** ** 1-dp.c: left fork first, then right *)

Module Algorithm1.
Section five.
Context (n : nat).

Definition right5 (p : nat) : nat := (p + 1) mod 5.
Definition get_forks (p : nat) : list (instr sid unit) := [Wait (Fork (left p)); Wait (Fork (right5 p))].
Definition put_forks (p : nat) : list (instr sid unit) := [Post (Fork (left p)); Post (Fork (right5 p))].
Definition think : instr sid unit := Act id.
Definition eat : instr sid unit := Act id.
Definition philosopher (p : nat) : list (instr sid unit) := [think] ++ get_forks p ++ [eat] ++ put_forks p.
Definition main_sem (s : sid) : Z := match s with Fork i => if decide (i < n)%nat then 1 else 0 | _ => 0 end.
Definition main : conf sid unit := MkConf main_sem tt (fun _ => 0%nat).

(** The first k philosophers have thought and taken their left forks. *)
Definition left_taken (k : nat) (c : conf sid unit) : Prop :=
  (forall p, pc c p = if decide (p < k)%nat then 2%nat else 0%nat) /\
  (forall i, sem c (Fork i) = if decide (i < k)%nat then 0 else main_sem (Fork i)).

Lemma take_left k c : (k < n)%nat -> left_taken k c ->
  exists c', run philosopher [k; k] c = Some c' /\ left_taken (S k) c'.
Proof.
  intros Hk [Hpc Hsem]. eexists. split.
  - simpl. unfold exec at 1. rewrite (Hpc k), decide_False by lia. cbn -[next right5]. norm_next.
    unfold exec. cbn [pc goto with_glob]. rewrite upd_same. cbn -[next right5 Z.ltb]. unfold left. rewrite Hsem.
    simpl. rewrite decide_False, decide_True by lia. norm_next. reflexivity.
  - split; intros i; cbn [pc sem goto with_glob with_sem].
    + unfold upd. rewrite Hpc. repeat case_decide; lia.
    + unfold upd. rewrite Hsem. repeat case_decide; simplify_eq; try lia; exfalso; assert (i = k) by lia; congruence.
Qed.

Lemma all_left k : (k <= n)%nat -> exists sched c, Forall (fun p => (p < n)%nat) sched /\ run philosopher sched main = Some c /\ left_taken k c.
Proof.
  induction k as [|k IH]; intros Hk.
  - exists [], main. split_and!; [by constructor|done|]. split; intros i; [done|]. by rewrite decide_False by lia.
  - destruct IH as (l & c & Hl & E & H); [lia|]. destruct (take_left k c ltac:(lia) H) as (c' & E' & H').
    exists (l ++ [k; k]), c'. split_and!; [|by rewrite run_app, E|done].
    apply Forall_app. split; [done|]. repeat constructor; lia.
Qed.

(** C38: The philosophers of 1-dp.c can deadlock: for any number n >= 5 of them
    there is a schedule after which every one waits for a fork forever.  With
    fewer than five the last one's right fork, (p + 1) % 5, is outside the
    allocated array. *)
Theorem left_then_right_deadlocks :
  ((5 <= n)%nat -> exists c, steps (tstep philosopher n) main c /\ stuck philosopher n c) /\
  ((1 <= n < 5)%nat -> right5 (n - 1) = n).
Proof.
  split.
  - intros Hn. destruct (all_left n ltac:(lia)) as (l & c & Hl & E & Hpc & Hsem). exists c. split.
    + eapply run_steps; [exact Hl|apply steps_refl|exact E].
    + intros p Hp. unfold exec. rewrite Hpc, decide_True by done. cbn -[right5 Z.ltb]. rewrite Hsem, decide_True; [done|].
      unfold right5. pose proof (Nat.mod_upper_bound (p + 1) 5). lia.
  - intros Hn. unfold right5. rewrite Nat.mod_small; lia.
Qed.
End five.

Lemma left_then_right_deadlocks_witness : exists c, stuck philosopher 5 c.
Proof. destruct (proj1 (left_then_right_deadlocks 5) ltac:(lia)) as (c & _ & H). by exists c. Defined.
End Algorithm1.

(** ** 2-dp.c: both forks at once *)

Module Algorithm2.
(** fork_bitmap, bitmap_updated_counter, eating_distribution *)
Record shared_vars := MkG { fork_bitmap : Z; bitmap_updated_counter : Z; eating_distribution : nat -> Z }.

Section bitmap.
Context (n : nat).

Definition bit (i : nat) : Z := Z.shiftl 1 (Z.of_nat i).

(** right_available && left_available *)
Definition available (p : nat) (g : shared_vars) : bool :=
  ((Z.land (fork_bitmap g) (bit (right n p)) =? 0) && (Z.land (fork_bitmap g) (bit (left p)) =? 0))%bool.

Definition bump (p : nat) (d : nat -> Z) : nat -> Z := upd d p (d p + 1).

Definition take_bits (p : nat) (g : shared_vars) : shared_vars :=
  MkG (Z.lor (Z.lor (fork_bitmap g) (bit (right n p))) (bit (left p))) (bitmap_updated_counter g + 2)
    (bump (left p) (bump (right n p) (eating_distribution g))).

Definition clear_bits (p : nat) (g : shared_vars) : shared_vars :=
  MkG (Z.lxor (Z.lxor (fork_bitmap g) (bit (right n p))) (bit (left p))) (bitmap_updated_counter g) (eating_distribution g).

Definition get_forks (p : nat) : list (instr sid shared_vars) := [Wait (Fork (right n p)); Wait (Fork (left p))].
Definition put_forks (p : nat) : list (instr sid shared_vars) := [Post (Fork (right n p)); Post (Fork (left p))].
Definition eat : instr sid shared_vars := Act id.
Definition think : instr sid shared_vars := Act id.

(** The body of if(right_available && left_available) is 9 instructions. *)
Definition philosopher (p : nat) : list (instr sid shared_vars) :=
  [Wait Mutex; Unless (available p) 9] ++
    [Act (take_bits p); Post Mutex] ++ get_forks p ++ [eat; Wait Mutex] ++ put_forks p ++ [Act (clear_bits p)] ++
  [Post Mutex; think].

Definition main_sem (s : sid) : Z :=
  match s with Mutex => 1 | Fork i => if decide (i < n)%nat then 1 else 0 | Table => 0 end.

(** eating_distribution is fresh memory of any content. *)
Definition main (d : nat -> Z) : conf sid shared_vars := MkConf main_sem (MkG 0 0 d) (fun _ => 0%nat).

Definition eating (c : conf sid shared_vars) (p : nat) : Prop := pc c p = 6%nat.

Definition has_right := between 5 8.
Definition has_left := between 6 9.
Definition owner := between 3 10.
Definition critical (k : nat) : Z := between 1 3 k + between 8 11 k.

(** 1 when the bit of fork i is clear *)
Definition clear (c : conf sid shared_vars) (i : nat) : Z := 1 - Z.b2z (Z.testbit (fork_bitmap (glob c)) (Z.of_nat i)).

Record inv (c : conf sid shared_vars) : Prop := {
  i_pc : forall p, (p < n)%nat -> (pc c p < 13)%nat;
  i_bitmap : 0 <= fork_bitmap (glob c);
  i_forks : shared n has_left has_right (pc c) (fun i => sem c (Fork i));
  i_bits : shared n owner owner (pc c) (clear c);
  i_mutex : sem c Mutex = 1 - sum (fun p => critical (pc c p)) n /\ 0 <= sem c Mutex;
  i_test : forall p, (p < n)%nat -> pc c p = 2%nat -> clear c p = 1 /\ clear c (right n p) = 1 }.

Context (Hn : (2 <= n)%nat).

Lemma bits_inv_main d : inv (main d).
Proof.
  constructor; simpl; try done.
  - intros. lia.
  - intros i Hi. rewrite decide_True by done. done.
  - intros i Hi. unfold clear. simpl. rewrite Z.testbit_0_l. done.
  - rewrite (sum_ext _ (fun _ => 0)) by done. destruct (sum_bounds (fun _ => 0) n 0 0); [intros; lia|]. lia.
Qed.

Lemma critical_range k : 0 <= critical k <= 1.
Proof. unfold critical, between. repeat case_decide; lia. Qed.

(** One thread at a time between Zem_wait(&mutex) and Zem_post(&mutex) *)
Lemma one_critical c p q : inv c -> (p < n)%nat -> (q < n)%nat -> critical (pc c p) = 1 -> critical (pc c q) = 1 -> p = q.
Proof.
  intros I Hp Hq Ep Eq. destruct (decide (p = q)) as [|Hne]; [done|exfalso].
  pose proof (sum_two (fun r => critical (pc c r)) n p q Hp Hq Hne) as H. cbv beta in H.
  destruct (i_mutex c I). enough (critical (pc c p) + critical (pc c q) <= sum (fun r => critical (pc c r)) n) by lia.
  apply H. intros i _. apply critical_range.
Qed.

Lemma bit_test i j : Z.testbit (bit i) (Z.of_nat j) = bool_decide (i = j).
Proof.
  unfold bit. rewrite Z.shiftl_1_l. case_bool_decide as E.
  - subst. apply Z.pow2_bits_true. lia.
  - apply Z.pow2_bits_false. lia.
Qed.

Lemma land_bit_clear g i : (Z.land g (bit i) =? 0) = negb (Z.testbit g (Z.of_nat i)).
Proof. apply land_bit. lia. Qed.

Lemma clear_range c i : 0 <= clear c i <= 1.
Proof. unfold clear. destruct (Z.testbit (fork_bitmap (glob c)) (Z.of_nat i)); simpl; lia. Qed.

(** Philosopher p moves to line k; the bitmap changes inside the mutex. *)
Lemma bits_inv_move c c' p k :
  inv c -> (p < n)%nat -> (k < 13)%nat -> pc c' = upd (pc c) p k -> 0 <= fork_bitmap (glob c') ->
  (forall i, (i < n)%nat -> sem c' (Fork i) =
     sem c (Fork i) - (if decide (i = p) then has_left k - has_left (pc c p) else 0)
                    - (if decide (i = right n p) then has_right k - has_right (pc c p) else 0)) ->
  (forall i, (i < n)%nat -> 0 <= sem c' (Fork i)) ->
  (forall i, (i < n)%nat -> clear c' i =
     clear c i - (if decide (i = p) then owner k - owner (pc c p) else 0)
               - (if decide (i = right n p) then owner k - owner (pc c p) else 0)) ->
  (owner k <> owner (pc c p) -> critical (pc c p) = 1) ->
  sem c' Mutex = sem c Mutex - (critical k - critical (pc c p)) -> 0 <= sem c' Mutex ->
  (k = 2%nat -> clear c' p = 1 /\ clear c' (right n p) = 1) -> inv c'.
Proof.
  intros I Hp Hk Epc Hb Hf Hf0 Hc Hcr Em Em0 H2. constructor.
  - intros q Hq. rewrite Epc. upd_at q p; [done|by apply (i_pc c I)].
  - done.
  - rewrite Epc. exact (shared_step n Hn _ _ _ _ _ p k Hp (i_forks c I) Hf Hf0).
  - rewrite Epc. refine (shared_step n Hn _ _ _ _ _ p k Hp (i_bits c I) Hc _). intros i _. apply clear_range.
  - split; [|done]. rewrite Em, (proj1 (i_mutex c I)), Epc, (sum_upd critical) by done. lia.
  - intros q Hq. rewrite Epc. upd_at q p; [done|]. intros Eq. destruct (i_test c I q Hq Eq) as [E1 E2].
    destruct (Z.eq_dec (owner k) (owner (pc c p))) as [Eo|Ho].
    + rewrite !Hc, E1, E2, Eo by (try apply right_lt; done). repeat case_decide; lia.
    + exfalso. assert (p = q); [|done]. apply (one_critical c p q I Hp Hq (Hcr Ho)). by rewrite Eq.
Qed.

Lemma take_bits_clear c p i :
  clear c p = 1 -> clear c (right n p) = 1 -> right n p <> p ->
  1 - Z.b2z (Z.testbit (fork_bitmap (take_bits p (glob c))) (Z.of_nat i)) =
  clear c i - (if decide (i = p) then 1 else 0) - (if decide (i = right n p) then 1 else 0).
Proof.
  unfold clear, take_bits, left. simpl. intros E1 E2 Hne. rewrite !Z.lor_spec, !bit_test.
  repeat case_decide; subst; rewrite ?bool_decide_eq_true_2 by done; rewrite ?(bool_decide_eq_false_2 (_ = _)) by done;
    repeat destruct (Z.testbit _ _); simpl in *; lia.
Qed.

Lemma clear_bits_clear c p i :
  clear c p = 0 -> clear c (right n p) = 0 -> right n p <> p ->
  1 - Z.b2z (Z.testbit (fork_bitmap (clear_bits p (glob c))) (Z.of_nat i)) =
  clear c i + (if decide (i = p) then 1 else 0) + (if decide (i = right n p) then 1 else 0).
Proof.
  unfold clear, clear_bits, left. simpl. intros E1 E2 Hne. rewrite !Z.lxor_spec, !bit_test.
  repeat case_decide; subst; rewrite ?bool_decide_eq_true_2 by done; rewrite ?(bool_decide_eq_false_2 (_ = _)) by done;
    repeat destruct (Z.testbit _ _); simpl in *; lia.
Qed.
Lemma clear_free c i : Z.testbit (fork_bitmap (glob c)) (Z.of_nat i) = false -> clear c i = 1.
Proof. unfold clear. by intros ->. Qed.

Lemma clear_owned c p : inv c -> (p < n)%nat -> owner (pc c p) = 1 -> clear c p = 0 /\ clear c (right n p) = 0.
Proof.
  intros I Hp Eo. destruct (i_bits c I p Hp) as [E1 ?]. destruct (i_bits c I _ (right_lt n Hn p)) as [E2 ?].
  rewrite pred_right in E2 by done. pose proof (between_range 3 10 (pc c (pred n p))).
  pose proof (between_range 3 10 (pc c (right n p))). unfold owner in *. lia.
Qed.

Lemma bits_inv_step c c' : inv c -> tstep philosopher n c c' -> inv c'.
Proof.
  intros I Hst. revert I. destruct Hst as [p c c' Hp E]. intros I.
  pose proof (i_pc c I p Hp) as Hpc. pose proof (right_ne n Hn p Hp) as Hr.
  assert (Hs : forall i, (i < n)%nat -> 0 <= sem c (Fork i)) by (intros i Hi; by apply (i_forks c I)).
  pose proof (proj2 (i_mutex c I)) as Hm. pose proof (i_bitmap c I) as Hb.
  pose proof (i_test c I p Hp) as Ht. pose proof (clear_owned c p I Hp) as Ho. unfold exec in E.
  destruct (pc c p) as [|[|[|[|[|[|[|[|[|[|[|[|[|?]]]]]]]]]]]]] eqn:Epc; [..|lia];
    cbn -[right Z.ltb goto take_bits clear_bits available] in E.
  all: try (destruct (0 <? _) eqn:Es; [|discriminate]; apply Z.ltb_lt in Es).
  2: destruct (available p (glob c)) eqn:Ea.
  all: injection E as <-; norm_next; eapply bits_inv_move; [exact I|exact Hp| |reflexivity|..]; cbn [sem goto with_sem with_glob pc glob].
  all: rewrite ?Epc; unfold left in *; try (intros i Hi; specialize (Hs i Hi)); try done; try lia.
  all: try (unfold upd; repeat case_decide; simplify_eq; try done; try lia; unfold has_left, has_right, owner, critical, between; repeat case_decide; lia).
  all: try (transitivity (clear c i); [reflexivity|]; unfold owner, between; repeat case_decide; lia).
  - intros _. unfold available in Ea. apply andb_true_iff in Ea as [E1 E2]. rewrite land_bit_clear in E1, E2.
    split; apply (clear_free c); by apply negb_true_iff.
  - unfold take_bits, bit. simpl. apply Z.lor_nonneg. split; [apply Z.lor_nonneg; split; [done|]|]; apply Z.shiftl_nonneg; lia.
  - destruct (Ht eq_refl). refine (eq_trans (take_bits_clear c p i _ _ _) _); [done|done|done|].
    unfold owner, between. repeat case_decide; lia.
  - unfold clear_bits, bit. simpl. apply Z.lxor_nonneg. assert (0 <= Z.lxor (fork_bitmap (glob c)) (Z.shiftl 1 (Z.of_nat (right n p)))).
    { apply Z.lxor_nonneg. assert (0 <= Z.shiftl 1 (Z.of_nat (right n p))) by (apply Z.shiftl_nonneg; lia). tauto. }
    assert (0 <= Z.shiftl 1 (Z.of_nat (left p))) by (apply Z.shiftl_nonneg; lia). tauto.
  - destruct (Ho eq_refl). refine (eq_trans (clear_bits_clear c p i _ _ _) _); [done|done|done|].
    unfold owner, between. repeat case_decide; lia.
Qed.

(** The bits make sure of the forks: get_forks never has to wait. *)
Lemma forks_ready c p : inv c -> (p < n)%nat ->
  (pc c p = 4%nat -> 0 < sem c (Fork (right n p))) /\ (pc c p = 5%nat -> 0 < sem c (Fork p)).
Proof.
  intros I Hp. split; intros E.
  - destruct (i_forks c I _ (right_lt n Hn p)) as [Ef _]. destruct (i_bits c I _ (right_lt n Hn p)) as [Eb ?].
    rewrite pred_right, E in Ef, Eb by done. unfold has_left, has_right, owner, between in *. repeat case_decide; lia.
  - destruct (i_forks c I p Hp) as [Ef _]. destruct (i_bits c I p Hp) as [Eb ?].
    rewrite E in Ef, Eb. unfold has_left, has_right, owner, between in *. repeat case_decide; lia.
Qed.

(** Only the mutex makes a philosopher wait. *)
Lemma bits_waiting c p : inv c -> (p < n)%nat -> exec philosopher p c = None -> sem c Mutex = 0 /\ critical (pc c p) = 0.
Proof.
  intros I Hp E. pose proof (i_pc c I p Hp) as Hpc. pose proof (proj2 (i_mutex c I)). destruct (forks_ready c p I Hp) as [F1 F2].
  unfold exec in E.
  destruct (pc c p) as [|[|[|[|[|[|[|[|[|[|[|[|[|?]]]]]]]]]]]]] eqn:Epc; [..|lia];
    cbn -[right Z.ltb goto take_bits clear_bits available] in E; try discriminate.
  all: destruct (0 <? _) eqn:Es; [discriminate|]; apply Z.ltb_ge in Es; unfold left in *.
  - split; [lia|done].
  - specialize (F1 eq_refl). lia.
  - specialize (F2 eq_refl). lia.
  - split; [lia|done].
Qed.

(** C23: 2-dp.c is safe and does not deadlock, for any schedule of 2 to 32
    philosophers (main refuses more, an int has 32 bits).  No two neighbours eat together, a bit of fork_bitmap is set
    exactly while a neighbour owns the fork, a philosopher that has set its bits
    takes both forks without waiting, and some philosopher can always go on. *)
Theorem both_at_once_correct d c :
  (n <= 32)%nat -> steps (tstep philosopher n) (main d) c ->
  (forall p, (p < n)%nat -> eating c p -> ~ eating c (right n p)) /\
  (forall i, (i < n)%nat -> Z.testbit (fork_bitmap (glob c)) (Z.of_nat i) = true <->
     (3 <= pc c i <= 10)%nat \/ (3 <= pc c (pred n i) <= 10)%nat) /\
  (forall p, (p < n)%nat -> pc c p = 4%nat \/ pc c p = 5%nat -> exec philosopher p c <> None) /\
  ~ stuck philosopher n c.
Proof.
  intros _ Hs. assert (I : inv c) by (eapply steps_invariant; eauto using bits_inv_step, bits_inv_main). split_and!.
  - intros p Hp E1 E2. apply (shared_excl n Hn _ _ _ _ p (i_forks c I) Hp); [by rewrite E1|by rewrite E2].
  - intros i Hi. destruct (i_bits c I i Hi) as [E ?]. unfold clear, owner, between in *.
    destruct (Z.testbit _ _); simpl in *; repeat case_decide; split; intros; try lia; tauto.
  - intros p Hp H E. destruct (bits_waiting c p I Hp E) as [Em _]. destruct (forks_ready c p I Hp) as [F1 F2].
    unfold exec in E. destruct H as [H|H]; rewrite H in E; cbn -[right Z.ltb goto] in E; unfold left in E;
      [specialize (F1 H)|specialize (F2 H)]; by rewrite (proj2 (Z.ltb_lt _ _)) in E.
  - intros Hst. assert (Hz : forall p, (p < n)%nat -> critical (pc c p) = 0) by (intros p Hp; by destruct (bits_waiting c p I Hp (Hst p Hp))).
    destruct (bits_waiting c 0%nat I ltac:(lia) (Hst 0%nat ltac:(lia))) as [Em _]. rewrite (proj1 (i_mutex c I)) in Em.
    rewrite (sum_ext _ (fun _ => 0)) in Em by done. destruct (sum_bounds (fun _ => 0) n 0 0); [intros; lia|]. lia.
Qed.
End bitmap.

(** Philosopher 0 of five eats; the bits of forks 0 and 1 are set. *)
Lemma both_at_once_correct_witness :
  exists c, run (philosopher 5) (replicate 6 0%nat) (main 5 (fun _ => 7)) = Some c /\ fork_bitmap (glob c) = 3 /\
    eating c 0 /\ ~ eating c 1 /\ ~ stuck (philosopher 5) 5 c.
Proof.
  eexists. split; [reflexivity|]. split; [reflexivity|]. split; [reflexivity|].
  match goal with |- _ /\ ~ stuck _ _ ?c => destruct (both_at_once_correct 5 ltac:(lia) (fun _ => 7) c ltac:(lia)) as (H1 & _ & _ & H2) end.
  - eapply (run_steps (philosopher 5) 5 (replicate 6 0%nat)); [|apply steps_refl|reflexivity]. by repeat constructor; lia.
  - split; [|exact H2]. apply (H1 0%nat); [lia|reflexivity].
Defined.
End Algorithm2.
