(* ===== verification/Shuttles.v ===== *)
(** The shuttle of [src/projects/project_5/shuttles-problem.c]: one driver and
    100 attendees over semaphores and shared counters. *)

From stdpp Require Import base list.
From S2P Require Import Prelude Threads.

Inductive zem := ArrivedA | ArrivedB | StartShuttle | DoorMutex | BusStopA | BusStopB
  | WaitingMutexA | WaitingMutexB | PassengersMutex.

#[export] Instance zem_eq_dec : EqDecision zem.
Proof. solve_decision. Defined.

(** The shared variables *)
Record vars := MkVars { door : Z; waiting_at_A : Z; waiting_at_B : Z; passengers : Z }.

Definition shuttle_capacity : Z := 30.
Definition total_attendees : nat := 100.

Definition set_door v g := MkVars v (waiting_at_A g) (waiting_at_B g) (passengers g).
Definition set_passengers v g := MkVars (door g) (waiting_at_A g) (waiting_at_B g) v.

(** What the code repeats for A and for B *)
Record stop := MkStop {
  w_mutex : zem; bus_stop : zem; arrived : zem; waiting : vars -> Z; set_waiting : Z -> vars -> vars }.
Definition stopA : stop := MkStop WaitingMutexA BusStopA ArrivedA waiting_at_A
  (fun v g => MkVars (door g) v (waiting_at_B g) (passengers g)).
Definition stopB : stop := MkStop WaitingMutexB BusStopB ArrivedB waiting_at_B
  (fun v g => MkVars (door g) (waiting_at_A g) v (passengers g)).

Abbreviation prog_t := (list (instr zem vars)).

(** "wait at X": get in the queue, get on the shuttle, maybe tell it to leave *)
Definition ride (x y : stop) : prog_t :=
  [Wait (w_mutex x); Act (fun g => set_waiting x (waiting x g + 1) g); Post (w_mutex x); Wait (bus_stop x);
   Wait PassengersMutex; Wait DoorMutex; Wait (w_mutex x);
   Unless (fun g => ((waiting x g =? 0) || (passengers g =? shuttle_capacity)) && (door g =? 0))%bool 2;
     Act (set_door 1); Post StartShuttle;
   Post (w_mutex x); Post DoorMutex; Post PassengersMutex; Wait (arrived y)].

Definition attendee : prog_t := ride stopA stopB ++ ride stopB stopA.

(** "handle bus stop X", then the trip to Y *)
Definition handle_stop (x y : stop) : prog_t :=
  [Wait DoorMutex; Act (set_door 0); Post DoorMutex;
   Wait (w_mutex x); Wait (w_mutex y); Wait PassengersMutex;
   Unless (fun g => negb (waiting x g =? 0)) 6;
     Unless (fun g => negb (waiting x g =? 0) && (passengers g <? shuttle_capacity))%bool 4;
       Act (fun g => set_waiting x (waiting x g - 1) g); Post (bus_stop x);
       Act (fun g => set_passengers (passengers g + 1) g); Back 4;
     Unless (fun _ => false) 1;
     Post StartShuttle;
   Post PassengersMutex; Post (w_mutex x); Post (w_mutex y);
   Wait StartShuttle; Wait (w_mutex y); Wait PassengersMutex; Act (set_passengers 0)] ++
  replicate (Z.to_nat shuttle_capacity) (Post (arrived y)) ++
  [Post PassengersMutex; Post (w_mutex y)].

Definition shuttle_driver : prog_t :=
  [Wait WaitingMutexA; Wait WaitingMutexB; Wait PassengersMutex;
   Post WaitingMutexA; Post WaitingMutexB; Post PassengersMutex] ++
  handle_stop stopA stopB ++ handle_stop stopB stopA.

(** Thread 0 is the driver. *)
Definition threads (t : nat) : prog_t := match t with O => shuttle_driver | S _ => attendee end.
Definition nthreads : nat := S total_attendees.

Definition main_sem (z : zem) : Z :=
  match z with WaitingMutexA | WaitingMutexB | PassengersMutex | DoorMutex => 1 | _ => 0 end.
Definition main : conf zem vars := MkConf main_sem (MkVars 0 0 0 0) (fun _ => 0%nat).

(** The driver's lines: 0-5 the debugging block, then two times 53 lines, the loop
    of a stop at lines 7 to 11 of its 53. *)
Definition lineA (k : nat) : nat := (6 + k)%nat.
Definition lineB (k : nat) : nat := (59 + k)%nat.

Example driver_length : length shuttle_driver = 112%nat.
Proof. reflexivity. Qed.

(** ** Capacity *)

(** The driver is past the loop test of a stop. *)
Definition boarding (k : nat) : bool := bool_decide (k ∈ [lineA 8; lineA 9; lineA 10; lineB 8; lineB 9; lineB 10]%nat).

Record shuttle_inv (c : conf zem vars) : Prop := {
  v_seats : 0 <= passengers (glob c) <= shuttle_capacity;
  v_waiting : 0 <= waiting_at_A (glob c) /\ 0 <= waiting_at_B (glob c);
  v_board : boarding (pc c 0) = true -> passengers (glob c) < shuttle_capacity;
  v_A : pc c 0%nat = lineA 8 -> 0 < waiting_at_A (glob c);
  v_B : pc c 0%nat = lineB 8 -> 0 < waiting_at_B (glob c) }.

(** What one instruction of a thread does to the variables and its line *)
Lemma exec_inv (prog : nat -> prog_t) t c c' : exec prog t c = Some c' ->
  exists i k, prog t !! pc c t = Some i /\ pc c' = upd (pc c) t k /\
    match i with
    | Act f => glob c' = f (glob c) /\ k = next prog t (pc c t)
    | Unless p j => glob c' = glob c /\ k = if p (glob c) then next prog t (pc c t) else (pc c t + 1 + j)%nat
    | Back j => glob c' = glob c /\ k = (pc c t - j)%nat
    | _ => glob c' = glob c /\ k = next prog t (pc c t)
    end.
Proof.
  unfold exec. destruct (prog t !! pc c t) as [i|]; [|done]. intros E. exists i.
  destruct i; [destruct (0 <? _); [|done]| | | |]; injection E as <-; eexists; by split_and!.
Qed.

(** An attendee adds itself to a queue and closes the door. *)
Definition mild (i : instr zem vars) : Prop :=
  match i with
  | Act f => forall g, passengers (f g) = passengers g /\ waiting_at_A g <= waiting_at_A (f g) /\ waiting_at_B g <= waiting_at_B (f g)
  | _ => True
  end.

Lemma attendee_mild : Forall mild attendee.
Proof. repeat constructor; simpl; intros; lia. Qed.

Lemma attendee_inv c c' t : shuttle_inv c -> exec threads (S t) c = Some c' -> shuttle_inv c'.
Proof.
  intros [V1 V2 V3 V4 V5] (i & k & Hi & Epc & Hg)%exec_inv.
  assert (E0 : pc c' 0%nat = pc c 0%nat) by (rewrite Epc; by rewrite upd_other).
  assert (H : passengers (glob c') = passengers (glob c) /\ waiting_at_A (glob c) <= waiting_at_A (glob c') /\
              waiting_at_B (glob c) <= waiting_at_B (glob c')).
  { pose proof (Forall_lookup_1 _ _ _ _ attendee_mild Hi) as Hm. destruct i; destruct Hg as [-> _]; try (split_and!; lia). apply Hm. }
  destruct H as (H1 & H2 & H3). constructor; rewrite ?H1, ?E0; auto; [lia|..].
  - intros H. specialize (V4 H). lia.
  - intros H. specialize (V5 H). lia.
Qed.

(** What the driver's lines need and leave: [line_ok k i] is what the invariant
    gives and asks at line k with instruction i. *)
Definition line_ok (k : nat) (g : vars) : Prop :=
  (0 <= passengers g <= shuttle_capacity /\ 0 <= waiting_at_A g /\ 0 <= waiting_at_B g) /\
  (boarding k = true -> passengers g < shuttle_capacity) /\
  (k = lineA 8 -> 0 < waiting_at_A g) /\ (k = lineB 8 -> 0 < waiting_at_B g).

Lemma line_ok_inv c : shuttle_inv c <-> line_ok (pc c 0) (glob c).
Proof. split; [intros []|intros (? & ? & ? & ?); constructor]; try done; unfold line_ok; tauto. Qed.

Ltac eval_boarding :=
  repeat match goal with
  | |- context [boarding ?k] => let v := eval vm_compute in (boarding k) in change (boarding k) with v
  | H : context [boarding ?k] |- _ => let v := eval vm_compute in (boarding k) in change (boarding k) with v in H
  end.

(** One line of the driver *)
Ltac driver_case :=
  intros ((H1 & H2 & H3) & H4 & H5 & H6); norm_next; cbv beta; try case_test; bool_to_prop;
  unfold line_ok; eval_boarding; unfold lineA, lineB, shuttle_capacity in *; simpl in *;
  split_and!; intros; try discriminate; try lia;
  try (specialize (H4 eq_refl)); try (specialize (H5 eq_refl)); try (specialize (H6 eq_refl)); lia.

Lemma driver_line k i g :
  shuttle_driver !! k = Some i -> line_ok k g ->
  match i with
  | Act f => line_ok (next threads 0 k) (f g)
  | Unless p j => line_ok (if p g then next threads 0 k else (k + 1 + j)%nat) g
  | Back j => line_ok (k - j) g
  | _ => line_ok (next threads 0 k) g
  end.
Proof.
  intros Hi. do 112 (destruct k as [|k]; [injection Hi as <-; driver_case|]). discriminate Hi.
Qed.

Lemma driver_inv c c' : shuttle_inv c -> exec threads 0 c = Some c' -> shuttle_inv c'.
Proof.
  intros I%line_ok_inv (i & k & Hi & Epc & Hg)%exec_inv. apply line_ok_inv. rewrite Epc, upd_same.
  pose proof (driver_line _ _ _ Hi I) as H. by destruct i; destruct Hg as [-> ->].
Qed.

Lemma shuttle_step_inv c c' : shuttle_inv c -> tstep threads nthreads c c' -> shuttle_inv c'.
Proof.
  intros I Hst. revert I. destruct Hst as [t c c' _ E]. intros I.
  destruct t; [by eapply driver_inv|by eapply attendee_inv].
Qed.

(** ** A deadlock

    Attendees 1 and 2 board at A.  Attendee 1 tells the shuttle to leave; the
    shuttle reaches B and locks the two queues while attendee 2, still on its way
    past bus stop A, has locked the passenger count and wants queue A. *)
Definition bad_schedule : list nat :=
  replicate 3 1%nat ++ replicate 3 2%nat ++ replicate 28 0%nat ++ replicate 10 1%nat ++
  replicate 41 0%nat ++ replicate 3 2%nat ++ [1%nat].

Definition after_bad : conf zem vars := default main (run threads bad_schedule main).

Lemma bad_run : run threads bad_schedule main = Some after_bad.
Proof. vm_compute. reflexivity. Qed.

Lemma bad_stuck : stuck threads nthreads after_bad.
Proof.
  assert (H : Forall (fun t => exec threads t after_bad = None) [0; 1; 2]%nat) by (repeat constructor; vm_compute; reflexivity).
  apply Forall_cons in H as [H0 [H1 [H2 _]%Forall_cons]%Forall_cons].
  intros [|[|[|t]]] _; [done|done|done|]. vm_compute. reflexivity.
Qed.

(** C39: The shuttle never carries more than its capacity and the queue lengths
    are never negative, in any reachable state. *)
Theorem shuttle_within_capacity c :
  steps (tstep threads nthreads) main c ->
  0 <= passengers (glob c) <= shuttle_capacity /\ 0 <= waiting_at_A (glob c) /\ 0 <= waiting_at_B (glob c).
Proof.
  intros Hs. assert (I : shuttle_inv c); [|by destruct I].
  eapply (steps_invariant _ _ shuttle_step_inv); [exact Hs|]. apply line_ok_inv. by vm_compute.
Qed.

Lemma bad_reachable : steps (tstep threads nthreads) main after_bad.
Proof.
  eapply run_steps; [|apply steps_refl|exact bad_run].
  apply (bool_decide_unpack _). vm_compute. exact I.
Qed.

Lemma shuttle_within_capacity_witness : 0 <= passengers (glob after_bad) <= shuttle_capacity.
Proof. apply (shuttle_within_capacity after_bad bad_reachable). Defined.

(** C40: The shuttle program can deadlock: driver and attendees take the queue and
    passenger mutexes in opposite orders, and a reachable state has the driver and
    all 100 attendees waiting for ever. *)
Theorem shuttle_deadlocks :
  exists c, steps (tstep threads nthreads) main c /\ stuck threads nthreads c.
Proof. exists after_bad. split; [apply bad_reachable|apply bad_stuck]. Qed.
