(* ===== verification/Pipe.v ===== *)
(** Pipes, [src/xv6-riscv/kernel/pipe.c]: a ring of 512 bytes with a reader and a
    writer end.

    A call runs under the pipe's lock until it returns or sleeps; [turn] is the
    outcome of such a stretch, and a sleeping call goes on from its loop test with
    the index it had.  Between turns any other process may use the pipe. *)

From stdpp Require Import base list.
From S2P Require Import Prelude Memory Spinlock Sleeplock Bytes Fs.

Definition PIPESIZE : Z := 512.

(** struct pipe, without its lock *)
Record pipe := MkPipe { data : list Z; nread : Z; nwrite : Z; readopen : Z; writeopen : Z }.

(** The pipe, the locks, and the calling process: its memory and killed flag *)
Record pst := MkPst { the_pipe : pipe; pheld : list lockid; pme : Z; pwoken : list chan; umem : mem; pkilled : Z }.

Definition set_pipe p s := MkPst p (pheld s) (pme s) (pwoken s) (umem s) (pkilled s).
Definition set_umem m s := MkPst (the_pipe s) (pheld s) (pme s) (pwoken s) m (pkilled s).

#[export] Instance pst_locks : LockView pst := {
  held := pheld; set_held := fun h s => MkPst (the_pipe s) h (pme s) (pwoken s) (umem s) (pkilled s);
  held_set_held := fun _ _ => eq_refl; set_held_twice := fun _ _ _ => eq_refl;
  set_held_id := fun s => match s with MkPst _ _ _ _ _ _ => eq_refl end }.

#[export] Instance pst_thread : Thread pst := {
  thread_locks := pst_locks; mypid := pme; woken := pwoken;
  set_woken := fun w s => MkPst (the_pipe s) (pheld s) (pme s) w (umem s) (pkilled s);
  woken_set_woken := fun _ _ => eq_refl; held_set_woken := fun _ _ => eq_refl;
  woken_set_held := fun _ _ => eq_refl; mypid_set_woken := fun _ _ => eq_refl;
  mypid_set_held := fun _ _ => eq_refl; set_woken_held := fun _ _ _ => eq_refl }.

(** What pipealloc puts into a fresh page *)
Definition pipe_init (d : list Z) : pipe := MkPipe d 0 0 1 1.

(** A call returns, or sleeps with its index *)
Inductive turn := Done (r : Z) | Sleeping (i : Z).

Section pipe.
Context `{UserCopy} (pi : Z).

(** sleep(chan, &pi->lock): the caller goes on later *)
Definition psleep (i : Z) : M pst turn := lock_release (LPipe pi) ;;; ret (Sleeping i).

(** while(i < n), every turn of which takes a byte, returns or sleeps: n - i + 1
    turns are enough. *)
Fixpoint pipewrite_loop (addr n i : Z) (fuel : nat) : M pst turn :=
  match fuel with
  | O => out_of_fuel
  | S fuel =>
      if i <? n then
        let! s := get (fun s => s) in
        let p := the_pipe s in
        if ((readopen p =? 0) || negb (pkilled s =? 0))%bool then
          lock_release (LPipe pi) ;;; ret (Done (-1))
        else if nwrite p =? u32 (nread p + PIPESIZE) then
          wakeup (CPipeRead pi) ;;; psleep i
        else
          let '(bs, ok) := user_in (umem s) (u64 (addr + i)) 1 in
          if negb ok then
            wakeup (CPipeRead pi) ;;; lock_release (LPipe pi) ;;; ret (Done i)
          else
            modify (set_pipe (MkPipe (wr (data p) (nwrite p mod PIPESIZE) (rd bs 0)) (nread p) (u32 (nwrite p + 1))
              (readopen p) (writeopen p))) ;;;
            pipewrite_loop addr n (i + 1) fuel
      else wakeup (CPipeRead pi) ;;; lock_release (LPipe pi) ;;; ret (Done i)
  end.

(** pipewrite from its loop test; the call starts with i = 0. *)
Definition pipewrite (addr n i : Z) : M pst turn :=
  lock_acquire (LPipe pi) ;;; pipewrite_loop addr n i (S (Z.to_nat (n - i))).

(** for(i = 0; i < n; i++) *)
Fixpoint piperead_loop (addr n i : Z) (fuel : nat) : M pst turn :=
  match fuel with
  | O => out_of_fuel
  | S fuel =>
      let! s := get (fun s => s) in
      let p := the_pipe s in
      if ((i <? n) && negb (nread p =? nwrite p))%bool then
        let ch := rd (data p) (nread p mod PIPESIZE) in
        modify (set_pipe (MkPipe (data p) (u32 (nread p + 1)) (nwrite p) (readopen p) (writeopen p))) ;;;
        let '(m, ok) := user_out (umem s) (u64 (addr + i)) [ch] in
        modify (set_umem m) ;;;
        if negb ok then wakeup (CPipeWrite pi) ;;; lock_release (LPipe pi) ;;; ret (Done i)
        else piperead_loop addr n (i + 1) fuel
      else wakeup (CPipeWrite pi) ;;; lock_release (LPipe pi) ;;; ret (Done i)
  end.

Definition piperead (addr n : Z) : M pst turn :=
  lock_acquire (LPipe pi) ;;;
  let! s := get (fun s => s) in
  let p := the_pipe s in
  if ((nread p =? nwrite p) && negb (writeopen p =? 0))%bool then
    if negb (pkilled s =? 0) then lock_release (LPipe pi) ;;; ret (Done (-1))
    else psleep 0
  else piperead_loop addr n 0 (S (Z.to_nat n)).

(** Returns whether the page is to be freed. *)
Definition pipeclose (writable : bool) : M pst bool :=
  lock_acquire (LPipe pi) ;;;
  let! p := get the_pipe in
  (if writable then
     modify (set_pipe (MkPipe (data p) (nread p) (nwrite p) (readopen p) 0)) ;;; wakeup (CPipeRead pi)
   else
     modify (set_pipe (MkPipe (data p) (nread p) (nwrite p) 0 (writeopen p))) ;;; wakeup (CPipeWrite pi)) ;;;
  let! p := get the_pipe in
  lock_release (LPipe pi) ;;;
  ret ((readopen p =? 0) && (writeopen p =? 0))%bool.

(** ** The queue a pipe holds *)

Definition count (p : pipe) : Z := (nwrite p - nread p) mod 2 ^ 32.
Definition queue (p : pipe) : list Z := (fun k => rd (data p) ((nread p + k) mod PIPESIZE)) <$> seqZ 0 (count p).

Record pipe_ok (p : pipe) : Prop := {
  po_data : length (data p) = Z.to_nat PIPESIZE;
  po_read : 0 <= nread p < 2 ^ 32;
  po_write : 0 <= nwrite p < 2 ^ 32;
  po_count : count p <= PIPESIZE }.

Definition push (ch : Z) (p : pipe) : pipe :=
  MkPipe (wr (data p) (nwrite p mod PIPESIZE) ch) (nread p) (u32 (nwrite p + 1)) (readopen p) (writeopen p).
Definition pop (p : pipe) : pipe := MkPipe (data p) (u32 (nread p + 1)) (nwrite p) (readopen p) (writeopen p).

Lemma count_range p : 0 <= count p < 2 ^ 32.
Proof. apply Z.mod_pos_bound. lia. Qed.

(** The write index is the read index plus the count, up to wrap-around. *)
Lemma write_index p : nwrite p mod PIPESIZE = (nread p + count p) mod PIPESIZE.
Proof.
  unfold count. rewrite (Z.mod_eq (nwrite p - nread p)) by done. set (q := (nwrite p - nread p) / 2 ^ 32).
  replace (nread p + (nwrite p - nread p - 2 ^ 32 * q)) with (nwrite p + (- q * 2 ^ 23) * PIPESIZE) by (unfold PIPESIZE; lia).
  by rewrite Z_mod_plus_full.
Qed.

Lemma count_push ch p : count p < PIPESIZE -> count (push ch p) = count p + 1.
Proof.
  intros Hc. pose proof (count_range p). unfold count, push, u32 in *. simpl.
  rewrite Zminus_mod_idemp_l. replace (nwrite p + 1 - nread p) with ((nwrite p - nread p) + 1) by lia.
  rewrite <- Zplus_mod_idemp_l. apply Z.mod_small. unfold PIPESIZE in Hc. lia.
Qed.

Lemma count_pop p : 0 < count p -> count (pop p) = count p - 1.
Proof.
  intros Hc. pose proof (count_range p). unfold count, pop, u32 in *. simpl.
  rewrite Zminus_mod_idemp_r. replace (nwrite p - (nread p + 1)) with ((nwrite p - nread p) - 1) by lia.
  rewrite <- Zminus_mod_idemp_l. apply Z.mod_small. lia.
Qed.

Lemma full_test p : pipe_ok p -> nwrite p = u32 (nread p + PIPESIZE) <-> count p = PIPESIZE.
Proof.
  intros [_ Hr Hw Hc]. unfold count, u32, PIPESIZE in *. split; intros E.
  - rewrite E, Zminus_mod_idemp_l. replace (nread p + 512 - nread p) with 512 by lia. done.
  - rewrite <- E, Zplus_mod_idemp_r. replace (nread p + (nwrite p - nread p)) with (nwrite p) by lia. by rewrite Z.mod_small.
Qed.

Lemma empty_test p : pipe_ok p -> nread p = nwrite p <-> count p = 0.
Proof.
  intros [_ Hr Hw Hc]. unfold count. split; intros E; [by rewrite E, Z.sub_diag|].
  apply Z.mod_divide in E as [k Ek]; [|done]. nia.
Qed.

Lemma length_queue p : Z.of_nat (length (queue p)) = count p.
Proof. unfold queue. rewrite length_fmap, length_seqZ. pose proof (count_range p). lia. Qed.

Lemma push_spec ch p : pipe_ok p -> count p < PIPESIZE -> pipe_ok (push ch p) /\ queue (push ch p) = queue p ++ [ch].
Proof.
  intros P Hc. pose proof (count_range p) as Hr. split.
  - destruct P. constructor; [cbn [data push]; by rewrite length_wr|done|apply u32_range|]. rewrite count_push; lia.
  - unfold queue. rewrite count_push, seqZ_app, fmap_app by lia. f_equal.
    + apply list_fmap_ext. intros i k Hk. apply list_elem_of_lookup_2, elem_of_seqZ in Hk.
      cbn [data nread push]. apply rd_wr_other; [apply Z.mod_pos_bound; done..|].
      rewrite write_index. intros E. unfold PIPESIZE in *.
      pose proof (Z.div_mod (nread p + k) 512). pose proof (Z.div_mod (nread p + count p) 512). lia.
    + simpl. rewrite Z.add_0_l. f_equal. rewrite write_index. apply rd_wr_same.
      rewrite (po_data p P). unfold PIPESIZE. apply Z.mod_pos_bound. done.
Qed.

Lemma pop_spec p : pipe_ok p -> 0 < count p ->
  pipe_ok (pop p) /\ queue p = rd (data p) (nread p mod PIPESIZE) :: queue (pop p).
Proof.
  intros P Hc. split.
  - destruct P. constructor; [done|apply u32_range|done|]. rewrite count_pop; lia.
  - unfold queue at 1. rewrite seqZ_cons by done. rewrite fmap_cons, Z.add_0_r. f_equal.
    unfold queue. rewrite count_pop by done. change (Z.succ 0) with (1 + 0). rewrite <- fmap_add_seqZ, <- list_fmap_compose, <- Z.sub_1_r.
    apply list_fmap_ext. intros i k _. cbn [compose data nread pop]. f_equal. unfold u32.
    rewrite <- (Zplus_mod_idemp_l (_ mod 2 ^ 32)), Z.mod_mod_divide by (by exists (2 ^ 23)). rewrite Zplus_mod_idemp_l. f_equal. lia.
Qed.

(** ** Turns *)

(** The bytes copyin gives at addr + i, addr + i + 1, ..., and the memory after
    copyout has put bs there *)
Fixpoint fetch (m : mem) (addr i : Z) (k : nat) : list Z :=
  match k with
  | O => []
  | S k => rd (user_in m (u64 (addr + i)) 1).1 0 :: fetch m addr (i + 1) k
  end.
Fixpoint give (m : mem) (addr i : Z) (bs : list Z) : mem :=
  match bs with
  | [] => m
  | b :: bs => give (user_out m (u64 (addr + i)) [b]).1 addr (i + 1) bs
  end.

Definition same_ends (p p' : pipe) : Prop := readopen p' = readopen p /\ writeopen p' = writeopen p.

(** How a write that has taken its bytes up to index j ends *)
Definition write_ends (s : pst) (addr n i j : Z) (p' : pipe) (w : list chan) (t : turn) : Prop :=
  match t with
  | Sleeping j' => j' = j /\ j < n /\ count p' = PIPESIZE /\ CPipeRead pi ∈ w
  | Done r => (r = -1 /\ j = i /\ (readopen p' = 0 \/ pkilled s <> 0)) \/
              (r = j /\ (n <= j \/ (user_in (umem s) (u64 (addr + j)) 1).2 = false) /\ CPipeRead pi ∈ w)
  end.

Lemma release_top h s : LPipe pi ∉ h -> pheld s = LPipe pi :: h ->
  lock_release (LPipe pi) s = Ret tt (MkPst (the_pipe s) h (pme s) (pwoken s) (umem s) (pkilled s)).
Proof. intros Hn Eh. by rewrite (lock_release_top (LPipe pi) s h). Qed.

Lemma pipewrite_loop_spec addr n h fuel i s :
  pipe_ok (the_pipe s) -> LPipe pi ∉ h -> pheld s = LPipe pi :: h -> (Z.to_nat (n - i) < fuel)%nat ->
  exists k t w p', pipewrite_loop addr n i fuel s = Ret t (MkPst p' h (pme s) w (umem s) (pkilled s)) /\
    pipe_ok p' /\ queue p' = queue (the_pipe s) ++ fetch (umem s) addr i k /\ same_ends (the_pipe s) p' /\
    write_ends s addr n i (i + Z.of_nat k) p' w t.
Proof.
  revert i s. induction fuel as [|fuel IH]; intros i s P Hh Eh Hf; [lia|]. cbn [pipewrite_loop].
  destruct (i <? n) eqn:Ei; bool_to_prop.
  2: { eexists 0%nat, _, _, _. split; [unfold bind, wakeup, modify; by rewrite (release_top h)|].
       rewrite app_nil_r. split_and!; try done. right. simpl. split_and!; [lia|left; lia|left]. }
  rewrite bind_get. destruct ((readopen (the_pipe s) =? 0) || negb (pkilled s =? 0))%bool eqn:Ek.
  { eexists 0%nat, _, _, _. split; [unfold bind; by rewrite (release_top h)|].
    rewrite app_nil_r. split_and!; try done. left. split_and!; [done|lia|].
    apply orb_true_iff in Ek as [Ek|Ek]; bool_to_prop; [by left|right; done]. }
  destruct (nwrite (the_pipe s) =? u32 (nread (the_pipe s) + PIPESIZE)) eqn:Efull; bool_to_prop.
  { eexists 0%nat, _, _, _. split; [unfold psleep, bind, wakeup, modify; by rewrite (release_top h)|].
    rewrite app_nil_r. split_and!; try done. split_and!; [lia|lia|by apply full_test|left]. }
  destruct (user_in (umem s) (u64 (addr + i)) 1) as [bs ok] eqn:Eu. destruct ok; cbn [negb].
  2: { eexists 0%nat, _, _, _. split; [unfold bind, wakeup, modify; by rewrite (release_top h)|].
       rewrite app_nil_r. split_and!; try done. right. rewrite Z.add_0_r. split_and!; [done|right; by rewrite Eu|left]. }
  assert (Hc : count (the_pipe s) < PIPESIZE).
  { pose proof (po_count _ P). rewrite (full_test _ P) in Efull. lia. }
  destruct (push_spec (rd bs 0) _ P Hc) as [P' Q'].
  unfold bind at 1, modify. set (s1 := set_pipe _ s).
  destruct (IH (i + 1) s1 P' Hh Eh ltac:(lia)) as (k & t & w & p' & E & Pk & Qk & Sk & Tk).
  exists (S k), t, w, p'. split; [exact E|]. split; [done|]. split; [|split; [done|]].
  - rewrite Qk. change (queue (the_pipe s1)) with (queue (push (rd bs 0) (the_pipe s))). rewrite Q', <- app_assoc.
    cbn [fetch]. by rewrite Eu.
  - replace (i + Z.of_nat (S k)) with (i + 1 + Z.of_nat k) by lia. destruct t; [|done].
    destruct Tk as [(-> & Hk & Hd)|Tk]; [left|by right].
    exfalso. destruct Sk as [Sk _]. simpl in Sk, Hd. destruct Hd as [Hd|Hd]; congruence.
Qed.

(** A read that has removed [bs] ends with the pipe empty, or with n bytes, or at
    the byte copyout failed on, which is removed too. *)
Definition read_ends (m : mem) (addr n i : Z) (bs : list Z) (p' : pipe) (r : Z) : Prop :=
  (r = i + Z.of_nat (length bs) /\ (n <= r \/ queue p' = [])) \/
  (exists bs' b, bs = bs' ++ [b] /\ r = i + Z.of_nat (length bs') /\
     (user_out (give m addr i bs') (u64 (addr + r)) [b]).2 = false).

Lemma piperead_loop_spec addr n h fuel i s :
  pipe_ok (the_pipe s) -> LPipe pi ∉ h -> pheld s = LPipe pi :: h -> (Z.to_nat (n - i) < fuel)%nat ->
  exists bs r w p', piperead_loop addr n i fuel s = Ret (Done r) (MkPst p' h (pme s) w (give (umem s) addr i bs) (pkilled s)) /\
    pipe_ok p' /\ queue (the_pipe s) = bs ++ queue p' /\ same_ends (the_pipe s) p' /\
    CPipeWrite pi ∈ w /\ read_ends (umem s) addr n i bs p' r.
Proof.
  revert i s. induction fuel as [|fuel IH]; intros i s P Hh Eh Hf; [lia|]. cbn [piperead_loop]. rewrite bind_get.
  destruct ((i <? n) && negb (nread (the_pipe s) =? nwrite (the_pipe s)))%bool eqn:Et.
  2: { eexists [], _, _, _. split; [unfold bind, wakeup, modify; by rewrite (release_top h)|].
       split_and!; try done; [left|]. left. rewrite Z.add_0_r. split; [done|].
       apply andb_false_iff in Et as [Et|Et]; bool_to_prop; [by left|right].
       apply (empty_test _ P) in Et. apply nil_length_inv. pose proof (length_queue (the_pipe s)).
       change (length (queue (the_pipe s)) = 0%nat). lia. }
  apply andb_true_iff in Et as [Ei Ene]. bool_to_prop. rewrite (empty_test _ P) in Ene. pose proof (count_range (the_pipe s)).
  destruct (pop_spec _ P ltac:(lia)) as [P' Q']. set (b := rd _ _) in Q'.
  destruct (user_out (umem s) (u64 (addr + i)) [b]) as [m ok] eqn:Eu.
  unfold bind at 1, modify. fold b. rewrite Eu. unfold bind at 1. set (s1 := set_umem m _). destruct ok; cbn [negb].
  - destruct (IH (i + 1) s1 P' Hh Eh ltac:(lia)) as (bs & r & w & p' & E & Pk & Qk & Sk & Wk & Tk).
    exists (b :: bs), r, w, p'. cbn [give]. rewrite Eu. split; [exact E|]. split_and!; try done.
    + rewrite Q'. cbn [app]. f_equal. exact Qk.
    + destruct Tk as [[Er Hd]|(bs' & b' & -> & Er & Hd)]; [left|right].
      * split; [simpl length; lia|done].
      * exists (b :: bs'), b'. cbn [give]. rewrite Eu. split; [done|]. split; [simpl length; lia|done].
  - eexists [b], i, _, _. cbn [give]. rewrite Eu. split; [unfold bind, wakeup, modify; by rewrite (release_top h)|].
    split_and!; try done; [left|]. right. exists [], b. split_and!; [done|simpl; lia|]. cbn [give]. by rewrite Eu.
Qed.

(** C8: A pipe is a queue of at most 512 bytes, also when its counters wrap
    around, and every stretch of a call under the lock returns.  A write appends
    to the queue the bytes copyin gives, in order, and stops when all are taken,
    when copyin fails, or, with the queue full, to sleep; with the read end closed
    or the caller killed it takes nothing and fails.  A read on an empty queue with
    the write end open sleeps (or fails if killed); any other read removes bytes
    from the front and copies them out, up to n or the end of the queue.  Closing
    an end keeps the queue, and frees the page when both ends are closed. *)
Theorem pipe_is_queue s :
  pipe_ok (the_pipe s) -> LPipe pi ∉ pheld s ->
  (forall addr n i, exists k t w p',
     pipewrite addr n i s = Ret t (MkPst p' (pheld s) (pme s) w (umem s) (pkilled s)) /\
     pipe_ok p' /\ queue p' = queue (the_pipe s) ++ fetch (umem s) addr i k /\ same_ends (the_pipe s) p' /\
     write_ends s addr n i (i + Z.of_nat k) p' w t) /\
  (forall addr n,
     if decide (queue (the_pipe s) = [] /\ writeopen (the_pipe s) <> 0)
     then piperead addr n s = Ret (if decide (pkilled s = 0) then Sleeping 0 else Done (-1)) s
     else exists bs r w p',
       piperead addr n s = Ret (Done r) (MkPst p' (pheld s) (pme s) w (give (umem s) addr 0 bs) (pkilled s)) /\
       pipe_ok p' /\ queue (the_pipe s) = bs ++ queue p' /\ same_ends (the_pipe s) p' /\
       CPipeWrite pi ∈ w /\ read_ends (umem s) addr n 0 bs p' r) /\
  (forall writable, exists p' w,
     pipeclose writable s = Ret (bool_decide (readopen p' = 0 /\ writeopen p' = 0))
       (MkPst p' (pheld s) (pme s) w (umem s) (pkilled s)) /\
     pipe_ok p' /\ queue p' = queue (the_pipe s) /\
     (if writable : bool then writeopen p' = 0 /\ readopen p' = readopen (the_pipe s)
      else readopen p' = 0 /\ writeopen p' = writeopen (the_pipe s))).
Proof.
  intros P Hh. assert (Hh' : LPipe pi ∉ held s) by exact Hh. destruct (lock_pair (LPipe pi) s Hh') as [Ha Hrel]. split_and!.
  - intros addr n i. unfold pipewrite. rewrite (bind_ret_intro _ _ _ _ _ Ha).
    exact (pipewrite_loop_spec addr n (pheld s) (S (Z.to_nat (n - i))) i (set_held (LPipe pi :: held s) s) P Hh eq_refl ltac:(lia)).
  - intros addr n. pose proof (length_queue (the_pipe s)) as Hl. unfold piperead.
    rewrite (bind_ret_intro _ _ _ _ _ Ha), bind_get.
    assert (Et : (nread (the_pipe s) =? nwrite (the_pipe s)) = bool_decide (queue (the_pipe s) = [])).
    { apply eq_true_iff_eq. rewrite Z.eqb_eq, bool_decide_eq_true, (empty_test _ P). split.
      - intros E. apply nil_length_inv. lia.
      - intros E. rewrite E in Hl. by simpl in Hl. }
    cbn [the_pipe set_held pst_locks]. rewrite Et. case_decide as Hd.
    + destruct Hd as [Hq Hw]. rewrite bool_decide_eq_true_2, (proj2 (Z.eqb_neq _ _) Hw) by done. cbn [negb andb pkilled].
      case_decide as Hk.
      * rewrite (proj2 (Z.eqb_eq _ _) Hk). cbn [negb]. unfold psleep. by rewrite (bind_ret_intro _ _ _ _ _ Hrel).
      * rewrite (proj2 (Z.eqb_neq _ _) Hk). cbn [negb]. by rewrite (bind_ret_intro _ _ _ _ _ Hrel).
    + assert (Eb : (bool_decide (queue (the_pipe s) = []) && negb (writeopen (the_pipe s) =? 0))%bool = false).
      { apply not_true_iff_false. intros [E1 E2]%andb_true_iff. apply bool_decide_eq_true in E1.
        apply negb_true_iff, Z.eqb_neq in E2. by destruct Hd. }
      rewrite Eb. exact (piperead_loop_spec addr n (pheld s) (S (Z.to_nat n)) 0 (set_held (LPipe pi :: held s) s) P Hh eq_refl ltac:(lia)).
  - intros writable. unfold pipeclose. rewrite (bind_ret_intro _ _ _ _ _ Ha), bind_get.
    destruct P. destruct writable; unfold wakeup, bind, modify, get; rewrite (release_top (pheld s)) by done;
      eexists _, _; (split; [f_equal; apply eq_true_iff_eq; rewrite bool_decide_eq_true, andb_true_iff, !Z.eqb_eq; reflexivity|]);
      by split_and!.
Qed.
End pipe.

(** A process that writes "hi" into a fresh pipe *)
Module PipeExample.
#[export] Instance flat : UserCopy := {
  user_out := fun m a bs => (put_bytes m a bs, true);
  user_in := fun m a n => (region m a (Z.to_nat n), true) }.
Definition caller : pst :=
  MkPst (pipe_init (replicate 512 0)) [] 1 [] (fun x => if x =? 100 then 104 else 105) 0.
End PipeExample.

Lemma pipe_is_queue_witness :
  exists t s', @pipewrite PipeExample.flat 7 100 2 0 PipeExample.caller = Ret t s' /\ queue (the_pipe s') = [104; 105].
Proof.
  destruct (@pipe_is_queue PipeExample.flat 7 PipeExample.caller) as [H _].
  - by constructor.
  - apply not_elem_of_nil.
  - destruct (H 100 2 0) as (k & t & w & p' & E & _ & Q & _ & T). eexists t, _. split; [exact E|].
    cbn [the_pipe]. rewrite Q. vm_compute in E. injection E as <- <- <-. destruct k as [|[|[|k]]]; try done; exfalso;
      destruct T as [(? & _)|(? & _)]; lia.
Defined.
