(* ===== verification/File.v ===== *)
(** Open files, [src/xv6-riscv/kernel/file.c], and pipealloc of pipe.c.

    The state joins the file system, the file table, the pipes and the page
    allocator with what the running process owns: its descriptors, its killed
    flag and its system call arguments.  The page allocator and the device
    switch are interfaces. *)

From stdpp Require Import base list strings.
From S2P Require Import Prelude Memory Spinlock Sleeplock Kalloc Bytes Bio Log Txn Fs Pipe.

Definition NFILE : nat := 100.
Definition NOFILE : nat := 16.
Definition NDEV : Z := 10.

Inductive ftype := FD_NONE | FD_PIPE | FD_INODE | FD_DEVICE.

(** struct file *)
Record file := MkFile {
  f_type : ftype; f_ref : Z; readable : Z; writable : Z; f_pipe : Z; f_ip : nat; f_off : Z; f_major : Z }.

Definition file0 : file := MkFile FD_NONE 0 0 0 0 0 0 0.
Definition set_ref v f := MkFile (f_type f) v (readable f) (writable f) (f_pipe f) (f_ip f) (f_off f) (f_major f).
Definition set_ftype v f := MkFile v (f_ref f) (readable f) (writable f) (f_pipe f) (f_ip f) (f_off f) (f_major f).
Definition set_off v f := MkFile (f_type f) (f_ref f) (readable f) (writable f) (f_pipe f) (f_ip f) v (f_major f).
Definition set_modes r w f := MkFile (f_type f) (f_ref f) r w (f_pipe f) (f_ip f) (f_off f) (f_major f).
Definition set_fpipe v f := MkFile (f_type f) (f_ref f) (readable f) (writable f) v (f_ip f) (f_off f) (f_major f).
Definition set_fip v f := MkFile (f_type f) (f_ref f) (readable f) (writable f) (f_pipe f) v (f_off f) (f_major f).
Definition set_fmajor v f := MkFile (f_type f) (f_ref f) (readable f) (writable f) (f_pipe f) (f_ip f) (f_off f) v.

(** What kalloc.c gives its clients *)
Class PageAlloc := {
  pages : Type;
  page_alloc : M pages Z;
  page_free : Z -> M pages unit }.

#[export] Instance kernel_pages (kend : Z) : PageAlloc := {
  pages := kstate; page_alloc := kalloc; page_free := kfree kend }.

Section state.
Context `{PageAlloc}.

(** [ops] is the number of file system operations in progress. *)
Record kst := MkKst {
  kfs : fst; ops : Z; ftab : nat -> file; pipes : Z -> pipe; kpages : pages;
  ofile : nat -> option nat; killed : Z; args : nat -> Z; psz : Z }.

Definition set_kfs v k := MkKst v (ops k) (ftab k) (pipes k) (kpages k) (ofile k) (killed k) (args k) (psz k).
Definition set_ops v k := MkKst (kfs k) v (ftab k) (pipes k) (kpages k) (ofile k) (killed k) (args k) (psz k).
Definition set_ftab v k := MkKst (kfs k) (ops k) v (pipes k) (kpages k) (ofile k) (killed k) (args k) (psz k).
Definition set_pipes v k := MkKst (kfs k) (ops k) (ftab k) v (kpages k) (ofile k) (killed k) (args k) (psz k).
Definition set_kpages v k := MkKst (kfs k) (ops k) (ftab k) (pipes k) v (ofile k) (killed k) (args k) (psz k).
Definition set_ofile v k := MkKst (kfs k) (ops k) (ftab k) (pipes k) (kpages k) v (killed k) (args k) (psz k).
End state.

Section file.
Context `{PageAlloc, UserCopy}.

#[export] Instance kst_locks : LockView kst := {
  held := fun k => fheld (kfs k); set_held := fun h k => set_kfs (set_fheld h (kfs k)) k;
  held_set_held := fun _ _ => eq_refl; set_held_twice := fun _ _ _ => eq_refl;
  set_held_id := fun k => match k with MkKst (MkF _ _ _ _ _ _ _ _) _ _ _ _ _ _ _ _ => eq_refl end }.

(** Calls of the components below *)
Definition lift {S A} (g : kst -> S) (put : S -> kst -> kst) (c : M S A) : M kst A := fun k =>
  match c (g k) with
  | Ret a s => Ret a (put s k)
  | Panic msg => Panic msg
  | Blocked s => Blocked (put s k)
  | OutOfFuel => OutOfFuel
  end.
Definition liftf {A} (c : M fst A) : M kst A := lift kfs set_kfs c.
Definition liftp {A} (c : M pages A) : M kst A := lift kpages set_kpages c.

(** Pipe code of the running process, on the pipe in page [pi] *)
Definition to_pst (pi : Z) (k : kst) : pst :=
  MkPst (pipes k pi) (fheld (kfs k)) (fme (kfs k)) (fwoken (kfs k)) (fmem (kfs k)) (killed k).
Definition from_pst (pi : Z) (s : pst) (k : kst) : kst :=
  set_pipes (upd (pipes k) pi (the_pipe s))
    (set_kfs (set_fmem (umem s) (set_fwoken (pwoken s) (set_fheld (pheld s) (kfs k)))) k).
Definition liftpipe {A} (pi : Z) (c : M pst A) : M kst A := lift (to_pst pi) (from_pst pi) c.

(** A call that sleeps gives up the CPU; it goes on with [Pipe.pipewrite] from
    its index, or with [Pipe.piperead]. *)
Definition until_done (c : M kst turn) : M kst Z :=
  let! t := c in match t with Done r => ret r | Sleeping _ => fun k => Blocked k end.

(** begin_op and end_op as one process sees them: the end of the last operation
    commits, and the next transaction starts with an empty log. *)
Definition begin_op : M kst unit := modify (fun k => set_ops (ops k + 1) k).
Definition end_op : M kst unit := modify (fun k =>
  let k := set_ops (ops k - 1) k in
  if ops k =? 0 then
    let t := tx (kfs k) in set_kfs (set_tx (MkTx (tcont t) (thold t) [] (tdirty t)) (kfs k)) k
  else k).

Definition getf (f : nat) : M kst file := get (fun k => ftab k f).
Definition setf (f : nat) (g : file -> file) : M kst unit := modify (fun k => set_ftab (upd (ftab k) f (g (ftab k f))) k).

(** ** The file table *)

Definition filealloc : M kst (option nat) :=
  lock_acquire LFtable ;;;
  let! r := for_find (seq 0 NFILE) (fun f =>
    let! x := getf f in
    if f_ref x =? 0 then setf f (set_ref 1) ;;; lock_release LFtable ;;; ret (Some f)
    else ret None) in
  match r with
  | Some f => ret (Some f)
  | None => lock_release LFtable ;;; ret None
  end.

Definition filedup (f : nat) : M kst nat :=
  lock_acquire LFtable ;;;
  let! x := getf f in
  if f_ref x <? 1 then panic "filedup"
  else setf f (set_ref (f_ref x + 1)) ;;; lock_release LFtable ;;; ret f.

(** pipeclose with its kfree *)
Definition kpipeclose (pi : Z) (w : bool) : M kst unit :=
  let! free := liftpipe pi (pipeclose pi w) in
  when free then liftp (page_free pi).

Definition fileclose (f : nat) : M kst unit :=
  lock_acquire LFtable ;;;
  let! x := getf f in
  if f_ref x <? 1 then panic "fileclose"
  else
    setf f (set_ref (f_ref x - 1)) ;;;
    if 0 <? f_ref x - 1 then lock_release LFtable
    else
      let! ff := getf f in
      setf f (set_ref 0) ;;;
      setf f (set_ftype FD_NONE) ;;;
      lock_release LFtable ;;;
      match f_type ff with
      | FD_PIPE => kpipeclose (f_pipe ff) (negb (writable ff =? 0))
      | FD_INODE | FD_DEVICE => begin_op ;;; liftf (iput (f_ip ff)) ;;; end_op
      | FD_NONE => ret tt
      end.

(** v in n bytes, little endian *)
Fixpoint le_bytes (v : Z) (n : nat) : list Z :=
  match n with
  | O => []
  | S n => v mod 256 :: le_bytes (v / 256) n
  end.

(** struct stat in memory; [pad] is the four bytes before the 64-bit size. *)
Definition stat_bytes (pad : list Z) (st : stat) : list Z :=
  le_bytes (st_dev st) 4 ++ le_bytes (st_ino st) 4 ++ le_bytes (st_type st) 2 ++ le_bytes (st_nlink st) 2 ++
  pad ++ le_bytes (st_size st) 8.

Definition filestat (pad : list Z) (f : nat) (addr : Z) : M kst Z :=
  let! x := getf f in
  match f_type x with
  | FD_INODE | FD_DEVICE =>
      liftf (ilock (f_ip x)) ;;;
      let! st := liftf (stati (f_ip x)) in
      liftf (iunlock (f_ip x)) ;;;
      let! r := liftf (either_copyout true addr (stat_bytes pad st)) in
      if r <? 0 then ret (-1) else ret 0
  | _ => ret (-1)
  end.

(** devsw[major].read and .write, of the user's buffer and its length *)
Context (devsw_read devsw_write : Z -> option (Z -> Z -> M kst Z)).

Definition device (sw : Z -> option (Z -> Z -> M kst Z)) (major addr n : Z) : M kst Z :=
  if ((major <? 0) || (NDEV <=? major))%bool then ret (-1)
  else match sw major with None => ret (-1) | Some call => call addr n end.

Definition fileread (f : nat) (addr n : Z) : M kst Z :=
  let! x := getf f in
  if readable x =? 0 then ret (-1)
  else
    match f_type x with
    | FD_PIPE => until_done (liftpipe (f_pipe x) (piperead (f_pipe x) addr n))
    | FD_DEVICE => device devsw_read (f_major x) addr n
    | FD_INODE =>
        liftf (ilock (f_ip x)) ;;;
        let! x := getf f in
        let! r := liftf (readi (f_ip x) true addr (f_off x) (u32 n)) in
        (when 0 <? r then setf f (set_off (u32 (f_off x + r)))) ;;;
        liftf (iunlock (f_ip x)) ;;;
        ret r
    | FD_NONE => panic "fileread"
    end.

(** while(i < n), returning i; a turn that does not end the loop writes n1 > 0
    bytes. *)
Fixpoint filewrite_loop (f : nat) (addr n i : Z) (fuel : nat) : M kst Z :=
  match fuel with
  | O => out_of_fuel
  | S fuel =>
      if i <? n then
        let max := (MAXOPBLOCKS - 1 - 1 - 2) / 2 * BSIZE in
        let n1 := if max <? n - i then max else n - i in
        let! x := getf f in
        begin_op ;;;
        liftf (ilock (f_ip x)) ;;;
        let! x := getf f in
        let! r := liftf (writei (f_ip x) true (u64 (addr + i)) (f_off x) n1) in
        (when 0 <? r then setf f (set_off (u32 (f_off x + r)))) ;;;
        liftf (iunlock (f_ip x)) ;;;
        end_op ;;;
        if negb (r =? n1) then ret i else filewrite_loop f addr n (i + r) fuel
      else ret i
  end.

Definition filewrite (f : nat) (addr n : Z) : M kst Z :=
  let! x := getf f in
  if writable x =? 0 then ret (-1)
  else
    match f_type x with
    | FD_PIPE => until_done (liftpipe (f_pipe x) (pipewrite (f_pipe x) addr n 0))
    | FD_DEVICE => device devsw_write (f_major x) addr n
    | FD_INODE =>
        let! i := filewrite_loop f addr n 0 (S (Z.to_nat n)) in
        ret (if i =? n then n else -1)
    | FD_NONE => panic "filewrite"
    end.

(** ** pipealloc *)

(** The label bad: close the files allocated so far. *)
Definition pipealloc_bad (f0 f1 : option nat) : M kst (option (nat * nat)) :=
  (match f0 with Some f => fileclose f | None => ret tt end) ;;;
  (match f1 with Some f => fileclose f | None => ret tt end) ;;;
  ret None.

(** [fresh] is what the new page holds where the ring is. *)
Definition pipealloc (fresh : list Z) : M kst (option (nat * nat)) :=
  let! f0 := filealloc in
  match f0 with
  | None => pipealloc_bad None None
  | Some a =>
      let! f1 := filealloc in
      match f1 with
      | None => pipealloc_bad (Some a) None
      | Some b =>
          let! pi := liftp page_alloc in
          if pi =? 0 then pipealloc_bad (Some a) (Some b)
          else
            modify (fun k => set_pipes (upd (pipes k) pi (pipe_init fresh)) k) ;;;
            setf a (fun x => set_fpipe pi (set_modes 1 0 (set_ftype FD_PIPE x))) ;;;
            setf b (fun x => set_fpipe pi (set_modes 0 1 (set_ftype FD_PIPE x))) ;;;
            ret (Some (a, b))
      end
  end.
End file.
