(* ===== verification/SysFile.v ===== *)
(** The file system calls, [src/xv6-riscv/kernel/sysfile.c], and the string and
    word arguments of syscall.c.

    Kernel stack buffers (paths, names, directory entries) and string literals
    have fixed addresses in kernel memory, the section's variables. *)

From stdpp Require Import base list strings.
From S2P Require Import Prelude Memory KString Spinlock Sleeplock Kalloc Bytes Bio Log Txn Fs Pipe File.

Definition O_RDONLY : Z := 0x000.
Definition O_WRONLY : Z := 0x001.
Definition O_RDWR : Z := 0x002.
Definition O_CREATE : Z := 0x200.
Definition O_TRUNC : Z := 0x400.
Definition MAXARG : nat := 32.
Definition PATHMAX : Z := 128.

(** copyinstr(pagetable, dst, srcva, max): memory after, and 0 or -1 *)
Class UserStr := { user_str : mem -> Z -> Z -> Z -> mem * Z }.

Section sysfile.
Context `{PageAlloc, UserCopy, UserStr}.

(** ** Arguments *)

Definition argraw (n : nat) : M kst Z :=
  if (n <=? 5)%nat then get (fun k => args k n) else panic "argraw".
Definition argint (n : nat) : M kst Z := let! v := argraw n in ret (s32 v).
Definition argaddr (n : nat) : M kst Z := argraw n.

(** fetchaddr: the word, or None for -1 *)
Definition fetchaddr (addr : Z) : M kst (option Z) :=
  let! k := get (fun k => k) in
  if ((psz k <=? addr) || (psz k <? u64 (addr + 8)))%bool then ret None
  else
    let '(bs, ok) := user_in (fmem (kfs k)) addr 8 in
    if (ok : bool) then ret (Some (le_get bs 0 8)) else ret None.

Definition fetchstr (addr buf max : Z) : M kst Z :=
  let! k := get (fun k => k) in
  let '(m, r) := user_str (fmem (kfs k)) buf addr max in
  modify (fun k => set_kfs (set_fmem m (kfs k)) k) ;;;
  if r <? 0 then ret (-1)
  else match strlen (Z.to_nat max) m buf with Some n => ret n | None => out_of_fuel end.

Definition argstr (n : nat) (buf max : Z) : M kst Z :=
  let! addr := argaddr n in fetchstr addr buf max.

(** argfd: the descriptor and the file *)
Definition argfd (n : nat) : M kst (option (nat * nat)) :=
  let! fd := argint n in
  let! k := get (fun k => k) in
  if ((fd <? 0) || (Z.of_nat NOFILE <=? fd))%bool then ret None
  else match ofile k (Z.to_nat fd) with
       | None => ret None
       | Some f => ret (Some (Z.to_nat fd, f))
       end.

Definition setofile (fd : nat) (v : option nat) : M kst unit := modify (fun k => set_ofile (upd (ofile k) fd v) k).

(** The lowest free descriptor, or -1 *)
Definition fdalloc (f : nat) : M kst Z :=
  let! r := for_find (seq 0 NOFILE) (fun fd =>
    let! k := get (fun k => k) in
    match ofile k fd with
    | None => setofile fd (Some f) ;;; ret (Some (Z.of_nat fd))
    | Some _ => ret None
    end) in
  match r with Some fd => ret fd | None => ret (-1) end.

(** ** Descriptors *)

Definition sys_dup : M kst Z :=
  let! r := argfd 0 in
  match r with
  | None => ret (-1)
  | Some (_, f) =>
      let! fd := fdalloc f in
      if fd <? 0 then ret (-1) else filedup f ;;; ret fd
  end.

Context (devsw_read devsw_write : Z -> option (Z -> Z -> M kst Z)).

Definition sys_read : M kst Z :=
  let! p := argaddr 1 in
  let! n := argint 2 in
  let! r := argfd 0 in
  match r with None => ret (-1) | Some (_, f) => fileread devsw_read f p n end.

Definition sys_write : M kst Z :=
  let! p := argaddr 1 in
  let! n := argint 2 in
  let! r := argfd 0 in
  match r with None => ret (-1) | Some (_, f) => filewrite devsw_write f p n end.

Definition sys_close : M kst Z :=
  let! r := argfd 0 in
  match r with
  | None => ret (-1)
  | Some (fd, f) => setofile fd None ;;; fileclose f ;;; ret 0
  end.

Definition sys_fstat (pad : list Z) : M kst Z :=
  let! st := argaddr 1 in
  let! r := argfd 0 in
  match r with None => ret (-1) | Some (_, f) => filestat pad f st end.

(** ** Names

    [de1], [de2] and [de] are struct dirent slots of dirlookup, dirlink and the
    functions below, [name], [path] and [path2] the local arrays, [nbuf] the array
    of namei, [dot] and [dotdot] the literals. *)
Context (de1 de2 de name path path2 nbuf dot dotdot : Z).

Definition namei_ (p : Z) : M kst (option nat) := liftf (namei de1 nbuf p).
Definition nameiparent_ (p nm : Z) : M kst (option nat) := liftf (nameiparent de1 p nm).
Definition dirlink_ (dp : nat) (nm inum_ : Z) : M kst Z := liftf (dirlink de1 de2 dp nm inum_).
Definition ip_ (ip : nat) : M kst inode := liftf (geti ip).
Definition setip (ip : nat) (g : inode -> inode) : M kst unit := liftf (seti ip g).
Definition memory : M kst mem := get (fun k => fmem (kfs k)).

(** goto bad in sys_link *)
Definition link_bad (ip : nat) : M kst Z :=
  liftf (ilock ip) ;;;
  setip ip (fun i => set_nlink (s16 (nlink i - 1)) i) ;;;
  liftf (iupdate ip) ;;;
  liftf (iunlockput ip) ;;;
  end_op ;;;
  ret (-1).

Definition sys_link : M kst Z :=
  let! a := argstr 0 path PATHMAX in
  if a <? 0 then ret (-1)
  else
  let! b := argstr 1 path2 PATHMAX in
  if b <? 0 then ret (-1)
  else
    begin_op ;;;
    let! ip := namei_ path in
    match ip with
    | None => end_op ;;; ret (-1)
    | Some ip =>
        liftf (ilock ip) ;;;
        let! i := ip_ ip in
        if itype i =? T_DIR then liftf (iunlockput ip) ;;; end_op ;;; ret (-1)
        else
          setip ip (fun i => set_nlink (s16 (nlink i + 1)) i) ;;;
          liftf (iupdate ip) ;;;
          liftf (iunlock ip) ;;;
          let! dp := nameiparent_ path2 name in
          match dp with
          | None => link_bad ip
          | Some dp =>
              liftf (ilock dp) ;;;
              let! d := ip_ dp in
              let! i := ip_ ip in
              let! r := (if negb (idev d =? idev i) then ret (-1) else dirlink_ dp name (inum i)) in
              if r <? 0 then liftf (iunlockput dp) ;;; link_bad ip
              else
                liftf (iunlockput dp) ;;;
                liftf (iput ip) ;;;
                end_op ;;;
                ret 0
          end
    end.

(** for(off=2*sizeof(de); off<dp->size; off+=sizeof(de)) *)
Fixpoint isdirempty_loop (dp : nat) (off : Z) (fuel : nat) : M kst bool :=
  match fuel with
  | O => out_of_fuel
  | S fuel =>
      let! i := ip_ dp in
      if off <? isize i then
        let! r := liftf (readi dp false de off DIRENT) in
        if negb (r =? DIRENT) then panic "isdirempty: readi"
        else
          let! m := memory in
          if negb (de_inum m de =? 0) then ret false else isdirempty_loop dp (off + DIRENT) fuel
      else ret true
  end.

Definition isdirempty (dp : nat) : M kst bool :=
  let! i := ip_ dp in isdirempty_loop dp (2 * DIRENT) (S (Z.to_nat (isize i / DIRENT))).

(** goto bad in sys_unlink *)
Definition unlink_bad (dp : nat) : M kst Z := liftf (iunlockput dp) ;;; end_op ;;; ret (-1).

Definition sys_unlink : M kst Z :=
  let! a := argstr 0 path PATHMAX in
  if a <? 0 then ret (-1)
  else
    begin_op ;;;
    let! dp := nameiparent_ path name in
    match dp with
    | None => end_op ;;; ret (-1)
    | Some dp =>
        liftf (ilock dp) ;;;
        let! m := memory in
        if ((namecmp m name dot =? 0) || (namecmp m name dotdot =? 0))%bool then unlink_bad dp
        else
          let! r := liftf (dirlookup de1 dp name) in
          match r with
          | None => unlink_bad dp
          | Some (ip, off) =>
              liftf (ilock ip) ;;;
              let! i := ip_ ip in
              if nlink i <? 1 then panic "unlink: nlink < 1"
              else
                let! empty := (if itype i =? T_DIR then isdirempty ip else ret true) in
                if negb empty then liftf (iunlockput ip) ;;; unlink_bad dp
                else
                  liftf (setmem (fun m => memset m de 0 DIRENT)) ;;;
                  let! w := liftf (writei dp false de off DIRENT) in
                  if negb (w =? DIRENT) then panic "unlink: writei"
                  else
                    (when itype i =? T_DIR then
                      setip dp (fun d => set_nlink (s16 (nlink d - 1)) d) ;;;
                      liftf (iupdate dp)) ;;;
                    liftf (iunlockput dp) ;;;
                    setip ip (fun i => set_nlink (s16 (nlink i - 1)) i) ;;;
                    liftf (iupdate ip) ;;;
                    liftf (iunlockput ip) ;;;
                    end_op ;;;
                    ret 0
          end
    end.

(** goto fail in create *)
Definition create_fail (ip dp : nat) : M kst (option nat) :=
  setip ip (set_nlink 0) ;;;
  liftf (iupdate ip) ;;;
  liftf (iunlockput ip) ;;;
  liftf (iunlockput dp) ;;;
  ret None.

Definition create (p type major minor : Z) : M kst (option nat) :=
  let! dp := nameiparent_ p name in
  match dp with
  | None => ret None
  | Some dp =>
      liftf (ilock dp) ;;;
      let! r := liftf (dirlookup de1 dp name) in
      match r with
      | Some (ip, _) =>
          liftf (iunlockput dp) ;;;
          liftf (ilock ip) ;;;
          let! i := ip_ ip in
          if ((type =? T_FILE) && ((itype i =? T_FILE) || (itype i =? T_DEVICE)))%bool then ret (Some ip)
          else liftf (iunlockput ip) ;;; ret None
      | None =>
          let! d := ip_ dp in
          let! r := liftf (ialloc (idev d) type) in
          match r with
          | None => liftf (iunlockput dp) ;;; ret None
          | Some ip =>
              liftf (ilock ip) ;;;
              setip ip (fun i => set_nlink 1 (set_device (s16 major) (s16 minor) i)) ;;;
              liftf (iupdate ip) ;;;
              let! i := ip_ ip in
              let! d := ip_ dp in
              let! a := (if type =? T_DIR then dirlink_ ip dot (inum i) else ret 0) in
              let! b := (if ((type =? T_DIR) && negb (a <? 0))%bool then dirlink_ ip dotdot (inum d) else ret a) in
              if b <? 0 then create_fail ip dp
              else
                let! c := dirlink_ dp name (inum i) in
                if c <? 0 then create_fail ip dp
                else
                  (when type =? T_DIR then
                    setip dp (fun d => set_nlink (s16 (nlink d + 1)) d) ;;;
                    liftf (iupdate dp)) ;;;
                  liftf (iunlockput dp) ;;;
                  ret (Some ip)
          end
      end
  end.

(** The inode sys_open opens, locked; None after the error paths *)
Definition open_inode (omode : Z) : M kst (option nat) :=
  if negb (Z.land omode O_CREATE =? 0) then
    let! ip := create path T_FILE 0 0 in
    match ip with
    | None => end_op ;;; ret None
    | Some ip => ret (Some ip)
    end
  else
    let! ip := namei_ path in
    match ip with
    | None => end_op ;;; ret None
    | Some ip =>
        liftf (ilock ip) ;;;
        let! i := ip_ ip in
        if ((itype i =? T_DIR) && negb (omode =? O_RDONLY))%bool then
          liftf (iunlockput ip) ;;; end_op ;;; ret None
        else ret (Some ip)
    end.

(** filealloc and fdalloc; the error path closes the file it got *)
Definition open_file (ip : nat) : M kst (option (nat * Z)) :=
  let! f := filealloc in
  match f with
  | None => liftf (iunlockput ip) ;;; end_op ;;; ret None
  | Some f =>
      let! fd := fdalloc f in
      if fd <? 0 then fileclose f ;;; liftf (iunlockput ip) ;;; end_op ;;; ret None
      else ret (Some (f, fd))
  end.

Definition sys_open : M kst Z :=
  let! omode := argint 1 in
  let! n := argstr 0 path PATHMAX in
  if n <? 0 then ret (-1)
  else
    begin_op ;;;
    let! ip := open_inode omode in
    match ip with
    | None => ret (-1)
    | Some ip =>
        let! i := ip_ ip in
        if ((itype i =? T_DEVICE) && ((imajor i <? 0) || (NDEV <=? imajor i)))%bool then
          liftf (iunlockput ip) ;;; end_op ;;; ret (-1)
        else
          let! r := open_file ip in
          match r with
          | None => ret (-1)
          | Some (f, fd) =>
              (if itype i =? T_DEVICE then setf f (fun x => set_fmajor (imajor i) (set_ftype FD_DEVICE x))
               else setf f (fun x => set_off 0 (set_ftype FD_INODE x))) ;;;
              setf f (set_fip ip) ;;;
              setf f (set_modes (if Z.land omode O_WRONLY =? 0 then 1 else 0)
                (if (negb (Z.land omode O_WRONLY =? 0) || negb (Z.land omode O_RDWR =? 0))%bool then 1 else 0)) ;;;
              (when (negb (Z.land omode O_TRUNC =? 0) && (itype i =? T_FILE))%bool then liftf (itrunc ip)) ;;;
              liftf (iunlock ip) ;;;
              end_op ;;;
              ret fd
          end
    end.

(** sys_mkdir and sys_mknod after their arguments: create, then let go *)
Definition make (ok : bool) (type major minor : Z) : M kst Z :=
  let! ip := (if ok then create path type major minor else ret None) in
  match ip with
  | None => end_op ;;; ret (-1)
  | Some ip => liftf (iunlockput ip) ;;; end_op ;;; ret 0
  end.

Definition sys_mkdir : M kst Z :=
  begin_op ;;;
  let! n := argstr 0 path PATHMAX in
  make (negb (n <? 0)) T_DIR 0 0.

Definition sys_mknod : M kst Z :=
  begin_op ;;;
  let! major := argint 1 in
  let! minor := argint 2 in
  let! n := argstr 0 path PATHMAX in
  make (negb (n <? 0)) T_DEVICE major minor.

Definition set_cwd (ip : nat) : M kst unit := modify (fun k =>
  let f := kfs k in set_kfs (MkF (tx f) (sb f) (itab f) (fmem f) (fheld f) (fme f) (fwoken f) ip) k).

Definition sys_chdir : M kst Z :=
  begin_op ;;;
  let! n := argstr 0 path PATHMAX in
  let! ip := (if n <? 0 then ret None else namei_ path) in
  match ip with
  | None => end_op ;;; ret (-1)
  | Some ip =>
      liftf (ilock ip) ;;;
      let! i := ip_ ip in
      if negb (itype i =? T_DIR) then liftf (iunlockput ip) ;;; end_op ;;; ret (-1)
      else
        liftf (iunlock ip) ;;;
        let! cwd := get (fun k => fcwd (kfs k)) in
        liftf (iput cwd) ;;;
        end_op ;;;
        set_cwd ip ;;;
        ret 0
  end.

(** for(i = 0; i < NELEM(argv) && argv[i] != 0; i++) kfree(argv[i]); *)
Fixpoint free_args (argv : list Z) : M kst unit :=
  match argv with
  | [] => ret tt
  | a :: argv => liftp (page_free a) ;;; free_args argv
  end.

(** The loop that copies the arguments: the pages so far, and whether it reached
    the null argument *)
Fixpoint exec_args (uargv i : Z) (argv : list Z) (fuel : nat) : M kst (list Z * bool) :=
  match fuel with
  | O => ret (argv, false)          (* i >= NELEM(argv) *)
  | S fuel =>
      let! w := fetchaddr (u64 (uargv + 8 * i)) in
      match w with
      | None => ret (argv, false)
      | Some uarg =>
          if uarg =? 0 then ret (argv, true)
          else
            let! a := liftp page_alloc in
            if a =? 0 then ret (argv, false)
            else
              let! r := fetchstr uarg a PGSIZE in
              if r <? 0 then ret (argv ++ [a], false)
              else exec_args uargv (i + 1) (argv ++ [a]) fuel
      end
  end.

(** exec(path, argv) of exec.c *)
Context (exec : Z -> list Z -> M kst Z).

Definition sys_exec : M kst Z :=
  let! uargv := argaddr 1 in
  let! n := argstr 0 path PATHMAX in
  if n <? 0 then ret (-1)
  else
    let! r := exec_args uargv 0 [] MAXARG in
    let '(argv, ok) := r in
    if (ok : bool) then
      let! res := exec path argv in
      free_args argv ;;;
      ret res
    else free_args argv ;;; ret (-1).

Definition sys_pipe (fresh : list Z) : M kst Z :=
  let! fdarray := argaddr 0 in
  let! r := pipealloc fresh in
  match r with
  | None => ret (-1)
  | Some (rf, wf) =>
      let! fd0 := fdalloc rf in
      let! fd1 := (if fd0 <? 0 then ret (-1) else fdalloc wf) in
      if fd1 <? 0 then
        (when negb (fd0 <? 0) then setofile (Z.to_nat fd0) None) ;;;
        fileclose rf ;;;
        fileclose wf ;;;
        ret (-1)
      else
        let! a := liftf (either_copyout true fdarray (le_bytes fd0 4)) in
        let! b := (if a <? 0 then ret a else liftf (either_copyout true (u64 (fdarray + 4)) (le_bytes fd1 4))) in
        if b <? 0 then
          setofile (Z.to_nat fd0) None ;;;
          setofile (Z.to_nat fd1) None ;;;
          fileclose rf ;;;
          fileclose wf ;;;
          ret (-1)
        else ret 0
  end.
End sysfile.
