(* ===== verification/FileRef.v ===== *)
(** Reference counts of open files: file.c and sysfile.c keep, for every entry of
    the file table, its count equal to the number of references to it. *)

From stdpp Require Import base list strings.
From S2P Require Import Prelude Memory Spinlock Sleeplock Kalloc Txn Fs Pipe File SysFile.

Section refs.
Context `{PageAlloc, UserCopy, UserStr}.

Definition refers (f : nat) (o : option nat) : Z := if decide (o = Some f) then 1 else 0.

(** Descriptors of the process that refer to f *)
Definition fds (o : nat -> option nat) (f : nat) : Z := sum (fun fd => refers f (o fd)) NOFILE.

(** [ext f] counts the references that are not descriptors of this process. *)
Definition refs_ok (ext : nat -> Z) (k : kst) : Prop :=
  (forall f, f_ref (ftab k f) = ext f + fds (ofile k) f) /\ (forall fd f, ofile k fd = Some f -> (f < NFILE)%nat).

Definition plus (ext : nat -> Z) (f : nat) (d : Z) : nat -> Z := fun g => ext g + if decide (g = f) then d else 0.

(** ** Computations that leave descriptors and counts alone *)

Definition quiet {A} (c : M kst A) : Prop :=
  forall k a k', c k = Ret a k' -> (forall f, f_ref (ftab k' f) = f_ref (ftab k f)) /\ ofile k' = ofile k.

Lemma quiet_ret {A} (a : A) : quiet (ret a).
Proof. intros k b k' [= _ <-]. done. Qed.
Lemma quiet_get {A} (g : kst -> A) : quiet (get g).
Proof. intros k b k' [= _ <-]. done. Qed.
Lemma quiet_panic {A} msg : quiet (panic msg : M kst A).
Proof. intros k b k' [=]. Qed.
Lemma quiet_blocked {A} : quiet ((fun k => Blocked k) : M kst A).
Proof. intros k b k' [=]. Qed.
Lemma quiet_fuel {A} : quiet (out_of_fuel : M kst A).
Proof. intros k b k' [=]. Qed.
Lemma quiet_modify (g : kst -> kst) :
  (forall k, (forall f, f_ref (ftab (g k) f) = f_ref (ftab k f)) /\ ofile (g k) = ofile k) -> quiet (modify g).
Proof. intros Hg k a k' [= _ <-]. apply Hg. Qed.

Lemma quiet_bind {A B} (c : M kst A) (d : A -> M kst B) : quiet c -> (forall a, quiet (d a)) -> quiet (bind c d).
Proof.
  intros Hc Hd k b k' (a & k1 & E1 & E2)%bind_ret_inv. destruct (Hc _ _ _ E1) as [F1 O1]. destruct (Hd _ _ _ _ E2) as [F2 O2].
  split; [intros f; by rewrite F2|congruence].
Qed.

Lemma quiet_lift {S A} (g : kst -> S) put (c : M S A) :
  (forall s k, ftab (put s k) = ftab k /\ ofile (put s k) = ofile k) -> quiet (lift g put c).
Proof.
  intros Hp k a k' E. unfold lift in E. destruct (c (g k)); try discriminate. injection E as _ <-.
  destruct (Hp s k) as [-> ->]. done.
Qed.
Lemma quiet_liftf {A} (c : M fst A) : quiet (liftf c).
Proof. by apply quiet_lift. Qed.
Lemma quiet_liftp {A} (c : M pages A) : quiet (liftp c).
Proof. by apply quiet_lift. Qed.
Lemma quiet_liftpipe {A} pi (c : M pst A) : quiet (liftpipe pi c).
Proof. by apply quiet_lift. Qed.
Lemma quiet_acquire l : quiet (lock_acquire l).
Proof. intros k a k' E. unfold lock_acquire in E. case_match; [done|]. by injection E as _ <-. Qed.
Lemma quiet_release l : quiet (lock_release l).
Proof. intros k a k' E. unfold lock_release in E. case_match; [|done]. by injection E as _ <-. Qed.
Lemma quiet_begin : quiet begin_op.
Proof. by apply quiet_modify. Qed.
Lemma quiet_end : quiet end_op.
Proof. apply quiet_modify. intros k. cbn [ops set_ops]. by case_match. Qed.
Lemma quiet_setf f g : (forall x, f_ref (g x) = f_ref x) -> quiet (setf f g).
Proof. intros Hg. apply quiet_modify. intros k. split; [|done]. intros f'. simpl. unfold upd. case_decide; [subst; apply Hg|done]. Qed.
End refs.

Create HintDb quiet discriminated.
#[export] Hint Resolve quiet_ret quiet_get quiet_panic quiet_blocked quiet_fuel quiet_liftf quiet_liftp quiet_liftpipe
  quiet_acquire quiet_release quiet_begin quiet_end : quiet.

(** Follow the text of a quiet function. *)
Ltac quiet_steps :=
  repeat first
    [ progress intros
    | match goal with |- quiet (bind _ _) => apply quiet_bind end
    | solve [auto with quiet]
    | apply quiet_setf; intros; reflexivity
    | match goal with |- quiet (match ?x with _ => _ end) => destruct x end
    | match goal with |- quiet (let '(_, _) := ?x in _) => destruct x end ].

Section counts.
Context `{PageAlloc, UserCopy, UserStr}.
Implicit Types (k : kst) (ext : nat -> Z).

Abbreviation wpk c k Q := (wp c k Q (fun _ => True)).

Lemma wp_quiet {A} (c : M kst A) ext k : quiet c -> refs_ok ext k -> wpk c k (fun _ k' => refs_ok ext k').
Proof.
  intros Hq [R1 R2]. unfold wp. destruct (c k) as [a k'| | |] eqn:E; try done. destruct (Hq _ _ _ E) as [F O].
  split; [intros f; rewrite F, R1, O; reflexivity|intros fd f; rewrite O; apply R2].
Qed.

(** Run a quiet computation, then go on. *)
Lemma wp_quiet_bind {A B} (c : M kst A) (d : A -> M kst B) ext k Q :
  quiet c -> refs_ok ext k -> (forall a k', refs_ok ext k' -> wpk (d a) k' Q) -> wpk (bind c d) k Q.
Proof. intros Hq R Hd. apply wp_bind. eapply wp_mono; [by apply wp_quiet|by intros; apply Hd|done]. Qed.

Lemma refs_ok_ext ext ext' k : (forall f, ext f = ext' f) -> refs_ok ext k -> refs_ok ext' k.
Proof. intros E [R1 R2]. split; [intros f; by rewrite <- E|done]. Qed.

(** A change of one count, and of one descriptor *)
Lemma refs_ok_setf ext k f g d :
  refs_ok ext k -> (forall x, f_ref (g x) = f_ref x + d) -> refs_ok (plus ext f d) (set_ftab (upd (ftab k) f (g (ftab k f))) k).
Proof.
  intros [R1 R2] Hg. split; [|done]. intros f'. unfold plus. cbn [ftab ofile set_ftab].
  specialize (R1 f'). unfold upd. case_decide; [subst; rewrite Hg; lia|lia].
Qed.

Lemma refs_ok_setofile ext k fd v :
  (fd < NOFILE)%nat -> (forall f, v = Some f -> (f < NFILE)%nat) -> refs_ok ext k ->
  refs_ok (fun f => ext f + refers f (ofile k fd) - refers f v) (set_ofile (upd (ofile k) fd v) k).
Proof.
  intros Hfd Hv [R1 R2]. split.
  - intros f. cbn [ofile set_ofile ftab]. rewrite R1. unfold fds.
    rewrite (sum_upd (refers f)) by done. lia.
  - intros fd' f. cbn [ofile set_ofile]. unfold upd. case_decide; [apply Hv|apply R2].
Qed.

Lemma wp_for_find {A} l (body : nat -> M kst (option A)) (I : kst -> Prop) (Q : A -> kst -> Prop) k :
  (forall i k, i ∈ l -> I k -> wpk (body i) k (fun r k' => match r with Some a => Q a k' | None => I k' end)) ->
  I k -> wpk (for_find l body) k (fun r k' => match r with Some a => Q a k' | None => I k' end).
Proof.
  revert k. induction l as [|i l IH]; intros k Hb Hk; cbn [for_find]; [done|].
  apply wp_bind. eapply wp_mono; [apply Hb; [left|done]| |done]. intros [a|] k' Hr; [done|].
  apply IH; [|done]. intros j k2 Hj. apply Hb. by right.
Qed.

(** ** file.c *)

Lemma filealloc_refs ext k : refs_ok ext k ->
  wpk filealloc k (fun r k' => match r with Some f => (f < NFILE)%nat /\ refs_ok (plus ext f 1) k' | None => refs_ok ext k' end).
Proof.
  intros R. unfold filealloc. eapply wp_quiet_bind; [auto with quiet|exact R|]. intros _ k1 R1. apply wp_bind.
  eapply wp_mono; [apply (wp_for_find _ _ (refs_ok ext) (fun f k' => (f < NFILE)%nat /\ refs_ok (plus ext f 1) k'))| |done]; [|done|].
  - intros f k2 Hf R2. apply elem_of_seq in Hf. unfold getf. unfold wp. rewrite bind_get.
    destruct (f_ref (ftab k2 f) =? 0) eqn:E; [|done]. bool_to_prop.
    assert (R3 : refs_ok (plus ext f 1) (set_ftab (upd (ftab k2) f (set_ref 1 (ftab k2 f))) k2)).
    { apply (refs_ok_setf ext k2 f (fun x => set_ref (f_ref x + 1) x) 1) in R2; [|done]. by rewrite E in R2. }
    unfold bind at 1, setf, modify. eapply wp_quiet_bind; [auto with quiet|exact R3|]. intros _ k3 R4. split; [lia|done].
  - intros [f|] k2 R2; [done|]. eapply wp_quiet_bind; [auto with quiet|exact R2|]. by intros.
Qed.

Lemma filedup_refs ext k f : refs_ok ext k -> wpk (filedup f) k (fun _ k' => refs_ok (plus ext f 1) k').
Proof.
  intros R. unfold filedup. eapply wp_quiet_bind; [auto with quiet|exact R|]. intros _ k1 R1.
  unfold getf, wp. rewrite bind_get. destruct (f_ref (ftab k1 f) <? 1); [done|].
  apply (refs_ok_setf ext k1 f (fun x => set_ref (f_ref x + 1) x) 1) in R1; [|done].
  unfold bind at 1, setf, modify. eapply wp_quiet_bind; [auto with quiet|exact R1|by intros].
Qed.

Lemma quiet_kpipeclose pi w : quiet (kpipeclose pi w).
Proof. unfold kpipeclose. quiet_steps. Qed.

Lemma fileclose_refs ext k f : refs_ok ext k -> wpk (fileclose f) k (fun _ k' => refs_ok (plus ext f (-1)) k').
Proof.
  intros R. unfold fileclose. eapply wp_quiet_bind; [auto with quiet|exact R|]. intros _ k1 R1.
  unfold getf at 1. unfold wp. rewrite bind_get. destruct (f_ref (ftab k1 f) <? 1) eqn:E1; [done|]. bool_to_prop.
  unfold bind at 1, setf at 1, modify.
  assert (R2 : refs_ok (plus ext f (-1)) (set_ftab (upd (ftab k1) f (set_ref (f_ref (ftab k1 f) - 1) (ftab k1 f))) k1)).
  { by apply (refs_ok_setf ext k1 f (fun x => set_ref (f_ref x - 1) x) (-1)). }
  destruct (0 <? f_ref (ftab k1 f) - 1) eqn:E2; [by apply wp_quiet; [auto with quiet|]|]. bool_to_prop.
  set (k2 := set_ftab _ k1) in *. unfold getf. rewrite bind_get. unfold bind at 1, setf at 1, modify.
  assert (R3 : refs_ok (plus ext f (-1)) (set_ftab (upd (ftab k2) f (set_ref 0 (ftab k2 f))) k2)).
  { assert (E0 : f_ref (ftab k2 f) = 0) by (unfold k2; simpl; rewrite upd_same; simpl; lia).
    apply (refs_ok_setf _ k2 f (fun x => set_ref (f_ref x + 0) x) 0) in R2; [|done]. rewrite E0 in R2.
    eapply refs_ok_ext; [|exact R2]. intros f'. unfold plus. case_decide; lia. }
  eapply wp_quiet_bind; [apply quiet_setf; done|exact R3|]. intros _ k3 R4. apply wp_quiet; [|exact R4].
  destruct (f_type (ftab k2 f)); quiet_steps; apply quiet_kpipeclose.
Qed.

(** ** sysfile.c *)

Lemma argfd_spec n k :
  wpk (argfd n) k (fun r k' => k' = k /\
    match r with Some (fd, f) => (fd < NOFILE)%nat /\ ofile k fd = Some f | None => True end).
Proof.
  unfold argfd, argint, argraw, wp, bind, get, panic, ret. destruct (n <=? 5)%nat; [|done].
  destruct ((s32 (args k n) <? 0) || (Z.of_nat NOFILE <=? s32 (args k n)))%bool eqn:E; [done|]. bool_to_prop.
  destruct (ofile k (Z.to_nat (s32 (args k n)))) eqn:Eo; [|done]. split_and!; [done|lia|done].
Qed.

Lemma fdalloc_refs ext k f : (f < NFILE)%nat -> refs_ok ext k ->
  wpk (fdalloc f) k (fun fd k' =>
    if fd <? 0 then refs_ok ext k' /\ ofile k' = ofile k
    else refs_ok (plus ext f (-1)) k' /\ (Z.to_nat fd < NOFILE)%nat /\ ofile k (Z.to_nat fd) = None /\
         ofile k' = upd (ofile k) (Z.to_nat fd) (Some f)).
Proof.
  intros Hf R. unfold fdalloc. apply wp_bind.
  eapply wp_mono; [apply (wp_for_find _ _ (fun k' => k' = k) (fun fd k' => 0 <= fd /\ refs_ok (plus ext f (-1)) k' /\
    (Z.to_nat fd < NOFILE)%nat /\ ofile k (Z.to_nat fd) = None /\ ofile k' = upd (ofile k) (Z.to_nat fd) (Some f)))| |done]; [|done|].
  - intros fd k1 Hfd ->. apply elem_of_seq in Hfd. unfold wp. rewrite bind_get. destruct (ofile k fd) eqn:E; [done|].
    unfold setofile, bind, modify, ret. rewrite Nat2Z.id. split_and!; [lia| |lia|done|done].
    eapply refs_ok_ext; [|apply (refs_ok_setofile ext k fd (Some f)); [lia|by intros f' [= <-]|exact R]].
    intros f'. unfold plus, refers. rewrite E. repeat case_decide; simplify_eq; try lia; congruence.
  - intros [fd|] k1; unfold wp, ret; [|by intros ->]. intros (Hp & Hq).
    rewrite (proj2 (Z.ltb_ge _ _)) by done. exact Hq.
Qed.

(** Forget a descriptor: its reference is then held by the code alone. *)
Lemma clear_fd ext k fd f : (fd < NOFILE)%nat -> ofile k fd = Some f -> refs_ok ext k ->
  refs_ok (plus ext f 1) (set_ofile (upd (ofile k) fd None) k).
Proof.
  intros Hfd E R. eapply refs_ok_ext; [|apply (refs_ok_setofile ext k fd None Hfd); [done|exact R]].
  intros f'. unfold plus, refers. rewrite E. repeat case_decide; simplify_eq; try lia; congruence.
Qed.

Lemma plus_cancel ext f d f' : plus (plus ext f d) f (- d) f' = ext f'.
Proof. unfold plus. case_decide; lia. Qed.

(** A call keeps the counts right, whoever else holds references. *)
Definition keeps {A} (c : M kst A) : Prop := forall ext k, refs_ok ext k -> wpk c k (fun _ k' => refs_ok ext k').

Lemma keeps_quiet {A} (c : M kst A) : quiet c -> keeps c.
Proof. intros Hq ext k R. by apply wp_quiet. Qed.

Lemma sys_dup_keeps : keeps sys_dup.
Proof.
  intros ext k R. unfold sys_dup. apply wp_bind. eapply wp_mono; [apply argfd_spec| |done].
  intros [[fd f]|] k' [-> Hr]; [|done]. destruct Hr as [Hfd E]. pose proof (proj2 R fd f E) as Hf. apply wp_bind.
  eapply wp_mono; [by apply fdalloc_refs| |done]. intros nfd k1. cbv beta. destruct (nfd <? 0); intros Hr; [by apply (proj1 Hr)|].
  apply wp_bind. eapply wp_mono; [apply filedup_refs, Hr| |done]. intros x k2 R2.
  eapply refs_ok_ext; [|exact R2]. intros f'. unfold plus. case_decide; lia.
Qed.

Lemma sys_close_keeps : keeps sys_close.
Proof.
  intros ext k R. unfold sys_close. apply wp_bind. eapply wp_mono; [apply argfd_spec| |done].
  intros [[fd f]|] k' [-> Hr]; [|done]. destruct Hr as [Hfd E]. apply wp_bind. unfold setofile, wp at 1, modify.
  apply wp_bind. eapply wp_mono; [apply fileclose_refs, (clear_fd ext k fd f Hfd E R)| |done].
  intros x k2 R2. eapply refs_ok_ext; [apply (plus_cancel ext f 1)|exact R2].
Qed.

(** ** Calls that only read the table *)

Lemma quiet_fetchstr a b m : quiet (fetchstr a b m).
Proof. unfold fetchstr. quiet_steps. by apply quiet_modify. Qed.
Lemma quiet_fetchaddr a : quiet (fetchaddr a).
Proof. unfold fetchaddr. quiet_steps. Qed.
Lemma quiet_argraw n : quiet (argraw n).
Proof. unfold argraw. quiet_steps. Qed.
Lemma quiet_argint n : quiet (argint n).
Proof. unfold argint. apply quiet_bind; [apply quiet_argraw|quiet_steps]. Qed.
Lemma quiet_argstr n b m : quiet (argstr n b m).
Proof. unfold argstr, argaddr. apply quiet_bind; [apply quiet_argraw|intros; apply quiet_fetchstr]. Qed.
Lemma quiet_argfd n : quiet (argfd n).
Proof. unfold argfd. apply quiet_bind; [apply quiet_argint|quiet_steps]. Qed.
End counts.

#[export] Hint Resolve quiet_fetchstr quiet_fetchaddr quiet_argraw quiet_argint quiet_argstr quiet_argfd quiet_kpipeclose : quiet.
#[export] Hint Unfold argaddr namei_ nameiparent_ dirlink_ ip_ setip memory getf : quiet.

Section calls.
Context `{PageAlloc, UserCopy, UserStr}.
Implicit Types (k : kst) (ext : nat -> Z).
Context (devsw_read devsw_write : Z -> option (Z -> Z -> M kst Z)) (exec : Z -> list Z -> M kst Z).
Context (de1 de2 de name path path2 nbuf dot dotdot : Z).

(** Devices and exec do not touch descriptors. *)
Hypothesis Hread : forall d c a n, devsw_read d = Some c -> quiet (c a n).
Hypothesis Hwrite : forall d c a n, devsw_write d = Some c -> quiet (c a n).
Hypothesis Hexec : forall p argv, quiet (exec p argv).

Lemma quiet_device sw d a n : (forall d c a n, sw d = Some c -> quiet (c a n)) -> quiet (device sw d a n).
Proof. intros Hs. unfold device. case_match; [auto with quiet|]. destruct (sw d) eqn:E; [by eapply Hs|auto with quiet]. Qed.

Lemma quiet_fileread f a n : quiet (fileread devsw_read f a n).
Proof. unfold fileread, until_done, getf. quiet_steps. by apply quiet_device. Qed.

Lemma quiet_filewrite_loop f a n i fuel : quiet (filewrite_loop f a n i fuel).
Proof. revert i. induction fuel as [|fuel IH]; intros i; cbn [filewrite_loop]; unfold getf; quiet_steps. Qed.

Lemma quiet_filewrite f a n : quiet (filewrite devsw_write f a n).
Proof.
  unfold filewrite, until_done, getf. quiet_steps; [apply quiet_filewrite_loop|by apply quiet_device].
Qed.

Lemma quiet_filestat pad f a : quiet (filestat pad f a).
Proof. unfold filestat, getf. quiet_steps. Qed.

Lemma quiet_link_bad ip : quiet (link_bad ip).
Proof. unfold link_bad, setip. quiet_steps. Qed.

Lemma quiet_isdirempty_loop dp off fuel : quiet (isdirempty_loop de dp off fuel).
Proof. revert off. induction fuel as [|fuel IH]; intros off; cbn [isdirempty_loop]; unfold ip_, memory; quiet_steps. Qed.

Lemma quiet_isdirempty dp : quiet (isdirempty de dp).
Proof. unfold isdirempty, ip_. apply quiet_bind; [auto with quiet|]. intros. apply quiet_isdirempty_loop. Qed.

Lemma quiet_create p t ma mi : quiet (create de1 de2 name dot dotdot p t ma mi).
Proof. unfold create, create_fail, nameiparent_, dirlink_, ip_, setip. quiet_steps. Qed.

Lemma quiet_open_inode m : quiet (open_inode de1 de2 name path nbuf dot dotdot m).
Proof. unfold open_inode, namei_, ip_. quiet_steps; apply quiet_create. Qed.

Lemma quiet_make ok t ma mi : quiet (make de1 de2 name path dot dotdot ok t ma mi).
Proof. unfold make. quiet_steps; apply quiet_create. Qed.

Lemma quiet_free_args l : quiet (free_args l).
Proof. induction l; cbn [free_args]; quiet_steps. Qed.

Lemma quiet_exec_args u i l fuel : quiet (exec_args u i l fuel).
Proof. revert i l. induction fuel as [|fuel IH]; intros i l; cbn [exec_args]; quiet_steps. Qed.

Lemma refs_keeps_bind {A B} (c : M kst A) (d : A -> M kst B) : keeps c -> (forall a, keeps (d a)) -> keeps (bind c d).
Proof. intros Hc Hd ext k R. apply wp_bind. eapply wp_mono; [by apply Hc| |done]. intros a k' R'. by apply Hd. Qed.

Lemma open_file_keeps ip : keeps (open_file ip).
Proof.
  intros ext k R. unfold open_file. apply wp_bind. eapply wp_mono; [by apply filealloc_refs| |done].
  intros [f|] k1; cbv beta; [intros [Hf R1]|intros R1; by apply wp_quiet; [quiet_steps|]].
  apply wp_bind. eapply wp_mono; [by apply fdalloc_refs| |done]. intros fd k2. cbv beta. destruct (fd <? 0); intros [R2 _].
  - apply wp_bind. eapply wp_mono; [by apply fileclose_refs| |done]. intros x k3 R3. apply wp_quiet; [quiet_steps|].
    eapply refs_ok_ext; [apply (plus_cancel ext f 1)|exact R3].
  - eapply refs_ok_ext; [apply (plus_cancel ext f 1)|exact R2].
Qed.

Lemma sys_open_keeps : keeps (sys_open de1 de2 name path nbuf dot dotdot).
Proof.
  unfold sys_open. apply refs_keeps_bind; [apply keeps_quiet; auto with quiet|]. intros omode.
  apply refs_keeps_bind; [apply keeps_quiet; auto with quiet|]. intros n. destruct (n <? 0); [apply keeps_quiet; auto with quiet|].
  apply refs_keeps_bind; [apply keeps_quiet; auto with quiet|]. intros _.
  apply refs_keeps_bind; [apply keeps_quiet, quiet_open_inode|]. intros [ip|]; [|apply keeps_quiet; auto with quiet].
  apply refs_keeps_bind; [apply keeps_quiet; unfold ip_; auto with quiet|]. intros i. case_match; [apply keeps_quiet; quiet_steps|].
  apply refs_keeps_bind; [apply open_file_keeps|]. intros [[f fd]|]; apply keeps_quiet; quiet_steps.
Qed.

(** Both error paths of sys_pipe end with two closes. *)
Lemma close_two ext k rf wf : refs_ok (plus (plus ext rf 1) wf 1) k ->
  wp (fileclose rf ;;; fileclose wf ;;; ret (-1)) k (fun _ k' => refs_ok ext k') (fun _ => True).
Proof.
  intros R. apply wp_bind. eapply wp_mono; [by apply fileclose_refs| |done]. intros x k1 R1.
  apply wp_bind. eapply wp_mono; [eapply fileclose_refs, R1| |done]. intros y k2 R2.
  eapply refs_ok_ext; [|exact R2]. intros f. unfold plus. repeat case_decide; lia.
Qed.

Lemma pipealloc_refs fresh ext k : refs_ok ext k ->
  wp (pipealloc fresh) k (fun r k' => match r with
    | Some (a, b) => (a < NFILE)%nat /\ (b < NFILE)%nat /\ refs_ok (plus (plus ext a 1) b 1) k'
    | None => refs_ok ext k' end) (fun _ => True).
Proof.
  intros R. unfold pipealloc. apply wp_bind. eapply wp_mono; [by apply filealloc_refs| |done].
  intros [a|] k1; cbv beta; [intros [Ha R1]|done].
  apply wp_bind. eapply wp_mono; [by apply filealloc_refs| |done]. intros [b|] k2; cbv beta; [intros [Hb R2]|intros R2].
  - eapply wp_quiet_bind; [auto with quiet|exact R2|]. intros pi k3 R3. destruct (pi =? 0).
    + unfold pipealloc_bad. apply wp_bind. eapply wp_mono; [by apply fileclose_refs| |done]. intros x k4 R4.
      apply wp_bind. eapply wp_mono; [eapply fileclose_refs, R4| |done]. intros y k5 R5.
      eapply refs_ok_ext; [|exact R5]. intros f. unfold plus. repeat case_decide; lia.
    + eapply wp_quiet_bind; [by apply quiet_modify|exact R3|]. intros _ k4 R4.
      eapply wp_quiet_bind; [by apply quiet_setf|exact R4|]. intros _ k5 R5.
      eapply wp_quiet_bind; [by apply quiet_setf|exact R5|]. intros _ k6 R6. done.
  - unfold pipealloc_bad. apply wp_bind. eapply wp_mono; [by apply fileclose_refs| |done]. intros x k4 R4.
    eapply refs_ok_ext; [apply (plus_cancel ext a 1)|exact R4].
Qed.

Lemma wp_quiet_same {A} (c : M kst A) ext k : quiet c -> refs_ok ext k ->
  wp c k (fun _ k' => refs_ok ext k' /\ ofile k' = ofile k) (fun _ => True).
Proof.
  intros Hq R. pose proof (wp_quiet c ext k Hq R) as W. unfold wp in *. destruct (c k) eqn:E; try done.
  split; [done|apply (Hq _ _ _ E)].
Qed.

(** The end of sys_pipe once both descriptors are taken *)
Lemma pipe_deliver ext k rf wf fd0 fd1 (c : M kst Z) :
  quiet c -> refs_ok ext k -> (fd0 < NOFILE)%nat -> (fd1 < NOFILE)%nat -> fd0 <> fd1 ->
  ofile k fd0 = Some rf -> ofile k fd1 = Some wf ->
  wp (let! b := c in
      if b <? 0 then setofile fd0 None ;;; setofile fd1 None ;;; fileclose rf ;;; fileclose wf ;;; ret (-1)
      else ret 0) k (fun _ k' => refs_ok ext k') (fun _ => True).
Proof.
  intros Hq R H0' H1' Hne E0 E1. apply wp_bind. eapply wp_mono; [by apply wp_quiet_same| |done].
  intros b k1 [R1 O1]. destruct (b <? 0); [|exact R1].
  unfold setofile, bind at 1 2, modify. change (wp (fileclose rf ;;; fileclose wf ;;; ret (-1))
    (set_ofile (upd (ofile (set_ofile (upd (ofile k1) fd0 None) k1)) fd1 None) (set_ofile (upd (ofile k1) fd0 None) k1))
    (fun _ k' => refs_ok ext k') (fun _ => True)).
  apply close_two, clear_fd; [done| |].
  - cbn [ofile set_ofile]. by rewrite upd_other, O1 by done.
  - apply clear_fd; [done| |done]. by rewrite O1.
Qed.

Lemma sys_pipe_keeps fresh : keeps (sys_pipe fresh).
Proof.
  intros ext k R. unfold sys_pipe. eapply wp_quiet_bind; [unfold argaddr; auto with quiet|exact R|]. intros fdarray k0 R0.
  apply wp_bind. eapply wp_mono; [by apply pipealloc_refs| |done].
  intros [[rf wf]|] k1; cbv beta; [intros (Hrf & Hwf & R1)|done].
  apply wp_bind. eapply wp_mono; [apply (fdalloc_refs _ _ rf Hrf R1)| |done]. intros fd0 k2. cbv beta.
  destruct (fd0 <? 0) eqn:E0.
  - intros [R2 _]. apply wp_bind. cbn [negb]. unfold wp at 1, ret at 1. simpl. by apply close_two.
  - intros (R2 & Hn0 & _ & O2). apply wp_bind. eapply wp_mono; [apply (fdalloc_refs _ _ wf Hwf R2)| |done].
    intros fd1 k3. cbv beta. destruct (fd1 <? 0) eqn:E1.
    + intros [R3 O3]. cbn [negb]. unfold setofile, bind at 1, modify.
      change (wp (fileclose rf ;;; fileclose wf ;;; ret (-1)) (set_ofile (upd (ofile k3) (Z.to_nat fd0) None) k3)
        (fun _ k' => refs_ok ext k') (fun _ => True)).
      apply close_two. eapply refs_ok_ext; [|apply (clear_fd (plus (plus (plus ext rf 1) wf 1) rf (-1)) k3 (Z.to_nat fd0) rf Hn0); [by rewrite O3, O2, upd_same|exact R3]].
      intros f. unfold plus. repeat case_decide; lia.
    + intros (R3 & Hn1 & Hfree & O3).
      assert (Hne : Z.to_nat fd0 <> Z.to_nat fd1) by (intros E; rewrite O2, E, upd_same in Hfree; done).
      assert (R3' : refs_ok ext k3).
      { eapply refs_ok_ext; [|exact R3]. intros f. unfold plus. repeat case_decide; lia. }
      apply wp_bind. eapply wp_mono; [apply (wp_quiet_same _ _ _ (quiet_liftf _) R3')| |done]. intros a k4 [R4 O4].
      apply pipe_deliver; try done; [quiet_steps|by rewrite O4, O3, upd_other, O2, upd_same by done|by rewrite O4, O3, upd_same].
Qed.

(** C11: Every file system call keeps the reference counts of open files right:
    if the count of each entry of the file table is the number of descriptors of
    the process that refer to it plus the references held elsewhere, this is so
    again when the call returns, on success and on every error path. *)
Theorem file_references_counted pad fresh :
  keeps sys_dup /\ keeps sys_close /\ keeps (sys_open de1 de2 name path nbuf dot dotdot) /\ keeps (sys_pipe fresh) /\
  keeps (sys_read devsw_read) /\ keeps (sys_write devsw_write) /\ keeps (sys_fstat pad) /\
  keeps (sys_link de1 de2 name path path2 nbuf) /\ keeps (sys_unlink de1 de name path dot dotdot) /\
  keeps (sys_mkdir de1 de2 name path dot dotdot) /\ keeps (sys_mknod de1 de2 name path dot dotdot) /\
  keeps (sys_chdir de1 path nbuf) /\ keeps (sys_exec path exec).
Proof.
  split_and!; [apply sys_dup_keeps|apply sys_close_keeps|apply sys_open_keeps|apply sys_pipe_keeps|..]; apply keeps_quiet.
  - unfold sys_read, argaddr. quiet_steps. apply quiet_fileread.
  - unfold sys_write, argaddr. quiet_steps. apply quiet_filewrite.
  - unfold sys_fstat, argaddr. quiet_steps. apply quiet_filestat.
  - unfold sys_link, namei_, nameiparent_, dirlink_, ip_, setip. quiet_steps; apply quiet_link_bad.
  - unfold sys_unlink, unlink_bad, nameiparent_, ip_, setip, memory. quiet_steps; apply quiet_isdirempty.
  - unfold sys_mkdir. quiet_steps. apply quiet_make.
  - unfold sys_mknod. quiet_steps. apply quiet_make.
  - unfold sys_chdir, namei_, ip_, set_cwd. quiet_steps. by apply quiet_modify.
  - unfold sys_exec, argaddr. quiet_steps; first [apply quiet_exec_args|apply quiet_free_args].
Qed.
End calls.

(** A process with descriptor 0 open duplicates it. *)
Module RefExample.
#[export] Instance no_strings : UserStr := { user_str := fun m _ _ _ => (m, -1) }.
#[export] Instance no_pages : PageAlloc := { pages := unit; page_alloc := ret 0; page_free := fun _ => ret tt }.
Definition file_open : file := MkFile FD_INODE 1 1 0 0 0 0 0.
Definition fs0 : fst := MkF (MkTx (fun _ => zero_block) [] [] []) (MkSb 0 0 0 0 0 0 0 0) (fun _ => inode0) (fun _ => 0) [] 1 [] 0.
Definition before : kst :=
  MkKst fs0 0 (upd (fun _ => file0) 0%nat file_open) (fun _ => pipe_init []) tt (upd (fun _ => None) 0%nat (Some 0%nat)) 0 (fun _ => 0) 0.
End RefExample.

Lemma before_ok : refs_ok (fun _ => 0) RefExample.before.
Proof.
  split.
  - intros [|f]; vm_compute; reflexivity.
  - intros [|fd] f E; [|by vm_compute in E]. injection E as <-. unfold NFILE. lia.
Qed.

Lemma file_references_counted_witness :
  exists k, @sys_dup RefExample.no_pages RefExample.before = Ret 1 k /\ refs_ok (fun _ => 0) k /\ f_ref (ftab k 0) = 2.
Proof.
  destruct (@file_references_counted RefExample.no_pages PipeExample.flat RefExample.no_strings
    (fun _ => None) (fun _ => None) (fun _ _ => ret 0) 0 0 0 0 0 0 0 0 0
    ltac:(done) ltac:(done) ltac:(intros; apply quiet_ret) [] []) as [D _].
  assert (E : exists k, @sys_dup RefExample.no_pages RefExample.before = Ret 1 k /\ f_ref (ftab k 0) = 2)
    by (eexists; split; vm_compute; reflexivity).
  destruct E as (k & E & E2). exists k. split; [exact E|]. split; [|exact E2].
  specialize (D (fun _ => 0) RefExample.before before_ok). unfold wp in D. rewrite E in D. exact D.
Defined.
