(* ===== verification/Shell.v ===== *)
(** The command parser of the shell, [src/xv6-riscv/user/sh.c].

    The line is a list of characters without NUL, followed in its buffer by one;
    the pointers s, q, eq are indices, es is the length, and *ps is the state of
    the parser monad.  Running out of fuel is an outcome of its own, and
    [parsecmd_correct] shows that it does not happen. *)

From stdpp Require Import base list strings.
From S2P Require Import Prelude.

Definition MAXARGS : nat := 10.
Definition O_RDONLY : Z := 0x000.
Definition O_WRONLY : Z := 0x001.
Definition O_CREATE : Z := 0x200.
Definition O_TRUNC : Z := 0x400.

(** struct execcmd, redircmd, pipecmd, listcmd, backcmd; a string is the pair of
    its start and end. *)
Inductive cmd :=
| EXEC (argv : list (nat * nat))
| REDIR (c : cmd) (file : nat * nat) (mode fd : Z)
| PIPE (l r : cmd)
| LIST (l r : cmd)
| BACK (c : cmd).

(** " \t\r\n\v" and "<|>&;()" *)
Definition whitespace : list Z := [32; 9; 13; 10; 11].
Definition symbols : list Z := [60; 124; 62; 38; 59; 40; 41].

(** strchr(set, c) of ulib.c, as a test; it does not find the NUL. *)
Fixpoint strchr (set : list Z) (c : Z) : bool :=
  match set with
  | [] => false
  | x :: set => if x =? c then true else strchr set c
  end.

Section parser.
Context (line : list Z).

Definition es : nat := length line.
Definition at_ (s : nat) : Z := nth s line 0.

(** while(s < es && strchr(whitespace, *s)) s++; *)
Fixpoint skip_ws (s fuel : nat) : nat :=
  match fuel with
  | O => s
  | S fuel => if (bool_decide (s < es)%nat && strchr whitespace (at_ s))%bool then skip_ws (S s) fuel else s
  end.
Definition ws (s : nat) : nat := skip_ws s (es - s).

(** while(s < es && !strchr(whitespace, *s) && !strchr(symbols, *s)) s++; *)
Fixpoint skip_word (s fuel : nat) : nat :=
  match fuel with
  | O => s
  | S fuel =>
      if (bool_decide (s < es)%nat && negb (strchr whitespace (at_ s)) && negb (strchr symbols (at_ s)))%bool
      then skip_word (S s) fuel else s
  end.

(** The token, its start and its end *)
Definition gettoken : M nat (Z * (nat * nat)) := fun s0 =>
  let q := ws s0 in
  let c := at_ q in
  let '(ret, eq) :=
    if c =? 0 then (0, q)
    else if strchr [124; 40; 41; 59; 38; 60] c then (c, S q)
    else if c =? 62 then if at_ (S q) =? 62 then (43, S (S q)) else (62, S q)
    else (97, skip_word q (es - q)) in
  Ret (ret, (q, eq)) (ws eq).

Definition peek (toks : list Z) : M nat bool := fun s0 =>
  let s := ws s0 in Ret (negb (at_ s =? 0) && strchr toks (at_ s))%bool s.

(** parseredirs: the redirections found, innermost first *)
Fixpoint parseredirs (fuel : nat) : M nat (list ((nat * nat) * Z * Z)) :=
  match fuel with
  | O => out_of_fuel
  | S fuel =>
      let! p := peek [60; 62] in
      if (p : bool) then
        let! t := gettoken in
        let! w := gettoken in
        if negb (w.1 =? 97) then panic "missing file for redirection"
        else
          let r := if t.1 =? 60 then (w.2, O_RDONLY, 0)
                   else if t.1 =? 62 then (w.2, Z.lor (Z.lor O_WRONLY O_CREATE) O_TRUNC, 1)
                   else (w.2, Z.lor O_WRONLY O_CREATE, 1) in
          let! rs := parseredirs fuel in
          ret (r :: rs)
      else ret []
  end.

(** cmd = redircmd(cmd, ...) for each *)
Definition redirect (rs : list ((nat * nat) * Z * Z)) (c : cmd) : cmd :=
  foldl (fun c r => REDIR c r.1.1 r.1.2 r.2) c rs.

(** The argument loop of parseexec: arguments and redirections so far *)
Fixpoint parseargs (argv : list (nat * nat)) (rs : list ((nat * nat) * Z * Z)) (fuel : nat) : M nat cmd :=
  match fuel with
  | O => out_of_fuel
  | S fuel =>
      let! p := peek [124; 41; 38; 59] in
      if (p : bool) then ret (redirect rs (EXEC argv))
      else
        let! t := gettoken in
        if t.1 =? 0 then ret (redirect rs (EXEC argv))
        else if negb (t.1 =? 97) then panic "syntax"
        else
          let argv := argv ++ [t.2] in
          if (MAXARGS <=? length argv)%nat then panic "too many args"
          else
            let! more := parseredirs (S es) in
            parseargs argv (rs ++ more) fuel
  end.

(** while(peek(ps, es, "&")) of parseline *)
Fixpoint parsebacks (c : cmd) (fuel : nat) : M nat cmd :=
  match fuel with
  | O => out_of_fuel
  | S fuel =>
      let! p := peek [38] in
      if (p : bool) then let! _ := gettoken in parsebacks (BACK c) fuel else ret c
  end.

Fixpoint parseline (fuel : nat) : M nat cmd :=
  match fuel with
  | O => out_of_fuel
  | S fuel =>
      let! c := parsepipe fuel in
      let! c := parsebacks c (S es) in
      let! p := peek [59] in
      if (p : bool) then
        let! _ := gettoken in
        let! r := parseline fuel in
        ret (LIST c r)
      else ret c
  end
with parsepipe (fuel : nat) : M nat cmd :=
  match fuel with
  | O => out_of_fuel
  | S fuel =>
      let! c := parseexec fuel in
      let! p := peek [124] in
      if (p : bool) then
        let! _ := gettoken in
        let! r := parsepipe fuel in
        ret (PIPE c r)
      else ret c
  end
with parseexec (fuel : nat) : M nat cmd :=
  match fuel with
  | O => out_of_fuel
  | S fuel =>
      let! p := peek [40] in
      if (p : bool) then parseblock fuel
      else
        let! rs := parseredirs (S es) in
        parseargs [] rs (S es)
  end
with parseblock (fuel : nat) : M nat cmd :=
  match fuel with
  | O => out_of_fuel
  | S fuel =>
      let! p := peek [40] in
      if negb p then panic "parseblock"
      else
        let! _ := gettoken in
        let! c := parseline fuel in
        let! p := peek [41] in
        if negb p then panic "syntax - missing )"
        else
          let! _ := gettoken in
          let! rs := parseredirs (S es) in
          ret (redirect rs c)
  end.

(** Nesting uses a character per four calls. *)
Definition parse_fuel : nat := (4 * es + 4)%nat.

(** [buf] is the buffer: the line and its NUL. *)
Fixpoint nulterminate (c : cmd) (buf : list Z) : list Z :=
  match c with
  | EXEC argv => foldl (fun b w => <[w.2 := 0]> b) buf argv
  | REDIR c f _ _ => <[f.2 := 0]> (nulterminate c buf)
  | PIPE l r => nulterminate r (nulterminate l buf)
  | LIST l r => nulterminate r (nulterminate l buf)
  | BACK c => nulterminate c buf
  end.

(** The command and the buffer afterwards *)
Definition parsecmd : M nat (cmd * list Z) :=
  let! c := parseline parse_fuel in
  let! _ := peek [] in
  let! s := get (fun s => s) in
  if negb (s =? es)%nat then panic "syntax"
  else ret (c, nulterminate c (line ++ [0])).
End parser.

(** "ls>x a;(b|c)&" *)
Example parse_example :
  match parsecmd [108; 115; 62; 120; 32; 97; 59; 40; 98; 124; 99; 41; 38] 0%nat with
  | Ret (c, _) _ => Some c
  | _ => None
  end = Some (LIST (REDIR (EXEC [(0, 2); (5, 6)]%nat) (3, 4)%nat 0x601 1)
    (BACK (PIPE (EXEC [(8, 9)]%nat) (EXEC [(10, 11)]%nat)))).
Proof. reflexivity. Qed.

(** ** Correctness *)

Section correct.
Context (line : list Z).
Abbreviation es := (es line).
Abbreviation at_ := (at_ line).
Abbreviation ws := (ws line).

(** The messages of syntax errors; "parseblock" is not one of them. *)
Definition messages : list string :=
  ["syntax"; "missing file for redirection"; "too many args"; "syntax - missing )"]%string.

(** c returns with Q or stops with an error message; it does not run out of fuel. *)
Definition runs {A} (c : M nat A) (s : nat) (Q : A -> nat -> Prop) : Prop :=
  match c s with Ret a s' => Q a s' | Panic msg => msg ∈ messages | _ => False end.

Lemma runs_bind {A B} (c : M nat A) (k : A -> M nat B) s (Q : A -> nat -> Prop) R :
  runs c s Q -> (forall a s', Q a s' -> runs (k a) s' R) -> runs (bind c k) s R.
Proof. unfold runs, bind. destruct (c s) eqn:E; try done. intros Hq Hk. by apply Hk. Qed.

Lemma runs_mono {A} (c : M nat A) s (Q R : A -> nat -> Prop) : runs c s Q -> (forall a s', Q a s' -> R a s') -> runs c s R.
Proof. unfold runs. destruct (c s); auto. Qed.

Lemma runs_panic {A} msg s (Q : A -> nat -> Prop) : msg ∈ messages -> runs (panic msg) s Q.
Proof. done. Qed.

Lemma runs_eq {A B} (c : M nat A) (k : A -> M nat B) s a s' R : c s = Ret a s' -> runs (k a) s' R -> runs (bind c k) s R.
Proof. intros E Hk. unfold runs. by rewrite (bind_ret_intro _ _ _ _ _ E). Qed.

Ltac syntax_error := apply runs_panic, (bool_decide_unpack _); vm_compute; exact I.

(** *** Tokens *)

Definition wordch (c : Z) : bool := (negb (strchr whitespace c) && negb (strchr symbols c))%bool.

(** A longest run of word characters, not empty *)
Definition word (w : nat * nat) : Prop :=
  (w.1 < w.2 <= es)%nat /\ (forall i, (w.1 <= i < w.2)%nat -> wordch (at_ i) = true) /\
  (w.2 = es \/ wordch (at_ w.2) = false).

Lemma at_end s : (es <= s)%nat -> at_ s = 0.
Proof. intros. by apply nth_overflow. Qed.
Lemma at_inside s : at_ s <> 0 -> (s < es)%nat.
Proof. intros H. destruct (decide (s < es)%nat); [done|]. destruct H. apply at_end. lia. Qed.

Lemma skip_ws_spec s fuel : (s <= es)%nat -> (es - s <= fuel)%nat ->
  (s <= skip_ws line s fuel <= es)%nat /\
  (skip_ws line s fuel = es \/ strchr whitespace (at_ (skip_ws line s fuel)) = false).
Proof.
  revert s. induction fuel as [|fuel IH]; intros s Hs Hf; cbn [skip_ws]; [split; [lia|left; lia]|].
  destruct (decide (s < es)%nat) as [Hlt|Hge].
  - rewrite bool_decide_eq_true_2 by done. cbn [andb]. destruct (strchr whitespace (at_ s)) eqn:E.
    + destruct (IH (S s)) as [H1 H2]; [lia|lia|]. split; [lia|done].
    + split; [lia|by right].
  - rewrite bool_decide_eq_false_2 by done. cbn [andb]. split; [lia|left; lia].
Qed.

Lemma ws_spec s : (s <= es)%nat -> (s <= ws s <= es)%nat /\ (ws s = es \/ strchr whitespace (at_ (ws s)) = false).
Proof. intros. by apply skip_ws_spec. Qed.

Lemma ws_id s : (s <= es)%nat -> ws (ws s) = ws s.
Proof.
  intros Hs. destruct (ws_spec s Hs) as [H1 H2]. unfold Shell.ws at 1. destruct (es - ws s)%nat eqn:E; [done|].
  cbn [skip_ws]. destruct H2 as [H2|H2]; [lia|]. rewrite H2. by rewrite andb_false_r.
Qed.

Lemma skip_word_spec s fuel : (s <= es)%nat -> (es - s <= fuel)%nat ->
  let e := skip_word line s fuel in
  (s <= e <= es)%nat /\ (forall i, (s <= i < e)%nat -> wordch (at_ i) = true) /\ (e = es \/ wordch (at_ e) = false).
Proof.
  revert s. induction fuel as [|fuel IH]; intros s Hs Hf; cbn [skip_word]; [split_and!; [lia|lia|lia|left; lia]|].
  destruct (decide (s < es)%nat) as [Hlt|Hge].
  - rewrite bool_decide_eq_true_2 by done. cbn [andb].
    change (negb (strchr whitespace (at_ s)) && negb (strchr symbols (at_ s)))%bool with (wordch (at_ s)).
    destruct (wordch (at_ s)) eqn:E.
    + destruct (IH (S s)) as (H1 & H2 & H3); [lia|lia|]. split_and!; [lia|lia| |done].
      intros i Hi. destruct (decide (i = s)) as [->|]; [done|]. apply H2. lia.
    + split_and!; [lia|lia|intros; lia|by right].
  - rewrite bool_decide_eq_false_2 by done. cbn [andb]. split_and!; [lia|lia|intros; lia|left; lia].
Qed.

Lemma symbols_split c : strchr [124; 40; 41; 59; 38; 60] c = false -> (c =? 62) = false -> strchr symbols c = false.
Proof.
  unfold symbols. cbn [strchr]. intros H H62. rewrite (Z.eqb_sym 62), H62. revert H.
  repeat match goal with |- context [if ?b then _ else _] => destruct b end; done.
Qed.

Lemma peek_spec toks s : (s <= es)%nat ->
  runs (peek line toks) s (fun b s' => (s <= s' <= es)%nat /\ (b = true -> at_ (ws s') <> 0 /\ strchr toks (at_ (ws s')) = true)).
Proof.
  intros Hs. destruct (ws_spec s Hs) as [H1 H2]. unfold runs, peek. split; [done|]. rewrite ws_id by done.
  intros [E1 E2]%andb_true_iff. apply negb_true_iff, Z.eqb_neq in E1. done.
Qed.

Lemma peek_true toks s : at_ (ws s) <> 0 -> strchr toks (at_ (ws s)) = true -> peek line toks s = Ret true (ws s).
Proof. intros H1 H2. unfold peek. by rewrite (proj2 (Z.eqb_neq _ _) H1), H2. Qed.

Lemma gettoken_spec s : (s <= es)%nat ->
  runs (gettoken line) s (fun t s' => (s <= s' <= es)%nat /\ (t.1 = 97 -> word t.2) /\ (t.1 <> 0 -> (s < s')%nat) /\
    (at_ (ws s) <> 0 -> (s < s')%nat)).
Proof.
  intros Hs. destruct (ws_spec s Hs) as [Hq Hw]. unfold runs, gettoken. set (q := ws s) in *.
  destruct (at_ q =? 0) eqn:E0; [apply Z.eqb_eq in E0|apply Z.eqb_neq in E0; pose proof (at_inside q E0) as Hlt].
  { destruct (ws_spec q) as [H1 _]; [lia|]. cbn [fst snd]. split_and!; try lia; done. }
  destruct (strchr [124; 40; 41; 59; 38; 60] (at_ q)) eqn:E1.
  { destruct (ws_spec (S q)) as [H1 _]; [lia|]. cbn [fst snd]. split_and!; try lia. intros E. by rewrite E in E1. }
  destruct (at_ q =? 62) eqn:E2.
  { destruct (at_ (S q) =? 62) eqn:E3.
    - apply Z.eqb_eq in E3. assert (S q < es)%nat by (apply at_inside; lia).
      destruct (ws_spec (S (S q))) as [H1 _]; [lia|]. cbn [fst snd]. split_and!; try lia; done.
    - destruct (ws_spec (S q)) as [H1 _]; [lia|]. cbn [fst snd]. split_and!; try lia; done. }
  destruct (skip_word_spec q (es - q)) as (H1 & H2 & H3); [lia|lia|]. set (e := skip_word line q (es - q)) in *.
  assert (Hc : wordch (at_ q) = true).
  { unfold wordch. rewrite (symbols_split _ E1 E2). destruct Hw as [Hw| ->]; [lia|done]. }
  assert (Hqe : (q < e)%nat) by (destruct H3 as [H3|H3]; [lia|destruct (decide (q = e)) as [Eq|]; [rewrite <- Eq in H3; congruence|lia]]).
  destruct (ws_spec e) as [H4 _]; [lia|]. cbn [fst snd]. split_and!; try lia. intros _. unfold word. cbn [fst snd]. split_and!; try lia; done.
Qed.

(** *** Commands *)

Fixpoint words (c : cmd) : list (nat * nat) :=
  match c with
  | EXEC argv => argv
  | REDIR c f _ _ => words c ++ [f]
  | PIPE l r | LIST l r => words l ++ words r
  | BACK c => words c
  end.

Fixpoint args_ok (c : cmd) : Prop :=
  match c with
  | EXEC argv => (length argv < MAXARGS)%nat
  | REDIR c _ _ _ | BACK c => args_ok c
  | PIPE l r | LIST l r => args_ok l /\ args_ok r
  end.

Definition cmd_ok (c : cmd) : Prop := Forall word (words c) /\ args_ok c.
Definition redirs_ok (rs : list ((nat * nat) * Z * Z)) : Prop := Forall (fun r => word r.1.1) rs.

Lemma redirect_ok rs c : redirs_ok rs -> cmd_ok c -> cmd_ok (redirect rs c).
Proof.
  revert c. induction rs as [|r rs IH]; intros c Hr Hc; [done|]. apply Forall_cons in Hr as [H1 H2].
  apply IH; [done|]. destruct Hc as [Hw Ha]. split; [|done]. apply Forall_app_2; [done|by constructor].
Qed.

Lemma two_ok l r (f : cmd -> cmd -> cmd) : f = PIPE \/ f = LIST -> cmd_ok l -> cmd_ok r -> cmd_ok (f l r).
Proof. intros [-> | ->] [H1 H2] [H3 H4]; (split; [by apply Forall_app_2|done]). Qed.

Lemma parseredirs_spec fuel s : (s <= es)%nat -> (es - s < fuel)%nat ->
  runs (parseredirs line fuel) s (fun rs s' => (s <= s' <= es)%nat /\ redirs_ok rs).
Proof.
  revert s. induction fuel as [|fuel IH]; intros s Hs Hf; [lia|]. cbn [parseredirs].
  eapply runs_bind; [by apply peek_spec|]. intros [] s1 [H1 H2]; [|split; [lia|constructor]]. destruct (H2 eq_refl) as [H3 _].
  eapply runs_bind; [apply gettoken_spec; lia|]. intros t s2 (H4 & _ & _ & H5). specialize (H5 H3).
  eapply runs_bind; [apply gettoken_spec; lia|]. intros w s3 (H6 & H7 & _).
  destruct (w.1 =? 97) eqn:Ew; cbn [negb]; [apply Z.eqb_eq in Ew|syntax_error].
  eapply runs_bind; [apply IH; lia|]. intros rs s4 [H8 H9]. split; [lia|]. constructor; [|done].
  destruct (t.1 =? 60), (t.1 =? 62); by apply H7.
Qed.

Lemma parseargs_spec fuel argv rs s : (s <= es)%nat -> (es - s < fuel)%nat ->
  Forall word argv -> (length argv < MAXARGS)%nat -> redirs_ok rs ->
  runs (parseargs line argv rs fuel) s (fun c s' => (s <= s' <= es)%nat /\ cmd_ok c).
Proof.
  revert argv rs s. induction fuel as [|fuel IH]; intros argv rs s Hs Hf Ha Hl Hr; [lia|]. cbn [parseargs].
  eapply runs_bind; [by apply peek_spec|]. intros [] s1 [H1 H2]; [split; [lia|]; by apply redirect_ok|].
  eapply runs_bind; [apply gettoken_spec; lia|]. intros t s2 (H4 & H5 & H6 & _).
  destruct (t.1 =? 0) eqn:E0; [split; [lia|]; by apply redirect_ok|]. apply Z.eqb_neq in E0.
  destruct (t.1 =? 97) eqn:Ew; cbn [negb]; [apply Z.eqb_eq in Ew|syntax_error].
  destruct (MAXARGS <=? length (argv ++ [t.2]))%nat eqn:El; [syntax_error|]. apply Nat.leb_gt in El.
  eapply runs_bind; [apply parseredirs_spec; [lia|apply Nat.lt_succ_r; unfold Shell.es; lia]|]. intros more s3 [H7 H8].
  specialize (H6 E0). eapply runs_mono; [apply IH; [lia|lia| |done|]|].
  - apply Forall_app_2; [done|]. constructor; [by apply H5|done].
  - by apply Forall_app_2.
  - intros c s4 [H9 H10]. split; [lia|done].
Qed.

Lemma parsebacks_spec c fuel s : (s <= es)%nat -> (es - s < fuel)%nat -> cmd_ok c ->
  runs (parsebacks line c fuel) s (fun c s' => (s <= s' <= es)%nat /\ cmd_ok c).
Proof.
  revert c s. induction fuel as [|fuel IH]; intros c s Hs Hf Hc; [lia|]. cbn [parsebacks].
  eapply runs_bind; [by apply peek_spec|]. intros [] s1 [H1 H2]; [|split; [lia|done]]. destruct (H2 eq_refl) as [H3 _].
  eapply runs_bind; [apply gettoken_spec; lia|]. intros t s2 (H4 & _ & _ & H5). specialize (H5 H3).
  eapply runs_mono; [apply IH; [lia|lia|done]|]. intros c' s3 [H6 H7]. split; [lia|done].
Qed.

(** With four units of fuel per character left, each of the four functions
    returns a well-formed command and does not move back. *)
Definition parses (p : nat -> M nat cmd) (k fuel : nat) : Prop :=
  forall s, (s <= es)%nat -> (4 * (es - s) + k <= fuel)%nat ->
    runs (p fuel) s (fun c s' => (s <= s' <= es)%nat /\ cmd_ok c).

Lemma parse_all fuel :
  parses (parseline line) 4 fuel /\ parses (parsepipe line) 3 fuel /\ parses (parseexec line) 2 fuel /\
  (forall s, (s <= es)%nat -> at_ (ws s) <> 0 -> strchr [40] (at_ (ws s)) = true -> (4 * (es - s) + 1 <= fuel)%nat ->
     runs (parseblock line fuel) s (fun c s' => (s <= s' <= es)%nat /\ cmd_ok c)).
Proof.
  induction fuel as [|fuel (IHl & IHp & IHe & IHb)]; [split_and!; try (intros s Hs Hf; lia); intros s Hs _ _ Hf; lia|]. split_and!.
  - intros s Hs Hf. cbn [parseline]. eapply runs_bind; [apply IHp; lia|]. intros c s1 [H1 C1].
    eapply runs_bind; [apply parsebacks_spec; [lia|lia|done]|]. intros c2 s2 [H2 C2].
    eapply runs_bind; [apply peek_spec; lia|]. intros [] s3 [H3 H4]; [|split; [lia|done]]. destruct (H4 eq_refl) as [H5 _].
    eapply runs_bind; [apply gettoken_spec; lia|]. intros t s4 (H6 & _ & _ & H7). specialize (H7 H5).
    eapply runs_bind; [apply IHl; lia|]. intros r s5 [H8 C5]. split; [lia|]. by apply (two_ok _ _ LIST); [right|..].
  - intros s Hs Hf. cbn [parsepipe]. eapply runs_bind; [apply IHe; lia|]. intros c s1 [H1 C1].
    eapply runs_bind; [apply peek_spec; lia|]. intros [] s3 [H3 H4]; [|split; [lia|done]]. destruct (H4 eq_refl) as [H5 _].
    eapply runs_bind; [apply gettoken_spec; lia|]. intros t s4 (H6 & _ & _ & H7). specialize (H7 H5).
    eapply runs_bind; [apply IHp; lia|]. intros r s5 [H8 C5]. split; [lia|]. by apply (two_ok _ _ PIPE); [left|..].
  - intros s Hs Hf. cbn [parseexec]. eapply runs_bind; [by apply peek_spec|]. intros [] s1 [H1 H2].
    + destruct (H2 eq_refl) as [H3 H4]. eapply runs_mono; [apply IHb; [lia|done|done|lia]|]. intros c s2 [H5 C]. split; [lia|done].
    + eapply runs_bind; [apply parseredirs_spec; lia|]. intros rs s2 [H3 R].
      eapply runs_mono; [apply parseargs_spec; [lia|lia|constructor|unfold MAXARGS; simpl; lia|done]|]. intros c s3 [H4 C]. split; [lia|done].
  - intros s Hs Hn Hb Hf. cbn [parseblock]. destruct (ws_spec s Hs) as [Hw _].
    eapply runs_eq; [by apply peek_true|]. cbn [negb].
    eapply runs_bind; [apply gettoken_spec; lia|]. intros t s2 (H2 & _ & _ & H3). rewrite ws_id in H3 by done. specialize (H3 Hn).
    eapply runs_bind; [apply IHl; lia|]. intros c s3 [H4 C]. eapply runs_bind; [apply peek_spec; lia|]. intros [] s4 [H5 H6]; cbn [negb]; [|syntax_error].
    eapply runs_bind; [apply gettoken_spec; lia|]. intros t' s5 (H7 & _). eapply runs_bind; [apply parseredirs_spec; lia|].
    intros rs s6 [H8 R]. split; [lia|]. by apply redirect_ok.
Qed.

(** *** The strings in the buffer *)

(** The C string at q *)
Fixpoint c_string (l : list Z) : list Z :=
  match l with
  | [] => []
  | x :: l => if x =? 0 then [] else x :: c_string l
  end.

Definition text (w : nat * nat) : list Z := take (w.2 - w.1) (drop w.1 line).

(** Bytes of words stay, ends of words become NUL. *)
Definition cut (buf buf' : list Z) (ends : list nat) : Prop :=
  length buf' = length buf /\ (forall i, i ∉ ends -> nth i buf' 0 = nth i buf 0) /\
  (forall i, i ∈ ends -> nth i buf' 0 = 0).

Lemma cut_trans b1 b2 b3 l1 l2 : cut b1 b2 l1 -> cut b2 b3 l2 -> cut b1 b3 (l1 ++ l2).
Proof.
  intros (L1 & K1 & Z1) (L2 & K2 & Z2). split_and!; [congruence|..].
  - intros i Hi. rewrite elem_of_app in Hi. rewrite K2, K1; tauto.
  - intros i [Hi|Hi]%elem_of_app; [|by apply Z2]. destruct (decide (i ∈ l2)); [by apply Z2|]. rewrite K2 by done. by apply Z1.
Qed.

Lemma cut_insert buf e : cut buf (<[e := 0]> buf) [e].
Proof.
  split_and!; [apply length_insert|..].
  - intros i Hi. rewrite list_elem_of_singleton in Hi. rewrite !nth_lookup. by rewrite list_lookup_insert_ne by done.
  - intros i ->%list_elem_of_singleton. rewrite nth_lookup. destruct (decide (e < length buf)%nat).
    + by rewrite list_lookup_insert_eq.
    + rewrite list_insert_ge by lia. rewrite lookup_ge_None_2 by lia. done.
Qed.

Lemma nulterminate_cut c buf : cut buf (nulterminate c buf) (snd <$> words c).
Proof.
  revert buf. induction c as [argv|c IH f mo fd|l IHl r IHr|l IHl r IHr|c IH]; intros buf; cbn [nulterminate words].
  - revert buf. induction argv as [|w argv IH]; intros buf; cbn [foldl fmap list_fmap]; [by split_and!; [..|intros i ?%elem_of_nil]|].
    exact (cut_trans _ _ _ [w.2] _ (cut_insert buf w.2) (IH _)).
  - rewrite fmap_app. eapply cut_trans; [apply IH|apply cut_insert].
  - rewrite fmap_app. by eapply cut_trans.
  - rewrite fmap_app. by eapply cut_trans.
  - apply IH.
Qed.

Lemma c_string_take n l : (forall i, (i < n)%nat -> nth i l 0 <> 0) -> (n <= length l)%nat -> nth n l 0 = 0 -> c_string l = take n l.
Proof.
  revert l. induction n as [|n IH]; intros l Hi Hn Hz.
  - destruct l as [|x l]; [done|]. cbn [c_string take]. simpl in Hz. by rewrite Hz.
  - destruct l as [|x l]; [simpl in Hn; lia|]. cbn [c_string take]. pose proof (Hi 0%nat ltac:(lia)) as Hx. simpl in Hx.
    rewrite (proj2 (Z.eqb_neq _ _) Hx). f_equal. apply IH; [|simpl in Hn; lia|done]. intros i Hin. apply (Hi (S i)). lia.
Qed.

Lemma nth_drop_z (l : list Z) q i : nth i (drop q l) 0 = nth (q + i) l 0.
Proof. rewrite !nth_lookup. by rewrite lookup_drop. Qed.

Lemma list_eq_nth (l l' : list Z) : length l = length l' -> (forall i, (i < length l)%nat -> nth i l 0 = nth i l' 0) -> l = l'.
Proof.
  intros Hl H. apply list_eq_same_length with (n := length l); [done|done|]. intros i x y Hi Hx Hy.
  specialize (H i Hi). rewrite !nth_lookup, Hx, Hy in H. done.
Qed.

Lemma buffer_at i : nth i (line ++ [0]) 0 = at_ i.
Proof.
  destruct (decide (i < es)%nat) as [H|H]; [by rewrite app_nth1|]. rewrite at_end by lia. rewrite app_nth2 by (unfold Shell.es in *; lia).
  destruct (i - length line)%nat as [|[|]]; done.
Qed.

(** A word of a well-formed command is a C string of the cut buffer. *)
Lemma word_string c w buf :
  0 ∉ line -> Forall word (words c) -> w ∈ words c -> cut (line ++ [0]) buf (snd <$> words c) ->
  c_string (drop w.1 buf) = text w.
Proof.
  intros H0 Hw Hin (Hl & Hk & Hz). pose proof (proj1 (Forall_forall _ _) Hw w Hin) as ((Hq & He) & Hch & _).
  rewrite length_app in Hl. simpl in Hl. unfold Shell.es in He.
  assert (Hin' : forall i, (w.1 <= i < w.2)%nat -> nth i buf 0 = at_ i).
  { intros i Hi. rewrite Hk, buffer_at; [done|]. intros ([q e] & E & Hw')%list_elem_of_fmap. simpl in E. subst e.
    destruct (proj1 (Forall_forall _ _) Hw _ Hw') as (_ & _ & [E|E]); simpl in E; [unfold Shell.es in E; lia|].
    rewrite Hch in E by done. done. }
  rewrite (c_string_take (w.2 - w.1)).
  - unfold text. apply list_eq_nth; rewrite !length_take, !length_drop; [lia|]. intros i Hi.
    rewrite !List.nth_firstn, !nth_drop_z. destruct (i <? w.2 - w.1)%nat eqn:Ei; [|done]. apply Nat.ltb_lt in Ei. by rewrite Hin' by lia.
  - intros i Hi. rewrite nth_drop_z, Hin' by lia. intros E. apply H0. unfold Shell.at_ in E. rewrite <- E.
    rewrite nth_lookup. destruct (lookup_lt_is_Some_2 line (w.1 + i)) as [x Hx]; [lia|]. rewrite Hx. simpl. by eapply list_elem_of_lookup_2.
  - rewrite length_drop. lia.
  - rewrite nth_drop_z. replace (w.1 + (w.2 - w.1))%nat with w.2 by lia. apply Hz. by apply list_elem_of_fmap_2.
Qed.

End correct.

