(* ===== verification/FsInode.v ===== *)
(** Inodes on the disk: what [iupdate] of [src/xv6-riscv/kernel/fs.c] stores is
    what [ilock] loads, and nothing else of the block changes. *)

From stdpp Require Import base list sets strings.
From S2P Require Import Prelude Memory Bytes Bio Fs FsBlock.

(** The values the fields of struct dinode can hold *)
Record dinode_ok (i : inode) : Prop := {
  do_type : - 2 ^ 15 <= itype i < 2 ^ 15;
  do_major : - 2 ^ 15 <= imajor i < 2 ^ 15;
  do_minor : - 2 ^ 15 <= iminor i < 2 ^ 15;
  do_nlink : - 2 ^ 15 <= nlink i < 2 ^ 15;
  do_size : 0 <= isize i < 2 ^ 32;
  do_len : length (addrs i) = 13%nat;
  do_addrs : forall k, 0 <= k < 13 -> 0 <= rd (addrs i) k < 2 ^ 32 }.

Lemma s16_u16 x : - 2 ^ 15 <= x < 2 ^ 15 -> s16 (x mod 2 ^ 16) = x.
Proof. intros Hx. unfold s16. rewrite Zplus_mod_idemp_l, Z.mod_small by lia. lia. Qed.

(** Stores of four bytes at [o] leave the others. *)
Lemma nth_put32 d o v j : 0 <= o -> Z.of_nat j < o \/ o + 4 <= Z.of_nat j -> nth j (put32 d o v) 0 = nth j d 0.
Proof. intros Ho Hj. apply nth_le_put. lia. Qed.

Lemma nth_put16 d o v j : 0 <= o -> Z.of_nat j < o \/ o + 2 <= Z.of_nat j -> nth j (put16 d o v) 0 = nth j d 0.
Proof. intros Ho Hj. apply nth_le_put. lia. Qed.

(** memmove(dip->addrs, ip->addrs, sizeof(ip->addrs)) *)
Record addrs_stored (d : block) (o : Z) (a : list Z) (k : Z) (d' : block) : Prop := {
  as_len : length d' = length d;
  as_bytes : isbytes d -> isbytes d';
  as_get : forall j, 0 <= j < k -> get32 d' (o + 12 + 4 * j) = u32 (rd a j);
  as_frame : forall j, Z.of_nat j < o + 12 \/ o + 12 + 4 * k <= Z.of_nat j -> nth j d' 0 = nth j d 0 }.

Lemma put_addrs_spec d o a : 0 <= o -> o + 64 <= Z.of_nat (length d) -> addrs_stored d o a 13 (put_addrs d o a).
Proof.
  intros Ho Hl. unfold put_addrs. apply (for_up_inv (addrs_stored d o a) _ 13 0 d).
  - constructor; [done|done|lia|done].
  - intros k d' Hk [L B G F]. constructor.
    + by rewrite length_put32.
    + intros Hd. by apply isbytes_le_put, B.
    + intros j Hj. destruct (Z.eq_dec j k) as [->|]; [apply get32_put32_same; lia|]. rewrite get32_put32_other by lia. apply G. lia.
    + intros j Hj. rewrite nth_put32 by lia. apply F. lia.
Qed.

(** The fields before the addresses *)
Definition put_head (o : Z) (i : inode) (d : block) : block :=
  put32 (put16 (put16 (put16 (put16 d o (itype i)) (o + 2) (imajor i)) (o + 4) (iminor i)) (o + 6) (nlink i)) (o + 8) (isize i).

Lemma length_put_head o i d : length (put_head o i d) = length d.
Proof. unfold put_head. by rewrite length_put32, !length_put16. Qed.

Lemma put_head_frame o i d j : 0 <= o -> Z.of_nat j < o \/ o + 12 <= Z.of_nat j -> nth j (put_head o i d) 0 = nth j d 0.
Proof. intros Ho Hj. unfold put_head. rewrite nth_put32 by lia. by rewrite !nth_put16 by lia. Qed.

(** What lies before the addresses is not changed by storing them. *)
Lemma get_head_ext d d' o n : 0 <= o -> 0 <= n -> (forall j, Z.of_nat j < o + 12 -> nth j d 0 = nth j d' 0) -> 
  forall k, 0 <= k -> k + n <= 12 -> le_get d (Z.to_nat (o + k)) (Z.to_nat n) = le_get d' (Z.to_nat (o + k)) (Z.to_nat n).
Proof. intros Ho Hn H k Hk Hkn. apply le_get_ext. intros j Hj. apply H. lia. Qed.

Section dinode.
Context (o : Z) (i : inode) (d : block).
Hypothesis Ho : 0 <= o.
Hypothesis Hl : o + 64 <= Z.of_nat (length d).

Let stored_addrs : addrs_stored (put_head o i d) o (addrs i) 13 (put_dinode o i d) :=
  put_addrs_spec (put_head o i d) o (addrs i) Ho (eq_ind_r (fun n => o + 64 <= Z.of_nat n) Hl (length_put_head o i d)).

Lemma length_put_dinode : length (put_dinode o i d) = length d.
Proof. rewrite (as_len _ _ _ _ _ stored_addrs). apply length_put_head. Qed.

Lemma isbytes_put_dinode : isbytes d -> isbytes (put_dinode o i d).
Proof. intros Hd. apply (as_bytes _ _ _ _ _ stored_addrs). unfold put_head. by repeat apply isbytes_le_put. Qed.

(** The other inodes of the block keep their bytes. *)
Lemma put_dinode_frame j : Z.of_nat j < o \/ o + 64 <= Z.of_nat j -> nth j (put_dinode o i d) 0 = nth j d 0.
Proof. intros Hj. rewrite (as_frame _ _ _ _ _ stored_addrs) by lia. apply put_head_frame; lia. Qed.

Lemma get16_put_dinode k : 0 <= k <= 10 -> get16 (put_dinode o i d) (o + k) = get16 (put_head o i d) (o + k).
Proof. intros Hk. apply (get_head_ext _ _ o 2); [done|lia| |lia|lia]. intros j Hj. apply (as_frame _ _ _ _ _ stored_addrs). lia. Qed.

Lemma get32_put_dinode : get32 (put_dinode o i d) (o + 8) = get32 (put_head o i d) (o + 8).
Proof. apply (get_head_ext _ _ o 4); [done|lia| |lia|lia]. intros j Hj. apply (as_frame _ _ _ _ _ stored_addrs). lia. Qed.

Lemma load_put_dinode e : dinode_ok i ->
  load_dinode o (put_dinode o i d) e =
  MkInode (idev e) (inum e) (iref e) (ilk e) (ivalid e) (itype i) (imajor i) (iminor i) (nlink i) (isize i) (addrs i).
Proof.
  intros [D1 D2 D3 D4 D5 D6 D7]. unfold load_dinode.
  pose proof (get16_put_dinode 0 ltac:(lia)) as E0. rewrite Z.add_0_r in E0. rewrite E0. rewrite !get16_put_dinode, get32_put_dinode by lia.
  unfold put_head. rewrite !get16_put32_other by lia.
  rewrite (get16_put16_other _ (o + 6) o), (get16_put16_other _ (o + 4) o), (get16_put16_other _ (o + 2) o),
    (get16_put16_other _ (o + 6) (o + 2)), (get16_put16_other _ (o + 4) (o + 2)), (get16_put16_other _ (o + 6) (o + 4)) by lia.
  rewrite !get16_put16_same by (rewrite ?length_put16; lia). rewrite get32_put32_same by (rewrite ?length_put16; lia).
  unfold u16. rewrite !s16_u16, u32_small by lia. f_equal.
  apply list_eq_same_length with 13%nat; [by rewrite D6|done|]. intros k x y Hk. unfold get_addrs.
  rewrite list_lookup_fmap, lookup_seqZ_lt by lia. intros [= <-] Ey. rewrite Z.add_0_l, (as_get _ _ _ _ _ stored_addrs) by lia.
  rewrite u32_small by (apply D7; lia). unfold rd. rewrite Nat2Z.id. by apply nth_lookup_Some.
Qed.
End dinode.
