(* ===== verification/FsFile.v ===== *)
(** File content: bmap, readi and writei of [src/xv6-riscv/kernel/fs.c].

    The content of a file is a function from offsets to bytes, through the block
    addresses of its inode. *)

From stdpp Require Import base list sets strings.
From S2P Require Import Prelude Memory Spinlock Sleeplock Bytes Bio Log LogTx Txn Fs FsBlock FsInode.

Lemma MAXFILE_eq : MAXFILE = 268.
Proof. reflexivity. Qed.
Lemma NDIRECT_eq : NDIRECT = 12.
Proof. reflexivity. Qed.

(** ** Addresses *)

(** The block of index [bn], 0 when there is none *)
Definition baddr (C : Z -> block) (i : inode) (bn : Z) : Z :=
  if bn <? NDIRECT then rd (addrs i) bn
  else if rd (addrs i) NDIRECT =? 0 then 0
  else get32 (C (rd (addrs i) NDIRECT)) (4 * (bn - NDIRECT)).

Definition indirect (i : inode) : Z := rd (addrs i) NDIRECT.

(** The byte at offset [x] *)
Definition file_byte (C : Z -> block) (i : inode) (x : Z) : Z :=
  let a := baddr C i (x / BSIZE) in if a =? 0 then 0 else rd (C a) (x mod BSIZE).

(** Addresses [A] with indirect block [ind], all distinct, in the data area and in
    use *)
Record addr_ok (sb : superblock) (U : Z -> bool) (A : Z -> Z) (ind : Z) : Prop := {
  ao_data : forall bn, 0 <= bn < MAXFILE -> A bn <> 0 -> datastart sb <= A bn < sbsize sb /\ U (A bn) = true;
  ao_ind : ind <> 0 -> datastart sb <= ind < sbsize sb /\ U ind = true;
  ao_inj : forall b1 b2, 0 <= b1 < MAXFILE -> 0 <= b2 < MAXFILE -> A b1 <> 0 -> A b1 = A b2 -> b1 = b2;
  ao_sep : forall bn, 0 <= bn < MAXFILE -> A bn <> 0 -> A bn <> ind }.

Record inode_ok (C : Z -> block) (sb : superblock) (i : inode) : Prop := {
  io_len : length (addrs i) = 13%nat;
  io_addrs : addr_ok sb (used C sb) (baddr C i) (indirect i) }.

(** [a] belongs to the file. *)
Definition owns (C : Z -> block) (i : inode) (a : Z) : Prop :=
  a <> 0 /\ (a = indirect i \/ exists bn, 0 <= bn < MAXFILE /\ baddr C i bn = a).

Lemma owns_ok C sb i a : inode_ok C sb i -> owns C i a -> datastart sb <= a < sbsize sb /\ used C sb a = true.
Proof.
  intros [_ Ia] [H0 [->|(bn & Hbn & E)]]; [by apply (ao_ind _ _ _ _ Ia)|].
  rewrite <- E in *. by apply (ao_data _ _ _ _ Ia).
Qed.

Lemma addr_ok_ext sb U U' A A' ind :
  (forall c, datastart sb <= c < sbsize sb -> U c = U' c) -> (forall bn, 0 <= bn < MAXFILE -> A bn = A' bn) ->
  addr_ok sb U A ind -> addr_ok sb U' A' ind.
Proof.
  intros HU HA [D I J S]. constructor.
  - intros bn Hb. rewrite <- HA by done. intros Hn. destruct (D bn Hb Hn) as [Hr Hu]. split; [done|]. by rewrite <- HU.
  - intros Hn. destruct (I Hn). split; [done|]. by rewrite <- HU.
  - intros b1 b2 H1 H2. rewrite <- !HA by done. by apply J.
  - intros bn Hb. rewrite <- HA by done. by apply S.
Qed.

Definition take_free (U : Z -> bool) (b c : Z) : bool := if decide (c = b) then true else U c.

(** A free block becomes the block of index [bn], or the indirect block. *)
Lemma addr_ok_data sb U A ind bn b :
  addr_ok sb U A ind -> datastart sb <= b < sbsize sb -> U b = false -> b <> 0 -> addr_ok sb (take_free U b) (upd A bn b) ind.
Proof.
  unfold take_free. intros [D I J S] Hb Hf H0. constructor.
  - intros k Hk. unfold upd. case_decide; intros Hk0; [case_decide; done|]. destruct (D k Hk Hk0) as [? E]. split; [done|].
    case_decide; done.
  - intros Hi. destruct (I Hi). split; [done|]. case_decide; done.
  - intros b1 b2 H1 H2. unfold upd. repeat case_decide; intros Hn E; subst; try done.
    + destruct (D b2 H2) as [_ E']; [congruence|]. congruence.
    + destruct (D b1 H1 Hn) as [_ E']. congruence.
    + by apply J.
  - intros k Hk. unfold upd. case_decide; intros Hn; [|by apply S]. intros E. destruct I as [_ E']; [congruence|]. congruence.
Qed.

Lemma addr_ok_ind sb U A b :
  addr_ok sb U A 0 -> datastart sb <= b < sbsize sb -> U b = false -> addr_ok sb (take_free U b) A b.
Proof.
  unfold take_free. intros [D I J S] Hb Hf. constructor; [| |done|].
  - intros k Hk Hk0. destruct (D k Hk Hk0). split; [done|]. case_decide; done.
  - intros _. by rewrite decide_True.
  - intros k Hk Hn E. destruct (D k Hk Hn) as [_ E']. congruence.
Qed.

(** ** Growing a file

    What bmap does to the disk and the inode when it allocates *)
Record grown (sb : superblock) (C : Z -> block) (i : inode) (C' : Z -> block) (i' : inode) : Prop := {
  g_fs : fs_ok C' sb;
  g_inode : inode_ok C' sb i';
  g_byte : forall x, 0 <= x < MAXFILE * BSIZE -> file_byte C' i' x = file_byte C i x;
  g_addr : forall bn, 0 <= bn < MAXFILE -> baddr C i bn <> 0 -> baddr C' i' bn = baddr C i bn;
  g_used : forall c, 0 <= c < sbsize sb -> used C sb c = true -> used C' sb c = true;
  g_frame : forall c, datastart sb <= c < sbsize sb -> used C sb c = true -> c <> indirect i -> C' c = C c;
  g_meta : forall c, c < bmapstart sb -> C' c = C c;
  g_ind : indirect i' = indirect i \/ (indirect i = 0 /\ used C sb (indirect i') = false);
  g_owns : forall a, owns C' i' a -> owns C i a \/ used C sb a = false;
  g_same : i' = set_addrs (addrs i') i }.

Lemma set_addrs_id i : set_addrs (addrs i) i = i.
Proof. by destruct i. Qed.

Lemma file_grown_refl sb C i : fs_ok C sb -> inode_ok C sb i -> grown sb C i C i.
Proof. intros. constructor; try done; [by left|by left|]. by rewrite set_addrs_id. Qed.

Lemma datastart_pos sb : layout sb -> 0 < bmapstart sb < datastart sb.
Proof.
  intros L. destruct (layout_bmap sb L). pose proof (ly_log sb L) as (H1 & H2 & H3). pose proof (ly_inodes sb L) as [H4 H5].
  assert (0 <= ninodes sb / IPB) by (apply Z.div_pos; [lia|done]). unfold datastart. lia.
Qed.

Lemma file_grown_trans sb C i C1 i1 C2 i2 : fs_ok C sb -> grown sb C i C1 i1 -> grown sb C1 i1 C2 i2 -> grown sb C i C2 i2.
Proof.
  intros Fs [F1 I1 B1 A1 U1 R1 M1 N1 O1 S1] [F2 I2 B2 A2 U2 R2 M2 N2 O2 S2].
  pose proof (datastart_pos sb (fo_layout _ _ F1)) as Hd.
  assert (Hnf : forall c, 0 <= c < sbsize sb -> used C1 sb c = false -> used C sb c = false).
  { intros c Hc E. destruct (used C sb c) eqn:E'; [|done]. apply U1 in E'; [congruence|done]. }
  constructor; try done.
  - intros x Hx. by rewrite B2, B1.
  - intros bn Hb Hn. rewrite A2; [by apply A1|done|]. by rewrite A1.
  - intros c Hc E. by apply U2, U1.
  - intros c Hc E Hn. rewrite R2; [by apply R1|done|apply U1; [lia|done]|]. intros ->. destruct N1 as [N1|[_ N1]]; congruence.
  - intros c Hc. by rewrite M2, M1.
  - destruct N2 as [->|[N2 E2]]; [exact N1|]. destruct N1 as [N1|[N1 E1]]; [right; split; [congruence|]|].
    + destruct (Z.eq_dec (indirect i2) 0) as [E0|E0].
      * rewrite E0 in *. apply Hnf; [|done]. pose proof (ly_data sb (fo_layout _ _ F1)). lia.
      * apply Hnf; [|done]. pose proof (ao_ind _ _ _ _ (io_addrs _ _ _ I2) E0). lia.
    + rewrite N2 in E1. rewrite (fo_meta C sb Fs 0) in E1 by lia. done.
  - intros a Ha. destruct (O2 a Ha) as [H|H]; [by apply O1|right]. pose proof (owns_ok C2 sb i2 a I2 Ha). apply Hnf; [lia|done].
  - rewrite S2, S1. done.
Qed.

Lemma nth_zero_block n : nth n zero_block 0 = 0.
Proof. unfold zero_block. generalize (Z.to_nat BSIZE). intros k. revert n. induction k as [|k IH]; intros [|n]; cbn; auto. Qed.

Lemma zero_rd o : rd zero_block o = 0.
Proof. apply nth_zero_block. Qed.

Lemma zero_get32 o : get32 zero_block o = 0.
Proof.
  unfold get32. generalize (Z.to_nat o) 4%nat. intros off n. revert off.
  induction n as [|n IH]; intros off; cbn [le_get]; [done|]. by rewrite IH, nth_zero_block.
Qed.

(** *** The three ways to grow *)

Section alloc.
Context (sb : superblock) (C C1 : Z -> block) (i : inode) (b : Z).
Hypothesis Fs : fs_ok C sb.
Hypothesis Io : inode_ok C sb i.
Hypothesis Hb : datastart sb <= b < sbsize sb.
Hypothesis Hfree : used C sb b = false.
Hypothesis Fs1 : fs_ok C1 sb.
Hypothesis Hu : forall c, 0 <= c < sbsize sb -> used C1 sb c = if decide (c = b) then true else used C sb c.
Hypothesis Hz : C1 b = zero_block.
Hypothesis Hf : forall c, c <> b -> c <> BBLOCK b sb -> C1 c = C c.

Let Hd : 0 < bmapstart sb < datastart sb := datastart_pos sb (fo_layout _ _ Fs).

Lemma alloc_data c : datastart sb <= c < sbsize sb -> used C sb c = true -> C1 c = C c.
Proof. intros Hc E. apply Hf; [congruence|]. pose proof (BBLOCK_range sb b ltac:(lia)). lia. Qed.

Lemma alloc_meta c : c < bmapstart sb -> C1 c = C c.
Proof. intros Hc. apply Hf; [lia|]. pose proof (BBLOCK_range sb b ltac:(lia)). lia. Qed.

Lemma alloc_used c : 0 <= c < sbsize sb -> used C sb c = true -> used C1 sb c = true.
Proof. intros Hc E. rewrite Hu by done. by case_decide. Qed.

(** A new address for index [bn], whatever else of the inode is kept *)
Lemma grown_data i1 C2 bn :
  0 <= bn < MAXFILE -> baddr C i bn = 0 -> length (addrs i1) = 13%nat -> indirect i1 = indirect i -> i1 = set_addrs (addrs i1) i ->
  fs_ok C2 sb -> (forall c, 0 <= c < sbsize sb -> used C2 sb c = used C1 sb c) ->
  (forall c, c <> indirect i \/ indirect i = 0 -> C2 c = C1 c) ->
  (forall k, 0 <= k < MAXFILE -> baddr C2 i1 k = upd (baddr C i) bn b k) -> grown sb C i C2 i1.
Proof.
  intros Hbn E0 Hl Ei Es Fs2 Hu2 Hc2 Ha. pose proof (io_addrs _ _ _ Io) as Ao.
  assert (Hbi : b <> indirect i).
  { intros ->. destruct (Z.eq_dec (indirect i) 0); [lia|]. destruct (ao_ind _ _ _ _ Ao); [done|]. congruence. }
  constructor; try done.
  - split; [done|]. rewrite Ei. eapply addr_ok_ext; [| |apply (addr_ok_data sb (used C sb) (baddr C i) (indirect i) bn b); [done|done|done|lia]].
    + intros c Hc. rewrite Hu2, Hu by lia. done.
    + intros k Hk. by rewrite Ha.
  - intros x Hx. unfold file_byte. assert (Hk : 0 <= x / BSIZE < MAXFILE).
    { split; [apply Z.div_pos; [lia|done]|]. apply Z.div_lt_upper_bound; [done|lia]. }
    rewrite Ha by done. unfold upd. case_decide as Ex.
    + rewrite Ex, E0. destruct (b =? 0); [done|]. rewrite Hc2, Hz by (by left). apply zero_rd.
    + destruct (baddr C i (x / BSIZE) =? 0) eqn:En; [done|]. apply Z.eqb_neq in En.
      destruct (ao_data _ _ _ _ Ao _ Hk En). rewrite Hc2 by (left; by apply (ao_sep _ _ _ _ Ao)). by rewrite alloc_data.
  - intros k Hk Hn. rewrite Ha by done. unfold upd. case_decide; congruence.
  - intros c Hc E. rewrite Hu2 by done. by apply alloc_used.
  - intros c Hc E Hn. rewrite Hc2 by (by left). by apply alloc_data.
  - intros c Hc. rewrite Hc2; [by apply alloc_meta|]. destruct (Z.eq_dec (indirect i) 0) as [E|E]; [by right|left].
    destruct (ao_ind _ _ _ _ Ao E). lia.
  - by left.
  - intros a [Ha0 [->|(k & Hk & Ea)]]; [left; split; [done|left; congruence]|]. rewrite Ha in Ea by done. unfold upd in Ea. case_decide.
    + right. congruence.
    + left. split; [done|]. right. by exists k.
Qed.

Lemma rd_addrs_wr k n v : 0 <= n < 13 -> 0 <= k -> rd (wr (addrs i) n v) k = if decide (k = n) then v else rd (addrs i) k.
Proof.
  intros Hn Hk. case_decide as E; [subst; apply rd_wr_same|apply rd_wr_other; lia]. rewrite (io_len _ _ _ Io). lia.
Qed.

Lemma indirect_data : indirect i <> 0 -> datastart sb <= indirect i < sbsize sb /\ C1 (indirect i) = C (indirect i).
Proof. intros Hn. destruct (ao_ind _ _ _ _ (io_addrs _ _ _ Io) Hn). split; [done|]. by apply alloc_data. Qed.

(** ip->addrs[bn] = addr *)
Lemma grown_direct bn : 0 <= bn < NDIRECT -> rd (addrs i) bn = 0 ->
  grown sb C i C1 (set_addrs (wr (addrs i) bn b) i).
Proof.
  intros Hbn E0. unfold NDIRECT in Hbn. assert (Hi : indirect (set_addrs (wr (addrs i) bn b) i) = indirect i).
  { unfold indirect. simpl addrs. rewrite rd_addrs_wr by (unfold NDIRECT; lia). unfold NDIRECT. case_decide; [lia|done]. }
  apply (grown_data _ C1 bn); try done.
  - rewrite MAXFILE_eq. lia.
  - unfold baddr, NDIRECT. by rewrite (proj2 (Z.ltb_lt bn 12)) by lia.
  - simpl addrs. by rewrite length_wr, (io_len _ _ _ Io).
  - intros k Hk. unfold baddr at 1. fold (indirect (set_addrs (wr (addrs i) bn b) i)). rewrite Hi. simpl addrs. unfold upd, baddr.
    fold (indirect i). destruct (k <? NDIRECT) eqn:Ek; bool_to_prop; [by apply rd_addrs_wr; lia|].
    rewrite decide_False by (unfold NDIRECT in Ek; lia). destruct (indirect i =? 0) eqn:Ei; [done|]. apply Z.eqb_neq in Ei.
    by destruct (indirect_data Ei) as [_ ->].
Qed.

(** ip->addrs[NDIRECT] = addr *)
Lemma grown_indirect : indirect i = 0 -> grown sb C i C1 (set_addrs (wr (addrs i) NDIRECT b) i).
Proof.
  intros E0. pose proof (io_addrs _ _ _ Io) as Ao. set (i1 := set_addrs _ i).
  assert (Ei : indirect i1 = b) by (unfold indirect, i1; simpl addrs; rewrite rd_addrs_wr by (unfold NDIRECT; lia); by rewrite decide_True).
  assert (Ha : forall k, 0 <= k < MAXFILE -> baddr C1 i1 k = baddr C i k).
  { intros k Hk. unfold baddr. fold (indirect i1) (indirect i). rewrite Ei, E0. destruct (k <? NDIRECT) eqn:Ek; bool_to_prop.
    - unfold i1. simpl addrs. rewrite rd_addrs_wr by (unfold NDIRECT; lia). by rewrite decide_False by lia.
    - destruct (b =? 0); [done|]. rewrite Hz. apply zero_get32. }
  constructor; try done.
  - split; [unfold i1; simpl addrs; by rewrite length_wr, (io_len _ _ _ Io)|]. rewrite Ei.
    eapply addr_ok_ext; [| |apply (addr_ok_ind sb (used C sb) (baddr C i) b); [by rewrite <- E0|done|done]].
    + intros c Hc. rewrite Hu by lia. done.
    + intros k Hk. by rewrite Ha.
  - intros x Hx. unfold file_byte. assert (Hk : 0 <= x / BSIZE < MAXFILE).
    { split; [apply Z.div_pos; [lia|done]|]. apply Z.div_lt_upper_bound; [done|lia]. }
    rewrite Ha by done. destruct (baddr C i (x / BSIZE) =? 0) eqn:En; [done|]. apply Z.eqb_neq in En.
    destruct (ao_data _ _ _ _ Ao _ Hk En). by rewrite alloc_data.
  - intros k Hk _. by apply Ha.
  - intros c Hc E. by apply alloc_used.
  - intros c Hc E _. by apply alloc_data.
  - intros c Hc. by apply alloc_meta.
  - right. rewrite Ei. done.
  - intros a [Ha0 [->|(k & Hk & Ea)]]; [right; by rewrite Ei|]. rewrite Ha in Ea by done. left. split; [done|]. right. by exists k.
Qed.

(** a[bn] = addr in the indirect block *)
Lemma grown_entry bn : NDIRECT <= bn < MAXFILE -> indirect i <> 0 -> baddr C i bn = 0 ->
  grown sb C i (upd C1 (indirect i) (put32 (C1 (indirect i)) (4 * (bn - NDIRECT)) b)) i.
Proof.
  intros Hbn Hi E0. destruct (indirect_data Hi) as [Hr Ec]. pose proof (ly_size sb (fo_layout _ _ Fs)) as Hsz.
  set (ia := indirect i) in *. pose proof (fo_len _ _ Fs1 ia) as Hlen.
  assert (Hbb : forall c, 0 <= c < sbsize sb -> BBLOCK c sb <> ia) by (intros c Hc; pose proof (BBLOCK_range sb c Hc); lia).
  assert (Hu2 : forall c, 0 <= c < sbsize sb -> used (upd C1 ia (put32 (C1 ia) (4 * (bn - NDIRECT)) b)) sb c = used C1 sb c)
    by (intros c Hc; by apply used_other, Hbb).
  apply (grown_data i _ bn); try done.
  - unfold NDIRECT in Hbn. lia.
  - apply (io_len _ _ _ Io).
  - by rewrite set_addrs_id.
  - apply fs_ok_upd; [done|by rewrite length_put32|by apply isbytes_le_put, (fo_bytes _ _ Fs1)|].
    intros c Hc. rewrite Hu2 by lia. by apply (fo_meta _ _ Fs1).
  - intros c [Hc|Hc]; [by rewrite upd_other|done].
  - intros k Hk. unfold upd at 2, baddr. fold (indirect i). fold ia. rewrite (proj2 (Z.eqb_neq ia 0) Hi), upd_same.
    rewrite MAXFILE_eq, NDIRECT_eq in *. change (Z.to_nat BSIZE) with 1024%nat in Hlen. destruct (k <? 12) eqn:Ek; bool_to_prop; [by rewrite decide_False by lia|].
    case_decide as E.
    + subst k. rewrite get32_put32_same; [apply u32_small; lia|lia|]. rewrite Hlen. lia.
    + rewrite get32_put32_other by lia. by rewrite Ec.
Qed.
End alloc.

(** ** bmap *)

Abbreviation cont s := (tcont (tx s)).

(** The inode [ip] of the state has grown, and nothing else changed but the log,
    by at most [k] blocks. *)
Record advances (ip : nat) (k : Z) (s s' : fst) : Prop := {
  ad_sb : sb s' = sb s;
  ad_mem : fmem s' = fmem s;
  ad_held : fheld s' = fheld s;
  ad_me : fme s' = fme s;
  ad_woken : fwoken s' = fwoken s;
  ad_cwd : fcwd s' = fcwd s;
  ad_hold : thold (tx s') = thold (tx s);
  ad_dirty : tdirty (tx s') = tdirty (tx s);
  ad_log : Z.of_nat (length (tlog (tx s'))) <= Z.of_nat (length (tlog (tx s))) + k;
  ad_other : forall j, j <> ip -> itab s' j = itab s j;
  ad_grown : grown (sb s) (cont s) (itab s ip) (cont s') (itab s' ip) }.

Lemma advances_refl ip s : fs_ok (cont s) (sb s) -> inode_ok (cont s) (sb s) (itab s ip) -> advances ip 0 s s.
Proof. intros. constructor; try done; [lia|]. by apply file_grown_refl. Qed.

Lemma advances_trans ip k1 k2 s s1 s2 :
  fs_ok (cont s) (sb s) -> advances ip k1 s s1 -> advances ip k2 s1 s2 -> advances ip (k1 + k2) s s2.
Proof.
  intros F A1 A2. constructor; try (etransitivity; [apply A2|apply A1]; fail).
  - pose proof (ad_log _ _ _ _ A1). pose proof (ad_log _ _ _ _ A2). lia.
  - intros j Hj. by rewrite (ad_other _ _ _ _ A2), (ad_other _ _ _ _ A1).
  - eapply file_grown_trans; [done|apply A1|]. rewrite <- (ad_sb _ _ _ _ A1). apply A2.
Qed.

Lemma advances_mono ip k k' s s' : advances ip k s s' -> k <= k' -> advances ip k' s s'.
Proof. intros A Hk. destruct A. constructor; try done. lia. Qed.

Lemma advances_room ip k s s' j : advances ip k s s' -> room s (j + k) -> room s' j.
Proof.
  intros A (H1 & H2 & H3 & H4). unfold room. rewrite (ad_sb _ _ _ _ A), (ad_hold _ _ _ _ A), (ad_dirty _ _ _ _ A).
  pose proof (ad_log _ _ _ _ A). split_and!; [lia|done..].
Qed.

(** What is asked of the state between calls: consistent, no buffer held *)
Record calm (ip : nat) (s : fst) : Prop := {
  ca_fs : fs_ok (cont s) (sb s);
  ca_hold : thold (tx s) = [];
  ca_inode : inode_ok (cont s) (sb s) (itab s ip) }.

Lemma calm_advances ip k s s' : calm ip s -> advances ip k s s' -> calm ip s'.
Proof.
  intros [F H I] A. constructor; rewrite ?(ad_sb _ _ _ _ A); [apply (ad_grown _ _ _ _ A)|by rewrite (ad_hold _ _ _ _ A)|apply (ad_grown _ _ _ _ A)].
Qed.

Definition full (s : fst) : Prop := forall b, 0 <= b < sbsize (sb s) -> used (cont s) (sb s) b = true.

Lemma balloc_cases dev s : fs_ok (cont s) (sb s) -> holds_none_of s -> room s 2 ->
  (balloc dev s = Ret 0 s /\ full s) \/
  exists b, balloc dev s = Ret b (allocated b s) /\ datastart (sb s) <= b < sbsize (sb s) /\ used (cont s) (sb s) b = false /\ b <> 0.
Proof.
  intros F Hh Hr. destruct (balloc_spec dev s F Hh Hr) as [(b & Hb & Hu & _ & E)|[Hu E]]; [right|by left].
  exists b. split_and!; [done|lia|lia|done|]. pose proof (datastart_pos _ (fo_layout _ _ F)). lia.
Qed.

Lemma calm_none ip s : calm ip s -> holds_none_of s.
Proof. intros [_ H _]. split; intros; rewrite H; apply not_elem_of_nil. Qed.

Lemma allocated_log b s : Z.of_nat (length (tlog (tx (allocated b s)))) <= Z.of_nat (length (tlog (tx s))) + 2.
Proof.
  unfold allocated, with_block. fsimpl. pose proof (length_logged (BBLOCK b (sb s)) (tlog (tx s))).
  pose proof (length_logged b (logged (BBLOCK b (sb s)) (tlog (tx s)))). lia.
Qed.

(** balloc and a store of the address in the inode *)
Lemma advances_alloc ip n b s (i' : inode) :
  calm ip s -> datastart (sb s) <= b < sbsize (sb s) -> used (cont s) (sb s) b = false ->
  i' = set_addrs (wr (addrs (itab s ip)) n b) (itab s ip) ->
  grown (sb s) (cont s) (itab s ip) (cont (allocated b s)) i' ->
  advances ip 2 s (set_itab (upd (itab s) ip i') (allocated b s)).
Proof.
  intros Ca Hb Hf -> G. constructor; try done; fsimpl.
  - apply allocated_log.
  - intros j Hj. by rewrite upd_other.
  - by rewrite upd_same.
Qed.

Lemma bmap_direct ip bn s :
  calm ip s -> room s 2 -> 0 <= bn < NDIRECT ->
  exists r s', bmap ip bn s = Ret r s' /\ advances ip 2 s s' /\ baddr (cont s') (itab s' ip) bn = r /\
    (r = 0 -> full s') /\ (baddr (cont s) (itab s ip) bn <> 0 -> s' = s).
Proof.
  intros Ca Hr Hbn. unfold bmap, geti. rewrite bind_get. rewrite (proj2 (Z.ltb_lt bn NDIRECT)) by lia.
  assert (Eb : forall C i, baddr C i bn = rd (addrs i) bn) by (intros; unfold baddr; by rewrite (proj2 (Z.ltb_lt bn NDIRECT)) by lia).
  destruct (rd (addrs (itab s ip)) bn =? 0) eqn:E0; bool_to_prop.
  - destruct (balloc_cases (idev (itab s ip)) s (ca_fs _ _ Ca) (calm_none _ _ Ca) Hr) as [[E Hf]|(b & E & Hb & Hu & Hb0)];
      rewrite (bind_ret_intro _ _ _ _ _ E).
    + exists 0, s. split_and!; [done|eapply advances_mono; [apply advances_refl; apply Ca|lia]|by rewrite Eb|done|done].
    + rewrite (proj2 (Z.eqb_neq b 0) Hb0). eexists b, _. split; [reflexivity|].
      destruct (allocated_spec b s (ca_fs _ _ Ca) Hb) as (F1 & U1 & Z1 & K1). change (itab (allocated b s)) with (itab s).
      split_and!; [|rewrite Eb; fsimpl; rewrite upd_same; simpl addrs; apply rd_wr_same; rewrite (io_len _ _ _ (ca_inode _ _ Ca)); rewrite NDIRECT_eq in Hbn; lia|done|by rewrite Eb].
      eapply advances_alloc; [done|done|done|reflexivity|]. by apply grown_direct; [apply Ca|apply Ca|..].
  - exists (rd (addrs (itab s ip)) bn), s. split_and!; [done|eapply advances_mono; [apply advances_refl; apply Ca|lia]|apply Eb|done|done].
Qed.

Lemma room_allocated b s k : room s (k + 2) -> room (allocated b s) k.
Proof. intros (H1 & H2 & H3 & H4). pose proof (allocated_log b s). split_and!; [|done..]. change (sb (allocated b s)) with (sb s). lia. Qed.

(** The indirect part of bmap, with the indirect block [ia] there *)
Definition bmap_entry (dev ia bn : Z) : M fst Z :=
  let! bp := bread dev ia in
  let! a := bdata bp in
  let! addr :=
    if get32 a (4 * bn) =? 0 then
      let! addr := balloc dev in
      (when negb (addr =? 0) then
        bstore bp (fun a => put32 a (4 * bn) addr) ;;;
        log_write bp) ;;;
      ret addr
    else ret (get32 a (4 * bn)) in
  brelse bp ;;;
  ret addr.

Lemma data_loggable sb b : layout sb -> datastart sb <= b < sbsize sb -> loggable sb b.
Proof. intros L Hb. pose proof (datastart_pos sb L). pose proof (ly_size sb L). apply meta_loggable; [done|lia|lia]. Qed.

Lemma release_ret (ia r : Z) (s : fst) : ia ∉ thold (tx s) -> tdirty (tx s) = [] -> bind (brelse ia) (fun _ => ret r) (with_hold ia s) = Ret r s.
Proof.
  intros Hh Hd. assert (E : brelse ia (with_hold ia s) = Ret tt s) by (apply brelse_run; [done|rewrite Hd; apply not_elem_of_nil]).
  by rewrite (bind_ret_intro _ _ _ _ _ E).
Qed.

Lemma baddr_put C i bn b :
  NDIRECT <= bn < MAXFILE -> indirect i <> 0 -> length (C (indirect i)) = Z.to_nat BSIZE -> 0 <= b < 2 ^ 32 ->
  baddr (upd C (indirect i) (put32 (C (indirect i)) (4 * (bn - NDIRECT)) b)) i bn = b.
Proof.
  intros Hbn Hi Hl Hb. unfold baddr. fold (indirect i). rewrite (proj2 (Z.eqb_neq _ 0) Hi), upd_same, (proj2 (Z.ltb_ge bn NDIRECT)) by lia.
  rewrite MAXFILE_eq, NDIRECT_eq in *. change (Z.to_nat BSIZE) with 1024%nat in Hl.
  rewrite get32_put32_same; [apply u32_small; lia|lia|]. rewrite Hl. lia.
Qed.

Lemma bmap_entry_spec ip dev bn s :
  calm ip s -> room s 3 -> NDIRECT <= bn < MAXFILE -> indirect (itab s ip) <> 0 ->
  exists r s', bmap_entry dev (indirect (itab s ip)) (bn - NDIRECT) s = Ret r s' /\ advances ip 3 s s' /\
    baddr (cont s') (itab s' ip) bn = r /\ (r = 0 -> full s') /\ (baddr (cont s) (itab s ip) bn <> 0 -> s' = s).
Proof.
  intros Ca Hr Hbn Hi. pose proof (ca_fs _ _ Ca) as F. pose proof (fo_layout _ _ F) as Ly. pose proof (datastart_pos _ Ly).
  set (ia := indirect (itab s ip)) in *. destruct (ao_ind _ _ _ _ (io_addrs _ _ _ (ca_inode _ _ Ca)) Hi) as [Hia Hua]. fold ia in Hia, Hua.
  assert (Hh : ia ∉ thold (tx s)) by (rewrite (ca_hold _ _ Ca); apply not_elem_of_nil).
  assert (Hd : tdirty (tx s) = []) by apply Hr.
  assert (Eb : baddr (cont s) (itab s ip) bn = get32 (cont s ia) (4 * (bn - NDIRECT))).
  { unfold baddr. fold (indirect (itab s ip)). fold ia. by rewrite (proj2 (Z.ltb_ge bn NDIRECT)), (proj2 (Z.eqb_neq ia 0) Hi) by lia. }
  unfold bmap_entry. rewrite (bind_ret_intro _ _ _ _ _ (bread_run dev ia s Hh (room_weaken s 3 1 Hr ltac:(lia)))).
  rewrite (bind_ret_intro _ _ _ _ _ (bdata_run ia (with_hold ia s))). change (cont (with_hold ia s)) with (cont s). rewrite <- Eb.
  destruct (baddr (cont s) (itab s ip) bn =? 0) eqn:E0; bool_to_prop.
  2: { exists (baddr (cont s) (itab s ip) bn), s. split; [by apply release_ret|].
       split_and!; [eapply advances_mono; [apply advances_refl; apply Ca|lia]|done|done|done]. }
  assert (Hn : holds_none_of (with_hold ia s)).
  { split; simpl; rewrite (ca_hold _ _ Ca); intros c Hc; [|intros Hu]; rewrite list_elem_of_singleton; intros ->; [lia|].
    change (used (cont s) (sb s) ia = false) in Hu. congruence. }
  assert (Hr2 : room (with_hold ia s) 2).
  { destruct Hr as (H1 & H2 & H3 & H4). split_and!; simpl; [lia|done| |done]. rewrite (ca_hold _ _ Ca). simpl. lia. }
  destruct (balloc_cases dev (with_hold ia s) F Hn Hr2) as [[E Hf]|(b & E & Hb & Hu & Hb0)].
  - exists 0, s. split.
    + rewrite (bind_ret_intro _ _ (with_hold ia s) 0 (with_hold ia s)); [by apply release_ret|].
      by rewrite (bind_ret_intro _ _ _ _ _ E).
    + split_and!; [eapply advances_mono; [apply advances_refl; apply Ca|lia]|done|done|done].
  - change (sb (with_hold ia s)) with (sb s) in *. change (cont (with_hold ia s)) with (cont s) in *.
    destruct (allocated_spec b s F Hb) as (F1 & U1 & Z1 & K1).
    set (f := fun a : block => put32 a (4 * (bn - NDIRECT)) b).
    exists b, (with_block ia f (allocated b s)). split.
    + rewrite (bind_ret_intro _ _ (with_hold ia s) b (with_hold ia (with_block ia f (allocated b s)))).
      * apply release_ret; done.
      * rewrite (bind_ret_intro _ _ _ _ _ E). rewrite (proj2 (Z.eqb_neq b 0) Hb0). cbn [negb].
        change (allocated b (with_hold ia s)) with (with_hold ia (allocated b s)).
        rewrite (bind_ret_intro _ _ _ _ _ (store_log_run ia f (allocated b s) Hh (room_allocated b s 1 Hr) (data_loggable _ _ Ly Hia)
          ltac:(unfold f; rewrite length_put32; apply (fo_len _ _ F1)))). done.
    + assert (G : grown (sb s) (cont s) (itab s ip) (cont (with_block ia f (allocated b s))) (itab s ip)).
      { rewrite tcont_with_block. apply (grown_entry (sb s) (cont s) (cont (allocated b s)) (itab s ip) b); done || apply Ca. }
      split_and!; [|rewrite tcont_with_block; apply baddr_put; [done|done|apply (fo_len _ _ F1)|pose proof (ly_size _ Ly); lia]|done|done].
      constructor; try done. pose proof (allocated_log b s). pose proof (length_logged ia (tlog (tx (allocated b s)))).
      unfold with_block. fsimpl. lia.
Qed.

(** The address of block [bn] of the file, which bmap allocates when there is none *)
Definition mapped (ip : nat) (bn : Z) (s : fst) (r : Z) (s' : fst) : Prop :=
  advances ip 5 s s' /\ baddr (cont s') (itab s' ip) bn = r /\ (r = 0 -> full s') /\ (baddr (cont s) (itab s ip) bn <> 0 -> s' = s).

Lemma bmap_spec ip bn s :
  calm ip s -> room s 5 -> 0 <= bn < MAXFILE -> exists r s', bmap ip bn s = Ret r s' /\ mapped ip bn s r s'.
Proof.
  intros Ca Hr Hbn. destruct (Z.lt_ge_cases bn NDIRECT) as [Hlt|Hge].
  { destruct (bmap_direct ip bn s Ca (room_weaken s 5 2 Hr ltac:(lia)) ltac:(lia)) as (r & s' & E & A & H).
    exists r, s'. split; [done|]. split; [|done]. eapply advances_mono; [done|lia]. }
  unfold bmap, geti. rewrite bind_get. rewrite (proj2 (Z.ltb_ge bn NDIRECT)) by lia.
  rewrite (proj2 (Z.ltb_lt (bn - NDIRECT) NINDIRECT)) by (unfold MAXFILE in Hbn; lia).
  set (i := itab s ip). fold (indirect i). destruct (indirect i =? 0) eqn:Ei; bool_to_prop.
  - assert (E0 : baddr (cont s) i bn = 0).
    { unfold baddr. fold (indirect i). by rewrite Ei, (proj2 (Z.ltb_ge bn NDIRECT)). }
    destruct (balloc_cases (idev i) s (ca_fs _ _ Ca) (calm_none _ _ Ca) (room_weaken s 5 2 Hr ltac:(lia))) as [[E Hf]|(b & E & Hb & Hu & Hb0)].
    + exists 0, s. split.
      * rewrite (bind_ret_intro _ _ s 0 s); [done|]. by rewrite (bind_ret_intro _ _ _ _ _ E).
      * split_and!; [|done..]. eapply advances_mono; [apply advances_refl; apply Ca|lia].
    + set (s1 := set_itab (upd (itab s) ip (set_addrs (wr (addrs i) NDIRECT b) i)) (allocated b s)).
      assert (A1 : advances ip 2 s s1).
      { destruct (allocated_spec b s (ca_fs _ _ Ca) Hb) as (F1 & U1 & Z1 & K1).
        eapply advances_alloc; [done|done|done|reflexivity|]. by apply grown_indirect; [apply Ca|apply Ca|..]. }
      assert (Ei1 : indirect (itab s1 ip) = b).
      { unfold indirect, s1. fsimpl. rewrite upd_same. simpl addrs. apply rd_wr_same. unfold i.
        rewrite (io_len _ _ _ (ca_inode _ _ Ca)). rewrite NDIRECT_eq. lia. }
      destruct (bmap_entry_spec ip (idev i) bn s1 (calm_advances _ _ _ _ Ca A1) (advances_room _ _ _ _ 3 A1 Hr) ltac:(lia) ltac:(congruence))
        as (r & s2 & E2 & A2 & H1 & H2 & H3).
      exists r, s2. split.
      * rewrite (bind_ret_intro _ _ s b s1); [|rewrite (bind_ret_intro _ _ _ _ _ E), (proj2 (Z.eqb_neq b 0) Hb0); done].
        rewrite (proj2 (Z.eqb_neq b 0) Hb0). rewrite Ei1 in E2. exact E2.
      * split_and!; [|done|done|done]. apply (advances_trans ip 2 3 s s1 s2); [apply Ca|done|done].
  - destruct (bmap_entry_spec ip (idev i) bn s Ca (room_weaken s 5 3 Hr ltac:(lia)) ltac:(lia) Ei) as (r & s2 & E2 & A2 & H).
    exists r, s2. split; [|split; [|done]; eapply advances_mono; [done|lia]].
    rewrite (bind_ret_intro _ _ s (indirect i) s) by done. rewrite (proj2 (Z.eqb_neq _ 0) Ei). exact E2.
Qed.

(** ** Content *)

(** The bytes [bs] stored in the file from [off], and nothing else of the disk
    but free blocks, and blocks of the file *)
Record wrote (sb : superblock) (off : Z) (bs : list Z) (C : Z -> block) (i : inode) (C' : Z -> block) (i' : inode) : Prop := {
  w_fs : fs_ok C' sb;
  w_inode : inode_ok C' sb i';
  w_byte : forall x, 0 <= x < MAXFILE * BSIZE -> file_byte C' i' x =
    if decide (off <= x < off + Z.of_nat (length bs)) then rd bs (x - off) else file_byte C i x;
  w_addr : forall bn, 0 <= bn < MAXFILE -> baddr C i bn <> 0 -> baddr C' i' bn = baddr C i bn;
  w_mapped : forall x, off <= x < off + Z.of_nat (length bs) -> baddr C' i' (x / BSIZE) <> 0;
  w_used : forall c, 0 <= c < sbsize sb -> used C sb c = true -> used C' sb c = true;
  w_frame : forall c, datastart sb <= c < sbsize sb -> used C sb c = true -> ~ owns C i c -> C' c = C c;
  w_meta : forall c, c < bmapstart sb -> C' c = C c;
  w_owns : forall a, owns C' i' a -> owns C i a \/ used C sb a = false;
  w_same : i' = set_addrs (addrs i') i }.

Lemma wrote_grown sb off C i C' i' : inode_ok C sb i -> grown sb C i C' i' -> wrote sb off [] C i C' i'.
Proof.
  intros Io [F I B A U R M N O S]. constructor; try done.
  - intros x Hx. rewrite decide_False by (simpl; lia). by apply B.
  - simpl. intros; lia.
  - intros c Hc Hu Hn. apply R; [done|done|]. intros ->. apply Hn. split; [|by left].
    intros E. pose proof (datastart_pos _ (fo_layout _ _ F)). lia.
Qed.

Lemma rd_app_l (l1 l2 : list Z) k : 0 <= k < Z.of_nat (length l1) -> rd (l1 ++ l2) k = rd l1 k.
Proof. intros Hk. unfold rd. apply app_nth1. lia. Qed.

Lemma rd_app_r (l1 l2 : list Z) k : Z.of_nat (length l1) <= k -> rd (l1 ++ l2) k = rd l2 (k - Z.of_nat (length l1)).
Proof. intros Hk. unfold rd. rewrite app_nth2 by lia. f_equal. lia. Qed.

Lemma wrote_trans sb off b1 b2 C i C1 i1 C2 i2 :
  fs_ok C sb -> 0 <= off -> off + Z.of_nat (length (b1 ++ b2)) <= MAXFILE * BSIZE ->
  wrote sb off b1 C i C1 i1 -> wrote sb (off + Z.of_nat (length b1)) b2 C1 i1 C2 i2 -> wrote sb off (b1 ++ b2) C i C2 i2.
Proof.
  rewrite length_app. intros Fs Ho Hmax [F1 I1 B1 A1 P1 U1 R1 M1 O1 S1] [F2 I2 B2 A2 P2 U2 R2 M2 O2 S2].
  pose proof (datastart_pos sb (fo_layout _ _ F1)) as Hd.
  assert (Hnf : forall c, 0 <= c < sbsize sb -> used C1 sb c = false -> used C sb c = false).
  { intros c Hc E. destruct (used C sb c) eqn:E'; [|done]. apply U1 in E'; [congruence|done]. }
  constructor; try done.
  - intros x Hx. rewrite B2, length_app, Nat2Z.inj_add by done. destruct (decide (off + _ <= x < _)).
    + rewrite decide_True by lia. rewrite rd_app_r by lia. f_equal. lia.
    + rewrite B1 by done. destruct (decide (off <= x < _)).
      * rewrite decide_True by lia. by rewrite rd_app_l by lia.
      * by rewrite decide_False by lia.
  - intros bn Hb Hn. rewrite A2; [by apply A1|done|]. by rewrite A1.
  - intros x. rewrite length_app, Nat2Z.inj_add. intros Hx. destruct (Z.lt_ge_cases x (off + Z.of_nat (length b1))).
    + rewrite A2; [apply P1; lia| |apply P1; lia]. split; [apply Z.div_pos; [lia|done]|]. apply Z.div_lt_upper_bound; [done|]. lia.
    + apply P2. lia.
  - intros c Hc E. by apply U2, U1.
  - intros c Hc E Hn. rewrite R2; [by apply R1|done|apply U1; [lia|done]|]. intros [H|H]%O1; [done|congruence].
  - intros c Hc. by rewrite M2, M1.
  - intros a Ha. destruct (O2 a Ha) as [H|H]; [by apply O1|right]. pose proof (owns_ok C2 sb i2 a I2 Ha). apply Hnf; [lia|done].
  - rewrite S2, S1. done.
Qed.

Lemma length_splice d o bs : 0 <= o -> o + Z.of_nat (length bs) <= Z.of_nat (length d) -> length (splice d o bs) = length d.
Proof. intros. unfold splice. rewrite !length_app, length_take, length_drop. lia. Qed.

Lemma rd_splice d o bs k : 0 <= o -> o + Z.of_nat (length bs) <= Z.of_nat (length d) -> 0 <= k ->
  rd (splice d o bs) k = if decide (o <= k < o + Z.of_nat (length bs)) then rd bs (k - o) else rd d k.
Proof.
  intros Ho Hl Hk. unfold splice. assert (Ht : Z.of_nat (length (take (Z.to_nat o) d)) = o) by (rewrite length_take; lia).
  destruct (Z.lt_ge_cases k o).
  - rewrite decide_False by lia. rewrite rd_app_l by lia. unfold rd. rewrite !nth_lookup, lookup_take by lia.
    by rewrite (decide_True (P := (_ < _)%nat)) by lia.
  - rewrite rd_app_r, Ht by lia. case_decide.
    + by rewrite rd_app_l by lia.
    + rewrite rd_app_r by lia. unfold rd. rewrite !nth_lookup, lookup_drop. f_equal. f_equal. lia.
Qed.

Lemma isbytes_splice d o bs : isbytes d -> isbytes bs -> isbytes (splice d o bs).
Proof.
  intros Hd Hb x. unfold splice. rewrite !elem_of_app. intros [H|[H|H]]; [apply Hd|by apply Hb|apply Hd].
  - rewrite <- (take_drop (Z.to_nat o) d). apply elem_of_app. by left.
  - rewrite <- (take_drop (Z.to_nat o + length bs) d). apply elem_of_app. by right.
Qed.

Lemma block_index x : 0 <= x < MAXFILE * BSIZE -> 0 <= x / BSIZE < MAXFILE.
Proof. intros Hx. split; [apply Z.div_pos; [lia|done]|]. apply Z.div_lt_upper_bound; [done|lia]. Qed.

(** Offsets of one block *)
Lemma same_block off x m : 0 <= off -> 0 <= x -> off mod BSIZE + m <= BSIZE ->
  off <= x < off + m <-> x / BSIZE = off / BSIZE /\ off mod BSIZE <= x mod BSIZE < off mod BSIZE + m.
Proof.
  intros Ho Hx Hm. pose proof (Z.div_mod off BSIZE ltac:(done)). pose proof (Z.div_mod x BSIZE ltac:(done)).
  pose proof (Z.mod_pos_bound off BSIZE ltac:(done)). pose proof (Z.mod_pos_bound x BSIZE ltac:(done)).
  unfold BSIZE in *. split; [intros|intros [E ?]; rewrite E in *; lia].
  assert (x / 1024 = off / 1024) by nia. lia.
Qed.

(** memmove of [bs] into the data block of a file *)
Lemma wrote_data sb C i off bs :
  fs_ok C sb -> inode_ok C sb i -> 0 <= off < MAXFILE * BSIZE -> off mod BSIZE + Z.of_nat (length bs) <= BSIZE -> isbytes bs ->
  let a := baddr C i (off / BSIZE) in a <> 0 ->
  wrote sb off bs C i (upd C a (splice (C a) (off mod BSIZE) bs)) i.
Proof.
  intros F I Hoff Hm Hbs a Ha. pose proof (io_addrs _ _ _ I) as Ao. pose proof (block_index off Hoff) as Hk.
  destruct (ao_data _ _ _ _ Ao _ Hk Ha) as [Hr Hu]. fold a in Hr, Hu. pose proof (ao_sep _ _ _ _ Ao _ Hk Ha) as Hs. fold a in Hs.
  pose proof (datastart_pos _ (fo_layout _ _ F)) as Hd. pose proof (fo_len _ _ F a) as Hl.
  pose proof (Z.mod_pos_bound off BSIZE ltac:(done)) as Hmod.
  assert (Hl' : Z.of_nat (length (C a)) = BSIZE) by (rewrite Hl; done).
  set (C' := upd C a _). assert (HU : forall c, 0 <= c < sbsize sb -> used C' sb c = used C sb c).
  { intros c Hc. apply used_other. pose proof (BBLOCK_range sb c Hc). lia. }
  assert (HA : forall k, baddr C' i k = baddr C i k).
  { intros k. unfold baddr. fold (indirect i). unfold C'. by rewrite upd_other. }
  assert (F' : fs_ok C' sb).
  { apply fs_ok_upd; [done|by rewrite length_splice by lia|apply isbytes_splice; [apply (fo_bytes _ _ F)|done]|].
    intros c Hc. fold C'. rewrite HU by (pose proof (ly_data _ (fo_layout _ _ F)); lia). by apply (fo_meta _ _ F). }
  constructor; try done.
  - split; [apply I|]. eapply addr_ok_ext; [| |exact Ao].
    + intros c Hc. rewrite HU by lia. done.
    + intros k Hk'. by rewrite HA.
  - intros x Hx. unfold file_byte. rewrite HA. pose proof (same_block off x (Z.of_nat (length bs)) ltac:(lia) ltac:(lia) Hm) as Hsb.
    destruct (baddr C i (x / BSIZE) =? 0) eqn:E0; bool_to_prop.
    + rewrite decide_False; [done|]. intros [E _]%Hsb. rewrite E in E0. done.
    + unfold C', upd. case_decide as E.
      * pose proof (ao_inj _ _ _ _ Ao _ _ (block_index x Hx) Hk E0 E) as Ex. pose proof (Z.mod_pos_bound x BSIZE ltac:(done)).
        rewrite rd_splice by lia. destruct (decide (off <= x < _)) as [D|D].
        -- rewrite decide_True by (by apply Hsb). f_equal. rewrite (Z.mod_eq x), (Z.mod_eq off), Ex by done. lia.
        -- rewrite decide_False; [by rewrite E|]. intros Hx2. by apply D, Hsb.
      * rewrite decide_False; [done|]. intros [D _]%Hsb. rewrite D in E. done.
  - intros x Hx. rewrite HA. assert (E : x / BSIZE = off / BSIZE) by (apply (same_block off x (Z.of_nat (length bs))); lia). by rewrite E.
  - intros c Hc E. by rewrite HU.
  - intros c Hc E Hn. unfold C'. apply upd_other. intros ->. apply Hn. split; [done|]. right. by exists (off / BSIZE).
  - intros c Hc. unfold C'. apply upd_other. lia.
  - intros c [Hc [->|(k & Hk' & Ek)]]; left; split; auto. right. exists k. by rewrite <- HA.
  - by rewrite set_addrs_id.
Qed.

(** ** writei *)

(** The state changed by a store of [bs] at [off] in the file of [ip], logging at
    most [k] blocks *)
Record stored (ip : nat) (k off : Z) (bs : list Z) (s s' : fst) : Prop := {
  so_sb : sb s' = sb s;
  so_mem : fmem s' = fmem s;
  so_held : fheld s' = fheld s;
  so_hold : thold (tx s') = thold (tx s);
  so_dirty : tdirty (tx s') = tdirty (tx s);
  so_log : Z.of_nat (length (tlog (tx s'))) <= Z.of_nat (length (tlog (tx s))) + k;
  so_other : forall j, j <> ip -> itab s' j = itab s j;
  so_wrote : wrote (sb s) off bs (cont s) (itab s ip) (cont s') (itab s' ip) }.

Lemma stored_advances ip k off s s' : calm ip s -> advances ip k s s' -> stored ip k off [] s s'.
Proof.
  intros Ca A. constructor; try apply A. apply wrote_grown; [apply Ca|apply A].
Qed.

Lemma stored_trans ip k1 k2 off b1 b2 s s1 s2 :
  calm ip s -> 0 <= off -> off + Z.of_nat (length (b1 ++ b2)) <= MAXFILE * BSIZE ->
  stored ip k1 off b1 s s1 -> stored ip k2 (off + Z.of_nat (length b1)) b2 s1 s2 -> stored ip (k1 + k2) off (b1 ++ b2) s s2.
Proof.
  intros Ca Ho Hm A1 A2. constructor; try (etransitivity; [apply A2|apply A1]; fail).
  - pose proof (so_log _ _ _ _ _ _ A1). pose proof (so_log _ _ _ _ _ _ A2). lia.
  - intros j Hj. by rewrite (so_other _ _ _ _ _ _ A2), (so_other _ _ _ _ _ _ A1).
  - eapply wrote_trans; [apply Ca|done|done|apply A1|]. rewrite <- (so_sb _ _ _ _ _ _ A1). apply A2.
Qed.

Lemma stored_room ip k off bs s s' j : stored ip k off bs s s' -> room s (j + k) -> room s' j.
Proof.
  intros A (H1 & H2 & H3 & H4). unfold room. rewrite (so_sb _ _ _ _ _ _ A), (so_hold _ _ _ _ _ _ A), (so_dirty _ _ _ _ _ _ A).
  pose proof (so_log _ _ _ _ _ _ A). split_and!; [lia|done..].
Qed.

Lemma stored_mono ip k k' off bs s s' : stored ip k off bs s s' -> k <= k' -> stored ip k' off bs s s'.
Proof. intros A Hk. destruct A. constructor; try done. lia. Qed.

Lemma calm_stored ip k off bs s s' : calm ip s -> stored ip k off bs s s' -> calm ip s'.
Proof.
  intros [F H I] A. constructor; rewrite ?(so_sb _ _ _ _ _ _ A); [apply (so_wrote _ _ _ _ _ _ A)|by rewrite (so_hold _ _ _ _ _ _ A)|apply (so_wrote _ _ _ _ _ _ A)].
Qed.

(** A whole turn of the loop but for bmap: the block rewritten and logged *)
Lemma stored_block ip off bs s :
  calm ip s -> 0 <= off < MAXFILE * BSIZE -> off mod BSIZE + Z.of_nat (length bs) <= BSIZE -> isbytes bs ->
  let a := baddr (cont s) (itab s ip) (off / BSIZE) in a <> 0 ->
  stored ip 1 off bs s (with_block a (fun d => splice d (off mod BSIZE) bs) s).
Proof.
  intros Ca Hoff Hm Hbs a Ha. constructor; try done.
  - pose proof (length_logged a (tlog (tx s))). unfold with_block. fsimpl. lia.
  - rewrite tcont_with_block. apply wrote_data; [apply Ca|apply Ca|done..].
Qed.

Section content.
Context `{UserCopy}.

(** copyin of any part of [src, src + length bs) gives that part of [bs]. *)
Definition source (us : bool) (m : mem) (src : Z) (bs : list Z) : Prop :=
  forall k l, 0 <= k -> 0 < l -> k + l <= Z.of_nat (length bs) ->
    (if us then user_in m (src + k) l else (region m (src + k) (Z.to_nat l), true)) = (slice bs k l, true).

Lemma length_slice (bs : list Z) k l : 0 <= k -> 0 <= l -> k + l <= Z.of_nat (length bs) -> Z.of_nat (length (slice bs k l)) = l.
Proof. intros. unfold slice. rewrite length_take, length_drop. lia. Qed.

Lemma source_drop us m src bs k : source us m src bs -> 0 <= k -> source us m (src + k) (drop (Z.to_nat k) bs).
Proof.
  intros S Hk j l Hj Hl Hm. rewrite length_drop in Hm. rewrite <- Z.add_assoc, (S (k + j) l) by lia.
  unfold slice. rewrite drop_drop. do 3 f_equal. lia.
Qed.

Lemma isbytes_take k (bs : list Z) : isbytes bs -> isbytes (take k bs).
Proof. intros Hb x Hx. apply Hb. rewrite <- (take_drop k bs). apply elem_of_app. by left. Qed.

Lemma isbytes_drop k (bs : list Z) : isbytes bs -> isbytes (drop k bs).
Proof. intros Hb x Hx. apply Hb. rewrite <- (take_drop k bs). apply elem_of_app. by right. Qed.

Lemma min_le a b : min a b <= a /\ min a b <= b /\ (min a b = a \/ min a b = b).
Proof. unfold min. case_test; bool_to_prop; lia. Qed.

(** One turn of the loop, when bmap found or allocated the block *)
Lemma writei_turn ip us src off n tot fuel s bs a s1 :
  calm ip s -> room s 6 -> source us (fmem s) src bs -> isbytes bs -> Z.of_nat (length bs) = n - tot -> 0 < n - tot ->
  0 <= off -> off + (n - tot) <= MAXFILE * BSIZE ->
  bmap ip (off / BSIZE) s = Ret a s1 -> mapped ip (off / BSIZE) s a s1 -> a <> 0 ->
  let m := min (n - tot) (BSIZE - off mod BSIZE) in
  exists s2, stored ip 6 off (take (Z.to_nat m) bs) s s2 /\
    writei_loop ip us src off n tot (S fuel) s = writei_loop ip us (src + m) (off + m) n (tot + m) fuel s2.
Proof.
  intros Ca Hr Hs Hb Hl Hn Ho Hmax E (A & Ea & _ & _) Ha m. pose proof (Z.mod_pos_bound off BSIZE ltac:(done)) as Hmod.
  pose proof (min_le (n - tot) (BSIZE - off mod BSIZE)) as Hm. fold m in Hm.
  pose proof (calm_advances _ _ _ _ Ca A) as Ca1. pose proof (advances_room _ _ _ _ 1 A Hr) as Hr1.
  set (b1 := take (Z.to_nat m) bs). assert (Hl1 : Z.of_nat (length b1) = m) by (unfold b1; rewrite length_take; lia).
  pose proof (stored_block ip off b1 s1 Ca1 ltac:(lia) ltac:(lia) ltac:(by apply isbytes_take)) as St. cbv zeta in St. rewrite Ea in St.
  set (s2 := with_block a _ s1) in St. exists s2. split.
  - rewrite <- (app_nil_l b1). apply (stored_trans ip 5 1 off [] b1 s s1 s2); [done|done|simpl; lia|by apply stored_advances|].
    simpl. rewrite Z.add_0_r. by apply St.
  - cbn [writei_loop]. rewrite (proj2 (Z.ltb_lt tot n)) by lia. rewrite (bind_ret_intro _ _ _ _ _ E), (proj2 (Z.eqb_neq a 0) Ha).
    unfold geti at 1. rewrite bind_get. assert (Hh : a ∉ thold (tx s1)) by (rewrite (ca_hold _ _ Ca1); apply not_elem_of_nil).
    rewrite (bind_ret_intro _ _ _ _ _ (bread_run _ a s1 Hh Hr1)). fold m.
    assert (Es : either_copyin us src m (with_hold a s1) = Ret (b1, true) (with_hold a s1)).
    { unfold either_copyin. change (fmem (with_hold a s1)) with (fmem s1). rewrite (ad_mem _ _ _ _ A).
      pose proof (Hs 0 m ltac:(lia) ltac:(lia) ltac:(lia)) as Es. rewrite Z.add_0_r in Es. unfold slice in Es. cbn [drop Z.to_nat] in Es.
      rewrite drop_0 in Es. fold b1 in Es. destruct us; [by rewrite Es|]. congruence. }
    rewrite (bind_ret_intro _ _ _ _ _ Es). cbv beta iota.
    rewrite (proj2 (Nat.eqb_neq (length b1) 0)) by lia. cbn [negb].
    pose proof (ca_fs _ _ Ca1) as F1. destruct (ao_data _ _ _ _ (io_addrs _ _ _ (ca_inode _ _ Ca1)) _ (block_index off ltac:(lia)) ltac:(by rewrite Ea)) as [Hd _].
    rewrite Ea in Hd. pose proof (store_log_run a (fun d => splice d (off mod BSIZE) b1) s1 Hh Hr1 (data_loggable _ _ (fo_layout _ _ F1) Hd)) as El.
    specialize (El ltac:(cbv beta; rewrite length_splice; [apply (fo_len _ _ F1)|lia|rewrite (fo_len _ _ F1); change (Z.of_nat (Z.to_nat BSIZE)) with BSIZE; lia])).
    apply bind_ret_inv in El as ([] & s3 & E1 & E2).
    rewrite (bind_ret_intro _ _ _ _ _ E1), (bind_ret_intro _ _ _ _ _ E2). fold s2.
    assert (Er : brelse a (with_hold a s2) = Ret tt s2).
    { apply brelse_run; [exact Hh|]. unfold s2, with_block. fsimpl. destruct Hr1 as (_ & _ & _ & ->). apply not_elem_of_nil. }
    by rewrite (bind_ret_intro _ _ _ _ _ Er).
Qed.

(** The next offset starts a block, or nothing is left. *)
Lemma next_block off m len nb :
  0 <= off -> 0 < len -> m = min len (BSIZE - off mod BSIZE) -> off mod BSIZE + len <= Z.of_nat (S nb) * BSIZE ->
  len - m <= 0 \/ (off + m) mod BSIZE + (len - m) <= Z.of_nat nb * BSIZE.
Proof.
  intros Ho Hl -> Hn. unfold min. case_test; bool_to_prop; [lia|]. right.
  replace (off + (BSIZE - off mod BSIZE)) with ((off / BSIZE + 1) * BSIZE) by (rewrite (Z.mod_eq off) by done; lia).
  rewrite Z.mod_mul by done. lia.
Qed.

Lemma writei_loop_spec ip us fuel : forall nb src off n tot s bs,
  calm ip s -> room s (6 * Z.of_nat nb) -> source us (fmem s) src bs -> isbytes bs -> Z.of_nat (length bs) = n - tot ->
  n - tot < Z.of_nat fuel -> 0 <= off -> off + (n - tot) <= MAXFILE * BSIZE ->
  n - tot <= 0 \/ off mod BSIZE + (n - tot) <= Z.of_nat nb * BSIZE ->
  exists r s', writei_loop ip us src off n tot fuel s = Ret (tot + r, off + r) s' /\ 0 <= r <= n - tot /\
    stored ip (6 * Z.of_nat nb) off (take (Z.to_nat r) bs) s s' /\ (r < n - tot -> full s').
Proof.
  induction fuel as [|fuel IH]; intros nb src off n tot s bs Ca Hr Hs Hb Hl Hf Ho Hmax Hnb; [lia|].
  destruct (Z.eq_dec (n - tot) 0) as [E0|E0].
  { exists 0, s. cbn [writei_loop]. rewrite (proj2 (Z.ltb_ge tot n)) by lia. rewrite !Z.add_0_r. split_and!; [done|lia|lia| |lia].
    eapply stored_mono; [apply stored_advances; [done|apply advances_refl; apply Ca]|lia]. }
  destruct nb as [|nb]; [pose proof (Z.mod_pos_bound off BSIZE ltac:(done)); lia|].
  assert (Hr6 : room s 6) by (eapply room_weaken; [exact Hr|lia]).
  destruct (bmap_spec ip (off / BSIZE) s Ca (room_weaken s 6 5 Hr6 ltac:(lia)) (block_index off ltac:(lia))) as (a & s1 & E & Hm).
  destruct (Z.eq_dec a 0) as [Ha|Ha].
  - destruct Hm as (A & _ & Hfull & _). exists 0, s1. cbn [writei_loop]. rewrite (proj2 (Z.ltb_lt tot n)) by lia.
    rewrite (bind_ret_intro _ _ _ _ _ E), Ha, !Z.add_0_r. split_and!; [done|lia|lia| |by intros _; apply Hfull].
    eapply stored_mono; [by apply stored_advances|lia].
  - destruct (writei_turn ip us src off n tot fuel s bs a s1) as (s2 & St & ->); try done; [lia|].
    pose proof (min_le (n - tot) (BSIZE - off mod BSIZE)) as Hmin. pose proof (Z.mod_pos_bound off BSIZE ltac:(done)) as Hmod.
    set (m := min (n - tot) (BSIZE - off mod BSIZE)) in *.
    destruct (IH nb (src + m) (off + m) n (tot + m) s2 (drop (Z.to_nat m) bs)) as (r & s' & E' & Hr' & St' & Hfull).
    + by eapply calm_stored.
    + eapply stored_room; [done|]. eapply room_weaken; [exact Hr|lia].
    + rewrite (so_mem _ _ _ _ _ _ St). apply source_drop; [done|lia].
    + by apply isbytes_drop.
    + rewrite length_drop. lia.
    + lia.
    + lia.
    + lia.
    + destruct (next_block off m (n - tot) nb ltac:(lia) ltac:(lia) eq_refl ltac:(lia)); [left|right]; lia.
    + exists (m + r), s'. rewrite !Z.add_assoc. split_and!; [done|lia|lia| |intros; apply Hfull; lia].
      assert (El : Z.of_nat (length (take (Z.to_nat m) bs)) = m) by (rewrite length_take; lia).
      replace (take (Z.to_nat (m + r)) bs) with (take (Z.to_nat m) bs ++ take (Z.to_nat r) (drop (Z.to_nat m) bs)).
      2: { rewrite Z2Nat.inj_add by lia. apply take_take_drop. }
      eapply stored_mono; [apply (stored_trans ip 6 (6 * Z.of_nat nb) off _ _ s s2 s'); [done|done| |exact St|by rewrite El]|lia].
      rewrite length_app, !length_take, length_drop. lia.
Qed.

(** ** readi *)

(** The bytes from [off] *)
Definition content (s : fst) (ip : nat) (off len : Z) : list Z :=
  file_byte (cont s) (itab s ip) <$> seqZ off len.

Lemma length_content s ip off len : 0 <= len -> Z.of_nat (length (content s ip off len)) = len.
Proof. intros. unfold content. rewrite length_fmap, length_seqZ. lia. Qed.

Lemma bmap_mapped ip bn s :
  calm ip s -> room s 1 -> 0 <= bn < MAXFILE -> baddr (cont s) (itab s ip) bn <> 0 ->
  bmap ip bn s = Ret (baddr (cont s) (itab s ip) bn) s.
Proof.
  intros Ca Hr Hbn. unfold bmap, geti, baddr. rewrite bind_get. destruct (bn <? NDIRECT) eqn:E.
  { intros Hn. by rewrite (proj2 (Z.eqb_neq _ 0) Hn). }
  rewrite (proj2 (Z.ltb_lt (bn - NDIRECT) NINDIRECT)) by (unfold MAXFILE in Hbn; lia). fold (indirect (itab s ip)).
  destruct (indirect (itab s ip) =? 0) eqn:Ei; [done|]. intros Hn.
  rewrite (bind_ret_intro _ _ s (indirect (itab s ip)) s) by done. rewrite Ei.
  assert (Hh : indirect (itab s ip) ∉ thold (tx s)) by (rewrite (ca_hold _ _ Ca); apply not_elem_of_nil).
  rewrite (bind_ret_intro _ _ _ _ _ (bread_run _ _ s Hh Hr)). rewrite (bind_ret_intro _ _ _ _ _ (bdata_run _ (with_hold _ s))).
  change (cont (with_hold (indirect (itab s ip)) s)) with (cont s). rewrite (proj2 (Z.eqb_neq _ 0) Hn).
  apply release_ret; [done|apply Hr].
Qed.

(** A regular file between calls: every block below its size is there *)
Record file_ok (C : Z -> block) (sb : superblock) (i : inode) : Prop := {
  fi_inode : inode_ok C sb i;
  fi_size : 0 <= isize i <= MAXFILE * BSIZE;
  fi_blocks : forall x, 0 <= x < isize i -> baddr C i (x / BSIZE) <> 0;
  fi_inum : 0 <= inum i < ninodes sb }.

Lemma content_app s ip off l1 l2 : 0 <= l1 -> 0 <= l2 -> content s ip off (l1 + l2) = content s ip off l1 ++ content s ip (off + l1) l2.
Proof. intros. unfold content. by rewrite seqZ_app, fmap_app by lia. Qed.

Lemma isbytes_content s ip off len : fs_ok (cont s) (sb s) -> isbytes (content s ip off len).
Proof.
  intros F x Hx. unfold content in Hx. apply list_elem_of_fmap in Hx as (y & -> & _). unfold file_byte.
  case_match; [lia|]. apply isbytes_rd, (fo_bytes _ _ F).
Qed.

(** The part of a block is the part of the file. *)
Lemma content_block s ip off m :
  fs_ok (cont s) (sb s) -> 0 <= off -> 0 <= m -> off mod BSIZE + m <= BSIZE ->
  let a := baddr (cont s) (itab s ip) (off / BSIZE) in a <> 0 -> slice (cont s a) (off mod BSIZE) m = content s ip off m.
Proof.
  intros F Ho Hm Hb a Ha. pose proof (Z.mod_pos_bound off BSIZE ltac:(done)). pose proof (fo_len _ _ F a) as Hl.
  change (Z.to_nat BSIZE) with 1024%nat in Hl. apply list_eq_same_length with (Z.to_nat m).
  - pose proof (length_content s ip off m Hm). lia.
  - unfold slice. rewrite length_take, length_drop, Hl. unfold BSIZE in *. lia.
  - intros k x y Hk. unfold slice, content. rewrite list_lookup_fmap. rewrite lookup_take, (decide_True (P := (_ < _)%nat)) by lia.
    rewrite lookup_drop, lookup_seqZ_lt by lia. intros Ex [= <-]. unfold file_byte.
    pose proof (proj1 (same_block off (off + Z.of_nat k) m Ho ltac:(lia) Hb) ltac:(lia)) as [Eq Er]. rewrite Eq. fold a.
    rewrite (proj2 (Z.eqb_neq a 0) Ha). unfold rd. symmetry. apply nth_lookup_Some. rewrite <- Ex. f_equal.
    rewrite (Z.mod_eq (off + _)), Eq by done. rewrite (Z.mod_eq off) in * by done. lia.
Qed.

Lemma put_bytes_nil m a x : put_bytes m a [] x = m x.
Proof. unfold put_bytes. destruct (Z.leb_spec a x), (Z.ltb_spec x (a + Z.of_nat (@length Z []))); cbn [andb]; simpl in *; (lia || done). Qed.

Lemma put_bytes_app m a b1 b2 x : put_bytes (put_bytes m a b1) (a + Z.of_nat (length b1)) b2 x = put_bytes m a (b1 ++ b2) x.
Proof.
  unfold put_bytes. rewrite length_app, Nat2Z.inj_add.
  destruct (Z.leb_spec a x), (Z.leb_spec (a + Z.of_nat (length b1)) x), (Z.ltb_spec x (a + Z.of_nat (length b1))),
    (Z.ltb_spec x (a + (Z.of_nat (length b1) + Z.of_nat (length b2)))), (Z.ltb_spec x (a + Z.of_nat (length b1) + Z.of_nat (length b2)));
    cbn [andb]; try lia; try done.
  - f_equal. rewrite rd_app_r by lia. f_equal. lia.
  - by rewrite rd_app_l by lia.
Qed.

Lemma readi_loop_spec ip fuel : forall dst off n tot s,
  calm ip s -> room s 1 -> (forall x, off <= x < off + (n - tot) -> baddr (cont s) (itab s ip) (x / BSIZE) <> 0) ->
  0 <= n - tot < Z.of_nat fuel -> 0 <= off -> off + (n - tot) <= MAXFILE * BSIZE ->
  exists m', readi_loop ip false dst off n tot fuel s = Ret n (set_fmem m' s) /\
    forall x, m' x = put_bytes (fmem s) dst (content s ip off (n - tot)) x.
Proof.
  induction fuel as [|fuel IH]; intros dst off n tot s Ca Hr Hm Hf Ho Hmax; [lia|]. cbn [readi_loop].
  destruct (tot <? n) eqn:Et; bool_to_prop.
  2: { exists (fmem s). split; [replace tot with n by lia; by destruct s|]. intros x. replace (n - tot) with 0 by lia.
       symmetry. apply put_bytes_nil. }
  pose proof (Z.mod_pos_bound off BSIZE ltac:(done)) as Hmod. pose proof (min_le (n - tot) (BSIZE - off mod BSIZE)) as Hmin.
  set (m := min (n - tot) (BSIZE - off mod BSIZE)) in *. assert (Ha := Hm off ltac:(lia)).
  rewrite (bind_ret_intro _ _ _ _ _ (bmap_mapped ip _ s Ca Hr (block_index off ltac:(lia)) Ha)).
  rewrite (proj2 (Z.eqb_neq _ 0) Ha). set (a := baddr (cont s) (itab s ip) (off / BSIZE)) in *. unfold geti at 1. rewrite bind_get.
  assert (Hh : a ∉ thold (tx s)) by (rewrite (ca_hold _ _ Ca); apply not_elem_of_nil).
  rewrite (bind_ret_intro _ _ _ _ _ (bread_run _ a s Hh Hr)), (bind_ret_intro _ _ _ _ _ (bdata_run a (with_hold a s))).
  change (cont (with_hold a s)) with (cont s).
  pose proof (content_block s ip off m (ca_fs _ _ Ca) Ho ltac:(lia) ltac:(lia) Ha) as Es. cbv zeta in Es. fold a in Es. rewrite Es.
  set (s1 := set_fmem (put_bytes (fmem s) dst (content s ip off m)) s).
  rewrite (bind_ret_intro _ _ (with_hold a s) 0 (with_hold a s1)) by done. cbn [Z.eqb].
  assert (Er : brelse a (with_hold a s1) = Ret tt s1).
  { apply brelse_run; [exact Hh|]. destruct Hr as (_ & _ & _ & Hd). change (tdirty (tx s1)) with (tdirty (tx s)). rewrite Hd. apply not_elem_of_nil. }
  rewrite (bind_ret_intro _ _ _ _ _ Er).
  destruct (IH (dst + m) (off + m) n (tot + m) s1) as (m' & E & Hx).
  - destruct Ca. by constructor.
  - done.
  - intros x Hx. apply Hm. lia.
  - lia.
  - lia.
  - lia.
  - exists m'. split; [exact E|]. intros x. rewrite Hx. change (content s1 ip) with (content s ip). unfold s1. fsimpl.
    replace (dst + m) with (dst + Z.of_nat (length (content s ip off m))) by (rewrite length_content; lia). rewrite put_bytes_app, <- content_app by lia. do 2 f_equal. lia.
Qed.

Lemma readi_spec ip dst off n s :
  calm ip s -> room s 1 -> file_ok (cont s) (sb s) (itab s ip) -> 0 <= off -> 0 <= n -> off + n < 2 ^ 32 ->
  let r := if isize (itab s ip) <? off then 0 else min n (isize (itab s ip) - off) in
  exists m', readi ip false dst off n s = Ret r (set_fmem m' s) /\
    forall x, m' x = put_bytes (fmem s) dst (content s ip off r) x.
Proof.
  intros Ca Hr [_ Hs Hb _] Ho Hn Hw. cbv zeta. unfold readi, geti. rewrite bind_get, u32_small by lia.
  destruct (isize (itab s ip) <? off) eqn:E1; bool_to_prop; cbn [orb].
  - exists (fmem s). split; [by destruct s|]. intros x. symmetry. apply put_bytes_nil.
  - rewrite (proj2 (Z.ltb_ge (off + n) off)) by lia. set (n' := if _ <? _ then _ else _).
    assert (En : n' = min n (isize (itab s ip) - off)) by (unfold n', min; case_test; case_test; bool_to_prop; lia).
    pose proof (min_le n (isize (itab s ip) - off)). rewrite <- En in *.
    destruct (readi_loop_spec ip (S (Z.to_nat n')) dst off n' 0 s Ca Hr) as (m' & E & Hx); try lia.
    + intros x Hx. apply Hb. lia.
    + exists m'. rewrite Z.sub_0_r in Hx. done.
Qed.

(** ** Blocks of a file that did not change *)

Lemma inode_frame sb C C' i :
  inode_ok C sb i -> (forall c, owns C i c -> C' c = C c) ->
  (forall c, datastart sb <= c < sbsize sb -> used C sb c = true -> used C' sb c = true) ->
  inode_ok C' sb i /\ (forall bn, baddr C' i bn = baddr C i bn) /\
  forall x, 0 <= x < MAXFILE * BSIZE -> file_byte C' i x = file_byte C i x.
Proof.
  intros [L A] Hc Hu. assert (Ha : forall bn, baddr C' i bn = baddr C i bn).
  { intros bn. unfold baddr. fold (indirect i). case_match; [done|]. destruct (indirect i =? 0) eqn:E; [done|]. bool_to_prop.
    rewrite Hc; [done|]. split; [done|by left]. }
  split_and!; [split; [done|]| done|].
  - destruct A as [D I J S]. constructor.
    + intros bn Hb. rewrite Ha. intros Hn. destruct (D bn Hb Hn). split; [done|]. by apply Hu.
    + intros Hn. destruct (I Hn). split; [done|]. by apply Hu.
    + intros b1 b2 H1 H2. rewrite !Ha. by apply J.
    + intros bn Hb. rewrite Ha. by apply S.
  - intros x Hx. unfold file_byte. rewrite Ha. destruct (baddr C i (x / BSIZE) =? 0) eqn:E; [done|]. bool_to_prop.
    rewrite Hc; [done|]. split; [done|]. right. eexists. split; [by apply block_index|done].
Qed.

Lemma IBLOCK_range sb n : layout sb -> 0 <= n < ninodes sb -> inodestart sb <= IBLOCK n sb < bmapstart sb.
Proof.
  intros L Hn. pose proof (ly_inodes sb L). unfold IBLOCK. assert (0 <= n / IPB) by (apply Z.div_pos; [lia|done]).
  assert (n / IPB <= ninodes sb / IPB) by (apply Z.div_le_mono; [done|lia]). lia.
Qed.

Lemma dip_off_range n : 0 <= dip_off n /\ dip_off n + 64 <= BSIZE.
Proof. unfold dip_off. pose proof (Z.mod_pos_bound n IPB ltac:(done)). unfold IPB, DINODE, BSIZE in *. change (1024 / 64) with 16 in *. lia. Qed.

Lemma iupdate_run ip s :
  fs_ok (cont s) (sb s) -> thold (tx s) = [] -> room s 1 -> 0 <= inum (itab s ip) < ninodes (sb s) ->
  iupdate ip s = Ret tt (with_block (IBLOCK (inum (itab s ip)) (sb s)) (put_dinode (dip_off (inum (itab s ip))) (itab s ip)) s).
Proof.
  intros F Hh Hr Hn. pose proof (fo_layout _ _ F) as L. pose proof (IBLOCK_range _ _ L Hn) as Hb. pose proof (ly_log _ L).
  pose proof (datastart_pos _ L). pose proof (ly_data _ L). pose proof (ly_size _ L). destruct (dip_off_range (inum (itab s ip))).
  unfold iupdate, geti. rewrite !bind_get. apply modify_block_last; [rewrite Hh; apply not_elem_of_nil|done| |].
  - split; lia.
  - rewrite length_put_dinode; [apply (fo_len _ _ F)|done|]. rewrite (fo_len _ _ F). done.
Qed.

(** What writei leaves, given the state [s2] after its loop *)
Definition resized (ip : nat) (off : Z) (s : fst) : fst :=
  if isize (itab s ip) <? off then set_itab (upd (itab s) ip (set_isize off (itab s ip))) s else s.
Definition synced (ip : nat) (s : fst) : fst :=
  with_block (IBLOCK (inum (itab s ip)) (sb s)) (put_dinode (dip_off (inum (itab s ip))) (itab s ip)) s.

Lemma resized_same ip off s :
  tx (resized ip off s) = tx s /\ sb (resized ip off s) = sb s /\ fmem (resized ip off s) = fmem s /\
  (forall j, j <> ip -> itab (resized ip off s) j = itab s j) /\
  itab (resized ip off s) ip = set_isize (Z.max (isize (itab s ip)) off) (itab s ip).
Proof.
  unfold resized. case_test; bool_to_prop; split_and!; try done.
  - intros j Hj. fsimpl. by apply upd_other.
  - fsimpl. rewrite upd_same. f_equal. lia.
  - rewrite Z.max_l by lia. by destruct (itab s ip).
Qed.

Lemma writei_run ip us src off n bs nb s :
  calm ip s -> file_ok (cont s) (sb s) (itab s ip) -> 0 <= off <= isize (itab s ip) -> Z.of_nat (length bs) = n ->
  off + n <= MAXFILE * BSIZE -> source us (fmem s) src bs -> isbytes bs -> off mod BSIZE + n <= Z.of_nat nb * BSIZE ->
  room s (6 * Z.of_nat nb + 1) ->
  exists r s2, writei ip us src off n s = Ret r (synced ip (resized ip (off + r) s2)) /\ 0 <= r <= n /\
    stored ip (6 * Z.of_nat nb) off (take (Z.to_nat r) bs) s s2 /\ (r < n -> full s2).
Proof.
  intros Ca Fi Ho Hl Hmax Hs Hb Hn Hr. unfold writei, geti. rewrite bind_get. assert (Hm : MAXFILE * BSIZE < 2 ^ 32) by done.
  rewrite u32_small by lia. rewrite (proj2 (Z.ltb_ge (isize (itab s ip)) off)), (proj2 (Z.ltb_ge (off + n) off)) by lia. cbn [orb].
  rewrite (proj2 (Z.ltb_ge (MAXFILE * BSIZE) (off + n))) by lia.
  destruct (writei_loop_spec ip us (S (Z.to_nat n)) nb src off n 0 s bs) as (r & s2 & E & Hr2 & St & Hf); try done; try lia.
  { eapply room_weaken; [done|lia]. }
  exists r, s2. rewrite (bind_ret_intro _ _ _ _ _ E). cbv beta iota. rewrite bind_get, Z.add_0_l.
  split_and!; [|lia|lia|done|intros; apply Hf; lia].
  destruct (resized_same ip (off + r) s2) as (Et & Es & _ & _ & Ei).
  rewrite (bind_ret_intro _ _ s2 tt (resized ip (off + r) s2)) by (unfold resized; by case_match).
  assert (Ew : inum (itab s2 ip) = inum (itab s ip)) by (by rewrite (w_same _ _ _ _ _ _ _ (so_wrote _ _ _ _ _ _ St))).
  assert (Eu : iupdate ip (resized ip (off + r) s2) = Ret tt (synced ip (resized ip (off + r) s2))).
  { pose proof (calm_stored _ _ _ _ _ _ Ca St) as Ca2.
    apply iupdate_run; rewrite ?Et, ?Es; [apply Ca2|apply Ca2| |].
    - pose proof (stored_room _ _ _ _ _ _ 1 St ltac:(rewrite Z.add_comm; exact Hr)) as (H1 & H2 & H3 & H4). unfold room. by rewrite Et, Es.
    - rewrite Ei. cbn [inum set_isize]. rewrite Ew, (so_sb _ _ _ _ _ _ St). apply Fi. }
  by rewrite (bind_ret_intro _ _ _ _ _ Eu).
Qed.

(** The block of inodes rewritten: data and bitmap are as before *)
Lemma synced_spec ip s :
  fs_ok (cont s) (sb s) -> 0 <= inum (itab s ip) < ninodes (sb s) ->
  fs_ok (cont (synced ip s)) (sb s) /\ (forall c, bmapstart (sb s) <= c -> cont (synced ip s) c = cont s c) /\
  forall c, 0 <= c < sbsize (sb s) -> used (cont (synced ip s)) (sb s) c = used (cont s) (sb s) c.
Proof.
  intros F Hn. pose proof (fo_layout _ _ F) as L. pose proof (IBLOCK_range _ _ L Hn) as Hb. destruct (dip_off_range (inum (itab s ip))) as [D1 D2].
  unfold synced. rewrite tcont_with_block. set (b := IBLOCK _ _) in *.
  assert (Hl : dip_off (inum (itab s ip)) + 64 <= Z.of_nat (length (cont s b))) by (rewrite (fo_len _ _ F); done).
  assert (Hu : forall d c, 0 <= c < sbsize (sb s) -> used (upd (cont s) b d) (sb s) c = used (cont s) (sb s) c).
  { intros d c Hc. apply used_other. pose proof (BBLOCK_range (sb s) c Hc). lia. }
  split_and!; [|intros c Hc; apply upd_other; lia|apply Hu].
  apply fs_ok_upd; [done|rewrite length_put_dinode by done; apply (fo_len _ _ F)|apply isbytes_put_dinode; [done|done|apply (fo_bytes _ _ F)]|].
  intros c Hc. rewrite Hu by (pose proof (ly_data _ L); lia). by apply (fo_meta _ _ F).
Qed.

Lemma inode_ok_resize C sb v i : inode_ok C sb i -> inode_ok C sb (set_isize v i).
Proof. intros [L A]. by split. Qed.

Lemma dinode_ok_addrs C sb i i0 v :
  layout sb -> inode_ok C sb i -> dinode_ok i0 -> i = set_addrs (addrs i) i0 -> 0 <= v < 2 ^ 32 -> dinode_ok (set_isize v i).
Proof.
  intros L [Len A] D E Hv. destruct D as [D1 D2 D3 D4 _ _ _]. rewrite E. constructor; try done. cbn [addrs set_isize set_addrs]. intros k Hk.
  pose proof (ly_size sb L). pose proof (datastart_pos sb L). destruct (Z.eq_dec (rd (addrs i) k) 0) as [->|Hn]; [lia|].
  destruct (Z.eq_dec k NDIRECT) as [->|Hne]; [pose proof (ao_ind _ _ _ _ A Hn) as [HI _]; unfold indirect in HI; lia|].
  assert (Hk12 : k < NDIRECT) by (rewrite NDIRECT_eq in *; lia).
  assert (Eb : baddr C i k = rd (addrs i) k) by (unfold baddr; by rewrite (proj2 (Z.ltb_lt k NDIRECT) Hk12)).
  pose proof (ao_data _ _ _ _ A k ltac:(rewrite MAXFILE_eq; lia) ltac:(congruence)) as [HI _]. rewrite Eb in HI. lia.
Qed.

Section after.
Context (ip : nat) (k off : Z) (bs : list Z) (s s2 : fst).
Hypothesis Ca : calm ip s.
Hypothesis Fi : file_ok (cont s) (sb s) (itab s ip).
Hypothesis Ho : 0 <= off <= isize (itab s ip).
Hypothesis Hmax : off + Z.of_nat (length bs) <= MAXFILE * BSIZE.
Hypothesis St : stored ip k off bs s s2.

Let W := so_wrote _ _ _ _ _ _ St.
Let s3 := resized ip (off + Z.of_nat (length bs)) s2.
Let s' := synced ip s3.

Lemma after_inum : inum (itab s3 ip) = inum (itab s ip).
Proof. destruct (resized_same ip (off + Z.of_nat (length bs)) s2) as (_ & _ & _ & _ & E). unfold s3. rewrite E. cbn [inum set_isize]. by rewrite (w_same _ _ _ _ _ _ _ W). Qed.

Lemma after_inode : itab s' ip = set_isize (Z.max (isize (itab s ip)) (off + Z.of_nat (length bs))) (itab s2 ip).
Proof.
  destruct (resized_same ip (off + Z.of_nat (length bs)) s2) as (_ & _ & _ & _ & E). change (itab s' ip) with (itab s3 ip).
  unfold s3. rewrite E. do 2 f_equal. by rewrite (w_same _ _ _ _ _ _ _ W).
Qed.

Lemma after_same : fmem s' = fmem s /\ sb s' = sb s /\ thold (tx s') = [] /\ (forall j, j <> ip -> itab s' j = itab s j).
Proof.
  destruct (resized_same ip (off + Z.of_nat (length bs)) s2) as (Et & Es & Em & Eo & _).
  change (fmem s') with (fmem s3). change (sb s') with (sb s3). change (itab s') with (itab s3). change (thold (tx s')) with (thold (tx s3)).
  unfold s3. rewrite Et, Es, Em, (so_mem _ _ _ _ _ _ St), (so_sb _ _ _ _ _ _ St), (so_hold _ _ _ _ _ _ St). split_and!; [done|done|apply Ca|].
  intros j Hj. rewrite Eo by done. by apply (so_other _ _ _ _ _ _ St).
Qed.

Lemma after_disk : fs_ok (cont s') (sb s) /\ (forall c, bmapstart (sb s) <= c -> cont s' c = cont s2 c) /\
  forall c, 0 <= c < sbsize (sb s) -> used (cont s') (sb s) c = used (cont s2) (sb s) c.
Proof.
  destruct (resized_same ip (off + Z.of_nat (length bs)) s2) as (Et & Es & _). pose proof (synced_spec ip s3) as H3.
  assert (E1 : sb s3 = sb s) by (rewrite <- (so_sb _ _ _ _ _ _ St); exact Es). assert (E2 : tx s3 = tx s2) by exact Et.
  fold s' in H3. rewrite E1, E2 in H3. apply H3; [apply W|]. rewrite after_inum. apply Fi.
Qed.

(** The file, on the disk and in memory *)
Lemma after_file :
  file_ok (cont s') (sb s) (itab s' ip) /\
  forall x, 0 <= x < MAXFILE * BSIZE -> file_byte (cont s') (itab s' ip) x =
    if decide (off <= x < off + Z.of_nat (length bs)) then rd bs (x - off) else file_byte (cont s) (itab s ip) x.
Proof.
  destruct after_disk as (F & Hc & Hu). pose proof (datastart_pos _ (fo_layout _ _ F)) as Hd.
  destruct (inode_frame (sb s) (cont s2) (cont s') (itab s2 ip) (w_inode _ _ _ _ _ _ _ W)) as (I & A & B).
  - intros c Hown. apply Hc. pose proof (owns_ok _ _ _ _ (w_inode _ _ _ _ _ _ _ W) Hown). lia.
  - intros c Hr E. rewrite Hu by lia. done.
  - rewrite after_inode. split; [constructor|].
    + by apply inode_ok_resize.
    + cbn [isize set_isize]. pose proof (fi_size _ _ _ Fi). lia.
    + intros x. cbn [isize set_isize]. change (baddr (cont s') (set_isize ?v ?i)) with (baddr (cont s') i). intros Hx. rewrite A.
      destruct (Z.lt_ge_cases x (isize (itab s ip))) as [Hlt|Hge]; [|apply (w_mapped _ _ _ _ _ _ _ W); lia].
      rewrite (w_addr _ _ _ _ _ _ _ W); [apply (fi_blocks _ _ _ Fi); lia| |apply (fi_blocks _ _ _ Fi); lia].
      apply block_index. pose proof (fi_size _ _ _ Fi). lia.
    + cbn [inum set_isize]. rewrite (w_same _ _ _ _ _ _ _ W). apply Fi.
    + intros x Hx. change (file_byte (cont s') (set_isize ?v ?i)) with (file_byte (cont s') i). rewrite B by done. by apply (w_byte _ _ _ _ _ _ _ W).
Qed.

Lemma after_dinode : dinode_ok (itab s ip) ->
  load_dinode (dip_off (inum (itab s ip))) (cont s' (IBLOCK (inum (itab s ip)) (sb s))) (itab s' ip) = itab s' ip.
Proof.
  intros D. destruct (resized_same ip (off + Z.of_nat (length bs)) s2) as (Et & Es & _).
  assert (E1 : sb s3 = sb s) by (rewrite <- (so_sb _ _ _ _ _ _ St); exact Es). assert (E2 : tx s3 = tx s2) by exact Et.
  unfold s' at 1, synced. rewrite tcont_with_block, E1, E2, after_inum, upd_same. change (itab s3) with (itab s').
  destruct (dip_off_range (inum (itab s ip))) as [D1 D2].
  rewrite load_put_dinode; [by destruct (itab s' ip)|done|rewrite (fo_len _ _ (w_fs _ _ _ _ _ _ _ W)); done|].
  rewrite after_inode. eapply dinode_ok_addrs; [apply (fo_layout _ _ (ca_fs _ _ Ca))|apply (w_inode _ _ _ _ _ _ _ W)|exact D|apply W|].
  pose proof (fi_size _ _ _ Fi). assert (MAXFILE * BSIZE < 2 ^ 32) by done. lia.
Qed.

(** Another file, with other blocks *)
Lemma after_other jp :
  jp <> ip -> file_ok (cont s) (sb s) (itab s jp) -> (forall a, owns (cont s) (itab s ip) a -> ~ owns (cont s) (itab s jp) a) ->
  itab s' jp = itab s jp /\ file_ok (cont s') (sb s) (itab s' jp) /\
  forall x, 0 <= x < MAXFILE * BSIZE -> file_byte (cont s') (itab s' jp) x = file_byte (cont s) (itab s jp) x.
Proof.
  intros Hj Fj Hdis. destruct after_same as (_ & _ & _ & Eo). rewrite (Eo jp Hj).
  destruct after_disk as (F & Hc & Hu). pose proof (datastart_pos _ (fo_layout _ _ F)) as Hd.
  destruct (inode_frame (sb s) (cont s) (cont s') (itab s jp) (fi_inode _ _ _ Fj)) as (I & A & B).
  - intros c Hown. destruct (owns_ok _ _ _ _ (fi_inode _ _ _ Fj) Hown) as [Hr E]. rewrite Hc by lia.
    apply (w_frame _ _ _ _ _ _ _ W); [done|done|]. intros Hi. by apply (Hdis c).
  - intros c Hr E. rewrite Hu by lia. apply (w_used _ _ _ _ _ _ _ W); [lia|done].
  - split_and!; [done| |done]. destruct Fj as [_ S Bl N]. constructor; try done. intros x Hx. rewrite A. by apply Bl.
Qed.
End after.

Lemma content_bytes s ip off (bs : list Z) :
  (forall x, off <= x < off + Z.of_nat (length bs) -> file_byte (cont s) (itab s ip) x = rd bs (x - off)) ->
  content s ip off (Z.of_nat (length bs)) = bs.
Proof.
  intros Hby. apply list_eq_same_length with (length bs); [done|pose proof (length_content s ip off (Z.of_nat (length bs))); lia|].
  intros j x y Hj. unfold content. rewrite list_lookup_fmap, lookup_seqZ_lt by lia. intros [= <-] Ey. rewrite Hby by lia. unfold rd.
  apply nth_lookup_Some. rewrite <- Ey. f_equal. lia.
Qed.

(** C6: A write to a file with every block below its size allocated, at an
    offset within it and a new end within the largest file, of bytes copied in
    without fault, with room in the log for the blocks it may touch: writei
    returns; it stores a prefix of the bytes, and all of them unless the disk is
    full; the size grows to the end of the prefix, every other byte of the file
    keeps its value, and the inode on the disk is the one in memory.  readi of
    that range then returns exactly the bytes.  A file that shares no block with
    it keeps every byte. *)
Theorem write_read_roundtrip ip us src off bs nb s :
  fs_ok (cont s) (sb s) -> thold (tx s) = [] -> file_ok (cont s) (sb s) (itab s ip) -> dinode_ok (itab s ip) ->
  0 <= off <= isize (itab s ip) -> off + Z.of_nat (length bs) <= MAXFILE * BSIZE -> isbytes bs -> source us (fmem s) src bs ->
  off mod BSIZE + Z.of_nat (length bs) <= Z.of_nat nb * BSIZE -> room s (6 * Z.of_nat nb + 2) ->
  let n := Z.of_nat (length bs) in
  exists r s', writei ip us src off n s = Ret r s' /\ 0 <= r <= n /\ (r < n -> full s') /\
    file_ok (cont s') (sb s') (itab s' ip) /\ isize (itab s' ip) = Z.max (isize (itab s ip)) (off + r) /\
    (forall x, 0 <= x < MAXFILE * BSIZE -> file_byte (cont s') (itab s' ip) x =
      if decide (off <= x < off + r) then rd bs (x - off) else file_byte (cont s) (itab s ip) x) /\
    load_dinode (dip_off (inum (itab s ip))) (cont s' (IBLOCK (inum (itab s ip)) (sb s'))) (itab s' ip) = itab s' ip /\
    (forall dst, exists m', readi ip false dst off r s' = Ret r (set_fmem m' s') /\
       forall x, m' x = put_bytes (fmem s) dst (take (Z.to_nat r) bs) x) /\
    (forall jp, jp <> ip -> file_ok (cont s) (sb s) (itab s jp) ->
       (forall a, owns (cont s) (itab s ip) a -> ~ owns (cont s) (itab s jp) a) ->
       itab s' jp = itab s jp /\ file_ok (cont s') (sb s') (itab s' jp) /\
       forall x, 0 <= x < MAXFILE * BSIZE -> file_byte (cont s') (itab s' jp) x = file_byte (cont s) (itab s jp) x).
Proof.
  intros F Hh Fi D Ho Hmax Hb Hs Hn Hr n. assert (Ca : calm ip s) by (split; [done|done|apply Fi]).
  destruct (writei_run ip us src off n bs nb s) as (r & s2 & E & Hr2 & St & Hf); try done; [eapply room_weaken; [done|lia]|].
  assert (El : Z.of_nat (length (take (Z.to_nat r) bs)) = r) by (rewrite length_take; lia).
  assert (Hmax' : off + Z.of_nat (length (take (Z.to_nat r) bs)) <= MAXFILE * BSIZE) by lia.
  destruct (after_disk ip _ off _ s s2 Fi St) as (F' & _ & Hu). destruct (after_same ip _ off _ s s2 Ca St) as (Em & Es & Eh & _).
  destruct (after_file ip _ off _ s s2 Fi Ho Hmax' St) as [Fi' B']. pose proof (after_inode ip _ off _ s s2 St) as Ei.
  pose proof (after_dinode ip _ off _ s s2 Ca Fi Ho Hmax' St D) as Ed. pose proof (after_other ip _ off _ s s2 Ca Fi St) as Oth.
  rewrite El in *. set (s' := synced ip (resized ip (off + r) s2)) in *. exists r, s'. rewrite Es. split_and!; [done|lia|lia| |done|by rewrite Ei| |done| |done].
  - intros Hlt b. rewrite Es. intros Hbr. rewrite Hu by done. specialize (Hf Hlt b). rewrite (so_sb _ _ _ _ _ _ St) in Hf. by apply Hf.
  - intros x Hx. rewrite B' by done. case_decide; [|done]. unfold rd. rewrite !nth_lookup, lookup_take. by rewrite decide_True by lia.
  - intros dst. assert (Hr' : room s' 1).
    { pose proof (stored_room _ _ _ _ _ _ 2 St ltac:(rewrite Z.add_comm; exact Hr)) as Hr3.
      apply room_with_block. unfold room. destruct (resized_same ip (off + r) s2) as (-> & -> & _). exact Hr3. }
    destruct (readi_spec ip dst off r s') as (m' & E' & Hm'); rewrite ?Es; try done; try lia.
    { split; rewrite ?Es; [done|done|apply Fi']. }
    { assert (MAXFILE * BSIZE < 2 ^ 32) by done. lia. }
    assert (Er : (if isize (itab s' ip) <? off then 0 else min r (isize (itab s' ip) - off)) = r).
    { rewrite Ei. cbn [isize set_isize]. unfold min. repeat case_test; bool_to_prop; lia. }
    rewrite Er in *. exists m'. split; [done|]. intros x. rewrite Hm', Em. f_equal. rewrite <- El at 1. apply content_bytes.
    intros y Hy. rewrite B' by lia. by rewrite decide_True by lia.
Qed.
End content.

(** An empty file of the small disk, and the three bytes of memory at 100 *)
Definition copy_direct : UserCopy :=
  {| user_out := fun m a bs => (put_bytes m a bs, true); user_in := fun m a n => (region m a (Z.to_nat n), true) |}.
Definition empty_file : inode := MkInode ROOTDEV 5 1 initsleeplock 1 T_FILE 0 0 1 0 (replicate 13 0).
Definition small_file : fst :=
  MkF (MkTx small_disk [] [] []) small_sb (fun ip => if decide (ip = 0%nat) then empty_file else inode0) (fun a => a mod 256) [] 1 [] 0.

Lemma empty_addrs k : rd (addrs empty_file) k = 0.
Proof. unfold rd, empty_file. cbn [addrs]. generalize (Z.to_nat k). intros j. do 13 (destruct j as [|j]; [done|]). by destruct j. Qed.

Lemma empty_baddr bn : 0 <= bn < MAXFILE -> baddr small_disk empty_file bn = 0.
Proof.
  intros Hb. unfold baddr. change (rd (addrs empty_file) NDIRECT =? 0) with true. destruct (bn <? NDIRECT) eqn:E; bool_to_prop; [|done].
  apply empty_addrs.
Qed.

Lemma empty_file_ok : file_ok small_disk small_sb empty_file.
Proof.
  split; [split; [done|constructor]|done|simpl; lia|done].
  - intros bn Hb Hn. by rewrite empty_baddr in Hn.
  - done.
  - intros b1 b2 H1 H2 Hn. by rewrite empty_baddr in Hn.
  - intros bn Hb Hn. by rewrite empty_baddr in Hn.
Qed.

Lemma write_read_roundtrip_witness :
  exists s', @writei copy_direct 0 false 100 0 3 small_file = Ret 3 s' /\ file_byte (cont s') (itab s' 0) 2 = 102.
Proof.
  destruct (@write_read_roundtrip copy_direct 0 false 100 0 [100; 101; 102] 1 small_file) as (r & s' & E & Hr & Hfull & _ & _ & B & _).
  - apply small_fs_ok.
  - done.
  - apply empty_file_ok.
  - constructor; try done. intros k Hk. pose proof (empty_addrs k) as E0. change (addrs (itab small_file 0)) with (addrs empty_file). rewrite E0. lia.
  - done.
  - done.
  - apply isbytes_Forall. by repeat constructor.
  - intros k l Hk Hl Hkl. simpl in Hkl. assert (Hc : k = 0 \/ k = 1 \/ k = 2) by lia. assert (Hd : l = 1 \/ l = 2 \/ l = 3) by lia.
    destruct Hc as [->|[->| ->]], Hd as [->|[->| ->]]; (lia || reflexivity).
  - done.
  - split_and!; [done|done|simpl; lia|done].
  - assert (E3 : (match @writei copy_direct 0 false 100 0 3 small_file with Ret r _ => r | _ => -1 end) = 3) by (vm_compute; reflexivity).
    change (Z.of_nat (length [100; 101; 102])) with 3 in E. rewrite E in E3. subst r. exists s'. split; [done|].
    assert (Hx : 0 <= 2 < MAXFILE * BSIZE) by (rewrite MAXFILE_eq; unfold BSIZE; lia).
    rewrite (B 2 Hx), decide_True by lia. reflexivity.
Defined.
