(* ===== verification/Virtio.v ===== *)
(** The disk driver, [src/xv6-riscv/kernel/virtio_disk.c], and the device it
    drives.

    Descriptors, rings and requests are the driver's global struct disk, with the
    fields b->disk of the buffers; a pointer stored in a descriptor is named by
    what it points to.  The device is not part of the program: its steps follow the
    virtio specification, from which virtio_disk.c and virtio.h quote.  Processes
    inside virtio_disk_rw, the interrupt handler and the device interleave at every
    lock operation, and the device also between the driver's stores to the ring and
    to its index. *)

From stdpp Require Import base list sets strings.
From S2P Require Import Prelude.

(** ** virtio.h *)

Definition NUM : nat := 8.
Definition VRING_DESC_F_NEXT : Z := 1.
Definition VRING_DESC_F_WRITE : Z := 2.
Definition VIRTIO_BLK_T_IN : Z := 0.
Definition VIRTIO_BLK_T_OUT : Z := 1.
Definition BLK_BYTES : Z := 1024.

(** What a descriptor's addr points to: disk.ops[i], b->data, disk.info[i].status *)
Inductive addr := Null | Op (i : nat) | Data (b : nat) | Status (i : nat).

(** struct virtq_desc, struct virtio_blk_req *)
Record virtq_desc := MkDesc { d_addr : addr; d_len : Z; d_flags : Z; d_next : nat }.
Record virtio_blk_req := MkReq { r_type : Z; r_reserved : Z; r_sector : Z }.

(** Channels of sleep: &disk.free[0], and a buffer *)
Inductive chan := CFree | CBuf (b : nat).

#[export] Instance chan_eq_dec : EqDecision chan.
Proof. solve_decision. Defined.

(** struct disk; b->disk of every buffer; the channels woken, latest first *)
Record disk := MkDisk {
  desc : nat -> virtq_desc;
  av_idx : Z; av_ring : nat -> nat;
  us_idx : Z; us_ring : nat -> nat;
  dfree : nat -> bool;
  used_idx : Z;
  info_b : nat -> option nat; info_status : nat -> Z;
  ops : nat -> virtio_blk_req;
  bdisk : nat -> Z;
  woke : list chan }.

Definition set_desc v d := MkDisk v (av_idx d) (av_ring d) (us_idx d) (us_ring d) (dfree d) (used_idx d) (info_b d) (info_status d) (ops d) (bdisk d) (woke d).
Definition set_av_idx v d := MkDisk (desc d) v (av_ring d) (us_idx d) (us_ring d) (dfree d) (used_idx d) (info_b d) (info_status d) (ops d) (bdisk d) (woke d).
Definition set_av_ring v d := MkDisk (desc d) (av_idx d) v (us_idx d) (us_ring d) (dfree d) (used_idx d) (info_b d) (info_status d) (ops d) (bdisk d) (woke d).
Definition set_us_idx v d := MkDisk (desc d) (av_idx d) (av_ring d) v (us_ring d) (dfree d) (used_idx d) (info_b d) (info_status d) (ops d) (bdisk d) (woke d).
Definition set_us_ring v d := MkDisk (desc d) (av_idx d) (av_ring d) (us_idx d) v (dfree d) (used_idx d) (info_b d) (info_status d) (ops d) (bdisk d) (woke d).
Definition set_dfree v d := MkDisk (desc d) (av_idx d) (av_ring d) (us_idx d) (us_ring d) v (used_idx d) (info_b d) (info_status d) (ops d) (bdisk d) (woke d).
Definition set_used_idx v d := MkDisk (desc d) (av_idx d) (av_ring d) (us_idx d) (us_ring d) (dfree d) v (info_b d) (info_status d) (ops d) (bdisk d) (woke d).
Definition set_info_b v d := MkDisk (desc d) (av_idx d) (av_ring d) (us_idx d) (us_ring d) (dfree d) (used_idx d) v (info_status d) (ops d) (bdisk d) (woke d).
Definition set_info_status v d := MkDisk (desc d) (av_idx d) (av_ring d) (us_idx d) (us_ring d) (dfree d) (used_idx d) (info_b d) v (ops d) (bdisk d) (woke d).
Definition set_ops v d := MkDisk (desc d) (av_idx d) (av_ring d) (us_idx d) (us_ring d) (dfree d) (used_idx d) (info_b d) (info_status d) v (bdisk d) (woke d).
Definition set_bdisk v d := MkDisk (desc d) (av_idx d) (av_ring d) (us_idx d) (us_ring d) (dfree d) (used_idx d) (info_b d) (info_status d) (ops d) v (woke d).
Definition set_woke v d := MkDisk (desc d) (av_idx d) (av_ring d) (us_idx d) (us_ring d) (dfree d) (used_idx d) (info_b d) (info_status d) (ops d) (bdisk d) v.

Definition wakeup (c : chan) : M disk unit := modify (fun d => set_woke (c :: woke d) d).
Definition put_desc (i : nat) (x : virtq_desc) : M disk unit := modify (fun d => set_desc (upd (desc d) i x) d).
Definition put_free (i : nat) (v : bool) : M disk unit := modify (fun d => set_dfree (upd (dfree d) i v) d).

(** ** The driver's functions *)

(** for(int i = 0; i < NUM; i++) if(disk.free[i]) ...; None is -1 *)
Definition alloc_desc : M disk (option nat) :=
  for_find (seq 0 NUM) (fun i =>
    let! f := get (fun d => dfree d i) in
    if f : bool then put_free i false ;;; ret (Some i) else ret None).

Definition free_desc (i : nat) : M disk unit :=
  if (NUM <=? i)%nat then panic "free_desc 1"
  else
    let! f := get (fun d => dfree d i) in
    if f : bool then panic "free_desc 2"
    else
      put_desc i (MkDesc Null 0 0 0) ;;;
      put_free i true ;;;
      wakeup CFree.

(** A chain has at most NUM descriptors. *)
Fixpoint free_chain_loop (i : nat) (fuel : nat) : M disk unit :=
  match fuel with
  | O => out_of_fuel
  | S fuel =>
      let! x := get (fun d => desc d i) in
      free_desc i ;;;
      if negb (Z.land (d_flags x) VRING_DESC_F_NEXT =? 0) then free_chain_loop (d_next x) fuel else ret tt
  end.
Definition free_chain (i : nat) : M disk unit := free_chain_loop i NUM.

(** The loop of alloc3_desc, unrolled over its three turns *)
Definition alloc3_desc : M disk (option (nat * nat * nat)) :=
  let! r0 := alloc_desc in
  match r0 with
  | None => ret None
  | Some i0 =>
      let! r1 := alloc_desc in
      match r1 with
      | None => free_desc i0 ;;; ret None
      | Some i1 =>
          let! r2 := alloc_desc in
          match r2 with
          | None => free_desc i0 ;;; free_desc i1 ;;; ret None
          | Some i2 => ret (Some (i0, i1, i2))
          end
      end
  end.

(** b->blockno *)
Section driver.
Context (blockno : nat -> Z).

(** uint64 sector = b->blockno * (BSIZE / 512), in 32 bits *)
Definition sector (b : nat) : Z := u32 (blockno b * (BLK_BYTES / 512)).

(** virtio_disk_rw from the formatting of the descriptors to the store in the
    avail ring *)
Definition rw_format (b : nat) (write : bool) (idx : nat * nat * nat) : M disk unit :=
  let '(i0, i1, i2) := idx in
  modify (fun d => set_ops (upd (ops d) i0 (MkReq (if write then VIRTIO_BLK_T_OUT else VIRTIO_BLK_T_IN) 0 (sector b))) d) ;;;
  put_desc i0 (MkDesc (Op i0) 16 VRING_DESC_F_NEXT i1) ;;;
  put_desc i1 (MkDesc (Data b) BLK_BYTES (Z.lor (if write then 0 else VRING_DESC_F_WRITE) VRING_DESC_F_NEXT) i2) ;;;
  modify (fun d => set_info_status (upd (info_status d) i0 0xff) d) ;;;
  put_desc i2 (MkDesc (Status i0) 1 VRING_DESC_F_WRITE 0) ;;;
  modify (fun d => set_bdisk (upd (bdisk d) b 1) d) ;;;
  modify (fun d => set_info_b (upd (info_b d) i0 (Some b)) d) ;;;
  modify (fun d => set_av_ring (upd (av_ring d) (Z.to_nat (av_idx d mod Z.of_nat NUM)) i0) d).

(** disk.avail->idx += 1 *)
Definition rw_publish : M disk unit := modify (fun d => set_av_idx (u16 (av_idx d + 1)) d).

(** The end of virtio_disk_rw, after b->disk has become 0 *)
Definition rw_finish (idx : nat * nat * nat) : M disk unit :=
  let '(i0, _, _) := idx in
  modify (fun d => set_info_b (upd (info_b d) i0 None) d) ;;;
  free_chain i0.

(** One turn of the loop of virtio_disk_intr; false when there is nothing left *)
Definition intr_turn : M disk bool :=
  let! d := get (fun d => d) in
  if used_idx d =? us_idx d then ret false
  else
    let id := us_ring d (Z.to_nat (used_idx d mod Z.of_nat NUM)) in
    if negb (info_status d id =? 0) then panic "virtio_disk_intr status"
    else
      match info_b d id with
      | None => panic "null buffer"      (* b->disk = 0 through a null pointer *)
      | Some b =>
          modify (fun d => set_bdisk (upd (bdisk d) b 0) d) ;;;
          wakeup (CBuf b) ;;;
          modify (fun d => set_used_idx (u16 (used_idx d + 1)) d) ;;;
          ret true
      end.

(** ** virtio_disk_init

    [reg] gives what the registers read, [page] what the three calls of kalloc
    return; the state is the list of register writes, latest first. *)

Definition wreg (r v : Z) : M (list (Z * Z)) unit := modify (fun w => (r, v) :: w).

Definition clear_feature (k x : Z) : Z := Z.land x (Z.lnot (Z.shiftl 1 k)).

Definition disk0 : disk :=
  MkDisk (fun _ => MkDesc Null 0 0 0) 0 (fun _ => 0%nat) 0 (fun _ => 0%nat) (fun _ => false) 0 (fun _ => None) (fun _ => 0)
    (fun _ => MkReq 0 0 0) (fun _ => 0) [].

Definition virtio_disk_init (reg : Z -> Z) (page : nat -> Z) : M (list (Z * Z)) disk :=
  if (negb (reg 0x000 =? 0x74726976) || negb (reg 0x004 =? 2) || negb (reg 0x008 =? 2) || negb (reg 0x00c =? 0x554d4551))%bool
  then panic "could not find virtio disk"
  else
    wreg 0x070 0 ;;;
    wreg 0x070 1 ;;;
    wreg 0x070 3 ;;;
    let features := foldl (fun x k => clear_feature k x) (reg 0x010) [5; 7; 11; 12; 27; 29; 28] in
    wreg 0x020 (u32 features) ;;;
    wreg 0x070 11 ;;;
    let status := reg 0x070 in
    if Z.land status 8 =? 0 then panic "virtio disk FEATURES_OK unset"
    else
      wreg 0x030 0 ;;;
      if negb (reg 0x044 =? 0) then panic "virtio disk should not be ready"
      else
        let max := reg 0x034 in
        if max =? 0 then panic "virtio disk has no queue 0"
        else if max <? Z.of_nat NUM then panic "virtio disk max queue too short"
        else if ((page 0%nat =? 0) || (page 1%nat =? 0) || (page 2%nat =? 0))%bool then panic "virtio disk kalloc"
        else
          wreg 0x038 (Z.of_nat NUM) ;;;
          wreg 0x080 (u32 (page 0%nat)) ;;; wreg 0x084 (u32 (Z.shiftr (page 0%nat) 32)) ;;;
          wreg 0x090 (u32 (page 1%nat)) ;;; wreg 0x094 (u32 (Z.shiftr (page 1%nat) 32)) ;;;
          wreg 0x0a0 (u32 (page 2%nat)) ;;; wreg 0x0a4 (u32 (Z.shiftr (page 2%nat) 32)) ;;;
          wreg 0x044 1 ;;;
          wreg 0x070 (u32 (Z.lor status 4)) ;;;
          ret (set_dfree (fun i => bool_decide (i < NUM)%nat) disk0).

(** ** Processes, interrupt handler and device together *)

(** Where a process is in virtio_disk_rw(b, write): outside; at the loop that
    allocates descriptors; with the request in the ring and the lock held; at the
    loop that waits for b->disk.  The flag says that it sleeps. *)
Inductive where_ :=
| Outside
| Allocating (b : nat) (write : bool) (asleep : bool)
| Formatted (b : nat) (write : bool) (idx : nat * nat * nat)
| Waiting (b : nat) (write : bool) (idx : nat * nat * nat) (asleep : bool).

Inductive holder := ByProc (t : nat) | ByIntr.

(** The device keeps its place in the avail ring and the requests it works on;
    [calls] and [xfers] record, per buffer, the transfers asked for and done. *)
Record sys := MkSys {
  dk : disk; vlock : option holder; pc : nat -> where_;
  dev_idx : Z; dev_work : list nat; irq : bool;
  calls : nat -> list (bool * Z); xfers : nat -> list (bool * Z) }.

Definition set_dk v s := MkSys v (vlock s) (pc s) (dev_idx s) (dev_work s) (irq s) (calls s) (xfers s).
Definition set_vlock v s := MkSys (dk s) v (pc s) (dev_idx s) (dev_work s) (irq s) (calls s) (xfers s).
Definition set_pc v s := MkSys (dk s) (vlock s) v (dev_idx s) (dev_work s) (irq s) (calls s) (xfers s).
Definition set_irq v s := MkSys (dk s) (vlock s) (pc s) (dev_idx s) (dev_work s) v (calls s) (xfers s).

(** The buffer a process is in a call with *)
Definition buf_of (w : where_) : option nat :=
  match w with Outside => None | Allocating b _ _ | Formatted b _ _ | Waiting b _ _ _ => Some b end.

(** Sleepers on the channels woken become runnable. *)
Definition wake (l : list chan) (w : where_) : where_ :=
  match w with
  | Allocating b wr _ => if bool_decide (CFree ∈ l) then Allocating b wr false else w
  | Waiting b wr idx _ => if bool_decide (CBuf b ∈ l) then Waiting b wr idx false else w
  | _ => w
  end.

(** The effects of a stretch of driver code, which left [d] *)
Definition after (d : disk) (s : sys) : sys :=
  MkSys (set_woke [] d) (vlock s) (fun t => wake (woke d) (pc s t)) (dev_idx s) (dev_work s) (irq s) (calls s) (xfers s).

(** What the device reads following a chain: request, buffer, direction, status *)
Definition dev_chain (d : disk) (h : nat) : option (virtio_blk_req * nat * bool * nat) :=
  let x0 := desc d h in
  match d_addr x0 with
  | Op o =>
      if Z.land (d_flags x0) VRING_DESC_F_NEXT =? 0 then None
      else
        let x1 := desc d (d_next x0) in
        match d_addr x1 with
        | Data b =>
            if Z.land (d_flags x1) VRING_DESC_F_NEXT =? 0 then None
            else
              let x2 := desc d (d_next x1) in
              match d_addr x2 with
              | Status i =>
                  if ((d_len x0 =? 16) && (d_len x1 =? BLK_BYTES) && (d_len x2 =? 1) && negb (Z.land (d_flags x2) VRING_DESC_F_WRITE =? 0)
                      && (Z.land (d_flags x2) VRING_DESC_F_NEXT =? 0))%bool
                  then Some (ops d o, b, negb (Z.land (d_flags x1) VRING_DESC_F_WRITE =? 0), i) else None
              | _ => None
              end
        | _ => None
        end
  | _ => None
  end.

(** A request the device accepts: the data direction is that of its type *)
Definition dev_accepts (r : virtio_blk_req) (dev_writes : bool) : bool :=
  if r_type r =? VIRTIO_BLK_T_OUT then negb dev_writes else ((r_type r =? VIRTIO_BLK_T_IN) && dev_writes)%bool.

Inductive step : sys -> sys -> Prop :=
| step_call s t b w :      (* the caller holds the lock of b *)
    pc s t = Outside -> (forall t', buf_of (pc s t') <> Some b) ->
    step s (MkSys (dk s) (vlock s) (upd (pc s) t (Allocating b w false)) (dev_idx s) (dev_work s) (irq s)
      (upd (calls s) b (calls s b ++ [(w, sector b)])) (xfers s))
| step_alloc_fails s t b w d :
    pc s t = Allocating b w false -> vlock s = None -> alloc3_desc (dk s) = Ret None d ->
    step s (after d (set_pc (upd (pc s) t (Allocating b w true)) s)) 
| step_alloc s t b w idx d d' :
    pc s t = Allocating b w false -> vlock s = None -> alloc3_desc (dk s) = Ret (Some idx) d -> rw_format b w idx d = Ret tt d' ->
    step s (after d' (set_vlock (Some (ByProc t)) (set_pc (upd (pc s) t (Formatted b w idx)) s)))
| step_publish s t b w idx d :
    pc s t = Formatted b w idx -> vlock s = Some (ByProc t) -> rw_publish (dk s) = Ret tt d -> bdisk d b = 1 ->
    step s (after d (set_vlock None (set_pc (upd (pc s) t (Waiting b w idx true)) s)))
| step_sleep_again s t b w idx :
    pc s t = Waiting b w idx false -> vlock s = None -> bdisk (dk s) b = 1 ->
    step s (set_pc (upd (pc s) t (Waiting b w idx true)) s)
| step_finish s t b w idx d :
    pc s t = Waiting b w idx false -> vlock s = None -> bdisk (dk s) b <> 1 -> rw_finish idx (dk s) = Ret tt d ->
    step s (after d (set_pc (upd (pc s) t Outside) s))
| step_intr_enter s : irq s = true -> vlock s = None -> step s (set_irq false (set_vlock (Some ByIntr) s))
| step_intr_turn s d : vlock s = Some ByIntr -> intr_turn (dk s) = Ret true d -> step s (after d s)
| step_intr_leave s d : vlock s = Some ByIntr -> intr_turn (dk s) = Ret false d -> step s (set_vlock None s)
| step_dev_fetch s :
    dev_idx s <> av_idx (dk s) ->
    step s (MkSys (dk s) (vlock s) (pc s) (u16 (dev_idx s + 1)) (dev_work s ++ [av_ring (dk s) (Z.to_nat (dev_idx s mod Z.of_nat NUM))])
      (irq s) (calls s) (xfers s))
| step_dev_done s h r b w i :
    h ∈ dev_work s -> dev_chain (dk s) h = Some (r, b, w, i) -> dev_accepts r w = true ->
    step s (MkSys
      (set_us_idx (u16 (us_idx (dk s) + 1)) (set_us_ring (upd (us_ring (dk s)) (Z.to_nat (us_idx (dk s) mod Z.of_nat NUM)) h)
        (set_info_status (upd (info_status (dk s)) i 0) (dk s))))
      (vlock s) (pc s) (dev_idx s) (remove_one h (dev_work s)) true (calls s)
      (upd (xfers s) b (xfers s b ++ [(negb w, r_sector r)]))).

(** After virtio_disk_init, with every process outside *)
Definition start (d : disk) : sys := MkSys d None (fun _ => Outside) 0 [] false (fun _ => []) (fun _ => []).

Inductive reachable (d : disk) : sys -> Prop :=
| reach_start : reachable d (start d)
| reach_step s s' : reachable d s -> step s s' -> reachable d s'.
End driver.
