(* ===== verification/VirtioInv.v ===== *)
(** The disk driver under any interleaving with other processes, its interrupt
    handler and the device (Virtio): invariant, safety and progress. *)

From stdpp Require Import base list sets strings.
From S2P Require Import Prelude Virtio.

(** ** Descriptors *)

Definition freed (i : nat) (d : disk) : disk :=
  set_woke (CFree :: woke d) (set_dfree (upd (dfree d) i true) (set_desc (upd (desc d) i (MkDesc Null 0 0 0)) d)).
Definition taken (i : nat) (d : disk) : disk := set_dfree (upd (dfree d) i false) d.

Ltac dsimpl := cbn [desc av_idx av_ring us_idx us_ring dfree used_idx info_b info_status ops bdisk woke
  set_desc set_av_idx set_av_ring set_us_idx set_us_ring set_dfree set_used_idx set_info_b set_info_status set_ops set_bdisk set_woke
  freed taken dk vlock pc dev_idx dev_work irq calls xfers set_dk set_vlock set_pc set_irq after] in *.

Definition alloc_turn (i : nat) : M disk (option nat) :=
  let! f := get (fun d => dfree d i) in if f : bool then put_free i false ;;; ret (Some i) else ret None.

Lemma alloc_turn_cons i l d : for_find (i :: l) alloc_turn d = if dfree d i then Ret (Some i) (taken i d) else for_find l alloc_turn d.
Proof. cbn [for_find]. unfold alloc_turn at 1, bind, get, put_free, modify, ret. by destruct (dfree d i). Qed.

Lemma alloc_scan d l :
  (exists i, i ∈ l /\ dfree d i = true /\ for_find l alloc_turn d = Ret (Some i) (taken i d)) \/
  ((forall i, i ∈ l -> dfree d i = false) /\ for_find l alloc_turn d = Ret None d).
Proof.
  induction l as [|i l IH].
  - right. split; [by intros i ?%elem_of_nil|done].
  - rewrite alloc_turn_cons. destruct (dfree d i) eqn:E.
    + left. exists i. by split_and!; [left|..].
    + destruct IH as [(j & Hj & Hf & Ej)|[Hf Ej]]; [left|right].
      * exists j. by split_and!; [right|..].
      * split; [|done]. intros j [->|Hj]%elem_of_cons; [done|by apply Hf].
Qed.

Lemma alloc_desc_spec d :
  (exists i, (i < NUM)%nat /\ dfree d i = true /\ alloc_desc d = Ret (Some i) (taken i d)) \/
  ((forall i, (i < NUM)%nat -> dfree d i = false) /\ alloc_desc d = Ret None d).
Proof.
  destruct (alloc_scan d (seq 0 NUM)) as [(i & Hi & Hf & E)|[Hf E]]; [left|right].
  - exists i. apply elem_of_seq in Hi. split_and!; [lia|done|exact E].
  - split; [|exact E]. intros i Hi. apply Hf, elem_of_seq. lia.
Qed.

Lemma free_desc_spec i d : (i < NUM)%nat -> dfree d i = false -> free_desc i d = Ret tt (freed i d).
Proof.
  intros Hi Hf. unfold free_desc. destruct (Nat.leb_spec NUM i); [lia|]. unfold bind, get. by rewrite Hf.
Qed.

(** A failed alloc3_desc gives back what it took; it clears free descriptors only. *)
Record unchanged (d d' : disk) : Prop := {
  un_free : forall i, dfree d' i = dfree d i;
  un_desc : forall i, dfree d i = false -> desc d' i = desc d i;
  un_av : av_idx d' = av_idx d /\ av_ring d' = av_ring d;
  un_us : us_idx d' = us_idx d /\ us_ring d' = us_ring d /\ used_idx d' = used_idx d;
  un_info : info_b d' = info_b d /\ info_status d' = info_status d;
  un_ops : ops d' = ops d;
  un_bdisk : bdisk d' = bdisk d;
  un_woke : forall c, c ∈ woke d' -> c ∈ woke d \/ c = CFree }.

Lemma alloc3_desc_spec d :
  (exists i0 i1 i2, alloc3_desc d = Ret (Some (i0, i1, i2)) (taken i2 (taken i1 (taken i0 d))) /\
     NoDup [i0; i1; i2] /\ (forall i, i ∈ [i0; i1; i2] -> (i < NUM)%nat /\ dfree d i = true)) \/
  exists d', alloc3_desc d = Ret None d' /\ unchanged d d' /\ exists i, (i < NUM)%nat /\ dfree d i = false.
Proof.
  unfold alloc3_desc. destruct (alloc_desc_spec d) as [(i0 & H0 & F0 & E0)|[F0 E0]]; rewrite (bind_ret_intro _ _ _ _ _ E0).
  2: { right. exists d. split_and!; [done|by constructor; auto|]. exists 0%nat. split; [unfold NUM; lia|apply F0; unfold NUM; lia]. }
  destruct (alloc_desc_spec (taken i0 d)) as [(i1 & H1 & F1 & E1)|[F1 E1]]; rewrite (bind_ret_intro _ _ _ _ _ E1).
  2: { right. rewrite (bind_ret_intro _ _ _ _ _ (free_desc_spec i0 (taken i0 d) H0 (F1 i0 H0))). eexists. split; [reflexivity|].
       dsimpl. split.
       - constructor; try done; dsimpl.
         + intros i. unfold upd. by case_decide; subst.
         + intros i Hi. unfold upd. case_decide; [congruence|done].
         + intros c [->|Hc]%elem_of_cons; auto.
       - exists (if decide (i0 = 0%nat) then 1 else 0)%nat. case_decide as E; (split; [unfold NUM; lia|]).
         + specialize (F1 1%nat ltac:(unfold NUM; lia)). by rewrite upd_other in F1 by lia.
         + specialize (F1 0%nat ltac:(unfold NUM; lia)). by rewrite upd_other in F1 by lia. }
  dsimpl. assert (N01 : i1 <> i0) by (intros ->; by rewrite upd_same in F1). rewrite upd_other in F1 by done.
  destruct (alloc_desc_spec (taken i1 (taken i0 d))) as [(i2 & H2 & F2 & E2)|[F2 E2]]; rewrite (bind_ret_intro _ _ _ _ _ E2).
  - left. dsimpl. assert (N12 : i2 <> i1) by (intros ->; by rewrite upd_same in F2). rewrite upd_other in F2 by done.
    assert (N02 : i2 <> i0) by (intros ->; by rewrite upd_same in F2). rewrite upd_other in F2 by done.
    exists i0, i1, i2. split_and!; [done| |].
    + repeat constructor; rewrite ?list_elem_of_singleton, ?elem_of_cons, ?elem_of_nil; naive_solver.
    + intros i. rewrite !elem_of_cons, elem_of_nil. naive_solver.
  - right. pose proof (F2 i0 H0) as G0. pose proof (F2 i1 H1) as G1.
    rewrite (bind_ret_intro _ _ _ _ _ (free_desc_spec i0 _ H0 G0)).
    rewrite (bind_ret_intro _ _ _ _ _ (free_desc_spec i1 (freed i0 (taken i1 (taken i0 d))) H1 ltac:(dsimpl; by rewrite upd_other))).
    eexists. split; [reflexivity|]. dsimpl. split.
    + constructor; try done; dsimpl.
      * intros i. unfold upd. by repeat case_decide; subst.
      * intros i Hi. unfold upd. repeat case_decide; congruence || done.
      * intros c [->|[->|Hc]%elem_of_cons]%elem_of_cons; auto.
    + assert (Hk : exists k, (k < NUM)%nat /\ k <> i0 /\ k <> i1).
      { destruct (decide (0 ∈ [i0; i1])%nat), (decide (1 ∈ [i0; i1])%nat); 
          [exists 2%nat|exists 1%nat|exists 0%nat|exists 0%nat]; set_unfold; unfold NUM; (split; [lia|]); lia || naive_solver lia. }
      destruct Hk as (k & Hk & K0 & K1). exists k. split; [done|]. specialize (F2 k Hk). by rewrite !upd_other in F2.
Qed.

(** ** Rings *)

(** [q] are the entries of the ring from index [lo] up to index [hi]. *)
Definition slot (i : Z) : nat := Z.to_nat (i mod Z.of_nat NUM).
Definition ring_holds (ring : nat -> nat) (lo hi : Z) (q : list nat) : Prop :=
  0 <= lo < 2 ^ 16 /\ hi = u16 (lo + Z.of_nat (length q)) /\
  forall k x, q !! k = Some x -> ring (slot (lo + Z.of_nat k)) = x.

Lemma slot_u16 i : slot (u16 i) = slot i.
Proof. unfold slot, u16. f_equal. apply Z.mod_mod_divide. by exists 8192. Qed.

Lemma slot_u16_add i k : slot (u16 i + k) = slot (i + k).
Proof. rewrite <- slot_u16. unfold u16. rewrite Zplus_mod_idemp_l. apply slot_u16. Qed.

Lemma slot_inj lo j k : 0 <= j < Z.of_nat NUM -> 0 <= k < Z.of_nat NUM -> slot (lo + j) = slot (lo + k) -> j = k.
Proof.
  intros Hj Hk E. unfold slot in E. pose proof (Z.mod_pos_bound (lo + j) (Z.of_nat NUM) ltac:(done)).
  pose proof (Z.mod_pos_bound (lo + k) (Z.of_nat NUM) ltac:(done)).
  assert (Em : (lo + j) mod Z.of_nat NUM = (lo + k) mod Z.of_nat NUM) by lia.
  pose proof (Z.div_mod (lo + j) (Z.of_nat NUM) ltac:(done)). pose proof (Z.div_mod (lo + k) (Z.of_nat NUM) ltac:(done)).
  unfold NUM in *. lia.
Qed.

Lemma ring_push ring lo hi q x : ring_holds ring lo hi q -> (length q < NUM)%nat -> ring (slot hi) = x -> ring_holds ring lo (u16 (hi + 1)) (q ++ [x]).
Proof.
  intros (Hlo & -> & Hq) Hl Hx. split_and!; [lia|lia| |].
  - rewrite length_app. simpl. unfold u16. rewrite Zplus_mod_idemp_l. f_equal. lia.
  - intros k y. rewrite lookup_app_Some. intros [Hk|[Hk Hy]]; [by apply Hq|].
    apply list_lookup_singleton_Some in Hy as [Hk0 <-]. replace k with (length q) by lia. by rewrite <- Hx, slot_u16.
Qed.

Lemma ring_store ring lo hi q x : ring_holds ring lo hi q -> (length q < NUM)%nat -> ring_holds (upd ring (slot hi) x) lo hi q.
Proof.
  intros (Hlo & -> & Hq) Hl. split_and!; [lia|lia|done|]. intros k y Hy. rewrite upd_other; [by apply Hq|]. rewrite slot_u16.
  apply lookup_lt_Some in Hy as Hk. intros E. apply slot_inj in E; lia.
Qed.

Lemma ring_pop ring lo hi x q : ring_holds ring lo hi (x :: q) -> ring (slot lo) = x /\ ring_holds ring (u16 (lo + 1)) hi q.
Proof.
  intros (Hlo & -> & Hq). split; [specialize (Hq 0%nat x eq_refl); by rewrite Z.add_0_r in Hq|]. split_and!.
  - apply u16_range.
  - apply u16_range.
  - simpl length. unfold u16. rewrite Zplus_mod_idemp_l. f_equal. lia.
  - intros k y Hy. rewrite slot_u16_add. specialize (Hq (S k) y Hy). rewrite <- Hq. do 2 f_equal. lia.
Qed.

Lemma ring_empty ring lo hi q : ring_holds ring lo hi q -> (length q <= NUM)%nat -> lo = hi <-> q = [].
Proof.
  intros (Hlo & -> & _) Hl. split; [|intros ->; simpl; by rewrite Z.add_0_r, u16_small].
  intros E. unfold u16 in E. pose proof (Z.div_mod (lo + Z.of_nat (length q)) (2 ^ 16) ltac:(lia)).
  destruct q as [|x q]; [done|]. unfold NUM in Hl. exfalso. cbn [length] in *. lia.
Qed.

(** ** Invariant *)

Definition req_of (w : where_) : option (nat * bool * (nat * nat * nat)) :=
  match w with Formatted b wr idx => Some (b, wr, idx) | Waiting b wr idx _ => Some (b, wr, idx) | _ => None end.
Definition idxs (idx : nat * nat * nat) : list nat := [idx.1.1; idx.1.2; idx.2].

Section inv.
Context (blockno : nat -> Z).

(** The request as the device will read it *)
Record formatted (d : disk) (b : nat) (w : bool) (i0 i1 i2 : nat) : Prop := {
  fm_op : ops d i0 = MkReq (if w then VIRTIO_BLK_T_OUT else VIRTIO_BLK_T_IN) 0 (sector blockno b);
  fm_0 : desc d i0 = MkDesc (Op i0) 16 VRING_DESC_F_NEXT i1;
  fm_1 : desc d i1 = MkDesc (Data b) BLK_BYTES (Z.lor (if w then 0 else VRING_DESC_F_WRITE) VRING_DESC_F_NEXT) i2;
  fm_2 : desc d i2 = MkDesc (Status i0) 1 VRING_DESC_F_WRITE 0;
  fm_b : info_b d i0 = Some b }.

Lemma formatted_frame d d' b w i0 i1 i2 :
  ops d' i0 = ops d i0 -> (forall i, i ∈ [i0; i1; i2] -> desc d' i = desc d i) -> info_b d' i0 = info_b d i0 ->
  formatted d b w i0 i1 i2 -> formatted d' b w i0 i1 i2.
Proof. intros Eo Ed Ei [Ho H0 H1 H2 Hb]. constructor; rewrite ?Eo, ?Ei, ?Ed by set_solver; done. Qed.

Lemma formatted_chain d b w i0 i1 i2 : formatted d b w i0 i1 i2 ->
  dev_chain d i0 = Some (MkReq (if w then VIRTIO_BLK_T_OUT else VIRTIO_BLK_T_IN) 0 (sector blockno b), b, negb w, i0) /\
  dev_accepts (MkReq (if w then VIRTIO_BLK_T_OUT else VIRTIO_BLK_T_IN) 0 (sector blockno b)) (negb w) = true.
Proof. intros [Ho H0 H1 H2 _]. unfold dev_chain. rewrite H0. simpl. rewrite H1. simpl. rewrite H2, Ho. by destruct w. Qed.

(** What is still to be transferred for a process, when [P] are the heads the
    device has not served *)
Definition pend (P : list nat) (w : where_) : list (bool * Z) :=
  match w with
  | Outside => []
  | Allocating b wr _ | Formatted b wr _ => [(wr, sector blockno b)]
  | Waiting b wr idx _ => if bool_decide (idx.1.1 ∈ P) then [(wr, sector blockno b)] else []
  end.

(** [Qa]: heads in the avail ring the device has not fetched; [Qu]: heads in the
    used ring the handler has not seen *)
Record inv (s : sys) (Qa Qu : list nat) : Prop := {
  i_lock : forall t, vlock s = Some (ByProc t) <-> exists b w idx, pc s t = Formatted b w idx;
  i_req : forall t b w i0 i1 i2, req_of (pc s t) = Some (b, w, (i0, i1, i2)) ->
    formatted (dk s) b w i0 i1 i2 /\ NoDup [i0; i1; i2] /\ forall i, i ∈ [i0; i1; i2] -> (i < NUM)%nat /\ dfree (dk s) i = false;
  i_disj : forall t t' b w idx b' w' idx' i, t <> t' -> req_of (pc s t) = Some (b, w, idx) -> req_of (pc s t') = Some (b', w', idx') ->
    i ∈ idxs idx -> i ∉ idxs idx';
  i_free : forall i, (i < NUM)%nat -> dfree (dk s) i = false -> exists t b w idx, req_of (pc s t) = Some (b, w, idx) /\ i ∈ idxs idx;
  i_buf : forall t t' b, t <> t' -> buf_of (pc s t) = Some b -> buf_of (pc s t') <> Some b;
  i_av : ring_holds (av_ring (dk s)) (dev_idx s) (av_idx (dk s)) Qa;
  i_us : ring_holds (us_ring (dk s)) (used_idx (dk s)) (us_idx (dk s)) Qu;
  i_nodup : NoDup (Qa ++ dev_work s ++ Qu);
  i_heads : forall h, h ∈ Qa ++ dev_work s ++ Qu <->
    exists t b w i1 i2 a, pc s t = Waiting b w (h, i1, i2) a /\ bdisk (dk s) b = 1;
  i_fmt : forall t b w idx, pc s t = Formatted b w idx -> bdisk (dk s) b = 1 /\ av_ring (dk s) (slot (av_idx (dk s))) = idx.1.1;
  i_status : forall h, h ∈ Qu -> info_status (dk s) h = 0;
  i_irq : Qu <> [] -> irq s = true \/ vlock s = Some ByIntr;
  i_wait : forall t b w idx, pc s t = Waiting b w idx true -> CBuf b ∉ woke (dk s) -> bdisk (dk s) b = 1;
  i_alloc : forall t b w, pc s t = Allocating b w true -> CFree ∉ woke (dk s) -> exists i, (i < NUM)%nat /\ dfree (dk s) i = false;
  i_log : forall t b, buf_of (pc s t) = Some b -> calls s b = xfers s b ++ pend (Qa ++ dev_work s) (pc s t);
  i_idle : forall b, (forall t, buf_of (pc s t) <> Some b) -> calls s b = xfers s b }.

Lemma wake_req l w : req_of (wake l w) = req_of w.
Proof. destruct w; simpl; try case_bool_decide; done. Qed.
Lemma wake_buf l w : buf_of (wake l w) = buf_of w.
Proof. destruct w; simpl; try case_bool_decide; done. Qed.
Lemma wake_pend l P w : pend P (wake l w) = pend P w.
Proof. destruct w; simpl; try (case_bool_decide; done); done. Qed.
Lemma wake_formatted l w b wr idx : wake l w = Formatted b wr idx <-> w = Formatted b wr idx.
Proof. destruct w; simpl; try case_bool_decide; split; congruence. Qed.
Lemma wake_waiting l w b wr idx a : wake l w = Waiting b wr idx a ->
  exists a', w = Waiting b wr idx a' /\ (a = true -> a' = true /\ CBuf b ∉ l).
Proof. destruct w; simpl; try case_bool_decide; intros [= -> -> -> <-]; eexists; (split; [done|]); try done. Qed.
Lemma waiting_wake l b wr idx a : exists a', wake l (Waiting b wr idx a) = Waiting b wr idx a'.
Proof. simpl. case_bool_decide; eauto. Qed.
Lemma wake_allocating l w b wr : wake l w = Allocating b wr true -> w = Allocating b wr true /\ CFree ∉ l.
Proof. destruct w; simpl; try case_bool_decide; intros [= -> -> ->]; done. Qed.
Lemma wake_nil w : wake [] w = w.
Proof. destruct w; simpl; try case_bool_decide; done || (exfalso; by eapply not_elem_of_nil). Qed.

(** Waking the sleepers at the end of a stretch of driver code *)
Lemma inv_after d s Qa Qu : inv (set_dk d s) Qa Qu -> inv (after d s) Qa Qu.
Proof.
  intros [L R D F B A U N H M S I W C G E]. dsimpl. constructor; dsimpl; try done.
  - intros t. rewrite L. by setoid_rewrite wake_formatted.
  - intros t b w i0 i1 i2 Hp. rewrite wake_req in Hp. destruct (R _ _ _ _ _ _ Hp) as (Hf & Hn & Hi). split_and!; [|done|done].
    by eapply formatted_frame, Hf.
  - intros t t'. setoid_rewrite wake_req. apply D.
  - intros i Hi Hf. setoid_rewrite wake_req. by apply F.
  - intros t t'. setoid_rewrite wake_buf. apply B.
  - intros h. rewrite H. split.
    + intros (t & b & w & i1 & i2 & a & Hp & Hb). destruct (waiting_wake (woke d) b w (h, i1, i2) a) as [a' Ha].
      exists t, b, w, i1, i2, a'. by rewrite Hp.
    + intros (t & b & w & i1 & i2 & a & Hp & Hb). apply wake_waiting in Hp as (a' & Hp & _). by exists t, b, w, i1, i2, a'.
  - intros t b w idx Hp. apply wake_formatted in Hp. by apply (M t b w).
  - intros t b w idx Hp _. apply wake_waiting in Hp as (a' & Hp & Ha). destruct (Ha eq_refl) as [-> Hn]. by apply (W t b w idx).
  - intros t b w Hp _. apply wake_allocating in Hp as [Hp Hn]. by apply (C t b w).
  - intros t b. rewrite wake_buf, wake_pend. apply G.
  - intros b Hb. apply E. intros t. specialize (Hb t). by rewrite wake_buf in Hb.
Qed.

(** *** Facts about the queues *)

Lemma NoDup_bound (l : list nat) n : NoDup l -> (forall x, x ∈ l -> (x < n)%nat) -> (length l <= n)%nat.
Proof.
  intros Hn Hl. rewrite <- (length_seq n 0). apply submseteq_length, NoDup_submseteq; [done|].
  intros x Hx. apply elem_of_seq. specialize (Hl x Hx). lia.
Qed.

Section facts.
Context (s : sys) (Qa Qu : list nat).
Hypothesis Hi : inv s Qa Qu.

Lemma head_thread h : h ∈ Qa ++ dev_work s ++ Qu ->
  exists t b w i1 i2 a, pc s t = Waiting b w (h, i1, i2) a /\ bdisk (dk s) b = 1 /\ formatted (dk s) b w h i1 i2 /\
    (h < NUM)%nat /\ dfree (dk s) h = false.
Proof.
  intros Hh. apply (i_heads _ _ _ Hi) in Hh as (t & b & w & i1 & i2 & a & Hp & Hb).
  destruct (i_req _ _ _ Hi t b w h i1 i2) as (Hf & _ & Hx); [by rewrite Hp|]. destruct (Hx h) as [Hlt Hfr]; [left|].
  by exists t, b, w, i1, i2, a.
Qed.

Lemma length_Qa : (length Qa <= NUM)%nat.
Proof.
  pose proof (i_nodup _ _ _ Hi) as Hn. apply NoDup_app in Hn as (Hn & _ & _). apply NoDup_bound; [done|].
  intros x Hx. destruct (head_thread x) as (? & ? & ? & ? & ? & ? & _ & _ & _ & Hlt & _); [set_solver|done].
Qed.

(** A descriptor that is no head leaves a slot of each ring. *)
Lemma room_in l i : l = Qa \/ l = Qu -> (i < NUM)%nat -> i ∉ Qa ++ dev_work s ++ Qu \/ i ∈ dev_work s -> (length l < NUM)%nat.
Proof.
  intros Hl Hlt Hni. pose proof (i_nodup _ _ _ Hi) as Hn.
  assert (Hnd : NoDup l /\ i ∉ l).
  { rewrite !NoDup_app in Hn. destruct Hn as (N1 & N2 & N3 & N4 & N5). destruct Hl as [-> | ->]; (split; [done|]);
      destruct Hni as [Hni|Hni]; set_solver. }
  assert (Hle : (length (i :: l) <= NUM)%nat); [|simpl in Hle; lia]. apply NoDup_bound; [constructor; apply Hnd|].
  intros x [->|Hx]%elem_of_cons; [done|]. destruct (head_thread x) as (? & ? & ? & ? & ? & ? & _ & _ & _ & Hx8 & _); [|done].
  destruct Hl as [-> | ->]; set_solver.
Qed.

Lemma length_Qu : (length Qu <= NUM)%nat.
Proof.
  pose proof (i_nodup _ _ _ Hi) as Hn. rewrite !NoDup_app in Hn. destruct Hn as (_ & _ & _ & _ & Hn). apply NoDup_bound; [done|].
  intros x Hx. destruct (head_thread x) as (? & ? & ? & ? & ? & ? & _ & _ & _ & Hlt & _); [set_solver|done].
Qed.

(** Two processes in a call have different buffers; so a buffer names its process. *)
Lemma same_buf t t' b : buf_of (pc s t) = Some b -> buf_of (pc s t') = Some b -> t = t'.
Proof. intros H1 H2. destruct (decide (t = t')); [done|]. by destruct (i_buf _ _ _ Hi t t' b). Qed.

Lemma req_buf t b w idx : req_of (pc s t) = Some (b, w, idx) -> buf_of (pc s t) = Some b.
Proof. destruct (pc s t); intros [= -> -> ->]; done. Qed.

(** The head of a request names its process. *)
Lemma same_head t t' b b' w w' i0 i1 i2 j1 j2 :
  req_of (pc s t) = Some (b, w, (i0, i1, i2)) -> req_of (pc s t') = Some (b', w', (i0, j1, j2)) -> t = t'.
Proof.
  intros H1 H2. destruct (decide (t = t')) as [|Hne]; [done|]. exfalso.
  eapply (i_disj _ _ _ Hi t t'); [done|exact H1|exact H2|left|left].
Qed.
End facts.

(** *** The steps *)

(** A process outside its request moves. *)
Lemma inv_pc s Qa Qu t y calls' :
  inv s Qa Qu -> req_of (pc s t) = None -> req_of y = None ->
  (forall t' b, t' <> t -> buf_of y = Some b -> buf_of (pc s t') <> Some b) ->
  (forall b w, y = Allocating b w true -> CFree ∉ woke (dk s) -> exists i, (i < NUM)%nat /\ dfree (dk s) i = false) ->
  (forall b, buf_of y = Some b -> calls' b = xfers s b ++ pend (Qa ++ dev_work s) y) ->
  (forall t' b, t' <> t -> buf_of (pc s t') = Some b -> calls' b = calls s b) ->
  (forall b, (forall t', buf_of (upd (pc s) t y t') <> Some b) -> calls' b = xfers s b) ->
  inv (MkSys (dk s) (vlock s) (upd (pc s) t y) (dev_idx s) (dev_work s) (irq s) calls' (xfers s)) Qa Qu.
Proof.
  intros [L R D F B A U N H M S I W C G E] Hx Hy Hb Ha Hl Ho Hid. constructor; dsimpl; try done.
  - intros t'. rewrite L. upd_at t' t; [|done]. split; intros (b & w & idx & Hp); [rewrite Hp in Hx|rewrite Hp in Hy]; done.
  - intros t' b w i0 i1 i2. upd_at t' t; [congruence|]. apply R.
  - intros t1 t2 b w idx b' w' idx' i. upd_at t1 t; [congruence|]. upd_at t2 t; [congruence|]. apply D.
  - intros i Hi Hf. destruct (F i Hi Hf) as (t' & b & w & idx & Hp & Hin). exists t', b, w, idx. upd_at t' t; [congruence|done].
  - intros t1 t2 b Hne. upd_at t1 t; [rewrite upd_other by done; by apply Hb|]. upd_at t2 t; [|by apply B]. intros H1 H2. by apply (Hb t1 b).
  - intros h. rewrite H. split; intros (t' & b & w & i1 & i2 & a & Hp & Hbd).
    + exists t', b, w, i1, i2, a. upd_at t' t; [by rewrite Hp in Hx|done].
    + upd_at t' t; [by rewrite Hp in Hy|]. by exists t', b, w, i1, i2, a.
  - intros t' b w idx. upd_at t' t; [intros Hp; by rewrite Hp in Hy|apply M].
  - intros t' b w idx. upd_at t' t; [intros Hp; by rewrite Hp in Hy|apply W].
  - intros t' b w. upd_at t' t; [apply Ha|apply C].
  - intros t' b. upd_at t' t; [apply Hl|]. intros Hp. rewrite (Ho t' b) by done. by apply G.
Qed.

Lemma inv_unchanged s Qa Qu d' : inv s Qa Qu -> woke (dk s) = [] -> unchanged (dk s) d' -> inv (set_dk d' s) Qa Qu.
Proof.
  intros [L R D F B A U N H M S I W C G E] Hw [X1 X2 [X3 X3'] (X4 & X4' & X4'') [X5 X5'] X6 X7 X8].
  constructor; dsimpl; rewrite ?X3, ?X3', ?X4, ?X4', ?X4'', ?X5', ?X7; try done.
  - intros t b w i0 i1 i2 Hp. destruct (R _ _ _ _ _ _ Hp) as (Hf & Hn & Hi). split_and!; [|done|].
    + eapply formatted_frame, Hf; [by rewrite X6| |by rewrite X5]. intros i Hin. by apply X2, Hi.
    + intros i Hin. rewrite X1. by apply Hi.
  - intros i Hi. rewrite X1. by apply F.
  - intros t b w idx Hp _. apply (W t b w idx Hp). rewrite Hw. apply not_elem_of_nil.
  - intros t b w Hp _. setoid_rewrite X1. apply (C t b w Hp). rewrite Hw. apply not_elem_of_nil.
Qed.

(** The driver's state after the request was formatted in three free descriptors *)
Definition requested (b : nat) (w : bool) (i0 i1 i2 : nat) (d : disk) : disk :=
  MkDisk (upd (upd (upd (desc d) i0 (MkDesc (Op i0) 16 VRING_DESC_F_NEXT i1))
            i1 (MkDesc (Data b) BLK_BYTES (Z.lor (if w then 0 else VRING_DESC_F_WRITE) VRING_DESC_F_NEXT) i2))
            i2 (MkDesc (Status i0) 1 VRING_DESC_F_WRITE 0))
    (av_idx d) (upd (av_ring d) (slot (av_idx d)) i0) (us_idx d) (us_ring d) (upd (upd (upd (dfree d) i0 false) i1 false) i2 false) (used_idx d)
    (upd (info_b d) i0 (Some b)) (upd (info_status d) i0 0xff)
    (upd (ops d) i0 (MkReq (if w then VIRTIO_BLK_T_OUT else VIRTIO_BLK_T_IN) 0 (sector blockno b))) (upd (bdisk d) b 1) (woke d).

Lemma rw_format_spec b w i0 i1 i2 d :
  rw_format blockno b w (i0, i1, i2) (taken i2 (taken i1 (taken i0 d))) = Ret tt (requested b w i0 i1 i2 d).
Proof. reflexivity. Qed.

Lemma requested_formatted b w i0 i1 i2 d : NoDup [i0; i1; i2] -> formatted (requested b w i0 i1 i2 d) b w i0 i1 i2.
Proof.
  intros Hn. assert (i0 <> i1 /\ i0 <> i2 /\ i1 <> i2) as (N1 & N2 & N3).
  { inversion_clear Hn as [|? ? H1 H2]. inversion_clear H2 as [|? ? H3 _]. set_solver. }
  constructor; cbn [desc ops info_b requested]; by repeat (rewrite upd_same || rewrite upd_other by congruence).
Qed.

(** Nothing else changed in what other requests use. *)
Lemma requested_other b w i0 i1 i2 d i : i ∉ [i0; i1; i2] ->
  desc (requested b w i0 i1 i2 d) i = desc d i /\ dfree (requested b w i0 i1 i2 d) i = dfree d i /\
  ops (requested b w i0 i1 i2 d) i = ops d i /\ info_b (requested b w i0 i1 i2 d) i = info_b d i /\
  info_status (requested b w i0 i1 i2 d) i = info_status d i.
Proof. intros Hn. cbn [desc dfree ops info_b info_status requested]. rewrite !upd_other by set_solver. done. Qed.

Lemma requested_taken b w i0 i1 i2 d i : i ∈ [i0; i1; i2] -> dfree (requested b w i0 i1 i2 d) i = false.
Proof. intros Hn. cbn [dfree requested]. unfold upd. repeat case_decide; try done. set_solver. Qed.

(** Case analysis on the process that moves *)
Ltac pc_at x c :=
  destruct (decide (x = c)) as [->|?];
  [rewrite ?upd_same in * | rewrite ?(upd_other (pc _)) in * by congruence]; cbn [req_of buf_of idxs] in *.

Lemma inv_alloc s Qa Qu t b w i0 i1 i2 :
  inv s Qa Qu -> woke (dk s) = [] -> pc s t = Allocating b w false -> vlock s = None ->
  NoDup [i0; i1; i2] -> (forall i, i ∈ [i0; i1; i2] -> (i < NUM)%nat /\ dfree (dk s) i = true) ->
  inv (set_dk (requested b w i0 i1 i2 (dk s)) (set_vlock (Some (ByProc t)) (set_pc (upd (pc s) t (Formatted b w (i0, i1, i2))) s))) Qa Qu.
Proof.
  intros Hi Hw Hp Hv Hn Hf. pose proof Hi as [L R D F B A U N H M S I W C G E].
  assert (Hno : forall t' b' w' idx', pc s t' <> Formatted b' w' idx').
  { intros t' b' w' idx' Hp'. assert (vlock s = Some (ByProc t')) by (apply L; eauto). congruence. }
  assert (Hoth : forall t' b' w' idx' i, req_of (pc s t') = Some (b', w', idx') -> i ∈ idxs idx' -> i ∉ [i0; i1; i2]).
  { intros t' b' w' [[j0 j1] j2] i Hr Hin Hi2. destruct (R _ _ _ _ _ _ Hr) as (_ & _ & Hx). destruct (Hx i Hin). destruct (Hf i Hi2). congruence. }
  assert (Hbuf : forall t', t' <> t -> buf_of (pc s t') <> Some b) by (intros t' Hne; apply (B t t' b); [done|by rewrite Hp]).
  assert (Hbd : forall t' b', t' <> t -> buf_of (pc s t') = Some b' -> upd (bdisk (dk s)) b 1 b' = bdisk (dk s) b').
  { intros t' b' Hne Hb. rewrite upd_other; [done|]. intros ->. by apply (Hbuf t'). }
  assert (Hlen : (length Qa < NUM)%nat).
  { apply (room_in s Qa Qu Hi Qa i0); [by left|apply Hf; left|left]. intros Hh.
    destruct (head_thread s Qa Qu Hi i0 Hh) as (? & ? & ? & ? & ? & ? & _ & _ & _ & _ & Hff). destruct (Hf i0) as [_ ?]; [left|congruence]. }
  constructor; dsimpl; try done.
  - intros t'. split.
    + intros [= <-]. exists b, w, (i0, i1, i2). by rewrite upd_same.
    + intros (b' & w' & idx' & Hp'). pc_at t' t; [done|]. by apply Hno in Hp'.
  - intros t' b' w' j0 j1 j2. pc_at t' t.
    + intros [= <- <- <- <- <-]. split_and!; [by apply requested_formatted|done|]. intros i Hin. split; [by apply Hf|exact (requested_taken b w i0 i1 i2 (dk s) i Hin)].
    + intros Hr. destruct (R _ _ _ _ _ _ Hr) as (Hfm & Hnd & Hx).
      assert (Hni : forall i, i ∈ [j0; j1; j2] -> i ∉ [i0; i1; i2]) by (intros i Hin; by eapply (Hoth _ _ _ (j0, j1, j2))).
      split_and!; [|done|].
      * eapply formatted_frame, Hfm; [apply requested_other, Hni; left| |apply requested_other, Hni; left].
        intros i Hin. apply requested_other. by apply Hni.
      * intros i Hin. destruct (requested_other b w i0 i1 i2 (dk s) i (Hni i Hin)) as (_ & -> & _). by apply Hx.
  - intros t1 t2 b1 w1 idx1 b2 w2 idx2 i Hne. pc_at t1 t.
    + rewrite upd_other by done. intros [= <- <- <-] H2 Hin Hin2. by apply (Hoth _ _ _ _ _ H2 Hin2).
    + pc_at t2 t; [|by apply (D t1 t2)]. intros H1 [= <- <- <-]. by apply (Hoth _ _ _ _ _ H1).
  - intros i Hlt Hff. destruct (decide (i ∈ [i0; i1; i2])) as [Hin|Hni].
    + exists t, b, w, (i0, i1, i2). by rewrite upd_same.
    + destruct (requested_other b w i0 i1 i2 (dk s) i Hni) as (_ & Ef & _). change (dfree (requested b w i0 i1 i2 (dk s)) i = false) in Hff.
      rewrite Ef in Hff. destruct (F i Hlt Hff) as (t' & b' & w' & idx' & Hr & Hin). exists t', b', w', idx'. pc_at t' t; [by rewrite Hp in Hr|done].
  - intros t1 t2 b' Hne. pc_at t1 t.
    + intros [= <-]. rewrite upd_other by done. by apply Hbuf.
    + pc_at t2 t; [|by apply B]. intros H1 [= <-]. by apply (Hbuf t1).
  - by apply ring_store.
  - intros h. rewrite H. split; intros (t' & b' & w' & j1 & j2 & a & Hp' & Hbd').
    + exists t', b', w', j1, j2, a. assert (t' <> t) by (intros ->; congruence). rewrite upd_other by done. split; [done|].
      change (upd (bdisk (dk s)) b 1 b' = 1). rewrite (Hbd t' b'); [done|done|by rewrite Hp'].
    + pc_at t' t; [done|]. exists t', b', w', j1, j2, a. split; [done|]. rewrite <- (Hbd t' b'); [done|done|by rewrite Hp'].
  - intros t' b' w' idx'. pc_at t' t; [|by intros ?%Hno]. intros [= <- <- <-]. split; apply upd_same.
  - intros h Hh. destruct (head_thread s Qa Qu Hi h) as (t' & b' & w' & j1 & j2 & a & Hp' & _ & _ & _ & Hff); [set_solver|].
    assert (Hni : h ∉ [i0; i1; i2]) by (intros Hin; destruct (Hf h Hin); congruence).
    destruct (requested_other b w i0 i1 i2 (dk s) h Hni) as (_ & _ & _ & _ & Es). change (info_status (requested b w i0 i1 i2 (dk s)) h = 0). rewrite Es. by apply S.
  - intros Hq. destruct (I Hq) as [?|?]; [by left|congruence].
  - intros t' b' w' idx'. pc_at t' t; [done|]. intros Hp' _. change (upd (bdisk (dk s)) b 1 b' = 1). rewrite (Hbd t' b'); [|done|by rewrite Hp']. apply (W t' b' w' idx' Hp').
    rewrite Hw. apply not_elem_of_nil.
  - intros t' b' w'. pc_at t' t; [done|]. intros Hp' _. exists i0. split; [apply Hf; left|]. apply (requested_taken b w i0 i1 i2 (dk s)). left.
  - intros t' b'. pc_at t' t; [intros [= <-]|apply G]. specialize (G t b). rewrite Hp in G. by apply G.
  - intros b' Hb'. apply E. intros t' Hb2. apply (Hb' t'). pc_at t' t; [|done]. by rewrite Hp in Hb2.
Qed.

Lemma pend_ext P P' x :
  (forall b w idx a, x = Waiting b w idx a -> idx.1.1 ∈ P <-> idx.1.1 ∈ P') -> pend P x = pend P' x.
Proof.
  intros Hx. destruct x as [| | |b w idx a]; try done. simpl. specialize (Hx b w idx a eq_refl).
  by rewrite (bool_decide_ext _ _ Hx).
Qed.

Lemma inv_publish s Qa Qu t b w i0 i1 i2 :
  inv s Qa Qu -> woke (dk s) = [] -> pc s t = Formatted b w (i0, i1, i2) -> vlock s = Some (ByProc t) ->
  inv (set_dk (set_av_idx (u16 (av_idx (dk s) + 1)) (dk s)) (set_vlock None (set_pc (upd (pc s) t (Waiting b w (i0, i1, i2) true)) s))) (Qa ++ [i0]) Qu.
Proof.
  intros Hi Hw Hp Hv. pose proof Hi as [L R D F B A U N H M S I W C G E].
  assert (Hreq : req_of (pc s t) = Some (b, w, (i0, i1, i2))) by (by rewrite Hp).
  assert (Hr : forall t', req_of (upd (pc s) t (Waiting b w (i0, i1, i2) true) t') = req_of (pc s t')) by (intros t'; pc_at t' t; by rewrite ?Hp).
  assert (Hbf : forall t', buf_of (upd (pc s) t (Waiting b w (i0, i1, i2) true) t') = buf_of (pc s t')) by (intros t'; pc_at t' t; by rewrite ?Hp).
  assert (Hh : forall t' b' w' h j1 j2 a, pc s t' = Waiting b' w' (h, j1, j2) a -> h <> i0).
  { intros t' b' w' h j1 j2 a Hp' ->. assert (t' = t) by (eapply (same_head s Qa Qu Hi); [by rewrite Hp'|exact Hreq]). congruence. }
  assert (Hni : i0 ∉ Qa ++ dev_work s ++ Qu).
  { intros Hin. destruct (head_thread s Qa Qu Hi i0 Hin) as (t' & b' & w' & j1 & j2 & a & Hp' & _). by apply Hh in Hp'. }
  destruct (R _ _ _ _ _ _ Hreq) as (Hfm & Hnd & Hx). destruct (M t b w _ Hp) as [Hbd Hring].
  assert (Hlen : (length Qa < NUM)%nat) by (apply (room_in s Qa Qu Hi Qa i0); [by left|apply Hx; left|by left]).
  constructor; dsimpl; try setoid_rewrite Hr; try setoid_rewrite Hbf; try done.
  - intros t'. split; [done|]. intros (b' & w' & idx' & Hp'). pc_at t' t; [done|]. assert (vlock s = Some (ByProc t')) by (apply L; eauto). congruence.
  - intros t' b' w' j0 j1 j2 Hq. destruct (R _ _ _ _ _ _ Hq) as (Hf' & Hn' & Hx'). split_and!; [|done|done]. by eapply formatted_frame, Hf'.
  - by apply ring_push.
  - rewrite <- app_assoc. simpl. rewrite <- Permutation_middle. by constructor.
  - intros h. assert (Hel : h ∈ (Qa ++ [i0]) ++ dev_work s ++ Qu <-> h = i0 \/ h ∈ Qa ++ dev_work s ++ Qu) by set_solver.
    rewrite Hel, H. split.
    + intros [->|(t' & b' & w' & j1 & j2 & a & Hp' & Hb')].
      * exists t, b, w, i1, i2, true. by rewrite upd_same.
      * exists t', b', w', j1, j2, a. pc_at t' t; [congruence|done].
    + intros (t' & b' & w' & j1 & j2 & a & Hp' & Hb'). pc_at t' t; [left; congruence|]. right. by exists t', b', w', j1, j2, a.
  - intros t' b' w' idx'. pc_at t' t; [done|]. intros Hp'. assert (vlock s = Some (ByProc t')) by (apply L; eauto). congruence.
  - intros Hq. destruct (I Hq) as [?|?]; [by left|congruence].
  - intros t' b' w' idx'. pc_at t' t; [congruence|]. apply W.
  - intros t' b' w'. pc_at t' t; [done|apply C].
  - intros t' b' Hb'. rewrite (G t' b' Hb'). f_equal. pc_at t' t.
    + rewrite Hp. simpl. rewrite bool_decide_true; [done|set_solver].
    + apply pend_ext. intros b2 w2 [[h j1] j2] a2 Hp'. apply Hh in Hp' as Hne. set_solver.
Qed.

(** A process asleep on a buffer that is still with the disk *)
Lemma inv_sleep s Qa Qu t b w idx :
  inv s Qa Qu -> pc s t = Waiting b w idx false -> bdisk (dk s) b = 1 -> inv (set_pc (upd (pc s) t (Waiting b w idx true)) s) Qa Qu.
Proof.
  intros Hi Hp Hb. pose proof Hi as [L R D F B A U N H M S I W C G E].
  assert (Hr : forall t', req_of (upd (pc s) t (Waiting b w idx true) t') = req_of (pc s t')) by (intros t'; pc_at t' t; by rewrite ?Hp).
  assert (Hbf : forall t', buf_of (upd (pc s) t (Waiting b w idx true) t') = buf_of (pc s t')) by (intros t'; pc_at t' t; by rewrite ?Hp).
  constructor; dsimpl; try setoid_rewrite Hr; try setoid_rewrite Hbf; try done.
  - intros t'. rewrite L. pc_at t' t; [|done]. split; intros (? & ? & ? & ?); congruence.
  - intros h. rewrite H. split; intros (t' & b' & w' & j1 & j2 & a & Hp' & Hb').
    + exists t', b', w', j1, j2, (if decide (t' = t) then true else a). case_decide; [subst t'; rewrite upd_same; split; congruence|by rewrite upd_other].
    + pc_at t' t; [exists t, b', w', j1, j2, false; split; congruence|]. by exists t', b', w', j1, j2, a.
  - intros t' b' w' idx'. pc_at t' t; [done|apply M].
  - intros t' b' w' idx'. pc_at t' t; [congruence|apply W].
  - intros t' b' w'. pc_at t' t; [done|apply C].
  - intros t' b' Hb'. rewrite (G t' b' Hb'). f_equal. pc_at t' t; [by rewrite Hp|done].
Qed.

Definition finished (i0 i1 i2 : nat) (d : disk) : disk :=
  freed i2 (freed i1 (freed i0 (set_info_b (upd (info_b d) i0 None) d))).

Lemma free_chain_turn i d fuel : (i < NUM)%nat -> dfree d i = false ->
  free_chain_loop i (S fuel) d =
  (if negb (Z.land (d_flags (desc d i)) VRING_DESC_F_NEXT =? 0) then free_chain_loop (d_next (desc d i)) fuel else ret tt) (freed i d).
Proof. intros Hi Hf. cbn [free_chain_loop]. rewrite bind_get. by rewrite (bind_ret_intro _ _ _ _ _ (free_desc_spec i d Hi Hf)). Qed.

Lemma rw_finish_spec d b w i0 i1 i2 :
  formatted d b w i0 i1 i2 -> NoDup [i0; i1; i2] -> (forall i, i ∈ [i0; i1; i2] -> (i < NUM)%nat /\ dfree d i = false) ->
  rw_finish (i0, i1, i2) d = Ret tt (finished i0 i1 i2 d).
Proof.
  intros [Ho H0 H1 H2 _] Hn Hx. assert (i0 <> i1 /\ i0 <> i2 /\ i1 <> i2) as (N1 & N2 & N3).
  { inversion_clear Hn as [|? ? Ha Hb]. inversion_clear Hb as [|? ? Hc _]. set_solver. }
  destruct (Hx i0 ltac:(set_solver)) as [L0 F0], (Hx i1 ltac:(set_solver)) as [L1 F1], (Hx i2 ltac:(set_solver)) as [L2 F2].
  unfold rw_finish, finished. rewrite (bind_ret_intro _ _ d tt (set_info_b (upd (info_b d) i0 None) d)) by done.
  unfold free_chain, NUM. rewrite free_chain_turn by done. dsimpl. rewrite H0. change (negb _) with true. cbn [d_next].
  rewrite free_chain_turn; [|done|dsimpl; by rewrite upd_other]. dsimpl. rewrite upd_other, H1 by done.
  replace (negb _) with true by (by destruct w). cbn [d_next].
  rewrite free_chain_turn; [|done|dsimpl; by rewrite !upd_other]. dsimpl. rewrite !upd_other, H2 by done. done.
Qed.

Lemma finished_other i0 i1 i2 d i : i ∉ [i0; i1; i2] ->
  desc (finished i0 i1 i2 d) i = desc d i /\ dfree (finished i0 i1 i2 d) i = dfree d i /\ info_b (finished i0 i1 i2 d) i = info_b d i.
Proof. intros Hn. unfold finished. dsimpl. rewrite !upd_other by set_solver. done. Qed.

Lemma finished_free i0 i1 i2 d i : i ∈ [i0; i1; i2] -> dfree (finished i0 i1 i2 d) i = true.
Proof. intros Hn. unfold finished. dsimpl. unfold upd. repeat case_decide; try done. set_solver. Qed.

Lemma inv_finish s Qa Qu t b w i0 i1 i2 :
  inv s Qa Qu -> woke (dk s) = [] -> pc s t = Waiting b w (i0, i1, i2) false -> bdisk (dk s) b <> 1 ->
  rw_finish (i0, i1, i2) (dk s) = Ret tt (finished i0 i1 i2 (dk s)) /\ calls s b = xfers s b /\
  inv (set_dk (finished i0 i1 i2 (dk s)) (set_pc (upd (pc s) t Outside) s)) Qa Qu.
Proof.
  intros Hi Hw Hp Hbd. pose proof Hi as [L R D F B A U N H M S I W C G E].
  assert (Hreq : req_of (pc s t) = Some (b, w, (i0, i1, i2))) by (by rewrite Hp).
  assert (Hbuf : buf_of (pc s t) = Some b) by (by rewrite Hp).
  destruct (R _ _ _ _ _ _ Hreq) as (Hfm & Hnd & Hx).
  assert (Hni : i0 ∉ Qa ++ dev_work s ++ Qu).
  { intros Hin. destruct (head_thread s Qa Qu Hi i0 Hin) as (t' & b' & w' & j1 & j2 & a & Hp' & Hb' & _).
    assert (t' = t) by (eapply (same_head s Qa Qu Hi); [by rewrite Hp'|exact Hreq]). subst t'. rewrite Hp in Hp'. congruence. }
  assert (Hcalls : calls s b = xfers s b).
  { rewrite (G t b Hbuf), Hp. simpl. rewrite bool_decide_false by set_solver. by rewrite app_nil_r. }
  assert (Hoth : forall t' b' w' idx' i, t' <> t -> req_of (pc s t') = Some (b', w', idx') -> i ∈ idxs idx' -> i ∉ [i0; i1; i2]).
  { intros t' b' w' idx' i Hne Hr Hin. by apply (D t' t b' w' idx' b w (i0, i1, i2) i). }
  split_and!; [by eapply rw_finish_spec|done|]. constructor; dsimpl; try done.
  - intros t'. rewrite L. pc_at t' t; [|done]. split; intros (? & ? & ? & ?); congruence.
  - intros t' b' w' j0 j1 j2. pc_at t' t; [done|]. intros Hr. destruct (R _ _ _ _ _ _ Hr) as (Hf' & Hn' & Hx').
    assert (Hn2 : forall i, i ∈ [j0; j1; j2] -> i ∉ [i0; i1; i2]) by (intros i Hin; by eapply (Hoth t' _ _ (j0, j1, j2))).
    split_and!; [|done|].
    + eapply formatted_frame, Hf'; [done| |apply finished_other, Hn2; left]. intros i Hin. by apply finished_other, Hn2.
    + intros i Hin. destruct (finished_other i0 i1 i2 (dk s) i (Hn2 i Hin)) as (_ & -> & _). by apply Hx'.
  - intros t1 t2 b1 w1 idx1 b2 w2 idx2 i Hne. pc_at t1 t; [done|]. pc_at t2 t; [done|]. by apply (D t1 t2).
  - intros i Hlt Hff. destruct (decide (i ∈ [i0; i1; i2])) as [Hin|Hn2].
    + rewrite (finished_free i0 i1 i2 (dk s) i Hin) in Hff. done.
    + destruct (finished_other i0 i1 i2 (dk s) i Hn2) as (_ & Ef & _). rewrite Ef in Hff.
      destruct (F i Hlt Hff) as (t' & b' & w' & idx' & Hr & Hin). exists t', b', w', idx'. pc_at t' t; [|done].
      rewrite Hreq in Hr. injection Hr as <- <- <-. done.
  - intros t1 t2 b' Hne. pc_at t1 t; [done|]. pc_at t2 t; [done|]. by apply B.
  - intros h. rewrite H. split; intros (t' & b' & w' & j1 & j2 & a & Hp' & Hb').
    + exists t', b', w', j1, j2, a. pc_at t' t; [congruence|done].
    + pc_at t' t; [done|]. by exists t', b', w', j1, j2, a.
  - intros t' b' w' idx'. pc_at t' t; [done|apply M].
  - intros t' b' w' idx'. pc_at t' t; [done|]. intros Hp' _. apply (W t' b' w' idx' Hp'). rewrite Hw. apply not_elem_of_nil.
  - intros t' b' w' _ Hn2. exfalso. apply Hn2. left.
  - intros t' b'. pc_at t' t; [done|apply G].
  - intros b' Hb'. destruct (decide (b' = b)) as [->|Hne]; [done|]. apply E. intros t'. specialize (Hb' t'). pc_at t' t; [congruence|done].
Qed.

Lemma inv_intr_leave s Qu Qa : inv s Qa Qu -> used_idx (dk s) = us_idx (dk s) -> Qu = [].
Proof. intros Hi E. by apply (ring_empty _ _ _ _ (i_us _ _ _ Hi) (length_Qu _ _ _ Hi)). Qed.

(** What a turn of the handler leaves, having seen the completion of [b] *)
Definition completed (b : nat) (d : disk) : disk :=
  set_used_idx (u16 (used_idx d + 1)) (set_woke (CBuf b :: woke d) (set_bdisk (upd (bdisk d) b 0) d)).

Lemma inv_intr s Qa x Qu :
  inv s Qa (x :: Qu) -> woke (dk s) = [] -> vlock s = Some ByIntr ->
  exists b, intr_turn (dk s) = Ret true (completed b (dk s)) /\ inv (set_dk (completed b (dk s)) s) Qa Qu.
Proof.
  intros Hi Hw Hv. pose proof Hi as [L R D F B A U N H M S I W C G E].
  destruct (head_thread s Qa (x :: Qu) Hi x) as (t & b & w & i1 & i2 & a & Hp & Hb & Hfm & _ & _); [set_solver|].
  destruct (ring_pop _ _ _ _ _ U) as [Hx U']. exists b. split.
  - unfold intr_turn. rewrite bind_get. rewrite (proj2 (Z.eqb_neq _ _)).
    + change (us_ring (dk s) (Z.to_nat (used_idx (dk s) mod Z.of_nat NUM))) with (us_ring (dk s) (slot (used_idx (dk s)))).
      rewrite Hx, (S x) by left. cbn [negb Z.eqb]. by rewrite (fm_b _ _ _ _ _ _ Hfm).
    + intros Hq. by apply (inv_intr_leave s (x :: Qu) Qa Hi) in Hq.
  - assert (Hxn : x ∉ Qa ++ dev_work s ++ Qu /\ NoDup (Qa ++ dev_work s ++ Qu)).
    { rewrite (assoc_L (++)), <- Permutation_middle, <- (assoc_L (++)) in N. by apply NoDup_cons in N. }
    assert (Hbd : forall t' b', t' <> t -> buf_of (pc s t') = Some b' -> upd (bdisk (dk s)) b 0 b' = bdisk (dk s) b').
    { intros t' b' Hne Hb'. rewrite upd_other; [done|]. intros ->. by apply (B t' t b Hne Hb'); rewrite Hp. }
    unfold completed. constructor; dsimpl; try done.
    + intros t' b' w' j0 j1 j2 Hr. destruct (R _ _ _ _ _ _ Hr) as (Hf' & Hn' & Hx'). split_and!; [|done|done]. by eapply formatted_frame, Hf'.
    + apply Hxn.
    + intros h. assert (Hh : h ∈ Qa ++ dev_work s ++ Qu <-> h <> x /\ h ∈ Qa ++ dev_work s ++ x :: Qu).
      { split; [|set_solver]. intros Hin. split; [intros ->; by apply Hxn|set_solver]. }
      rewrite Hh, H. split.
      * intros [Hne (t' & b' & w' & j1 & j2 & a' & Hp' & Hb')]. exists t', b', w', j1, j2, a'. split; [done|].
        rewrite (Hbd t' b'); [done| |by rewrite Hp']. intros ->. congruence.
      * intros (t' & b' & w' & j1 & j2 & a' & Hp' & Hb'). destruct (decide (t' = t)) as [->|Hne].
        { rewrite Hp in Hp'. injection Hp' as <- <- <- <- <- <-. by rewrite upd_same in Hb'. }
        rewrite (Hbd t' b') in Hb'; [|done|by rewrite Hp']. split; [|by exists t', b', w', j1, j2, a'].
        intros ->. apply Hne. eapply (same_head s Qa (x :: Qu) Hi); [by rewrite Hp'|by rewrite Hp].
    + intros t' b' w' idx' Hp'. assert (vlock s = Some (ByProc t')) by (apply L; eauto). congruence.
    + intros h Hh. apply S. by right.
    + intros _. by right.
    + intros t' b' w' idx' Hp' Hn. rewrite upd_other; [apply (W t' b' w' idx' Hp')|]; [rewrite Hw; apply not_elem_of_nil|]. intros ->. apply Hn. left.
    + intros t' b' w' Hp' Hn. apply (C t' b' w' Hp'). rewrite Hw. apply not_elem_of_nil.
Qed.

(** The device fetches the next head. *)
Lemma inv_fetch s Qa Qu : inv s Qa Qu -> dev_idx s <> av_idx (dk s) ->
  exists x Qa', Qa = x :: Qa' /\ inv (MkSys (dk s) (vlock s) (pc s) (u16 (dev_idx s + 1))
    (dev_work s ++ [av_ring (dk s) (slot (dev_idx s))]) (irq s) (calls s) (xfers s)) Qa' Qu.
Proof.
  intros Hi Hne. pose proof Hi as [L R D F B A U N H M S I W C G E]. destruct Qa as [|x Qa].
  { exfalso. apply Hne. by apply (ring_empty _ _ _ _ A (length_Qa _ _ _ Hi)). }
  exists x, Qa. split; [done|]. destruct (ring_pop _ _ _ _ _ A) as [Hx A']. rewrite Hx.
  assert (HP : Qa ++ (dev_work s ++ [x]) ++ Qu ≡ₚ (x :: Qa) ++ dev_work s ++ Qu) by solve_Permutation.
  constructor; dsimpl; try done.
  - by rewrite HP.
  - intros h. rewrite HP. apply H.
  - intros t b Hb. rewrite (G t b Hb). f_equal. apply pend_ext. intros. set_solver.
Qed.

Lemma remove_one_perm h (l : list nat) : NoDup l -> h ∈ l -> l ≡ₚ h :: remove_one h l.
Proof.
  intros Hn Hh. apply NoDup_Permutation; [done| |].
  - constructor; [by rewrite elem_of_remove_one; intros [? _]|by apply NoDup_remove_one].
  - intros x. rewrite elem_of_cons, elem_of_remove_one. destruct (decide (x = h)); naive_solver.
Qed.

(** The device has served the request of head [h]. *)
Definition served (h : nat) (d : disk) : disk :=
  set_us_idx (u16 (us_idx d + 1)) (set_us_ring (upd (us_ring d) (slot (us_idx d)) h) (set_info_status (upd (info_status d) h 0) d)).

Lemma inv_done s Qa Qu h r b w i :
  inv s Qa Qu -> h ∈ dev_work s -> dev_chain (dk s) h = Some (r, b, w, i) ->
  i = h /\ inv (MkSys (served h (dk s)) (vlock s) (pc s) (dev_idx s) (remove_one h (dev_work s)) true (calls s)
    (upd (xfers s) b (xfers s b ++ [(negb w, r_sector r)]))) Qa (Qu ++ [h]).
Proof.
  intros Hi Hh Hc. pose proof Hi as [L R D F B A U N H M S I W C G E].
  destruct (head_thread s Qa Qu Hi h) as (t & b0 & w0 & i1 & i2 & a & Hp & Hb & Hfm & Hlt & Hff); [set_solver|].
  destruct (formatted_chain _ _ _ _ _ _ Hfm) as [Hc' _]. rewrite Hc in Hc'. injection Hc' as -> -> -> ->. split; [done|].
  rewrite negb_involutive. cbn [r_sector].
  assert (Hnd : NoDup (dev_work s) /\ h ∉ Qa /\ h ∉ Qu) by (rewrite !NoDup_app in N; set_solver).
  assert (HP : Qa ++ remove_one h (dev_work s) ++ Qu ++ [h] ≡ₚ Qa ++ dev_work s ++ Qu).
  { rewrite (remove_one_perm h (dev_work s)) at 2 by apply Hnd || done. solve_Permutation. }
  assert (Hoth : forall t' b' w' h' j1 j2 a', t' <> t -> pc s t' = Waiting b' w' (h', j1, j2) a' -> h' <> h).
  { intros t' b' w' h' j1 j2 a' Hne Hp' ->. apply Hne. eapply (same_head s Qa Qu Hi); [by rewrite Hp'|by rewrite Hp]. }
  unfold served. constructor; dsimpl; try done.
  - intros t' b' w' j0 j1 j2 Hr. destruct (R _ _ _ _ _ _ Hr) as (Hf' & Hn' & Hx'). split_and!; [|done|done]. by eapply formatted_frame, Hf'.
  - apply ring_push; [apply ring_store; [done|]| |apply upd_same]; apply (room_in s Qa Qu Hi Qu h); auto.
  - by rewrite HP.
  - intros h'. rewrite HP. apply H.
  - intros h' Hh'. unfold upd. case_decide; [done|]. apply S. set_solver.
  - intros _. by left.
  - intros t' b' Hb'. destruct (decide (t' = t)) as [->|Hne].
    + assert (b' = b0) as -> by (rewrite Hp in Hb'; by injection Hb'). rewrite upd_same, (G t b0 Hb'), Hp. simpl.
      rewrite bool_decide_true by set_solver. rewrite bool_decide_false; [by rewrite app_nil_r|].
      rewrite elem_of_app, elem_of_remove_one. naive_solver.
    + rewrite upd_other; [|intros ->; by apply (B t' t b0 Hne Hb'); rewrite Hp]. rewrite (G t' b' Hb'). f_equal. apply pend_ext.
      intros b2 w2 [[h2 j1] j2] a2 Hp'. apply Hoth in Hp' as Hn2; [|done]. cbn. rewrite !elem_of_app, elem_of_remove_one. naive_solver.
  - intros b' Hb'. rewrite upd_other; [by apply E|]. intros ->. apply (Hb' t). by rewrite Hp.
Qed.

(** *** Every reachable state *)

Lemma virtio_disk_init_free reg page ws d ws' : virtio_disk_init reg page ws = Ret d ws' ->
  d = set_dfree (fun i => bool_decide (i < NUM)%nat) disk0.
Proof.
  unfold virtio_disk_init. intros Hr. repeat (case_match; try discriminate Hr; cbn [bind wreg modify] in Hr).
  all: unfold bind, wreg, modify in Hr; repeat (case_match; try discriminate Hr); by injection Hr.
Qed.

Lemma inv_start reg page ws d ws' : virtio_disk_init reg page ws = Ret d ws' -> inv (start d) [] [] /\ woke (dk (start d)) = [].
Proof.
  intros ->%virtio_disk_init_free. split; [|done]. constructor; simpl; try done.
  - intros t. split; [done|]. by intros (? & ? & ? & ?).
  - intros i Hi Hf. by rewrite bool_decide_true in Hf.
  - constructor.
  - intros h. split; [by intros ?%elem_of_nil|]. by intros (? & ? & ? & ? & ? & ? & ? & _).
Qed.

Definition good (s : sys) : Prop := woke (dk s) = [] /\ exists Qa Qu, inv s Qa Qu.

Lemma good_step s s' : good s -> step blockno s s' -> good s'.
Proof.
  intros [Hw (Qa & Qu & Hi)] Hs. destruct Hs as [s t b w Hp Hb|s t b w d Hp Hv Ha|s t b w idx d d' Hp Hv Ha Hf|s t b w idx d Hp Hv Hd Hbd
    |s t b w idx Hp Hv Hbd|s t b w idx d Hp Hv Hbd Hf|s Hirq Hv|s d Hv Hd|s d Hv Hd|s Hne|s h r b w i Hh Hc Ha].
  - split; [done|]. exists Qa, Qu. assert (Hid : calls s b = xfers s b) by (by apply (i_idle _ _ _ Hi)).
    apply inv_pc; try done; [by rewrite Hp|intros t' b' _ [= <-]; apply Hb|intros b' [= <-]; by rewrite upd_same, Hid| |].
    + intros t' b' _ Hb'. rewrite upd_other; [done|]. intros ->. by apply (Hb t').
    + intros b' Hb'. rewrite upd_other; [apply (i_idle _ _ _ Hi); intros t' Hb2; apply (Hb' t'); pc_at t' t; [by rewrite Hp in Hb2|done]|].
      intros ->. apply (Hb' t). by rewrite upd_same.
  - split; [done|]. exists Qa, Qu. apply inv_after.
    destruct (alloc3_desc_spec (dk s)) as [(i0 & i1 & i2 & E & _)|(d' & E & Hun & Hex)]; [congruence|].
    rewrite E in Ha. injection Ha as <-. apply (inv_unchanged (set_pc (upd (pc s) t (Allocating b w true)) s)); [|done|done].
    pose proof (i_log _ _ _ Hi t b) as Hl. rewrite Hp in Hl. apply inv_pc; try done.
    + by rewrite Hp.
    + intros t' b' Hne [= <-]. apply (i_buf _ _ _ Hi t); [done|by rewrite Hp].
    + intros b' [= <-]. by apply Hl.
    + intros b' Hb'. apply (i_idle _ _ _ Hi). intros t' Hb2. apply (Hb' t'). pc_at t' t; [by rewrite Hp in Hb2|done].
  - split; [done|]. exists Qa, Qu. apply inv_after.
    destruct (alloc3_desc_spec (dk s)) as [(i0 & i1 & i2 & E & Hn & Hx)|(d2 & E & _)]; [|congruence].
    rewrite E in Ha. injection Ha as <- <-. rewrite rw_format_spec in Hf. injection Hf as <-. by apply inv_alloc.
  - split; [done|]. destruct idx as [[i0 i1] i2]. exists (Qa ++ [i0]), Qu. apply inv_after. injection Hd as <-. by apply inv_publish.
  - split; [done|]. exists Qa, Qu. by apply inv_sleep.
  - split; [done|]. destruct idx as [[i0 i1] i2]. exists Qa, Qu. apply inv_after.
    destruct (inv_finish s Qa Qu t b w i0 i1 i2 Hi Hw Hp Hbd) as (E & _ & Hi'). rewrite E in Hf. by injection Hf as <-.
  - split; [done|]. exists Qa, Qu. destruct Hi as [L R D F B A U N H M S I W C G E]. constructor; dsimpl; try done; [|by right].
    intros t. rewrite <- L, Hv. done.
  - split; [done|]. destruct Qu as [|x Qu].
    { exfalso. unfold intr_turn in Hd. rewrite bind_get, (proj2 (Z.eqb_eq _ _)) in Hd; [done|].
      by apply (ring_empty _ _ _ _ (i_us _ _ _ Hi) (length_Qu _ _ _ Hi)). }
    exists Qa, Qu. apply inv_after. destruct (inv_intr s Qa x Qu Hi Hw Hv) as (b & E & Hi'). rewrite E in Hd. by injection Hd as <-.
  - split; [done|]. assert (Qu = []) as ->.
    { destruct Qu as [|x Qu]; [done|]. destruct (inv_intr s Qa x Qu Hi Hw Hv) as (b & E & _). congruence. }
    exists Qa, []. destruct Hi as [L R D F B A U N H M S I W C G E]. constructor; dsimpl; try done. intros t. rewrite <- L, Hv. done.
  - split; [done|]. destruct (inv_fetch s Qa Qu Hi Hne) as (x & Qa' & _ & Hi'). by exists Qa', Qu.
  - split; [done|]. destruct (inv_done s Qa Qu h r b w i Hi Hh Hc) as [-> Hi']. by exists Qa, (Qu ++ [h]).
Qed.

Lemma reachable_good reg page ws d ws' s : virtio_disk_init reg page ws = Ret d ws' -> reachable blockno d s -> good s.
Proof.
  intros Hd Hr. induction Hr as [|s s' _ IH Hs]; [|by eapply good_step].
  destruct (inv_start _ _ _ _ _ Hd) as [Hi Hw]. split; [done|]. by exists [], [].
Qed.

(** *** Progress *)

Section progress.
Context (s : sys) (Qa Qu : list nat).
Hypothesis Hi : inv s Qa Qu.
Hypothesis Hw : woke (dk s) = [].

Definition moves : Prop := exists s', step blockno s s' /\ calls s' = calls s.

Lemma waiting_moves t b w idx a : vlock s = None -> Qa ++ dev_work s ++ Qu = [] -> pc s t = Waiting b w idx a -> moves.
Proof.
  intros Hv Hq Hp. destruct idx as [[i0 i1] i2]. assert (Hb : bdisk (dk s) b <> 1).
  { intros Hb. assert (Hin : i0 ∈ Qa ++ dev_work s ++ Qu) by (apply (i_heads _ _ _ Hi); by exists t, b, w, i1, i2, a).
    rewrite Hq in Hin. by apply elem_of_nil in Hin. }
  destruct a; [exfalso; apply Hb; eapply (i_wait _ _ _ Hi); [exact Hp|rewrite Hw; apply not_elem_of_nil]|].
  destruct (inv_finish s Qa Qu t b w i0 i1 i2 Hi Hw Hp Hb) as (E & _). eexists. split; [by eapply step_finish|done].
Qed.

Lemma allocating_moves t b w : vlock s = None -> pc s t = Allocating b w false -> moves.
Proof.
  intros Hv Hp. destruct (alloc3_desc_spec (dk s)) as [(i0 & i1 & i2 & E & _)|(d' & E & _)].
  - eexists. split; [eapply step_alloc; [done|done|exact E|apply rw_format_spec]|done].
  - eexists. split; [by eapply step_alloc_fails|done].
Qed.

Lemma intr_moves : vlock s = Some ByIntr -> moves.
Proof.
  intros Hv. destruct Qu as [|x Qu'] eqn:Eq.
  - eexists. split; [eapply step_intr_leave; [done|]|]; [|done].
    unfold intr_turn. rewrite bind_get, (proj2 (Z.eqb_eq _ _)); [done|]. by apply (ring_empty _ _ _ _ (i_us _ _ _ Hi) (length_Qu _ _ _ Hi)).
  - destruct (inv_intr s Qa x Qu' Hi Hw Hv) as (b & E & _). eexists. split; [by eapply step_intr_turn|done].
Qed.

Lemma in_call_moves t : pc s t <> Outside -> moves.
Proof.
  intros Ht. destruct (vlock s) as [[t'|]|] eqn:Hv; [|by apply intr_moves|].
  { destruct (proj1 (i_lock _ _ _ Hi t') Hv) as (b & w & idx & Hp). eexists. split; [eapply step_publish; [done|done|reflexivity|]|done].
    by destruct (i_fmt _ _ _ Hi t' b w idx Hp). }
  destruct (irq s) eqn:Hirq; [eexists; split; [by apply step_intr_enter|done]|].
  destruct (dev_work s) as [|h F] eqn:HF.
  2: { assert (Hh : h ∈ dev_work s) by (rewrite HF; left). destruct (head_thread s Qa Qu Hi h) as (t' & b & w & i1 & i2 & a & _ & _ & Hfm & _); [set_solver|].
       destruct (formatted_chain _ _ _ _ _ _ Hfm) as [Hc Ha]. eexists. split; [by eapply step_dev_done|done]. }
  destruct (Z.eq_dec (dev_idx s) (av_idx (dk s))) as [Hd|Hd]; [|eexists; split; [by apply step_dev_fetch|done]].
  assert (Hq : Qa ++ dev_work s ++ Qu = []).
  { rewrite HF. assert (Qa = []) as -> by (by apply (ring_empty _ _ _ _ (i_av _ _ _ Hi) (length_Qa _ _ _ Hi))).
    destruct Qu as [|x Qu'] eqn:Eq; [done|]. destruct (i_irq _ _ _ Hi); congruence. }
  assert (Hnf : forall t' b w idx, pc s t' <> Formatted b w idx).
  { intros t' b w idx Hp. assert (vlock s = Some (ByProc t')) by (apply (i_lock _ _ _ Hi); eauto). congruence. }
  destruct (pc s t) as [|b w [|]|b w idx|b w idx a] eqn:Hp; [done| |by eapply allocating_moves|by apply Hnf in Hp|by eapply waiting_moves].
  destruct (i_alloc _ _ _ Hi t b w Hp) as (i & Hlt & Hf); [rewrite Hw; apply not_elem_of_nil|].
  destruct (i_free _ _ _ Hi i Hlt Hf) as (t' & b' & w' & idx' & Hr & _).
  destruct (pc s t') as [| |b2 w2 idx2|b2 w2 idx2 a2] eqn:Hp'; try discriminate Hr; [by apply Hnf in Hp'|by eapply waiting_moves].
Qed.
End progress.

End inv.

(** A device that offers every feature and an eight-entry queue *)
Definition qemu_reg (r : Z) : Z :=
  if r =? 0 then 0x74726976 else if r =? 4 then 2 else if r =? 8 then 2 else if r =? 12 then 0x554d4551
  else if r =? 16 then 2 ^ 32 - 1 else if r =? 0x070 then 11 else if r =? 0x034 then 8 else 0.

