(* ===== verification/Console.v ===== *)
(** The console and the serial line, [src/xv6-riscv/kernel/console.c] and
    [src/xv6-riscv/kernel/uart.c].

    A call runs under its lock until it returns or sleeps, and a sleeping call goes
    on from its loop test with the values it had.  The device is what its registers
    show: [thr] are the bytes written to THR, in order, [lsr] the coming readings of
    the transmitter's idle bit by uartstart (not idle when they run out) and [rhr] the bytes
    received and not yet read. *)

From stdpp Require Import base list.
From S2P Require Import Prelude Memory Spinlock Sleeplock Fs.

Definition BACKSPACE : Z := 0x100.
Definition INPUT_BUF_SIZE : Z := 128.
Definition UART_TX_BUF_SIZE : Z := 32.
(** C(x) *)
Definition ctrl (x : Z) : Z := x - 64.
Definition ctrl_P : Z := ctrl 80.
Definition ctrl_U : Z := ctrl 85.
Definition ctrl_H : Z := ctrl 72.
Definition ctrl_D : Z := ctrl 68.
Definition newline : Z := 10.
Definition return_ : Z := 13.

(** The globals of both files, the locks, and the calling process *)
Record cst := MkCst {
  cbuf : list Z; cr : Z; cw : Z; ce : Z;
  txbuf : list Z; txw : Z; txr : Z; panicked : Z;
  thr : list Z; lsr : list bool; rhr : list Z;
  cheld : list lockid; cme : Z; cwoken : list chan; cumem : mem; ckilled : Z }.

Definition set_input b r w e s := MkCst b r w e (txbuf s) (txw s) (txr s) (panicked s) (thr s) (lsr s) (rhr s) (cheld s) (cme s) (cwoken s) (cumem s) (ckilled s).
Definition set_output b w r s := MkCst (cbuf s) (cr s) (cw s) (ce s) b w r (panicked s) (thr s) (lsr s) (rhr s) (cheld s) (cme s) (cwoken s) (cumem s) (ckilled s).
Definition set_thr t s := MkCst (cbuf s) (cr s) (cw s) (ce s) (txbuf s) (txw s) (txr s) (panicked s) t (lsr s) (rhr s) (cheld s) (cme s) (cwoken s) (cumem s) (ckilled s).
Definition set_lsr l s := MkCst (cbuf s) (cr s) (cw s) (ce s) (txbuf s) (txw s) (txr s) (panicked s) (thr s) l (rhr s) (cheld s) (cme s) (cwoken s) (cumem s) (ckilled s).
Definition set_rhr l s := MkCst (cbuf s) (cr s) (cw s) (ce s) (txbuf s) (txw s) (txr s) (panicked s) (thr s) (lsr s) l (cheld s) (cme s) (cwoken s) (cumem s) (ckilled s).
Definition set_cheld h s := MkCst (cbuf s) (cr s) (cw s) (ce s) (txbuf s) (txw s) (txr s) (panicked s) (thr s) (lsr s) (rhr s) h (cme s) (cwoken s) (cumem s) (ckilled s).
Definition set_cwoken w s := MkCst (cbuf s) (cr s) (cw s) (ce s) (txbuf s) (txw s) (txr s) (panicked s) (thr s) (lsr s) (rhr s) (cheld s) (cme s) w (cumem s) (ckilled s).
Definition set_cumem m s := MkCst (cbuf s) (cr s) (cw s) (ce s) (txbuf s) (txw s) (txr s) (panicked s) (thr s) (lsr s) (rhr s) (cheld s) (cme s) (cwoken s) m (ckilled s).

#[export] Instance cst_locks : LockView cst := {
  held := cheld; set_held := set_cheld;
  held_set_held := fun _ _ => eq_refl; set_held_twice := fun _ _ _ => eq_refl;
  set_held_id := fun s => match s with MkCst _ _ _ _ _ _ _ _ _ _ _ _ _ _ _ _ => eq_refl end }.

#[export] Instance cst_thread : Thread cst := {
  thread_locks := cst_locks; mypid := cme; woken := cwoken; set_woken := set_cwoken;
  woken_set_woken := fun _ _ => eq_refl; held_set_woken := fun _ _ => eq_refl;
  woken_set_held := fun _ _ => eq_refl; mypid_set_woken := fun _ _ => eq_refl;
  mypid_set_held := fun _ _ => eq_refl; set_woken_held := fun _ _ _ => eq_refl }.

(** ** uart.c *)

(** for(;;); after a panic elsewhere *)
Definition stop_if_panicked : M cst unit :=
  let! p := get panicked in if negb (p =? 0) then out_of_fuel else ret tt.

Definition write_THR (c : Z) : M cst unit := modify (fun s => set_thr (thr s ++ [u8 c]) s).

(** A reading of LSR_TX_IDLE *)
Definition tx_idle : M cst bool := fun s =>
  match lsr s with [] => Ret false s | b :: l => Ret b (set_lsr l s) end.

(** With interrupts off it waits for a reading of the idle bit, which a working
    device gives; the wait changes nothing, and its readings are not those of
    [lsr]. *)
Definition uartputc_sync (c : Z) : M cst unit := stop_if_panicked ;;; write_THR c.

(** while(1): a turn takes a byte out of the buffer or returns. *)
Fixpoint uartstart_loop (fuel : nat) : M cst unit :=
  match fuel with
  | O => out_of_fuel
  | S fuel =>
      let! s := get (fun s => s) in
      if txw s =? txr s then ret tt
      else
        let! idle := tx_idle in
        if negb idle then ret tt
        else
          let c := rd (txbuf s) (txr s mod UART_TX_BUF_SIZE) in
          modify (fun s => set_output (txbuf s) (txw s) (u64 (txr s + 1)) s) ;;;
          wakeup CUartTx ;;;
          write_THR c ;;;
          uartstart_loop fuel
  end.
Definition uartstart : M cst unit := uartstart_loop (S (Z.to_nat UART_TX_BUF_SIZE)).

(** uartputc from its loop test; false when the call sleeps *)
Definition uartputc_turn (c : Z) : M cst bool :=
  let! s := get (fun s => s) in
  if txw s =? u64 (txr s + UART_TX_BUF_SIZE) then lock_release LUart ;;; ret false
  else
    modify (fun s => set_output (wr (txbuf s) (txw s mod UART_TX_BUF_SIZE) (u8 c)) (u64 (txw s + 1)) (txr s) s) ;;;
    uartstart ;;;
    lock_release LUart ;;;
    ret true.

Definition uartputc (c : Z) : M cst bool :=
  lock_acquire LUart ;;; stop_if_panicked ;;; uartputc_turn c.

(** A call that slept, woken with the lock taken again *)
Definition uartputc_resume (c : Z) : M cst bool := lock_acquire LUart ;;; uartputc_turn c.

(** -1 when nothing was received *)
Definition uartgetc : M cst Z := fun s =>
  match rhr s with [] => Ret (-1) s | c :: l => Ret c (set_rhr l s) end.

(** ** console.c *)

Definition consputc (c : Z) : M cst unit :=
  if c =? BACKSPACE then uartputc_sync 8 ;;; uartputc_sync 32 ;;; uartputc_sync 8 else uartputc_sync c.

(** case C('U'): while(cons.e != cons.w && ...); the buffer has INPUT_BUF_SIZE bytes. *)
Fixpoint kill_line (fuel : nat) : M cst unit :=
  match fuel with
  | O => out_of_fuel
  | S fuel =>
      let! s := get (fun s => s) in
      if (negb (ce s =? cw s) && negb (rd (cbuf s) (u32 (ce s - 1) mod INPUT_BUF_SIZE) =? newline))%bool then
        modify (fun s => set_input (cbuf s) (cr s) (cw s) (u32 (ce s - 1)) s) ;;;
        consputc BACKSPACE ;;;
        kill_line fuel
      else ret tt
  end.

(** procdump only prints. *)
Definition consoleintr (c : Z) : M cst unit :=
  lock_acquire LCons ;;;
  (if c =? ctrl_P then ret tt
   else if c =? ctrl_U then kill_line (S (Z.to_nat INPUT_BUF_SIZE))
   else if ((c =? ctrl_H) || (c =? 0x7f))%bool then
     let! s := get (fun s => s) in
     when negb (ce s =? cw s) then
       modify (fun s => set_input (cbuf s) (cr s) (cw s) (u32 (ce s - 1)) s) ;;;
       consputc BACKSPACE
   else
     let! s := get (fun s => s) in
     when (negb (c =? 0) && (u32 (ce s - cr s) <? INPUT_BUF_SIZE))%bool then
       let c := if c =? return_ then newline else c in
       consputc c ;;;
       modify (fun s => set_input (wr (cbuf s) (ce s mod INPUT_BUF_SIZE) (u8 c)) (cr s) (cw s) (u32 (ce s + 1)) s) ;;;
       let! s := get (fun s => s) in
       when ((c =? newline) || (c =? ctrl_D) || (u32 (ce s - cr s) =? INPUT_BUF_SIZE))%bool then
         modify (fun s => set_input (cbuf s) (cr s) (ce s) (ce s) s) ;;;
         wakeup CConsRead) ;;;
  lock_release LCons.

(** while(1) over what was received, then the transmitter *)
Fixpoint uartintr_loop (fuel : nat) : M cst unit :=
  match fuel with
  | O => out_of_fuel
  | S fuel =>
      let! c := uartgetc in
      if c =? -1 then ret tt else consoleintr c ;;; uartintr_loop fuel
  end.

Definition uartintr : M cst unit :=
  let! n := get (fun s => length (rhr s)) in
  uartintr_loop (S n) ;;;
  lock_acquire LUart ;;;
  uartstart ;;;
  lock_release LUart.

(** A read returns, or sleeps with dst and n. *)
Inductive rturn := RDone (r : Z) | RSleep (dst n : Z).

Section console.
Context `{UserCopy}.

(** One byte to or from the caller, kernel or user *)
Definition copyout1 (user_dst : bool) (dst ch : Z) : M cst bool := fun s =>
  if user_dst then let '(m, ok) := user_out (cumem s) dst [ch] in Ret ok (set_cumem m s)
  else Ret true (set_cumem (put_bytes (cumem s) dst [ch]) s).
Definition copyin1 (user_src : bool) (src : Z) : M cst (option Z) := fun s =>
  if user_src then
    let '(bs, ok) := user_in (cumem s) src 1 in Ret (if ok : bool then Some (rd bs 0) else None) s
  else Ret (Some (cumem s src)) s.

(** while(n > 0); every turn takes a byte, returns or sleeps. *)
Fixpoint consoleread_loop (user_dst : bool) (dst n target : Z) (fuel : nat) : M cst rturn :=
  match fuel with
  | O => out_of_fuel
  | S fuel =>
      if 0 <? n then
        let! s := get (fun s => s) in
        if cr s =? cw s then
          if negb (ckilled s =? 0) then lock_release LCons ;;; ret (RDone (-1))
          else lock_release LCons ;;; ret (RSleep dst n)
        else
          let c := rd (cbuf s) (cr s mod INPUT_BUF_SIZE) in
          modify (fun s => set_input (cbuf s) (u32 (cr s + 1)) (cw s) (ce s) s) ;;;
          if c =? ctrl_D then
            (when n <? target then modify (fun s => set_input (cbuf s) (u32 (cr s - 1)) (cw s) (ce s) s)) ;;;
            lock_release LCons ;;;
            ret (RDone (target - n))
          else
            let! ok := copyout1 user_dst dst c in
            if negb ok then lock_release LCons ;;; ret (RDone (target - n))
            else if c =? newline then lock_release LCons ;;; ret (RDone (target - (n - 1)))
            else consoleread_loop user_dst (u64 (dst + 1)) (n - 1) target fuel
      else lock_release LCons ;;; ret (RDone (target - n))
  end.

(** From the start, n = target; a sleeper goes on with the lock taken again. *)
Definition consoleread (user_dst : bool) (dst n target : Z) : M cst rturn :=
  lock_acquire LCons ;;; consoleread_loop user_dst dst n target (S (Z.to_nat n)).

(** A write returns, or sleeps in uartputc with its index and byte. *)
Inductive wturn := WDone (i : Z) | WSleep (i c : Z).

(** for(i = 0; i < n; i++); [pending] is the byte of a write that slept. *)
Fixpoint consolewrite_loop (user_src : bool) (src n i : Z) (pending : option Z) (fuel : nat) : M cst wturn :=
  match fuel with
  | O => out_of_fuel
  | S fuel =>
      if i <? n then
        let! r := match pending with Some c => ret (Some c) | None => copyin1 user_src (u64 (src + i)) end in
        match r with
        | None => ret (WDone i)
        | Some c =>
            let! done := match pending with Some _ => uartputc_resume c | None => uartputc c end in
            if negb done then ret (WSleep i c)
            else consolewrite_loop user_src src n (i + 1) None fuel
        end
      else ret (WDone i)
  end.

Definition consolewrite (user_src : bool) (src n i : Z) (pending : option Z) : M cst wturn :=
  consolewrite_loop user_src src n i pending (S (Z.to_nat (n - i))).
End console.
