(* ===== verification/ConsoleInv.v ===== *)
(** Correctness of the console and the serial line (Console): the input buffer is
    a line editor, and the output buffer a queue. *)

From stdpp Require Import base list.
From S2P Require Import Prelude Memory Spinlock Sleeplock Fs FsFile Console.

(** ** Circular buffers *)

(** The [len] entries from index [lo] of a circular buffer of [N] *)
Definition slots (data : list Z) (N lo len : Z) : list Z := (fun k => rd data ((lo + k) mod N)) <$> seqZ 0 len.

Section slots.
Context (N : Z) (data : list Z).
Hypothesis HN : 0 < N.
Hypothesis Hdata : Z.of_nat (length data) = N.

Lemma length_slots lo len : 0 <= len -> Z.of_nat (length (slots data N lo len)) = len.
Proof. intros. unfold slots. rewrite length_fmap, length_seqZ. lia. Qed.

Lemma slots_snoc lo len : 0 <= len -> slots data N lo (len + 1) = slots data N lo len ++ [rd data ((lo + len) mod N)].
Proof. intros. unfold slots. rewrite seqZ_app, fmap_app by lia. done. Qed.

Lemma slots_mod lo lo' len : lo mod N = lo' mod N -> slots data N lo len = slots data N lo' len.
Proof. intros E. unfold slots. apply list_fmap_ext. intros i k _. by rewrite <- Zplus_mod_idemp_l, E, Zplus_mod_idemp_l. Qed.

Lemma slots_cons lo len : 0 <= len -> slots data N lo (len + 1) = rd data (lo mod N) :: slots data N (lo + 1) len.
Proof.
  intros Hl. unfold slots. rewrite seqZ_cons by lia. simpl. rewrite Z.add_0_r. f_equal. replace (Z.pred (len + 1)) with len by lia.
  rewrite (eq_sym (fmap_add_seqZ 1 0 len) : seqZ (Z.succ 0) len = _), <- list_fmap_compose.
  apply list_fmap_ext. intros i k _. simpl. do 2 f_equal. lia.
Qed.

Lemma index_lt i : 0 <= i mod N < Z.of_nat (length data).
Proof. rewrite Hdata. by apply Z.mod_pos_bound. Qed.

(** A store after the last entry *)
Lemma slots_store lo len hi v : 0 <= len < N -> hi mod N = (lo + len) mod N ->
  slots (wr data (hi mod N) v) N lo (len + 1) = slots data N lo len ++ [v].
Proof.
  intros Hl Hhi. unfold slots. rewrite seqZ_app, fmap_app by lia. f_equal.
  - apply list_fmap_ext. intros i k Hk. apply list_elem_of_lookup_2, elem_of_seqZ in Hk.
    apply rd_wr_other; [by apply Z.mod_pos_bound..|]. rewrite Hhi. intros E.
    pose proof (Z.div_mod (lo + k) N ltac:(lia)). pose proof (Z.div_mod (lo + len) N ltac:(lia)).
    assert (len - k = N * ((lo + len) / N - (lo + k) / N)) by lia.
    assert ((lo + len) / N - (lo + k) / N = 0 \/ 1 <= (lo + len) / N - (lo + k) / N \/ (lo + len) / N - (lo + k) / N <= -1) by lia. nia.
  - simpl. change (Z.of_nat 0 + (0 + len)) with (0 + (0 + len)). rewrite !Z.add_0_l, <- Hhi. f_equal. apply rd_wr_same. apply index_lt.
Qed.
End slots.

Ltac csimpl := cbn [cbuf cr cw ce txbuf txw txr panicked thr lsr rhr cheld cme cwoken cumem ckilled
  set_input set_output set_thr set_lsr set_rhr set_cheld set_cwoken set_cumem held set_held woken set_woken cst_locks cst_thread thread_locks] in *.

(** ** The transmitter *)

(** [q] are the bytes waiting in the buffer. *)
Record uart_ok (s : cst) (q : list Z) : Prop := {
  uo_len : Z.of_nat (length (txbuf s)) = UART_TX_BUF_SIZE;
  uo_r : 0 <= txr s < 2 ^ 64;
  uo_w : txw s = u64 (txr s + Z.of_nat (length q));
  uo_q : slots (txbuf s) UART_TX_BUF_SIZE (txr s) (Z.of_nat (length q)) = q;
  uo_max : Z.of_nat (length q) <= UART_TX_BUF_SIZE }.

Lemma u64_offset r k : 0 <= r < 2 ^ 64 -> 0 <= k <= UART_TX_BUF_SIZE -> u64 (r + k) = r -> k = 0.
Proof.
  unfold UART_TX_BUF_SIZE. intros Hr Hk E. unfold u64 in E. pose proof (Z.div_mod (r + k) (2 ^ 64) ltac:(lia)). lia.
Qed.

Lemma uart_empty s q : uart_ok s q -> txw s = txr s <-> q = [].
Proof.
  intros [L R W Q M]. rewrite W. split.
  - intros E. apply u64_offset in E; [|done|lia]. by apply nil_length_inv; lia.
  - intros ->. simpl. rewrite Z.add_0_r. by apply u64_small.
Qed.

Lemma uart_full s q : uart_ok s q -> txw s = u64 (txr s + UART_TX_BUF_SIZE) <-> Z.of_nat (length q) = UART_TX_BUF_SIZE.
Proof.
  intros [L R W Q M]. rewrite W. split; [|by intros ->]. unfold u64, UART_TX_BUF_SIZE in *. intros E.
  pose proof (Z.div_mod (txr s + Z.of_nat (length q)) (2 ^ 64) ltac:(lia)). pose proof (Z.div_mod (txr s + 32) (2 ^ 64) ltac:(lia)). lia.
Qed.

Lemma mod32_u64 x : u64 x mod UART_TX_BUF_SIZE = x mod UART_TX_BUF_SIZE.
Proof. unfold u64, UART_TX_BUF_SIZE. apply Z.mod_mod_divide. by exists (2 ^ 59). Qed.

(** uart_tx_buf[uart_tx_w % UART_TX_BUF_SIZE] = c; uart_tx_w += 1 *)
Lemma uart_push s q c : uart_ok s q -> Z.of_nat (length q) < UART_TX_BUF_SIZE ->
  uart_ok (set_output (wr (txbuf s) (txw s mod UART_TX_BUF_SIZE) c) (u64 (txw s + 1)) (txr s) s) (q ++ [c]).
Proof.
  intros [L R W Q M] Hl. constructor; csimpl; rewrite ?length_app; cbn [length]; try lia.
  - by rewrite length_wr.
  - rewrite W. unfold u64. rewrite Zplus_mod_idemp_l. f_equal. lia.
  - replace (Z.of_nat (length q + 1)) with (Z.of_nat (length q) + 1) by lia. rewrite slots_store; [by rewrite Q|done|done|lia|].
    by rewrite W, mod32_u64.
Qed.

(** c = uart_tx_buf[uart_tx_r % UART_TX_BUF_SIZE]; uart_tx_r += 1 *)
Lemma uart_pop s c q : uart_ok s (c :: q) ->
  rd (txbuf s) (txr s mod UART_TX_BUF_SIZE) = c /\ uart_ok (set_output (txbuf s) (txw s) (u64 (txr s + 1)) s) q.
Proof.
  intros [L R W Q M]. cbn [length] in *. rewrite Nat2Z.inj_succ in *. rewrite <- Z.add_1_r, slots_cons in Q by (done || lia). injection Q as Qc Q.
  split; [done|]. constructor; csimpl; [done|apply u64_range| | |lia].
  - rewrite W. unfold u64. rewrite Zplus_mod_idemp_l. f_equal. lia.
  - etransitivity; [apply slots_mod, mod32_u64|exact Q].
Qed.

(** What a stretch of uartstart leaves: [sent] went to the device *)
Definition sends (sent : list Z) (s s' : cst) : Prop :=
  exists b w r l wk, s' = set_cwoken wk (set_thr (thr s ++ sent) (set_lsr l (set_output b w r s))) /\
    (sent <> [] -> CUartTx ∈ wk) /\ (forall c, c ∈ cwoken s -> c ∈ wk).

Lemma uartstart_loop_spec fuel : forall s q,
  uart_ok s q -> Forall (fun c => 0 <= c < 256) q -> (length q < fuel)%nat ->
  exists sent q' s', uartstart_loop fuel s = Ret tt s' /\ q = sent ++ q' /\ sends sent s s' /\ uart_ok s' q' /\
    (q' = [] \/ exists l, lsr s = replicate (length sent) true ++ l /\ hd false l = false).
Proof.
  induction fuel as [|fuel IH]; intros s q U Hb Hl; [lia|]. cbn [uartstart_loop]. rewrite bind_get.
  destruct (txw s =? txr s) eqn:E; bool_to_prop.
  { apply (uart_empty s q U) in E as ->. exists [], [], s. split_and!; [done|done| |done|by left].
    exists (txbuf s), (txw s), (txr s), (lsr s), (cwoken s). split_and!; [|done|done]. rewrite app_nil_r. by destruct s. }
  assert (Hne : q <> []) by (intros Hq; by apply E, (uart_empty s q U)).
  destruct q as [|c q]; [done|]. apply Forall_cons in Hb as [Hc Hb]. destruct (uart_pop s c q U) as [Ec U'].
  destruct (lsr s) as [|idle l] eqn:El.
  { rewrite (bind_ret_intro _ _ s false s) by (unfold tx_idle; by rewrite El). exists [], (c :: q), s. split_and!; [done|done| |done|right; by exists []].
    exists (txbuf s), (txw s), (txr s), [], (cwoken s). split_and!; [|done|done]. rewrite app_nil_r, <- El. by destruct s. }
  rewrite (bind_ret_intro _ _ s idle (set_lsr l s)) by (unfold tx_idle; by rewrite El). destruct idle; cbn [negb].
  2: { exists [], (c :: q), (set_lsr l s). split_and!; [done|done| |by destruct U; constructor|right; by exists (false :: l)].
       exists (txbuf s), (txw s), (txr s), l, (cwoken s). split_and!; [|done|done]. rewrite app_nil_r. by destruct s. }
  rewrite Ec. set (s1 := set_thr (thr s ++ [c]) (set_cwoken (CUartTx :: cwoken s) (set_output (txbuf s) (txw s) (u64 (txr s + 1)) (set_lsr l s)))).
  destruct (IH s1 q) as (sent & q' & s' & Es & Eq & (b & w & r & l' & wk & Hs & Hwk & Hold) & Us & Hend); [by destruct U'; constructor|done|simpl in Hl; lia|].
  exists (c :: sent), q', s'. split_and!; [|by rewrite Eq| |done|].
  - rewrite <- Es. unfold bind at 1 2 3, modify, wakeup, write_THR. unfold s1. by rewrite u8_small.
  - exists b, w, r, l', wk. split_and!.
    + rewrite Hs. unfold s1. csimpl. by rewrite <- app_assoc.
    + intros _. apply Hold. unfold s1. left.
    + intros k Hk. apply Hold. unfold s1. by right.
  - destruct Hend as [->|(l2 & El2 & Hl2)]; [by left|right]. exists l2. change (l = replicate (length sent) true ++ l2) in El2. by rewrite El2.
Qed.

Definition bytes (l : list Z) : Prop := Forall (fun c => 0 <= c < 256) l.

Lemma sends_same sent s s' : sends sent s s' ->
  thr s' = thr s ++ sent /\ cheld s' = cheld s /\ cumem s' = cumem s /\ panicked s' = panicked s /\
  cbuf s' = cbuf s /\ cr s' = cr s /\ cw s' = cw s /\ ce s' = ce s.
Proof. intros (b & w & r & l & wk & -> & _). done. Qed.

Lemma uart_ok_held s q h : uart_ok s q -> uart_ok (set_cheld h s) q.
Proof. intros []. by constructor. Qed.

(** uartputc and uartstart, with the lock free *)
Lemma uartputc_spec c s q :
  uart_ok s q -> bytes q -> LUart ∉ cheld s -> panicked s = 0 ->
  if decide (Z.of_nat (length q) = UART_TX_BUF_SIZE) then uartputc c s = Ret false s
  else exists sent q' s', uartputc c s = Ret true s' /\ q ++ [u8 c] = sent ++ q' /\ sends sent s s' /\ uart_ok s' q' /\ bytes q'.
Proof.
  intros U Hb Hh Hp. assert (Hh' : LUart ∉ held s) by exact Hh. destruct (lock_pair LUart s Hh') as [Ha Hrel]. unfold uartputc, uartputc_turn. rewrite (bind_ret_intro _ _ _ _ _ Ha).
  set (s1 := set_held (LUart :: held s) s) in *.
  rewrite (bind_ret_intro _ _ s1 tt s1) by (unfold stop_if_panicked; rewrite bind_get; unfold s1; csimpl; by rewrite Hp). rewrite bind_get.
  change (txw s1) with (txw s). change (txr s1) with (txr s). pose proof (uart_full s q U) as Hf. case_decide as E.
  - rewrite (proj2 (Z.eqb_eq _ _)) by (by apply Hf). by rewrite (bind_ret_intro _ _ _ _ _ Hrel).
  - rewrite (proj2 (Z.eqb_neq _ _)) by (by intros ?%Hf).
    pose proof (uo_max s q U) as Hm. pose proof (uart_push s q (u8 c) U ltac:(lia)) as U1.
    set (s2 := set_output (wr (txbuf s) (txw s mod UART_TX_BUF_SIZE) (u8 c)) (u64 (txw s + 1)) (txr s) s) in *.
    rewrite (bind_ret_intro _ _ s1 tt (set_cheld (LUart :: cheld s) s2)) by done.
    destruct (uartstart_loop_spec (S (Z.to_nat UART_TX_BUF_SIZE)) (set_cheld (LUart :: cheld s) s2) (q ++ [u8 c])) as (sent & q' & s' & Es & Eq & Hs & Us & _).
    + by apply uart_ok_held.
    + apply Forall_app_2; [done|]. constructor; [apply u8_range|constructor].
    + rewrite length_app. unfold UART_TX_BUF_SIZE in *. simpl. lia.
    + unfold uartstart. rewrite (bind_ret_intro _ _ _ _ _ Es). exists sent, q', (set_cheld (cheld s) s').
      assert (Hl : held s' = LUart :: cheld s) by (destruct (sends_same _ _ _ Hs) as (_ & Eh & _); exact Eh).
      rewrite (bind_ret_intro _ _ _ _ _ (lock_release_top LUart s' (cheld s) Hl Hh)).
      split_and!; [done|done| |by apply uart_ok_held|].
      * destruct Hs as (b & w & r & l & wk & -> & Hk). exists b, w, r, l, wk. by split.
      * assert (Hq : bytes (q ++ [u8 c])) by (apply Forall_app_2; [done|]; constructor; [apply u8_range|constructor]).
        rewrite Eq in Hq. by apply Forall_app in Hq as [_ ?].
Qed.

Lemma uartputc_resume_eq c s : LUart ∉ cheld s -> panicked s = 0 -> uartputc_resume c s = uartputc c s.
Proof.
  intros Hh Hp. assert (Hh' : LUart ∉ held s) by exact Hh. destruct (lock_pair LUart s Hh') as [Ha _]. unfold uartputc, uartputc_resume.
  rewrite !(bind_ret_intro _ _ _ _ _ Ha). unfold stop_if_panicked. symmetry. apply (bind_ret_intro _ (fun _ => uartputc_turn c) _ tt). rewrite bind_get.
  change (panicked (set_held (LUart :: held s) s)) with (panicked s). by rewrite Hp.
Qed.

Section write.
Context `{UserCopy}.

(** The byte [j] of a write, [pending] being the byte [i] when it was read before *)
Definition fetch1 (us : bool) (m : mem) (a : Z) : option Z :=
  if us then let '(bs, ok) := user_in m a 1 in (if ok : bool then Some (rd bs 0) else None) else Some (m a).
Definition out_byte (us : bool) (m : mem) (src i : Z) (pending : option Z) (j : Z) : option Z :=
  match pending with Some c => if j =? i then Some c else fetch1 us m (u64 (src + j)) | None => fetch1 us m (u64 (src + j)) end.

Lemma consolewrite_loop_spec us src n fuel : forall i pending s q,
  uart_ok s q -> bytes q -> LUart ∉ cheld s -> panicked s = 0 -> (Z.to_nat (n - i) < fuel)%nat ->
  exists t bs q' s', consolewrite_loop us src n i pending fuel s = Ret t s' /\ thr s' ++ q' = (thr s ++ q) ++ bs /\
    uart_ok s' q' /\ bytes q' /\ cheld s' = cheld s /\ cumem s' = cumem s /\
    (forall k c, bs !! k = Some c -> exists x, out_byte us (cumem s) src i pending (i + Z.of_nat k) = Some x /\ c = u8 x) /\
    match t with
    | WDone i' => i' = i + Z.of_nat (length bs) /\ (n <= i' \/ out_byte us (cumem s) src i pending i' = None)
    | WSleep i' c => i' = i + Z.of_nat (length bs) /\ i' < n /\ Z.of_nat (length q') = UART_TX_BUF_SIZE /\
        out_byte us (cumem s) src i pending i' = Some c
    end.
Proof.
  induction fuel as [|fuel IH]; intros i pending s q U Hb Hh Hp Hf; [lia|]. cbn [consolewrite_loop].
  destruct (i <? n) eqn:Ei; bool_to_prop.
  2: { exists (WDone i), [], q, s. rewrite app_nil_r. split_and!; try done; try (simpl; lia). }
  assert (Er : (match pending with Some c => ret (Some c) | None => copyin1 us (u64 (src + i)) end) s = Ret (out_byte us (cumem s) src i pending i) s).
  { destruct pending; unfold out_byte; [by rewrite Z.eqb_refl|]. unfold copyin1, fetch1. destruct us; [|done]. by destruct (user_in _ _ _) as [? []]. }
  rewrite (bind_ret_intro _ _ _ _ _ Er). destruct (out_byte us (cumem s) src i pending i) as [c|] eqn:Eo.
  2: { exists (WDone i), [], q, s. rewrite app_nil_r. split_and!; try done; try (simpl; lia). by right. }
  assert (Ep' : match pending with Some _ => uartputc_resume c | None => uartputc c end s = uartputc c s) by (destruct pending; [by apply uartputc_resume_eq|done]).
  pose proof (uartputc_spec c s q U Hb Hh Hp) as Hu. rewrite <- Ep' in Hu. case_decide as Hfull.
  { rewrite (bind_ret_intro _ _ _ _ _ Hu). exists (WSleep i c), [], q, s. rewrite app_nil_r. split_and!; try done; simpl; lia. }
  destruct Hu as (sent & q1 & s1 & Eu & Eq & Hs & U1 & B1). rewrite (bind_ret_intro _ _ _ _ _ Eu). cbn [negb].
  destruct (sends_same _ _ _ Hs) as (Et & Eh & Em & Ep & _).
  destruct (IH (i + 1) None s1 q1 U1 B1) as (t & bs & q' & s' & E & Ebs & U' & B' & Eh' & Em' & Hby & Hend); [by rewrite Eh|by rewrite Ep|lia|].
  assert (Hob : forall j, j <> i -> out_byte us (cumem s1) src (i + 1) None j = out_byte us (cumem s) src i pending j).
  { intros j Hj. rewrite Em. unfold out_byte. destruct pending; [by rewrite (proj2 (Z.eqb_neq j i) Hj)|done]. }
  exists t, (u8 c :: bs), q', s'. rewrite Eh', Em'. split_and!; try done.
  - rewrite Ebs, Et. rewrite <- !app_assoc. f_equal. rewrite !app_assoc, <- Eq, <- app_assoc. done.
  - intros [|k] x Hk; [injection Hk as <-; exists c; by rewrite Z.add_0_r|]. destruct (Hby k x Hk) as (y & Hy & ->). exists y. split; [|done].
    rewrite <- Hy, <- Hob by lia. f_equal. lia.
  - destruct t as [i'|i' c']; cbn [length].
    + destruct Hend as [-> He]. split; [lia|]. destruct He as [He|He]; [left; lia|right]. rewrite <- He. symmetry. apply Hob. lia.
    + destruct Hend as (-> & Hlt & Hq & He). split_and!; [lia|lia|done|]. rewrite <- He. symmetry. apply Hob. lia.
Qed.
End write.

(** C31: The serial output buffer is a queue of at most 32 bytes, also when its
    counters wrap around.  uartputc appends its byte, or sleeps when the buffer is
    full; uartstart hands bytes of the front to the device, in order and each once,
    until the buffer is empty or the device is not idle, and wakes the writers that
    wait for space.  So consolewrite, through any number of sleeps, puts on the line
    exactly the bytes copied in, in order, and returns how many it took: all n, or
    those before the first that could not be copied. *)
Theorem uart_transmits_in_order `{UserCopy} s q :
  uart_ok s q -> bytes q -> LUart ∉ cheld s -> panicked s = 0 ->
  (forall c, if decide (Z.of_nat (length q) = UART_TX_BUF_SIZE) then uartputc c s = Ret false s
     else exists sent q' s', uartputc c s = Ret true s' /\ q ++ [u8 c] = sent ++ q' /\ sends sent s s' /\ uart_ok s' q' /\ bytes q') /\
  (exists sent q' s', uartstart s = Ret tt s' /\ q = sent ++ q' /\ sends sent s s' /\ uart_ok s' q' /\
     (q' = [] \/ exists l, lsr s = replicate (length sent) true ++ l /\ hd false l = false)) /\
  (forall us src n i pending, exists t bs q' s',
     consolewrite us src n i pending s = Ret t s' /\ thr s' ++ q' = (thr s ++ q) ++ bs /\
     uart_ok s' q' /\ bytes q' /\ cheld s' = cheld s /\ cumem s' = cumem s /\
     (forall k c, bs !! k = Some c -> exists x, out_byte us (cumem s) src i pending (i + Z.of_nat k) = Some x /\ c = u8 x) /\
     match t with
     | WDone i' => i' = i + Z.of_nat (length bs) /\ (n <= i' \/ out_byte us (cumem s) src i pending i' = None)
     | WSleep i' c => i' = i + Z.of_nat (length bs) /\ i' < n /\ Z.of_nat (length q') = UART_TX_BUF_SIZE /\
         out_byte us (cumem s) src i pending i' = Some c
     end).
Proof.
  intros U Hb Hh Hp. split_and!.
  - intros c. by apply uartputc_spec.
  - apply uartstart_loop_spec; [done|done|]. pose proof (uo_max s q U). unfold UART_TX_BUF_SIZE in *. lia.
  - intros us src n i pending. apply consolewrite_loop_spec; [done..|lia].
Qed.

Definition idle_console (lsr : list bool) : cst :=
  MkCst (replicate 128 0) 0 0 0 (replicate 32 0) 0 0 0 [] lsr [] [] 1 [] (fun a => a mod 256) 0.

Definition copy_flat : UserCopy :=
  {| user_out := fun m a bs => (put_bytes m a bs, true); user_in := fun m a n => (region m a (Z.to_nat n), true) |}.

Lemma idle_uart_ok l : uart_ok (idle_console l) [].
Proof. by constructor. Qed.

(** Three bytes, the device idle for the first two *)
Lemma uart_transmits_in_order_witness :
  exists s', @consolewrite copy_flat true 65 3 0 None (idle_console [true; true; false]) = Ret (WDone 3) s' /\ thr s' = [65; 66].
Proof.
  destruct (@uart_transmits_in_order copy_flat (idle_console [true; true; false]) [] (idle_uart_ok _)) as (_ & _ & Hw).
  - constructor.
  - apply not_elem_of_nil.
  - done.
  - destruct (Hw true 65 3 0 None) as (t & bs & q' & s' & E & _).
    assert (Ec : match @consolewrite copy_flat true 65 3 0 None (idle_console [true; true; false]) with
      Ret (WDone 3) s' => thr s' = [65; 66] | _ => False end) by (vm_compute; reflexivity).
    rewrite E in Ec. destruct t as [i'|]; [|done]. destruct i' as [|[[|p|]|p|]|]; try done. by exists s'.
Defined.

(** ** The line editor *)

(** What the input buffer stands for: [q] the input to read, [l] the line being
    edited *)
Definition commits (c : Z) : bool := ((c =? newline) || (c =? ctrl_D))%bool.
Definition edit (c : Z) (q l : list Z) : list Z * list Z :=
  if c =? ctrl_P then (q, l)
  else if c =? ctrl_U then (q, [])
  else if ((c =? ctrl_H) || (c =? 0x7f))%bool then (q, removelast l)
  else if (negb (c =? 0) && (Z.of_nat (length (q ++ l)) <? INPUT_BUF_SIZE))%bool then
    let c := if c =? return_ then newline else c in
    if (commits c || (Z.of_nat (length (q ++ l)) + 1 =? INPUT_BUF_SIZE))%bool then (q ++ l ++ [c], []) else (q, l ++ [c])
  else (q, l).

Record console_ok (s : cst) (q l : list Z) : Prop := {
  co_len : Z.of_nat (length (cbuf s)) = INPUT_BUF_SIZE;
  co_r : 0 <= cr s < 2 ^ 32;
  co_w : cw s = u32 (cr s + Z.of_nat (length q));
  co_e : ce s = u32 (cr s + Z.of_nat (length (q ++ l)));
  co_q : slots (cbuf s) INPUT_BUF_SIZE (cr s) (Z.of_nat (length (q ++ l))) = q ++ l;
  co_max : Z.of_nat (length (q ++ l)) <= INPUT_BUF_SIZE;
  co_line : Forall (fun c => commits c = false) l;
  co_open : l <> [] -> Z.of_nat (length (q ++ l)) < INPUT_BUF_SIZE }.

Lemma mod128_u32 x : u32 x mod INPUT_BUF_SIZE = x mod INPUT_BUF_SIZE.
Proof. unfold u32, INPUT_BUF_SIZE. apply Z.mod_mod_divide. by exists (2 ^ 25). Qed.

Lemma u32_diff r k k' : 0 <= k <= INPUT_BUF_SIZE -> 0 <= k' <= INPUT_BUF_SIZE -> u32 (r + k) = u32 (r + k') -> k = k'.
Proof.
  unfold INPUT_BUF_SIZE, u32. intros Hk Hk' E. pose proof (Z.div_mod (r + k) (2 ^ 32) ltac:(lia)).
  pose proof (Z.div_mod (r + k') (2 ^ 32) ltac:(lia)). lia.
Qed.

Section input.
Context (s : cst) (q l : list Z).
Hypothesis C : console_ok s q l.

Lemma input_count : u32 (ce s - cr s) = Z.of_nat (length (q ++ l)).
Proof.
  rewrite (co_e _ _ _ C). unfold u32. rewrite Zminus_mod_idemp_l. replace (cr s + _ - cr s) with (Z.of_nat (length (q ++ l))) by lia.
  apply Z.mod_small. pose proof (co_max _ _ _ C). unfold INPUT_BUF_SIZE in *. lia.
Qed.

Lemma line_empty : ce s = cw s <-> l = [].
Proof.
  rewrite (co_e _ _ _ C), (co_w _ _ _ C). pose proof (co_max _ _ _ C) as Hm. rewrite length_app in *. split.
  - intros E. apply u32_diff in E; [|lia|lia]. apply nil_length_inv. lia.
  - intros ->. simpl. do 2 f_equal. lia.
Qed.

Lemma input_empty : cr s = cw s <-> q = [].
Proof.
  rewrite (co_w _ _ _ C). pose proof (co_max _ _ _ C) as Hm. rewrite length_app in Hm. split.
  - intros E. assert (E' : u32 (cr s + 0) = u32 (cr s + Z.of_nat (length q))) by (rewrite Z.add_0_r, u32_small by apply C; done).
    apply u32_diff in E'; [|unfold INPUT_BUF_SIZE; lia|lia]. apply nil_length_inv. lia.
  - intros ->. simpl. rewrite Z.add_0_r, u32_small; [done|apply C].
Qed.
End input.

(** *** Operations on the buffer *)

(** cons.e-- *)
Lemma input_unput s q l c : console_ok s q (l ++ [c]) ->
  console_ok (set_input (cbuf s) (cr s) (cw s) (u32 (ce s - 1)) s) q l /\
  rd (cbuf s) (u32 (ce s - 1) mod INPUT_BUF_SIZE) = c /\ commits c = false.
Proof.
  intros [L R W E Q M N O]. assert (Hn : Z.of_nat (length (q ++ l ++ [c])) = Z.of_nat (length (q ++ l)) + 1).
  { rewrite !length_app. simpl. lia. }
  rewrite Hn in *. rewrite (assoc_L (++)) in Q. rewrite slots_snoc in Q by (done || lia). apply app_inj_tail in Q as [Q Qc].
  apply Forall_app in N as [N Nc]. apply Forall_cons in Nc as [Nc _].
  assert (Ee : u32 (ce s - 1) = u32 (cr s + Z.of_nat (length (q ++ l)))).
  { rewrite E. unfold u32. rewrite Zminus_mod_idemp_l. f_equal. lia. }
  split_and!; [|by rewrite Ee, mod128_u32|done]. constructor; csimpl; try done; [lia|]. intros _. lia.
Qed.

(** cons.buf[cons.e++ % INPUT_BUF_SIZE] = c *)
Definition stored (c : Z) (s : cst) : cst :=
  set_input (wr (cbuf s) (ce s mod INPUT_BUF_SIZE) c) (cr s) (cw s) (u32 (ce s + 1)) s.

Lemma input_store s q l c : console_ok s q l -> Z.of_nat (length (q ++ l)) < INPUT_BUF_SIZE ->
  ce (stored c s) = u32 (cr s + Z.of_nat (length (q ++ l ++ [c]))) /\
  slots (cbuf (stored c s)) INPUT_BUF_SIZE (cr s) (Z.of_nat (length (q ++ l ++ [c]))) = q ++ l ++ [c] /\
  Z.of_nat (length (q ++ l ++ [c])) = Z.of_nat (length (q ++ l)) + 1.
Proof.
  intros [L R W E Q M N O] Hl. assert (Hn : Z.of_nat (length (q ++ l ++ [c])) = Z.of_nat (length (q ++ l)) + 1).
  { rewrite !length_app. simpl. lia. }
  rewrite Hn. unfold stored. csimpl. split_and!; [| |done].
  - rewrite E. unfold u32. rewrite Zplus_mod_idemp_l. f_equal. lia.
  - rewrite slots_store; [by rewrite Q, (assoc_L (++))|done|done|lia|]. by rewrite E, mod128_u32.
Qed.

Lemma input_edit s q l c : console_ok s q l -> Z.of_nat (length (q ++ l)) + 1 < INPUT_BUF_SIZE -> commits c = false ->
  console_ok (stored c s) q (l ++ [c]).
Proof.
  intros C Hl Hc. destruct (input_store s q l c C ltac:(lia)) as (E & Q & Hn). destruct C as [L R W _ _ _ N _].
  constructor; try done; [unfold stored; csimpl; by rewrite length_wr|lia|apply Forall_app_2; [done|by constructor]|lia].
Qed.

(** ... and cons.w = cons.e *)
Lemma input_commit s q l c : console_ok s q l -> Z.of_nat (length (q ++ l)) < INPUT_BUF_SIZE ->
  console_ok (set_input (cbuf (stored c s)) (cr s) (ce (stored c s)) (ce (stored c s)) s) (q ++ l ++ [c]) [].
Proof.
  intros C Hl. destruct (input_store s q l c C ltac:(lia)) as (E & Q & Hn). destruct C as [L R W _ _ _ N _].
  constructor; csimpl; rewrite ?app_nil_r; try done; [unfold stored; csimpl; by rewrite length_wr|lia].
Qed.

(** *** consoleintr *)

Definition erase : list Z := [8; 32; 8].
Definition echo (c : Z) (q l : list Z) : list Z :=
  if c =? ctrl_P then []
  else if c =? ctrl_U then concat (replicate (length l) erase)
  else if ((c =? ctrl_H) || (c =? 0x7f))%bool then (if decide (l = []) then [] else erase)
  else if (negb (c =? 0) && (Z.of_nat (length (q ++ l)) <? INPUT_BUF_SIZE))%bool then [if c =? return_ then newline else c]
  else [].

Lemma uartputc_sync_run c s : panicked s = 0 -> uartputc_sync c s = Ret tt (set_thr (thr s ++ [u8 c]) s).
Proof. intros Hp. unfold uartputc_sync, stop_if_panicked, bind, get. by rewrite Hp. Qed.

Lemma consputc_erase s : panicked s = 0 -> consputc BACKSPACE s = Ret tt (set_thr (thr s ++ erase) s).
Proof.
  intros Hp. unfold consputc. cbn [Z.eqb]. change (BACKSPACE =? BACKSPACE) with true. cbv iota.
  rewrite (bind_ret_intro _ _ _ _ _ (uartputc_sync_run 8 s Hp)).
  rewrite (bind_ret_intro _ _ _ _ _ (uartputc_sync_run 32 (set_thr (thr s ++ [u8 8]) s) Hp)).
  rewrite uartputc_sync_run by done. csimpl. by rewrite <- !app_assoc.
Qed.

Lemma console_ok_thr s q l t : console_ok s q l -> console_ok (set_thr t s) q l.
Proof. intros []. by constructor. Qed.

Lemma kill_line_spec fuel : forall s q l,
  console_ok s q l -> panicked s = 0 -> (length l < fuel)%nat ->
  exists e, kill_line fuel s = Ret tt (set_thr (thr s ++ concat (replicate (length l) erase)) (set_input (cbuf s) (cr s) (cw s) e s)) /\
    console_ok (set_input (cbuf s) (cr s) (cw s) e s) q [].
Proof.
  induction fuel as [|fuel IH]; intros s q l C Hp Hl; [lia|]. cbn [kill_line]. rewrite bind_get. pose proof (line_empty s q l C) as He.
  destruct l as [|c l _] using rev_ind.
  { rewrite (proj2 (Z.eqb_eq _ _)) by (by apply He). cbn [negb andb]. exists (ce s). rewrite app_nil_r. split; by destruct s. }
  destruct (input_unput s q l c C) as (C1 & Ec & Hc). rewrite (proj2 (Z.eqb_neq _ _)) by (intros E; apply He in E; by destruct l).
  rewrite Ec. unfold commits in Hc. apply orb_false_iff in Hc as [Hc _]. rewrite Hc. cbn [negb andb].
  set (s1 := set_input (cbuf s) (cr s) (cw s) (u32 (ce s - 1)) s) in *.
  rewrite (bind_ret_intro _ _ s tt s1), (bind_ret_intro _ _ _ _ _ (consputc_erase s1 Hp)) by done.
  rewrite length_app in *. simpl in Hl. destruct (IH (set_thr (thr s1 ++ erase) s1) q l) as (e & E & C'); [by apply console_ok_thr|done|lia|].
  exists e. split; [|destruct C'; by constructor]. rewrite E. unfold s1, set_thr, set_input. csimpl.
  by rewrite Nat.add_1_r, <- app_assoc.
Qed.

(** consoleintr between acquire and release *)
Definition intr_body (c : Z) : M cst unit :=
  if c =? ctrl_P then ret tt
  else if c =? ctrl_U then kill_line (S (Z.to_nat INPUT_BUF_SIZE))
  else if ((c =? ctrl_H) || (c =? 0x7f))%bool then
    let! s := get (fun s => s) in
    when negb (ce s =? cw s) then
      modify (fun s => set_input (cbuf s) (cr s) (cw s) (u32 (ce s - 1)) s) ;;;
      consputc BACKSPACE
  else
    let! s := get (fun s => s) in
    when (negb (c =? 0) && (u32 (ce s - cr s) <? INPUT_BUF_SIZE))%bool then
      let c := if c =? return_ then newline else c in
      consputc c ;;;
      modify (stored (u8 c)) ;;;
      let! s := get (fun s => s) in
      when ((c =? newline) || (c =? ctrl_D) || (u32 (ce s - cr s) =? INPUT_BUF_SIZE))%bool then
        modify (fun s => set_input (cbuf s) (cr s) (ce s) (ce s) s) ;;;
        wakeup CConsRead.

Lemma consoleintr_eq c s : consoleintr c s = (lock_acquire LCons ;;; intr_body c ;;; lock_release LCons) s.
Proof. reflexivity. Qed.

(** [s'] is [s] with other input fields, output [out], and channels woken. *)
Definition reacts (out : list Z) (s s' : cst) : Prop :=
  exists b r w e wk, s' = set_cwoken wk (set_thr (thr s ++ out) (set_input b r w e s)) /\ forall k, k ∈ cwoken s -> k ∈ wk.

Lemma reacts_same s : reacts [] s s.
Proof. exists (cbuf s), (cr s), (cw s), (ce s), (cwoken s). split; [|done]. rewrite app_nil_r. by destruct s. Qed.

Lemma intr_key c s q l :
  console_ok s q l -> panicked s = 0 -> 0 <= c < 256 -> Z.of_nat (length (q ++ l)) < INPUT_BUF_SIZE ->
  let commit := (commits c || (Z.of_nat (length (q ++ l)) + 1 =? INPUT_BUF_SIZE))%bool in
  exists s', (consputc c ;;; modify (stored (u8 c)) ;;;
      let! s := get (fun s => s) in
      when ((c =? newline) || (c =? ctrl_D) || (u32 (ce s - cr s) =? INPUT_BUF_SIZE))%bool then
        modify (fun s => set_input (cbuf s) (cr s) (ce s) (ce s) s) ;;; wakeup CConsRead) s = Ret tt s' /\
    reacts [c] s s' /\ console_ok s' (if commit then q ++ l ++ [c] else q) (if commit then [] else l ++ [c]) /\
    (commit = true -> CConsRead ∈ cwoken s').
Proof.
  intros C Hp Hc Hl commit.
  assert (Eo : consputc c s = Ret tt (set_thr (thr s ++ [c]) s)).
  { unfold consputc. rewrite (proj2 (Z.eqb_neq c BACKSPACE)) by (unfold BACKSPACE; lia). by rewrite uartputc_sync_run, u8_small. }
  rewrite (bind_ret_intro _ _ _ _ _ Eo). set (s1 := set_thr (thr s ++ [c]) s). assert (C1 : console_ok s1 q l) by (by apply console_ok_thr).
  rewrite (bind_ret_intro _ _ s1 tt (stored c s1)) by (rewrite u8_small by lia; done). rewrite bind_get.
  destruct (input_store s1 q l c C1 Hl) as (E & Q & Hn).
  assert (Ec : u32 (ce (stored c s1) - cr (stored c s1)) = Z.of_nat (length (q ++ l)) + 1).
  { rewrite E, <- Hn. change (cr (stored c s1)) with (cr s1). unfold u32. rewrite Zminus_mod_idemp_l.
    replace (cr s1 + _ - cr s1) with (Z.of_nat (length (q ++ l ++ [c]))) by lia. apply Z.mod_small. unfold INPUT_BUF_SIZE in *. lia. }
  rewrite Ec. fold (commits c). fold commit. destruct commit eqn:Ecm.
  - eexists. split; [reflexivity|]. split_and!; [|destruct (input_commit s1 q l c C1 Hl); by constructor|intros _; left].
    exists (cbuf (stored c s1)), (cr s), (ce (stored c s1)), (ce (stored c s1)), (CConsRead :: cwoken s). split; [done|]. intros k Hk. by right.
  - exists (stored c s1). split; [done|]. split_and!; [| |done].
    + by exists (cbuf (stored c s1)), (cr s), (cw s), (ce (stored c s1)), (cwoken s).
    + unfold commit in Ecm. apply orb_false_iff in Ecm as [Ecm E1]. apply Z.eqb_neq in E1. apply input_edit; [done|lia|done].
Qed.

Lemma intr_body_spec c s q l :
  console_ok s q l -> panicked s = 0 -> 0 <= c < 256 ->
  exists s', intr_body c s = Ret tt s' /\ reacts (echo c q l) s s' /\ console_ok s' (edit c q l).1 (edit c q l).2 /\
    ((edit c q l).1 <> q -> CConsRead ∈ cwoken s').
Proof.
  intros C Hp Hc. unfold intr_body, echo, edit.
  destruct (c =? ctrl_P); [exists s; split_and!; [done|apply reacts_same|done|done]|].
  destruct (c =? ctrl_U).
  { destruct (kill_line_spec (S (Z.to_nat INPUT_BUF_SIZE)) s q l C Hp) as (e & E & C').
    - pose proof (co_max _ _ _ C) as Hm. rewrite length_app in Hm. unfold INPUT_BUF_SIZE in *. lia.
    - eexists. split; [exact E|]. split_and!; [|destruct C'; by constructor|done].
      by exists (cbuf s), (cr s), (cw s), e, (cwoken s). }
  destruct ((c =? ctrl_H) || (c =? 0x7f))%bool.
  { rewrite bind_get. pose proof (line_empty s q l C) as He. case_decide as Hl.
    - rewrite (proj2 (Z.eqb_eq _ _)) by (by apply He). exists s. subst l. split_and!; [done|apply reacts_same|done|done].
    - rewrite (proj2 (Z.eqb_neq _ _)) by (by intros ?%He). cbn [negb]. destruct l as [|b l _] using rev_ind; [done|].
      destruct (input_unput s q l b C) as (C1 & _). rewrite removelast_last. eexists. split.
      + rewrite (bind_ret_intro _ _ s tt (set_input (cbuf s) (cr s) (cw s) (u32 (ce s - 1)) s)) by done. by apply consputc_erase.
      + split_and!; [|by apply console_ok_thr|done]. by exists (cbuf s), (cr s), (cw s), (u32 (ce s - 1)), (cwoken s). }
  rewrite bind_get, (input_count s q l C). destruct (negb (c =? 0) && _)%bool eqn:Et; [|exists s; split_and!; [done|apply reacts_same|done|done]].
  apply andb_true_iff in Et as [_ Hl]. apply Z.ltb_lt in Hl. cbv zeta. set (c' := if c =? return_ then newline else c).
  assert (Hc' : 0 <= c' < 256) by (unfold c'; case_match; [done|lia]).
  destruct (intr_key c' s q l C Hp Hc' Hl) as (s' & E & Hr & C' & Hw). exists s'. split; [exact E|]. split; [done|].
  destruct (commits c' || _)%bool; cbn [Datatypes.fst snd]; (split; [done|]); [by intros _; apply Hw|done].
Qed.

(** *** consoleread *)

(** cons.buf[cons.r++ % INPUT_BUF_SIZE] *)
Lemma input_pop s c q l : console_ok s (c :: q) l ->
  rd (cbuf s) (cr s mod INPUT_BUF_SIZE) = c /\ console_ok (set_input (cbuf s) (u32 (cr s + 1)) (cw s) (ce s) s) q l.
Proof.
  intros [L R W E Q M N O]. change ((c :: q) ++ l) with (c :: q ++ l) in *. cbn [length] in *. rewrite !Nat2Z.inj_succ in *.
  rewrite <- Z.add_1_r, slots_cons in Q by (done || lia). injection Q as Qc Q. split; [done|].
  constructor; csimpl; [done|apply u32_range| | | |lia|done|intros; specialize (O ltac:(done)); lia].
  - rewrite W. unfold u32. rewrite Zplus_mod_idemp_l. f_equal. lia.
  - rewrite E. unfold u32. rewrite Zplus_mod_idemp_l. f_equal. lia.
  - etransitivity; [apply slots_mod, mod128_u32|exact Q].
Qed.

Section read.
Context `{UserCopy}.

Definition copy1 (ud : bool) (m : mem) (dst c : Z) : mem * bool :=
  if ud then user_out m dst [c] else (put_bytes m dst [c], true).

(** A read of at most [n] bytes from the input [q]: what it returns, the input
    left and memory.  Of [target] bytes asked for, [n] are still wanted. *)
Fixpoint reads (ud : bool) (killed target dst : Z) (n : nat) (q : list Z) (m : mem) : rturn * list Z * mem :=
  match n with
  | O => (RDone target, q, m)
  | S n' =>
      match q with
      | [] => (if killed =? 0 then RSleep dst (Z.of_nat n) else RDone (-1), [], m)
      | c :: q' =>
          if c =? ctrl_D then (RDone (target - Z.of_nat n), if Z.of_nat n <? target then q else q', m)
          else
            let '(m', ok) := copy1 ud m dst c in
            if negb ok then (RDone (target - Z.of_nat n), q', m')
            else if c =? newline then (RDone (target - Z.of_nat n'), q', m')
            else reads ud killed target (u64 (dst + 1)) n' q' m'
      end
  end.

(** Only the read index and memory change. *)
Definition consumes (h : list lockid) (m : mem) (s s' : cst) : Prop :=
  exists r, s' = set_cheld h (set_cumem m (set_input (cbuf s) r (cw s) (ce s) s)).

Lemma consumes_same h s : consumes h (cumem s) s (set_cheld h s).
Proof. exists (cr s). by destruct s. Qed.

Lemma console_ok_held s q l h : console_ok s q l -> console_ok (set_cheld h s) q l.
Proof. intros []. by constructor. Qed.
Lemma console_ok_mem s q l m : console_ok s q l -> console_ok (set_cumem m s) q l.
Proof. intros []. by constructor. Qed.

Lemma consoleread_loop_spec ud target h : LCons ∉ h -> forall fuel dst (n : nat) s q l,
  console_ok s q l -> cheld s = LCons :: h -> (n < fuel)%nat ->
  let '(t, q', m') := reads ud (ckilled s) target dst n q (cumem s) in
  exists s', consoleread_loop ud dst (Z.of_nat n) target fuel s = Ret t s' /\ consumes h m' s s' /\ console_ok s' q' l.
Proof.
  intros Hh. induction fuel as [|fuel IH]; intros dst n s q l C Hk Hf; [lia|]. cbn [consoleread_loop].
  assert (Hrel : forall s, cheld s = LCons :: h -> lock_release LCons s = Ret tt (set_cheld h s)).
  { intros s0 H0. exact (lock_release_top LCons s0 h H0 Hh). }
  destruct n as [|n].
  { cbn [reads]. change (0 <? Z.of_nat 0) with false. cbv iota. rewrite (bind_ret_intro _ _ _ _ _ (Hrel s Hk)).
    exists (set_cheld h s). change (Z.of_nat 0) with 0. rewrite Z.sub_0_r. split_and!; [done|apply consumes_same|by apply console_ok_held]. }
  rewrite (proj2 (Z.ltb_lt 0 (Z.of_nat (S n)))) by lia. rewrite bind_get. pose proof (input_empty s q l C) as He. cbn [reads].
  destruct q as [|c q].
  { rewrite (proj2 (Z.eqb_eq (cr s) (cw s))) by (by apply He). exists (set_cheld h s). destruct (ckilled s =? 0) eqn:Ek; cbn [negb];
      rewrite (bind_ret_intro _ _ _ _ _ (Hrel s Hk)); (split_and!; [done|apply consumes_same|by apply console_ok_held]). }
  rewrite (proj2 (Z.eqb_neq (cr s) (cw s))) by (by intros ?%He). destruct (input_pop s c q l C) as [Ec C1]. rewrite Ec.
  set (s1 := set_input (cbuf s) (u32 (cr s + 1)) (cw s) (ce s) s) in *.
  rewrite (bind_ret_intro _ _ s tt s1) by done. destruct (c =? ctrl_D).
  { destruct (Z.of_nat (S n) <? target).
    - rewrite (bind_ret_intro _ _ s1 tt s).
      + rewrite (bind_ret_intro _ _ _ _ _ (Hrel s Hk)). exists (set_cheld h s). split_and!; [done|apply consumes_same|by apply console_ok_held].
      + unfold modify. f_equal. unfold s1. csimpl. replace (u32 (u32 (cr s + 1) - 1)) with (cr s); [by destruct s|].
        unfold u32. rewrite Zminus_mod_idemp_l. replace (cr s + 1 - 1) with (cr s) by lia. symmetry. apply Z.mod_small, (co_r _ _ _ C).
    - rewrite (bind_ret_intro _ _ s1 tt s1), (bind_ret_intro _ _ _ _ _ (Hrel s1 Hk)) by done. exists (set_cheld h s1).
      split_and!; [done|exists (u32 (cr s + 1)); by destruct s|by apply console_ok_held]. }
  assert (Eo : copyout1 ud dst c s1 = let '(m', ok) := copy1 ud (cumem s) dst c in Ret ok (set_cumem m' s1)).
  { unfold copyout1, copy1. destruct ud; [|done]. by destruct (user_out _ _ _). }
  destruct (copy1 ud (cumem s) dst c) as [m' ok]. rewrite (bind_ret_intro _ _ _ _ _ Eo).
  set (s2 := set_cumem m' s1). assert (C2 : console_ok s2 q l) by (by apply console_ok_mem).
  assert (Hdone : consumes h m' s (set_cheld h s2)) by (exists (u32 (cr s + 1)); by destruct s).
  destruct ok; cbn [negb].
  2: { rewrite (bind_ret_intro _ _ _ _ _ (Hrel s2 Hk)). exists (set_cheld h s2). split_and!; [done|done|by apply console_ok_held]. }
  destruct (c =? newline).
  { rewrite (bind_ret_intro _ _ _ _ _ (Hrel s2 Hk)). exists (set_cheld h s2).
    replace (Z.of_nat (S n) - 1) with (Z.of_nat n) by lia. split_and!; [done|done|by apply console_ok_held]. }
  replace (Z.of_nat (S n) - 1) with (Z.of_nat n) by lia.
  pose proof (IH (u64 (dst + 1)) n s2 q l C2 Hk ltac:(lia)) as HI. change (ckilled s2) with (ckilled s) in HI. change (cumem s2) with m' in HI.
  destruct (reads ud (ckilled s) target (u64 (dst + 1)) n q m') as [[t q'] m2]. destruct HI as (s' & E & (r & Es) & C').
  exists s'. split_and!; [done|exists r; rewrite Es; by destruct s|done].
Qed.
End read.

(** *** A line typed is the line read *)

Definition ordinary (c : Z) : Prop := c ∉ [0; ctrl_P; ctrl_U; ctrl_H; 0x7f; return_; newline; ctrl_D].
Definition typed (text : list Z) (ql : list Z * list Z) : list Z * list Z := foldl (fun ql c => edit c ql.1 ql.2) ql text.

Lemma edit_ordinary c q l : ordinary c -> Z.of_nat (length (q ++ l)) + 1 < INPUT_BUF_SIZE -> edit c q l = (q, l ++ [c]).
Proof.
  unfold ordinary. rewrite !not_elem_of_cons. intros (H0 & HP & HU & HH & H7 & HR & HN & HD & _) Hl. unfold edit, commits.
  rewrite (proj2 (Z.eqb_neq c ctrl_P)), (proj2 (Z.eqb_neq c ctrl_U)), (proj2 (Z.eqb_neq c ctrl_H)), (proj2 (Z.eqb_neq c 0x7f)), (proj2 (Z.eqb_neq c 0)) by done.
  rewrite (proj2 (Z.ltb_lt _ _)) by lia. cbn [orb andb negb]. rewrite (proj2 (Z.eqb_neq c return_)), (proj2 (Z.eqb_neq c newline)), (proj2 (Z.eqb_neq c ctrl_D)) by done.
  by rewrite (proj2 (Z.eqb_neq _ _)) by lia.
Qed.

Lemma typed_line text : forall q l, Forall ordinary text -> Z.of_nat (length (q ++ l ++ text)) < INPUT_BUF_SIZE ->
  typed (text ++ [return_]) (q, l) = (q ++ l ++ text ++ [newline], []).
Proof.
  induction text as [|c text IH]; intros q l Ht Hl.
  - rewrite app_nil_r in Hl. unfold typed. simpl. unfold edit. cbn [orb andb negb]. rewrite (proj2 (Z.ltb_lt _ _)) by lia. done.
  - apply Forall_cons in Ht as [Hc Ht]. unfold typed. cbn [app foldl Datatypes.fst snd]. rewrite edit_ordinary; [|done|rewrite !length_app in *; simpl in *; lia].
    fold (typed (text ++ [return_]) (q, l ++ [c])). rewrite IH; [by rewrite <- app_assoc|done|by rewrite <- app_assoc].
Qed.

Lemma reads_line `{UserCopy} killed target text : forall dst n m, Forall ordinary text -> (length text < n)%nat ->
  0 <= dst -> dst + Z.of_nat (length text) + 1 < 2 ^ 64 ->
  exists m', reads false killed target dst n (text ++ [newline]) m = (RDone (target - Z.of_nat n + Z.of_nat (length text) + 1), [], m') /\
    forall x, m' x = put_bytes m dst (text ++ [newline]) x.
Proof.
  induction text as [|c text IH]; intros dst [|n] m Ht Hn Hd Hd2; [simpl in Hn; lia| |simpl in Hn; lia|]; cbn [app reads].
  - eexists. split; [|reflexivity]. cbn. do 3 f_equal. lia.
  - apply Forall_cons in Ht as [Hc Ht]. unfold ordinary in Hc. rewrite !not_elem_of_cons in Hc. destruct Hc as (_ & _ & _ & _ & _ & _ & HN & HD & _).
    rewrite (proj2 (Z.eqb_neq c ctrl_D) HD), (proj2 (Z.eqb_neq c newline) HN). cbn [copy1 negb length] in *.
    destruct (IH (u64 (dst + 1)) n (put_bytes m dst [c]) Ht ltac:(lia)) as (m' & E & Hm); [apply u64_range|rewrite u64_small by lia; lia|].
    exists m'. split; [rewrite E; do 3 f_equal; lia|]. intros x. rewrite Hm, u64_small by lia.
    change (dst + 1) with (dst + Z.of_nat (length [c])). by rewrite put_bytes_app.
Qed.

(** C15: The console's input buffer, also when its indices wrap around, is a line
    editor.  consoleintr does to the input waiting to be read and to the line being
    edited what its key says (kill line, delete, add a character, finish the line at
    newline, end of file or a full buffer; nothing when there is no space), echoes
    exactly that, and wakes the readers when it adds to the input.  consoleread
    takes input from the front: up to n bytes, to the end of a line, or to an end of
    file, which it leaves for the next call when it has bytes to return; it sleeps
    only without input.  An ordinary line, typed and ended with return, is what the
    next reads get, with a newline at its end. *)
Theorem console_is_line_editor `{UserCopy} s q l :
  console_ok s q l -> LCons ∉ cheld s -> panicked s = 0 ->
  (forall c, 0 <= c < 256 -> exists s', consoleintr c s = Ret tt s' /\ console_ok s' (edit c q l).1 (edit c q l).2 /\
     reacts (echo c q l) s s' /\ ((edit c q l).1 <> q -> CConsRead ∈ cwoken s')) /\
  (forall ud dst n target, 0 <= n ->
     let '(t, q', m') := reads ud (ckilled s) target dst (Z.to_nat n) q (cumem s) in
     exists s', consoleread ud dst n target s = Ret t s' /\ consumes (cheld s) m' s s' /\ console_ok s' q' l) /\
  (forall text, Forall ordinary text -> Z.of_nat (length text) < INPUT_BUF_SIZE ->
     typed (text ++ [return_]) ([], []) = (text ++ [newline], []) /\
     forall dst n m, Z.of_nat (length text) < n -> 0 <= dst -> dst + Z.of_nat (length text) + 1 < 2 ^ 64 ->
       exists m', reads false (ckilled s) n dst (Z.to_nat n) (text ++ [newline]) m = (RDone (Z.of_nat (length text) + 1), [], m') /\
         forall x, m' x = put_bytes m dst (text ++ [newline]) x).
Proof.
  intros C Hh Hp. assert (Hh' : LCons ∉ held s) by exact Hh. pose proof (lock_acquire_free LCons s Hh') as Ha. split_and!.
  - intros c Hc. rewrite consoleintr_eq, (bind_ret_intro _ _ _ _ _ Ha). set (s1 := set_held (LCons :: held s) s).
    destruct (intr_body_spec c s1 q l) as (s2 & E & (b & r & w & e & wk & Es & Hk) & C2 & Hw); [by apply console_ok_held|done|done|].
    rewrite (bind_ret_intro _ _ _ _ _ E). assert (Hl : held s2 = LCons :: cheld s) by (by rewrite Es).
    exists (set_cheld (cheld s) s2). split_and!; [exact (lock_release_top LCons s2 (cheld s) Hl Hh)|by apply console_ok_held| |done].
    exists b, r, w, e, wk. split; [by rewrite Es; destruct s|done].
  - intros ud dst n target Hn. unfold consoleread. rewrite (bind_ret_intro _ _ _ _ _ Ha). set (s1 := set_held (LCons :: held s) s).
    pose proof (consoleread_loop_spec ud target (cheld s) Hh (S (Z.to_nat n)) dst (Z.to_nat n) s1 q l) as Hr.
    specialize (Hr ltac:(by apply console_ok_held) eq_refl ltac:(lia)). rewrite Z2Nat.id in Hr by lia.
    change (ckilled s1) with (ckilled s) in Hr. change (cumem s1) with (cumem s) in Hr.
    destruct (reads ud (ckilled s) target dst (Z.to_nat n) q (cumem s)) as [[t q'] m']. destruct Hr as (s' & E & (r & Es) & C').
    exists s'. split_and!; [done|exists r; rewrite Es; by destruct s|done].
  - intros text Ht Hl. split; [by rewrite (typed_line text [] [])|]. intros dst n m Hn Hd Hd2.
    destruct (reads_line (ckilled s) n text dst (Z.to_nat n) m Ht ltac:(lia) Hd Hd2) as (m' & E & Hm). exists m'.
    split; [rewrite E; do 3 f_equal; lia|done].
Qed.

Lemma idle_console_ok l : console_ok (idle_console l) [] [].
Proof. by constructor. Qed.

(** One key typed *)
Lemma console_is_line_editor_witness :
  exists s', consoleintr 97 (idle_console []) = Ret tt s' /\ console_ok s' [] [97].
Proof.
  destruct (@console_is_line_editor copy_flat (idle_console []) [] [] (idle_console_ok [])) as (Hi & _ & _).
  - apply not_elem_of_nil.
  - done.
  - destruct (Hi 97 ltac:(lia)) as (s' & E & C & _). exists s'. split; [exact E|]. exact C.
Defined.
