(* ===== verification/Umalloc.v ===== *)
(** The user memory allocator, [src/xv6-riscv/user/umalloc.c].

    Memory is a sequence of 16-byte units, each of which can be read as a Header;
    addresses count units, so that pointer arithmetic on Header* is addition.  The
    system call sbrk extends the heap by the bytes it is given, or fails, as [grow]
    decides; addresses it returns are multiples of a unit. *)

From stdpp Require Import base list strings.
From S2P Require Import Prelude.

(** The field ptr and the field size of the header at each unit; the global freep;
    the end of the heap *)
Record heap := MkHeap { hptr : Z -> Z; hsize : Z -> Z; freep : Z; brk : Z }.

Definition set_ptr a v h := MkHeap (upd (hptr h) a v) (hsize h) (freep h) (brk h).
Definition set_size a v h := MkHeap (hptr h) (upd (hsize h) a v) (freep h) (brk h).
Definition set_freep v h := MkHeap (hptr h) (hsize h) v (brk h).
Definition set_brk v h := MkHeap (hptr h) (hsize h) (freep h) v.

Section umalloc.
Context (base : Z) (grow : Z -> Z -> bool) (fuel : nat).

(** The kernel's sbrk takes an int. *)
Definition sbrk (n : Z) : M heap Z :=
  let! b := get brk in
  let n := s32 n in
  if grow b n then modify (set_brk (b + n / 16)) ;;; ret b else ret (-1).

(** for(p = freep; !(bp > p && bp < p->s.ptr); p = p->s.ptr)
      if(p >= p->s.ptr && (bp > p || bp < p->s.ptr)) break; *)
Fixpoint free_loop (bp p : Z) (fuel : nat) : M heap Z :=
  match fuel with
  | O => out_of_fuel
  | S fuel =>
      let! next := get (fun h => hptr h p) in
      if ((p <? bp) && (bp <? next))%bool then ret p
      else if ((next <=? p) && ((p <? bp) || (bp <? next)))%bool then ret p
      else free_loop bp next fuel
  end.

Definition free (ap : Z) : M heap unit :=
  let bp := ap - 1 in
  let! p := get freep in
  let! p := free_loop bp p fuel in
  let! h := get (fun h => h) in
  (if bp + hsize h bp =? hptr h p then
     modify (set_size bp (u32 (hsize h bp + hsize h (hptr h p)))) ;;;
     let! h := get (fun h => h) in
     modify (set_ptr bp (hptr h (hptr h p)))
   else modify (set_ptr bp (hptr h p))) ;;;
  let! h := get (fun h => h) in
  (if p + hsize h p =? bp then
     modify (set_size p (u32 (hsize h p + hsize h bp))) ;;;
     let! h := get (fun h => h) in
     modify (set_ptr p (hptr h bp))
   else modify (set_ptr p bp)) ;;;
  modify (set_freep p).

Definition morecore (nu : Z) : M heap Z :=
  let nu := if nu <? 4096 then 4096 else nu in
  let! p := sbrk (nu * 16) in
  if p =? -1 then ret 0
  else
    let hp := p in
    modify (set_size hp nu) ;;;
    free (hp + 1) ;;;
    get freep.

(** for(p = prevp->s.ptr; ; prevp = p, p = p->s.ptr) *)
Fixpoint malloc_loop (nunits prevp p : Z) (fuel : nat) : M heap Z :=
  match fuel with
  | O => out_of_fuel
  | S fuel =>
      let! h := get (fun h => h) in
      if nunits <=? hsize h p then
        let! q :=
          if hsize h p =? nunits then modify (set_ptr prevp (hptr h p)) ;;; ret p
          else
            modify (set_size p (hsize h p - nunits)) ;;;
            let! h := get (fun h => h) in
            let p := p + hsize h p in
            modify (set_size p nunits) ;;; ret p in
        modify (set_freep prevp) ;;;
        ret (q + 1)
      else
        let! r := if p =? freep h then let! p := morecore nunits in ret (if p =? 0 then None else Some p) else ret (Some p) in
        match r with
        | None => ret 0
        | Some p =>
            let! next := get (fun h => hptr h p) in
            malloc_loop nunits p next fuel
        end
  end.

Definition malloc (nbytes : Z) : M heap Z :=
  let nunits := u32 ((nbytes + 16 - 1) / 16 + 1) in
  (let! f := get freep in
   when f =? 0 then
     modify (set_freep base) ;;; modify (set_ptr base base) ;;; modify (set_size base 0)) ;;;
  let! prevp := get freep in
  let! p := get (fun h => hptr h prevp) in
  malloc_loop nunits prevp p (fuel + fuel).
End umalloc.

(** malloc and free on a fresh heap of 5000 units *)
Example malloc_example :
  match malloc 100 (fun _ _ => true) 10 40 (MkHeap (fun _ => 0) (fun _ => 0) 0 1000) with
  | Ret p h => match free 10 p h with Ret _ h' => (p, brk h', hptr h' 100, hsize h' 1000) | _ => (0, 0, 0, 0) end
  | _ => (0, 0, 0, 0)
  end = (5093, 5096, 1000, 4096).
Proof. vm_compute. reflexivity. Qed.
