(* ===== verification/UmallocInv.v ===== *)
(** Correctness of malloc and free (Umalloc): the free list stays a sorted ring of
    disjoint blocks, and free and allocated blocks partition the heap. *)

From stdpp Require Import base list sets strings.
From Stdlib Require Import Sorted.
From S2P Require Import Prelude Umalloc.

(** ** Chains of pointers *)

Fixpoint chain (ptr : Z -> Z) (l : list Z) (e : Z) : Prop :=
  match l with
  | [] => True
  | x :: l => ptr x = hd e l /\ chain ptr l e
  end.

Lemma chain_app ptr l1 l2 e : chain ptr (l1 ++ l2) e <-> chain ptr l1 (hd e l2) /\ chain ptr l2 e.
Proof.
  induction l1 as [|x l1 IH]; simpl; [tauto|]. rewrite IH. destruct l1 as [|y l1]; simpl; tauto.
Qed.

Lemma chain_ext ptr ptr' l e : (forall x, x ∈ l -> ptr' x = ptr x) -> chain ptr l e -> chain ptr' l e.
Proof.
  induction l as [|x l IH]; simpl; [done|]. intros H [H1 H2]. split; [rewrite H; [done|left]|]. apply IH; [|done]. intros y Hy. apply H. by right.
Qed.

Lemma chain_upd ptr l e x v : x ∉ l -> chain ptr l e -> chain (upd ptr x v) l e.
Proof. intros Hx. apply chain_ext. intros y Hy. apply upd_other. by intros ->. Qed.

(** A ring read from another of its nodes *)
Lemma chain_rotate ptr X f Y b : hd f X = b -> chain ptr (X ++ f :: Y) b -> chain ptr (f :: Y ++ X) f.
Proof.
  intros Hb. rewrite chain_app. intros [HX HY]. rewrite (app_comm_cons Y X f), chain_app. by rewrite Hb.
Qed.

(** ** Sorted lists *)

Lemma sorted_app (l1 l2 : list Z) : StronglySorted Z.lt (l1 ++ l2) <->
  StronglySorted Z.lt l1 /\ StronglySorted Z.lt l2 /\ forall x y, x ∈ l1 -> y ∈ l2 -> x < y.
Proof.
  induction l1 as [|a l1 IH]; simpl.
  - split; [intros; split_and!; [constructor|done|]|tauto]. by intros x y ?%elem_of_nil.
  - split.
    + intros Hs. inversion_clear Hs as [|? ? Hs' Hf]. apply IH in Hs' as (H1 & H2 & H3). rewrite Forall_app in Hf. destruct Hf as [F1 F2].
      split_and!; [by constructor|done|]. intros x y [->|Hx]%elem_of_cons Hy; [|by apply H3]. rewrite Forall_forall in F2. by apply F2.
    + intros (H1 & H2 & H3). inversion_clear H1 as [|? ? H1' Hf]. constructor.
      * apply IH. split_and!; [done|done|]. intros x y Hx Hy. apply H3; [by right|done].
      * apply Forall_app. split; [done|]. apply Forall_forall. intros y Hy. apply H3; [left|done].
Qed.

Lemma sorted_NoDup (l : list Z) : StronglySorted Z.lt l -> NoDup l.
Proof.
  induction l as [|x l IH]; intros Hs; [constructor|]. inversion_clear Hs as [|? ? Hs' Hf]. constructor; [|by apply IH].
  intros Hx. rewrite Forall_forall in Hf. specialize (Hf x Hx). lia.
Qed.

(** The place of [b] in a sorted list that starts below it *)
Lemma sorted_split (l : list Z) a b : StronglySorted Z.lt (a :: l) -> a < b -> b ∉ l ->
  exists l1 p l2, a :: l = l1 ++ p :: l2 /\ (forall x, x ∈ l1 -> x < p) /\ p < b /\ (forall x, x ∈ l2 -> b < x).
Proof.
  revert a. induction l as [|c l IH]; intros a Hs Ha Hb.
  - exists [], a, []. split_and!; [done| |done|]; by intros x ?%elem_of_nil.
  - inversion_clear Hs as [|? ? Hs' Hf]. rewrite not_elem_of_cons in Hb. destruct Hb as [Hne Hb].
    destruct (Z.lt_ge_cases c b) as [Hlt|Hge].
    + destruct (IH c Hs' Hlt Hb) as (l1 & p & l2 & E & H1 & Hp & H2). exists (a :: l1), p, l2. split_and!; [by rewrite E| |done|done].
      intros x [->|Hx]%elem_of_cons; [|by apply H1]. rewrite Forall_forall in Hf. apply Hf. rewrite E. set_solver.
    + exists [], a, (c :: l). split_and!; [done|by intros x ?%elem_of_nil|done|]. intros x [->|Hx]%elem_of_cons; [lia|].
      inversion_clear Hs' as [|? ? _ Hf']. rewrite Forall_forall in Hf'. specialize (Hf' x Hx). lia.
Qed.

(** ** The heap *)

Definition inside (h : heap) (x u : Z) : Prop := x <= u < x + hsize h x.

Section heap.
Context (base : Z).

(** [F]: free blocks; [A]: allocated blocks; [H]: the units obtained from sbrk *)
Record wf (h : heap) (F A : list Z) (H : Z -> Prop) : Prop := {
  wf_base : 0 < base /\ hsize h base = 0;
  wf_chain : chain (hptr h) (base :: F) base;
  wf_freep : freep h ∈ base :: F;
  wf_sorted : StronglySorted Z.lt (base :: F);
  wf_range : forall x, x ∈ F ++ A -> base < x /\ 1 <= hsize h x /\ x + hsize h x <= brk h;
  wf_brk : base < brk h <= 2 ^ 32;
  wf_disj : forall x y, x ∈ F ++ A -> y ∈ F ++ A -> x <> y -> x + hsize h x <= y \/ y + hsize h y <= x;
  wf_nodup : NoDup (F ++ A);
  wf_cover : forall u, H u <-> exists x, x ∈ F ++ A /\ inside h x u }.

(** No free block ends where another starts. *)
Definition coalesced (h : heap) (F : list Z) : Prop := forall x y, x ∈ F -> y ∈ F -> x + hsize h x <> y.

(** Headers and contents of the blocks [K] are kept. *)
Definition keeps (K : list Z) (h h' : heap) : Prop :=
  (forall x, x ∈ K -> hsize h' x = hsize h x) /\
  forall x u, x ∈ K -> x < u < x + hsize h x -> hptr h' u = hptr h u /\ hsize h' u = hsize h u.

(** *** free's search *)

Definition stops (ptr : Z -> Z) (bp p : Z) : bool :=
  ((p <? bp) && (bp <? ptr p) || (ptr p <=? p) && ((p <? bp) || (bp <? ptr p)))%bool.

Lemma free_loop_path h bp R1 : forall p R2 e k, chain (hptr h) (R1 ++ p :: R2) e ->
  (forall x, x ∈ R1 -> stops (hptr h) bp x = false) -> stops (hptr h) bp p = true ->
  free_loop bp (hd p R1) (S (length R1) + k) h = Ret p h.
Proof.
  induction R1 as [|x R1 IH]; intros p R2 e k Hc Hn Hs; cbn [hd length plus free_loop]; rewrite bind_get.
  - unfold stops in Hs. apply orb_true_iff in Hs as [Hs|Hs]; rewrite Hs; [done|]. by case_match.
  - assert (Hx : stops (hptr h) bp x = false) by (apply Hn; left). unfold stops in Hx. apply orb_false_iff in Hx as [H1 H2]. rewrite H1, H2.
    cbn [app chain] in Hc. destruct Hc as [Hx Hc]. assert (E : hptr h x = hd p R1) by (rewrite Hx; by destruct R1). rewrite E.
    apply (IH p R2 e k); [done| |done]. intros y Hy. apply Hn. by right.
Qed.

(** In a sorted ring the search stops exactly at the place of [bp]. *)
Lemma stops_at ptr bp L1 p L2 :
  StronglySorted Z.lt (L1 ++ p :: L2) -> hd p L1 = base -> chain ptr (L1 ++ p :: L2) base -> base < bp ->
  p < bp -> (forall x, x ∈ L2 -> bp < x) -> forall x, x ∈ L1 ++ p :: L2 -> stops ptr bp x = bool_decide (x = p).
Proof.
  intros Hs Hb Hc Hbp Hp H2 x Hx. apply sorted_app in Hs as (S1 & S2 & S12).
  assert (Hpb : base <= p) by (destruct L1 as [|b L1]; simpl in Hb; [lia|subst b; apply Z.lt_le_incl, S12; set_solver]).
  apply chain_app in Hc as [C1 [Cp C2]]. cbn [hd] in C1. apply elem_of_app in Hx as [Hx|[->|Hx]%elem_of_cons].
  - (* before p: the next node is below bp *)
    rewrite bool_decide_false by (intros ->; specialize (S12 p p Hx ltac:(left)); lia).
    apply list_elem_of_split in Hx as (X & Y & ->). rewrite chain_app in C1. destruct C1 as [_ [E _]].
    apply sorted_app in S1 as (_ & SY & _). inversion_clear SY as [|? ? _ HY].
    assert (Hn : x < ptr x <= p).
    { rewrite E. destruct Y as [|y Y]; simpl; [split; [apply S12; set_solver|lia]|].
      apply Forall_cons in HY as [HY _]. split; [done|apply Z.lt_le_incl, S12; set_solver]. }
    unfold stops. destruct (Z.ltb_spec bp (ptr x)), (Z.leb_spec (ptr x) x), (Z.ltb_spec x bp); cbn [andb orb]; lia || done.
  - rewrite bool_decide_true by done. unfold stops. rewrite Cp. destruct L2 as [|y L2]; cbn [hd].
    + destruct (Z.ltb_spec p bp), (Z.ltb_spec bp base), (Z.leb_spec base p); cbn [andb orb]; lia || done.
    + assert (bp < y) by (apply H2; left). destruct (Z.ltb_spec p bp), (Z.ltb_spec bp y); cbn [andb orb]; lia || done.
  - specialize (H2 x Hx) as Hbx. rewrite bool_decide_false by lia.
    apply list_elem_of_split in Hx as (X & Y & ->). rewrite chain_app in C2. destruct C2 as [_ [E _]].
    inversion_clear S2 as [|? ? S2' _]. apply sorted_app in S2' as (_ & SY & _). inversion_clear SY as [|? ? _ HY].
    unfold stops. rewrite E. destruct Y as [|y Y]; cbn [hd].
    + destruct (Z.ltb_spec x bp), (Z.ltb_spec bp base), (Z.leb_spec base x); cbn [andb orb]; lia || done.
    + apply Forall_cons in HY as [HY _]. destruct (Z.ltb_spec x bp), (Z.leb_spec y x); cbn [andb orb]; lia || done.
Qed.

(** *** Changes of the ring *)

Lemma wf_ext h h' F A H :
  (forall x, x ∈ base :: F ++ A -> hptr h' x = hptr h x /\ hsize h' x = hsize h x) -> freep h' = freep h -> brk h <= brk h' <= 2 ^ 32 ->
  wf h F A H -> wf h' F A H.
Proof.
  intros Es Ef Eb [B C P S R K D N V]. assert (Es' : forall x, x ∈ F ++ A -> hsize h' x = hsize h x) by (intros x Hx; apply Es; by right).
  constructor; rewrite ?Ef; try done.
  - destruct (Es base ltac:(left)) as [_ ->]. done.
  - eapply chain_ext, C. intros x Hx. apply Es. set_solver.
  - intros x Hx. rewrite Es' by done. specialize (R x Hx). lia.
  - lia.
  - intros x y Hx Hy. rewrite !Es' by done. by apply D.
  - intros u. rewrite V. unfold inside. split; intros (x & Hx & Hu); exists x; (split; [done|]); rewrite Es' in *; done.
Qed.

Lemma wf_same h h' F A H :
  (forall x, hptr h' x = hptr h x) -> (forall x, hsize h' x = hsize h x) -> freep h' = freep h -> brk h' = brk h ->
  wf h F A H -> wf h' F A H.
Proof. intros Ep Es Ef Eb W. apply (wf_ext h); [done|done| |done]. pose proof (wf_brk _ _ _ _ W). lia. Qed.

Lemma wf_set_freep h F A H p : wf h F A H -> p ∈ base :: F -> wf (set_freep p h) F A H.
Proof. intros [] Hp. by constructor. Qed.

(** The same blocks, of which others are free *)
Lemma wf_blocks h h' F A F' A' H :
  wf h F A H -> (forall x, hsize h' x = hsize h x) -> brk h' = brk h -> F' ++ A' ≡ₚ F ++ A ->
  chain (hptr h') (base :: F') base -> freep h' ∈ base :: F' -> StronglySorted Z.lt (base :: F') -> wf h' F' A' H.
Proof.
  intros [B C P S R K D N V] Es Eb HP C' P' S'. constructor; rewrite ?Es, ?Eb; try done.
  - intros x Hx. rewrite Es. apply R. by rewrite <- HP.
  - intros x y Hx Hy. rewrite !Es. apply D; by rewrite <- HP.
  - by rewrite HP.
  - intros u. rewrite V. unfold inside. setoid_rewrite Es. by setoid_rewrite HP.
Qed.

Lemma free_insert h F A A' H L1 p L2 bp :
  wf h F A H -> A ≡ₚ bp :: A' -> base :: F = L1 ++ p :: L2 -> p < bp -> (forall x, x ∈ L2 -> bp < x) -> freep h ∈ L1 ++ p :: L2 ->
  exists F', base :: F' = L1 ++ p :: bp :: L2 /\ F' ≡ₚ bp :: F /\ wf (set_ptr p bp (set_ptr bp (hd base L2) h)) F' A' H.
Proof.
  intros W HA E Hp H2 Hf. pose proof (wf_sorted _ _ _ _ W) as S. pose proof (wf_chain _ _ _ _ W) as C. rewrite E in S, C.
  assert (HF : exists F', base :: F' = L1 ++ p :: bp :: L2 /\ F' ≡ₚ bp :: F).
  { destruct L1 as [|b L1]; injection E as -> ->.
    - exists (bp :: L2). done.
    - exists (L1 ++ p :: bp :: L2). split; [done|]. solve_Permutation. }
  destruct HF as (F' & EF & HP). exists F'. split_and!; [done|done|].
  apply sorted_app in S as (S1 & S2 & S12). inversion_clear S2 as [|? ? S2' HpL].
  assert (Hn : bp ∉ L1 ++ p :: L2).
  { rewrite elem_of_app, elem_of_cons. intros [Hx|[->|Hx]]; [specialize (S12 bp p Hx ltac:(left)); lia|lia|specialize (H2 bp Hx); lia]. }
  rewrite not_elem_of_app, not_elem_of_cons in Hn. destruct Hn as (N1 & N2 & N3).
  apply chain_app in C as [C1 [Cp C2]].
  assert (Hp1 : p ∉ L1) by (intros Hx; specialize (S12 p p Hx ltac:(left)); lia).
  assert (Hp2 : p ∉ L2) by (intros Hx; specialize (H2 p Hx); lia).
  apply (wf_blocks h _ F A); try done.
  - rewrite HP, HA. solve_Permutation.
  - rewrite EF, chain_app. cbn [set_ptr hptr hd]. split_and!; [by do 2 (apply chain_upd; [done|])|].
    cbn [chain hd]. rewrite upd_same, (upd_other _ p _ bp), upd_same by done. split_and!; [done|done|by do 2 (apply chain_upd; [done|])].
  - rewrite EF. cbn [set_ptr freep]. set_solver.
  - rewrite EF. apply sorted_app. split_and!; [done| |].
    + constructor; [constructor; [done|apply Forall_forall; by apply H2]|]. constructor; [done|].
      apply Forall_forall. intros x Hx. specialize (H2 x Hx). lia.
    + intros x y Hx [->|[->|Hy]%elem_of_cons]%elem_of_cons; [apply S12; [done|left]| |apply S12; [done|by right]].
      specialize (S12 x p Hx ltac:(left)). lia.
Qed.

(** Two free blocks that touch become one. *)
Lemma ring_merge h F A H L1 x y L2 :
  wf h F A H -> base :: F = L1 ++ x :: y :: L2 -> x ∈ F -> x + hsize h x = y -> freep h <> y ->
  exists F', base :: F' = L1 ++ x :: L2 /\ F ≡ₚ y :: F' /\
    wf (set_ptr x (hptr h y) (set_size x (u32 (hsize h x + hsize h y)) h)) F' A H.
Proof.
  intros W E Hx Hxy Hf. pose proof (wf_sorted _ _ _ _ W) as S. pose proof (wf_chain _ _ _ _ W) as C. rewrite E in S, C.
  assert (HF : exists F', base :: F' = L1 ++ x :: L2 /\ F ≡ₚ y :: F').
  { destruct L1 as [|b L1]; injection E as -> ->.
    - exfalso. destruct (wf_range _ _ _ _ W x) as [? _]; [set_solver|lia].
    - exists (L1 ++ x :: L2). split; [done|]. solve_Permutation. }
  destruct HF as (F' & EF & HP). exists F'. split_and!; [done|done|]. destruct W as [B _ P _ R K D N V].
  assert (Hy : y ∈ F) by (rewrite HP; left). pose proof (R x ltac:(set_solver)) as Rx. pose proof (R y ltac:(set_solver)) as Ry.
  rewrite u32_small by lia. assert (Hyx : y <> x) by lia. assert (Hsub : forall z, z ∈ F' ++ A -> z ∈ F ++ A /\ z <> y).
  { intros z Hz. split; [rewrite HP; set_solver|]. intros ->. rewrite HP in N. simpl in N. apply NoDup_cons in N as [N _]. done. }
  assert (Hs : forall z, z <> x -> upd (hsize h) x (hsize h x + hsize h y) z = hsize h z) by (intros; by apply upd_other).
  assert (Hx' : x ∈ F') by (rewrite HP in Hx; set_solver).
  constructor; cbn [set_ptr set_size hptr hsize freep brk]; try done.
  - rewrite Hs by lia. done.
  - rewrite EF. apply chain_app in C as [C1 (Cx & Cy & C2)]. apply sorted_app in S as (S1 & S2 & S12). inversion_clear S2 as [|? ? S2' HxL].
    rewrite chain_app. cbn [chain hd]. rewrite upd_same. split_and!; [|done|].
    + apply chain_upd; [|done]. intros Hz. specialize (S12 x x Hz ltac:(left)). lia.
    + apply chain_upd; [|done]. intros Hz. apply Forall_cons in HxL as [_ HxL]. rewrite Forall_forall in HxL. specialize (HxL x Hz). lia.
  - rewrite E in P. rewrite EF. set_solver.
  - rewrite EF. apply sorted_app in S as (S1 & S2 & S12). apply sorted_app. inversion_clear S2 as [|? ? S2' HxL]. inversion_clear S2' as [|? ? S3 _].
    apply Forall_cons in HxL as [_ HxL]. split_and!; [done|by constructor|]. intros a b Ha Hb. apply S12; [done|]. set_solver.
  - intros z Hz. destruct (Hsub z Hz) as [Hz' Hzy]. destruct (decide (z = x)) as [->|Hne]; [rewrite upd_same; lia|rewrite Hs by done; by apply R].
  - assert (Hd : forall z, z ∈ F ++ A -> z <> x -> z <> y -> x + (hsize h x + hsize h y) <= z \/ z + hsize h z <= x).
    { intros z Hz Hzx Hzy. destruct (D x z ltac:(set_solver) Hz ltac:(done)), (D y z ltac:(set_solver) Hz ltac:(done)); pose proof (R z Hz); lia. }
    intros a b Ha Hb Hab. destruct (Hsub a Ha) as [Ha' Hay], (Hsub b Hb) as [Hb' Hby].
    destruct (decide (a = x)) as [->|Hax]; [|destruct (decide (b = x)) as [->|Hbx]].
    + rewrite upd_same, Hs by done. by apply Hd.
    + rewrite upd_same, Hs by done. destruct (Hd a Ha' Hax Hay); lia.
    + rewrite !Hs by done. by apply D.
  - rewrite HP in N. simpl in N. by apply NoDup_cons in N as [_ N].
  - intros u. rewrite V. unfold inside. cbn [set_ptr set_size hsize]. split.
    + intros (z & Hz & Hu). rewrite HP in Hz. apply elem_of_cons in Hz as [->|Hz].
      * exists x. split; [set_solver|]. rewrite upd_same. lia.
      * exists z. split; [done|]. destruct (decide (z = x)) as [->|]; [rewrite upd_same; lia|by rewrite Hs].
    + intros (z & Hz & Hu). destruct (decide (z = x)) as [->|]; [|exists z; rewrite Hs in Hu by done; split; [by apply Hsub|done]].
      rewrite upd_same in Hu. destruct (Z.lt_ge_cases u y); [exists x|exists y]; (split; [set_solver|lia]).
Qed.

(** *** free *)

(** No block starts inside another. *)
Lemma not_inside h F A H x z : wf h F A H -> x ∈ F ++ A -> z ∈ base :: F ++ A -> z <> x -> ~ (x <= z < x + hsize h x).
Proof.
  intros W Hx Hz Hne Hin. pose proof (wf_range _ _ _ _ W x Hx). apply elem_of_cons in Hz as [->|Hz]; [lia|].
  pose proof (wf_range _ _ _ _ W z Hz). destruct (wf_disj _ _ _ _ W x z Hx Hz ltac:(done)); lia.
Qed.

Lemma keeps_cells h h' F A H K (cells : list Z) :
  wf h F A H -> (forall x, x ∈ K -> x ∈ A) -> (forall z, z ∈ cells -> z ∈ base :: F ++ A /\ z ∉ K) ->
  (forall z, z ∉ cells -> hptr h' z = hptr h z /\ hsize h' z = hsize h z) -> keeps K h h'.
Proof.
  intros W HK Hc Hs. split.
  - intros x Hx. apply Hs. intros Hin. by apply Hc in Hin as [_ ?].
  - intros x u Hx Hu. apply Hs. intros Hin. destruct (Hc u Hin) as [Hu' _]. specialize (HK x Hx).
    apply (not_inside h F A H x u W ltac:(set_solver) Hu'); lia.
Qed.

Lemma free_search h F A H bp fuel :
  wf h F A H -> bp ∈ A -> (length F < fuel)%nat ->
  exists L1 p L2, base :: F = L1 ++ p :: L2 /\ p < bp /\ (forall x, x ∈ L2 -> bp < x) /\
    free_loop bp (freep h) fuel h = Ret p h /\ hptr h p = hd base L2.
Proof.
  intros W Hb Hfuel. pose proof (wf_range _ _ _ _ W bp ltac:(set_solver)) as Rb. pose proof (wf_sorted _ _ _ _ W) as So.
  assert (Hbn : bp ∉ F) by (pose proof (wf_nodup _ _ _ _ W) as N; apply NoDup_app in N as (_ & N & _); intros Hx; by apply (N bp)).
  destruct (sorted_split F base bp So ltac:(lia) Hbn) as (L1 & p & L2 & E & H1 & Hp & H2). exists L1, p, L2.
  pose proof (wf_chain _ _ _ _ W) as C. rewrite E in C. split_and!; [done|done|done| |by apply chain_app in C as [_ [C _]]].
  rewrite E in So. assert (Hhd : hd p L1 = base) by (destruct L1; by injection E).
  pose proof (stops_at (hptr h) bp L1 p L2 So Hhd C ltac:(lia) Hp H2) as Hst.
  pose proof (wf_freep _ _ _ _ W) as Hf. rewrite E in Hf. apply list_elem_of_split in Hf as (X & Y & EX).
  assert (Hrot : chain (hptr h) (freep h :: Y ++ X) (freep h)).
  { apply (chain_rotate _ _ _ _ base); [|by rewrite <- EX]. rewrite <- E in EX. destruct X; by injection EX. }
  assert (HPR : freep h :: Y ++ X ≡ₚ L1 ++ p :: L2) by (rewrite EX; solve_Permutation).
  assert (Hpin : p ∈ freep h :: Y ++ X) by (rewrite HPR; set_solver).
  apply list_elem_of_split in Hpin as (R1 & R2 & ER). rewrite ER in Hrot, HPR.
  assert (Hlen : (S (length R1) <= fuel)%nat).
  { apply Permutation_length in HPR. rewrite <- E in HPR. rewrite length_app in HPR. simpl in HPR. lia. }
  replace (freep h) with (hd p R1) at 1 by (destruct R1; by injection ER).
  replace fuel with (S (length R1) + (fuel - S (length R1)))%nat by lia. eapply free_loop_path; [exact Hrot| |].
  - intros x Hx. rewrite Hst by (rewrite <- HPR; set_solver). apply bool_decide_false. intros ->.
    assert (NR : NoDup (R1 ++ p :: R2)) by (rewrite HPR; by apply sorted_NoDup). apply NoDup_app in NR as (_ & NR & _). apply (NR p Hx). left.
  - rewrite Hst by set_solver. by apply bool_decide_true.
Qed.

Section free_facts.
Context (h : heap) (F A A' : list Z) (H : Z -> Prop) (L1 L2 : list Z) (p bp : Z).
Hypothesis W : wf h F A H.
Hypothesis HA : A ≡ₚ bp :: A'.
Hypothesis E : base :: F = L1 ++ p :: L2.
Hypothesis Hp : p < bp.
Hypothesis H2 : forall x, x ∈ L2 -> bp < x.

Lemma free_bp : bp ∈ A.
Proof. rewrite HA. left. Qed.

Lemma free_p : p ∈ base :: F.
Proof. rewrite E. set_solver. Qed.

(** Without a merge on the right, no free block starts where [bp] ends. *)
Lemma free_right z : bp + hsize h bp <> hd base L2 -> z ∈ F -> bp + hsize h bp <> z.
Proof.
  intros Hn Hz Ez. pose proof free_bp as Hb. pose proof (wf_range _ _ _ _ W bp ltac:(apply elem_of_app; by right)) as Rb.
  pose proof (wf_sorted _ _ _ _ W) as S. rewrite E in S. apply sorted_app in S as (S1 & S2 & S12). inversion_clear S2 as [|? ? S2' _].
  assert (Hz2 : z ∈ L2).
  { assert (Hin : z ∈ L1 ++ p :: L2) by (rewrite <- E; by right). apply elem_of_app in Hin as [Hin|[->|Hin]%elem_of_cons]; [|lia|done].
    specialize (S12 z p Hin ltac:(left)). lia. }
  destruct L2 as [|y L2']; [by apply elem_of_nil in Hz2|]. cbn [hd] in Hn. apply elem_of_cons in Hz2 as [->|Hz2]; [done|].
  inversion_clear S2' as [|? ? _ Hy]. rewrite Forall_forall in Hy. specialize (Hy z Hz2).
  assert (HyF : y ∈ F).
  { assert (Hin : y ∈ base :: F) by (rewrite E; set_solver). apply elem_of_cons in Hin as [->|Hin]; [|done].
    specialize (H2 base ltac:(left)). lia. }
  pose proof (H2 y ltac:(left)). destruct (wf_disj _ _ _ _ W bp y ltac:(set_solver) ltac:(set_solver) ltac:(lia)) as [Hd|Hd]; [lia|].
  pose proof (wf_range _ _ _ _ W y ltac:(set_solver)). lia.
Qed.

(** Without a merge on the left, no free block ends where [bp] starts. *)
Lemma free_left x : p + hsize h p <> bp -> x ∈ F -> x + hsize h x <> bp.
Proof.
  intros Hn Hx Ex. pose proof (wf_range _ _ _ _ W x ltac:(set_solver)) as Rx.
  pose proof (wf_sorted _ _ _ _ W) as S. rewrite E in S. apply sorted_app in S as (S1 & S2 & S12).
  assert (Hin : x ∈ L1 ++ p :: L2) by (rewrite <- E; by right). apply elem_of_app in Hin as [Hin|[->|Hin]%elem_of_cons]; [|done|specialize (H2 x Hin); lia].
  specialize (S12 x p Hin ltac:(left)). assert (Hpf : p ∈ F).
  { pose proof free_p as Hpf. apply elem_of_cons in Hpf as [->|Hpf]; [lia|done]. }
  destruct (wf_disj _ _ _ _ W x p ltac:(set_solver) ltac:(set_solver) ltac:(lia)) as [Hd|Hd]; [lia|].
  pose proof (wf_range _ _ _ _ W p ltac:(set_solver)). lia.
Qed.
End free_facts.

(** What free leaves, given the place it found *)
Definition right_merged (bp p : Z) (h : heap) : heap :=
  if bp + hsize h bp =? hptr h p then set_ptr bp (hptr h (hptr h p)) (set_size bp (u32 (hsize h bp + hsize h (hptr h p))) h)
  else set_ptr bp (hptr h p) h.
Definition left_merged (bp p : Z) (h : heap) : heap :=
  if p + hsize h p =? bp then set_ptr p (hptr h bp) (set_size p (u32 (hsize h p + hsize h bp)) h) else set_ptr p bp h.

Lemma free_run fuel bp p h : free_loop bp (freep h) fuel h = Ret p h ->
  free fuel (bp + 1) h = Ret tt (set_freep p (left_merged bp p (right_merged bp p h))).
Proof.
  intros E. unfold free. cbv zeta. replace (bp + 1 - 1) with bp by lia. rewrite bind_get, (bind_ret_intro _ _ _ _ _ E), bind_get.
  rewrite (bind_ret_intro _ _ h tt (right_merged bp p h)) by (unfold right_merged; by case_match). rewrite bind_get.
  rewrite (bind_ret_intro _ _ _ tt (left_merged bp p (right_merged bp p h))) by (unfold left_merged; by case_match). done.
Qed.

Ltac hcells := intros; cbn [set_ptr set_size set_freep hptr hsize freep brk] in *; unfold upd; repeat case_decide; subst; try done; try congruence.

Section free_wf.
Context (h : heap) (F A A' : list Z) (H : Z -> Prop) (L1 L2 : list Z) (p bp : Z).
Hypothesis W : wf h F A H.
Hypothesis HA : A ≡ₚ bp :: A'.
Hypothesis E : base :: F = L1 ++ p :: L2.
Hypothesis Hp : p < bp.
Hypothesis H2 : forall x, x ∈ L2 -> bp < x.
Hypothesis Hnext : hptr h p = hd base L2.

Let hf := set_freep p (left_merged bp p (right_merged bp p h)).

(** The block inserted and merged with its right neighbour *)
Lemma free_right_wf : exists F1, base :: F1 = L1 ++ p :: bp :: (if bp + hsize h bp =? hd base L2 then tail L2 else L2) /\
  (forall z, z ∈ F1 -> z = bp \/ z ∈ F) /\ (length F1 <= S (length F))%nat /\
  wf (set_freep p (set_ptr p bp (right_merged bp p h))) F1 A' H.
Proof.
  pose proof (wf_set_freep h F A H p W ltac:(rewrite E; apply elem_of_app; right; left)) as W0.
  destruct (free_insert (set_freep p h) F A A' H L1 p L2 bp W0 HA E Hp H2) as (F1 & E1 & P1 & W1); [apply elem_of_app; right; left|].
  unfold right_merged. rewrite Hnext. assert (Hpb : p <> bp) by lia. pose proof (wf_range _ _ _ _ W bp ltac:(rewrite HA; set_solver)) as Rb.
  destruct (bp + hsize h bp =? hd base L2) eqn:Et; bool_to_prop.
  - destruct L2 as [|y L2']; cbn [hd tail] in *; [lia|]. assert (Hyb : bp < y) by (apply H2; left).
    destruct (ring_merge _ F1 A' H (L1 ++ [p]) bp y L2' W1) as (F2 & E2 & P2 & W2).
    + by rewrite <- app_assoc.
    + rewrite P1. left.
    + cbn [set_ptr hsize set_freep]. done.
    + cbn [set_ptr set_freep freep]. lia.
    + exists F2. split_and!.
      * by rewrite E2, <- app_assoc.
      * intros z Hz. assert (Hz1 : z ∈ F1) by (rewrite P2; by right). rewrite P1 in Hz1. by apply elem_of_cons in Hz1.
      * apply Permutation_length in P1, P2. simpl in *. lia.
      * eapply wf_same, W2; hcells; f_equal; hcells; lia.
  - exists F1. split_and!; [done|intros z Hz; rewrite P1 in Hz; by apply elem_of_cons in Hz|apply Permutation_length in P1; simpl in P1; lia|].
    eapply wf_same, W1; hcells.
Qed.

Lemma right_bp : hsize h bp <= hsize (right_merged bp p h) bp.
Proof.
  unfold right_merged. destruct (bp + hsize h bp =? hptr h p) eqn:Et; [|done]. cbn [set_ptr set_size hsize]. rewrite upd_same. bool_to_prop.
  pose proof (wf_range _ _ _ _ W bp ltac:(rewrite HA; set_solver)) as Rb. pose proof (wf_brk _ _ _ _ W).
  assert (Hn : hptr h p ∈ F).
  { rewrite Hnext in *. destruct L2 as [|y L2']; cbn [hd] in *; [lia|]. assert (Hin : y ∈ base :: F) by (rewrite E; set_solver).
    apply elem_of_cons in Hin as [->|?]; [specialize (H2 base ltac:(left)); lia|done]. }
  pose proof (wf_range _ _ _ _ W (hptr h p) ltac:(set_solver)). pose proof (wf_base _ _ _ _ W). rewrite u32_small by lia. lia.
Qed.

Lemma free_wf : exists F', wf hf F' A' H /\ (length F' <= S (length F))%nat /\ (forall z, z ∈ F' -> z = bp \/ z ∈ F) /\
  (exists y, y ∈ F' /\ hsize h bp <= hsize hf y) /\
  (p + hsize (right_merged bp p h) p = bp -> bp ∉ F' /\ hsize hf p = hsize (right_merged bp p h) p + hsize (right_merged bp p h) bp).
Proof.
  destruct free_right_wf as (F1 & E1 & HF1 & Hl1 & W1). pose proof right_bp as Hsz. unfold hf. set (hr := right_merged bp p h) in *.
  assert (Hpb : p <> bp) by lia. pose proof (wf_range _ _ _ _ W1) as R1. cbn [set_freep set_ptr hsize brk] in R1.
  pose proof (wf_base _ _ _ _ W1) as [B0 B1]. pose proof (wf_brk _ _ _ _ W1) as Hbr. cbn [set_freep set_ptr hsize brk] in B1, Hbr.
  assert (Hb1 : bp ∈ F1) by (assert (Hin : bp ∈ base :: F1) by (rewrite E1; set_solver); apply elem_of_cons in Hin as [->|?]; [|done];
    pose proof (wf_range _ _ _ _ W base ltac:(rewrite HA; set_solver)); lia).
  assert (Hp1 : p = base \/ p ∈ F1) by (apply elem_of_cons; rewrite E1; set_solver).
  unfold left_merged. clearbody hr. destruct (p + hsize hr p =? bp) eqn:Et; bool_to_prop.
  - set (L2' := if bp + hsize h bp =? hd base L2 then tail L2 else L2) in *. destruct Hp1 as [->|Hp1]; [lia|].
    destruct (ring_merge _ F1 A' H L1 p bp L2' W1 E1 Hp1) as (F2 & E2 & P2 & W2); [done|cbn [set_freep set_ptr freep]; done|].
    pose proof (R1 p ltac:(set_solver)) as Rp. pose proof (R1 bp ltac:(set_solver)) as Rb.
    assert (Hs : hsize (set_freep p (set_ptr p (hptr hr bp) (set_size p (u32 (hsize hr p + hsize hr bp)) hr))) p = hsize hr p + hsize hr bp).
    { cbn [set_freep set_ptr set_size hsize]. rewrite upd_same, u32_small; lia. }
    assert (Hn2 : bp ∉ F2).
    { pose proof (wf_nodup _ _ _ _ W1) as N. apply NoDup_app in N as (N & _). rewrite P2 in N. by apply NoDup_cons in N as [N _]. }
    exists F2. split_and!; [eapply wf_same, W2; hcells; f_equal; hcells|apply Permutation_length in P2; simpl in P2; lia| | |done].
    + intros z Hz. apply HF1. rewrite P2. by right.
    + exists p. split; [rewrite P2 in Hp1; set_solver|lia].
  - exists F1. split_and!; [eapply wf_same, W1; hcells|done|done| |done]. exists bp. done.
Qed.

(** Only the headers of [p] and [bp] change. *)
Lemma free_cells z : z ∉ [p; bp] -> hptr hf z = hptr h z /\ hsize hf z = hsize h z.
Proof.
  rewrite !not_elem_of_cons. intros (H1 & Hb & _). unfold hf, left_merged, right_merged. repeat case_match; cbn [set_freep set_ptr set_size hptr hsize];
    by rewrite !upd_other.
Qed.

(** The freed block, merged with its right neighbour, ends where no free block starts. *)
Lemma right_end z : coalesced h F -> z ∈ F -> bp + hsize (right_merged bp p h) bp <> z.
Proof.
  intros Hc Hz. pose proof right_bp as Hle. unfold right_merged in *. rewrite Hnext in *.
  destruct (bp + hsize h bp =? hd base L2) eqn:Et; bool_to_prop; cbn [set_ptr set_size hsize] in *; [|by apply (free_right h F A A' H L1 L2 p)].
  pose proof (wf_range _ _ _ _ W bp ltac:(rewrite HA; set_solver)) as Rb. pose proof (wf_brk _ _ _ _ W). pose proof (wf_base _ _ _ _ W).
  destruct L2 as [|y L2']; cbn [hd] in *; [lia|].
  assert (Hy : y ∈ F). { assert (Hin : y ∈ base :: F) by (rewrite E; set_solver). apply elem_of_cons in Hin as [->|?]; [lia|done]. }
  pose proof (wf_range _ _ _ _ W y ltac:(set_solver)). rewrite upd_same, u32_small by lia. specialize (Hc y z Hy Hz). lia.
Qed.

Lemma free_coalesced F' : coalesced h F -> (forall z, z ∈ F' -> z = bp \/ z ∈ F) ->
  (p + hsize (right_merged bp p h) p = bp -> bp ∉ F' /\ hsize hf p = hsize (right_merged bp p h) p + hsize (right_merged bp p h) bp) ->
  coalesced hf F'.
Proof.
  intros Hc HF Hm x y Hx Hy. assert (Hpb : p <> bp) by lia. pose proof right_bp as Hle. pose proof (right_end y Hc) as Hre.
  pose proof (wf_range _ _ _ _ W bp ltac:(rewrite HA; set_solver)) as Rb.
  assert (Hsame : forall z, z <> p -> z <> bp -> hsize hf z = hsize h z) by (intros z H0 H1; apply free_cells; set_solver).
  assert (Hrp : hsize (right_merged bp p h) p = hsize h p).
  { unfold right_merged. case_match; cbn [set_ptr set_size hsize]; by rewrite ?upd_other. }
  destruct (decide (p + hsize (right_merged bp p h) p = bp)) as [Hl|Hl].
  - destruct (Hm Hl) as [Hb Hsz]. destruct (HF x Hx) as [->|HxF]; [done|]. destruct (HF y Hy) as [->|HyF]; [done|].
    destruct (decide (x = p)) as [->|Hxp]; [specialize (Hre HyF); lia|]. rewrite Hsame by (done || (intros ->; done)). by apply Hc.
  - assert (Hfp : hsize hf p = hsize h p /\ hsize hf bp = hsize (right_merged bp p h) bp).
    { unfold hf, left_merged. rewrite (proj2 (Z.eqb_neq _ _) Hl). done. }
    destruct Hfp as [Hfp Hfb]. destruct (HF x Hx) as [->|HxF].
    + rewrite Hfb. destruct (HF y Hy) as [->|HyF]; [lia|by apply Hre].
    + destruct (decide (x = bp)) as [->|Hxb]; [rewrite Hfb; destruct (HF y Hy) as [->|HyF]; [lia|by apply Hre]|].
      assert (Hsz : hsize hf x = hsize h x) by (destruct (decide (x = p)) as [->|]; [done|by apply Hsame]). rewrite Hsz.
      destruct (HF y Hy) as [->|HyF]; [|by apply Hc]. apply (free_left h F A A' H L1 L2 p); try done; lia.
Qed.
End free_wf.

(** free gives the block back to the ring, and touches no other block. *)
Lemma free_spec h F A A' H bp fuel :
  wf h F A H -> coalesced h F -> A ≡ₚ bp :: A' -> (length F < fuel)%nat ->
  exists F' h', free fuel (bp + 1) h = Ret tt h' /\ wf h' F' A' H /\ coalesced h' F' /\ keeps A' h h' /\ brk h' = brk h /\
    (length F' <= S (length F))%nat /\ exists y, y ∈ F' /\ hsize h bp <= hsize h' y.
Proof.
  intros W Hc HA Hfuel. destruct (free_search h F A H bp fuel W ltac:(rewrite HA; left) Hfuel) as (L1 & p & L2 & E & Hp & H2 & Hrun & Hnext).
  destruct (free_wf h F A A' H L1 L2 p bp W HA E Hp H2 Hnext) as (F' & W' & Hlen & HF & Hbig & Hm).
  exists F', (set_freep p (left_merged bp p (right_merged bp p h))). split_and!; [by apply free_run|done| | | |done|done].
  - eapply free_coalesced; eauto.
  - apply (keeps_cells h _ F A H A' [p; bp] W); [intros x Hx; rewrite HA; by right| |by intros z; apply free_cells].
    assert (N : NoDup (F ++ A)) by apply W. assert (Hpf : p ∈ base :: F) by (rewrite E; set_solver).
    assert (HbA : bp ∉ A') by (apply NoDup_app in N as (_ & _ & N); rewrite HA in N; by apply NoDup_cons in N as [N _]).
    intros z [->|[->|?%elem_of_nil]%elem_of_cons]%elem_of_cons; [| |done].
    + split; [set_solver|]. intros HpA. assert (HpA' : p ∈ A) by (rewrite HA; by right). apply elem_of_cons in Hpf as [->|Hpf].
      * pose proof (wf_range _ _ _ _ W base ltac:(set_solver)). lia.
      * apply NoDup_app in N as (_ & N & _). by apply (N p).
    + split; [rewrite HA; set_solver|done].
  - unfold left_merged, right_merged. by repeat case_match.
Qed.

(** *** Taking a block out of the ring *)

(** A whole block *)
Lemma take_whole h F A H x p : wf h F A H -> x ∈ base :: F -> hptr h x = p -> p ∈ F -> coalesced h F ->
  let h' := set_freep x (set_ptr x (hptr h p) h) in
  exists F', wf h' F' (p :: A) H /\ (length F' <= length F)%nat /\ coalesced h' F' /\ keeps A h h'.
Proof.
  intros W Hx Hxp Hp Hc h'. pose proof (wf_range _ _ _ _ W p ltac:(set_solver)) as Rp. pose proof (wf_chain _ _ _ _ W) as C. pose proof (wf_sorted _ _ _ _ W) as So.
  assert (N : NoDup (F ++ A)) by apply W. assert (HxA : x ∉ A).
  { intros HxA. apply elem_of_cons in Hx as [->|Hx]; [pose proof (wf_range _ _ _ _ W base ltac:(set_solver)); lia|].
    apply NoDup_app in N as (_ & N & _). by apply (N x). }
  apply list_elem_of_split in Hx as (L1 & Y & E). rewrite E in C, So. apply chain_app in C as [C1 [Cx C2]].
  destruct Y as [|y L2]; cbn [hd] in Cx; [lia|]. assert (y = p) as -> by congruence. destruct C2 as [Cp C2].
  assert (HF : exists F', base :: F' = L1 ++ x :: L2 /\ F ≡ₚ p :: F').
  { destruct L1 as [|b L1]; injection E as -> ->; [by exists L2|]. exists (L1 ++ x :: L2). split; [done|]. solve_Permutation. }
  destruct HF as (F' & EF & HP). apply sorted_app in So as (S1 & S2 & S12). inversion_clear S2 as [|? ? S2' HxL]. inversion_clear S2' as [|? ? S3 HpL].
  apply Forall_cons in HxL as [Hxp' HxL]. exists F'. split_and!.
  - apply (wf_blocks h _ F A); try done.
    + rewrite HP. solve_Permutation.
    + rewrite EF, chain_app. cbn [h' set_freep set_ptr hptr chain hd]. rewrite upd_same. split_and!; [|done|].
      * apply chain_upd; [|done]. intros Hin. specialize (S12 x x Hin ltac:(left)). lia.
      * apply chain_upd; [|done]. intros Hin. rewrite Forall_forall in HxL. specialize (HxL x Hin). lia.
    + cbn [h' set_freep freep]. rewrite EF. set_solver.
    + rewrite EF. apply sorted_app. split_and!; [done|by constructor|]. intros a b Ha Hb. apply S12; [done|]. set_solver.
  - apply Permutation_length in HP. simpl in HP. lia.
  - intros a b Ha Hb. apply Hc; rewrite HP; by right.
  - apply (keeps_cells h _ F A H A [x] W); [done| |].
    + intros z ->%list_elem_of_singleton. split; [|done]. rewrite (app_comm_cons F A base), E. set_solver.
    + intros z Hz. cbn [h' set_freep set_ptr hptr hsize]. rewrite upd_other by set_solver. done.
Qed.

(** The end of a larger block *)
Section take_part.
Context (h : heap) (F A : list Z) (H : Z -> Prop) (x p n : Z).
Hypothesis W : wf h F A H.
Hypothesis Hx : x ∈ base :: F.
Hypothesis Hp : p ∈ F.
Hypothesis Hn : 1 <= n < hsize h p.

Let q := p + (hsize h p - n).
Let h' := set_freep x (set_size q n (set_size p (hsize h p - n) h)).

Lemma part_in : p ∈ F ++ A.
Proof. apply elem_of_app. by left. Qed.

Lemma part_new : q ∉ base :: F ++ A /\ q <> p.
Proof.
  split; [|unfold q; lia]. intros Hin. apply (not_inside h F A H p q W part_in Hin); [|]; unfold q; lia.
Qed.

Lemma part_sizes : hsize h' q = n /\ hsize h' p = hsize h p - n /\
  (forall z, z <> p -> z <> q -> hsize h' z = hsize h z) /\ forall z, z ∈ F ++ A -> z <> p -> hsize h' z = hsize h z.
Proof.
  destruct part_new as [Hqn Hqp]. assert (Hs : forall z, z <> p -> z <> q -> hsize h' z = hsize h z) by (intros; cbn [h' set_freep set_size hsize]; by rewrite !upd_other).
  split_and!; [by cbn [h' set_freep set_size hsize]; rewrite upd_same|by cbn [h' set_freep set_size hsize]; rewrite upd_other, upd_same by done|done|].
  intros z Hz Hzp. apply Hs; [done|]. intros ->. apply Hqn. by right.
Qed.

Lemma part_disj z : z ∈ F ++ A -> z + hsize h' z <= q \/ q + n <= z.
Proof.
  destruct part_sizes as (Hsq & Hsp & Hs & Hsz). intros Hz. destruct (decide (z = p)) as [->|Hzp]; [rewrite Hsp; unfold q; lia|].
  rewrite Hsz by done. destruct (wf_disj _ _ _ _ W p z part_in Hz ltac:(done)); unfold q; lia.
Qed.

Lemma part_wf : wf h' F (q :: A) H.
Proof.
  pose proof part_disj as D'. pose proof part_in as HpFA. destruct part_new as [Hqn Hqp], part_sizes as (Hsq & Hsp & Hs & Hsz). destruct W as [B C P S R K D N V] eqn:EW. clear EW.
  assert (HP : F ++ q :: A ≡ₚ q :: F ++ A) by solve_Permutation. pose proof (R p HpFA) as Rp. constructor; try done.
  - rewrite Hs; [done|intros ->; lia|]. intros ->. apply Hqn. left.
  - intros z. rewrite HP. intros [->|Hz]%elem_of_cons; [rewrite Hsq; cbn [h' set_freep set_size brk]; unfold q; lia|].
    destruct (decide (z = p)) as [->|Hzp]; [rewrite Hsp|rewrite Hsz by done; by apply R]. cbn [h' set_freep set_size brk]. lia.
  - intros a b. rewrite HP. intros [->|Ha]%elem_of_cons [->|Hb]%elem_of_cons Hab; rewrite ?Hsq; [done|destruct (D' b Hb); lia|destruct (D' a Ha); lia|].
    destruct (decide (a = p)) as [->|Hap], (decide (b = p)) as [->|Hbp]; [done| | |]; rewrite ?Hsp, ?Hsz by done.
    + destruct (D p b HpFA Hb ltac:(done)); lia.
    + destruct (D a p Ha HpFA ltac:(done)); lia.
    + by apply D.
  - rewrite HP. constructor; [|done]. intros Hin. apply Hqn. by right.
  - intros u. rewrite V. unfold inside. setoid_rewrite HP. split.
    + intros (z & Hz & Hu). destruct (decide (z = p)) as [->|Hzp]; [|exists z; rewrite Hsz by done; split; [by right|done]].
      destruct (Z.lt_ge_cases u q); [exists p; rewrite Hsp; split; [by right|unfold q in *; lia]|exists q; rewrite Hsq; split; [left|unfold q in *; lia]].
    + intros (z & [->|Hz]%elem_of_cons & Hu); [exists p; rewrite Hsq in Hu; split; [done|unfold q in *; lia]|].
      exists z. split; [done|]. destruct (decide (z = p)) as [->|Hzp]; [rewrite Hsp in Hu; lia|by rewrite Hsz in Hu].
Qed.

Lemma part_coalesced : coalesced h F -> coalesced h' F.
Proof.
  destruct part_new as [Hqn Hqp], part_sizes as (Hsq & Hsp & Hs & Hsz). intros Hc a b Ha Hb. destruct (decide (a = p)) as [->|Hap].
  - rewrite Hsp. intros Hq'. apply Hqn. right. replace q with b by (unfold q; lia). set_solver.
  - rewrite Hsz by set_solver. by apply Hc.
Qed.

Lemma part_keeps : keeps A h h'.
Proof.
  destruct part_new as [Hqn Hqp], part_sizes as (Hsq & Hsp & Hs & Hsz). assert (N : NoDup (F ++ A)) by apply W.
  assert (HA : forall z, z ∈ A -> z ∈ F ++ A /\ z <> p).
  { intros z Hz. split; [set_solver|]. intros ->. apply NoDup_app in N as (_ & N & _). by apply (N p). }
  split.
  - intros z Hz. by apply Hsz; apply HA.
  - intros z u Hz Hu. destruct (HA z Hz) as [Hz' Hzp]. split; [done|]. apply Hs; intros ->.
    + apply (not_inside h F A H z p W Hz'); [right; apply part_in|done|lia].
    + pose proof (part_disj z Hz') as Hd. rewrite Hsz in Hd by done. unfold q in *. lia.
Qed.
End take_part.
End heap.
