(* ===== verification/UmallocSpec.v ===== *)
(** malloc's search (Umalloc) on the ring of UmallocInv, and the contract of malloc
    and free with a program that uses them. *)

From stdpp Require Import base list sets strings.
From S2P Require Import Prelude Umalloc UmallocInv.

(** The last element of [x :: l] *)
Fixpoint end_of (x : Z) (l : list Z) : Z :=
  match l with
  | [] => x
  | y :: l => end_of y l
  end.

Lemma end_of_next (ptr : Z -> Z) R p : forall x, chain ptr (x :: R) p -> ptr (end_of x R) = p.
Proof. induction R as [|y R IH]; intros x [Hx Hc]; [done|]. by apply IH. Qed.

Lemma end_of_in l : forall x, end_of x l ∈ x :: l.
Proof. induction l as [|y l IH]; intros x; [left|]. right. apply IH. Qed.

(** The first element of a list with a property *)
Lemma first_such {A} (P : A -> Prop) `{forall x, Decision (P x)} (l : list A) :
  (exists x, x ∈ l /\ P x) -> exists l1 x l2, l = l1 ++ x :: l2 /\ P x /\ forall y, y ∈ l1 -> ~ P y.
Proof.
  induction l as [|a l IH]; intros (x & Hx & HP); [by apply elem_of_nil in Hx|]. destruct (decide (P a)) as [Ha|Ha].
  - exists [], a, l. split_and!; [done|done|by intros y ?%elem_of_nil].
  - destruct IH as (l1 & y & l2 & -> & Hy & Hn). { exists x. apply elem_of_cons in Hx as [->|Hx]; done. }
    exists (a :: l1), y, l2. split_and!; [done|done|]. intros z [->|Hz]%elem_of_cons; [done|by apply Hn].
Qed.

Section malloc.
Context (base : Z) (grow : Z -> Z -> bool) (fuel : nat).

Lemma malloc_skip h n R : forall x p k, chain (hptr h) R p -> (forall y, y ∈ R -> hsize h y < n /\ y <> freep h) ->
  malloc_loop grow fuel n x (hd p R) (length R + k) h = malloc_loop grow fuel n (end_of x R) p k h.
Proof.
  induction R as [|y R IH]; intros x p k Hc Hs; [done|]. destruct (Hs y ltac:(left)) as [Hy Hf]. destruct Hc as [Hyp Hc].
  cbn [hd length plus malloc_loop]. rewrite bind_get. rewrite (proj2 (Z.leb_gt _ _)), (proj2 (Z.eqb_neq _ _)) by done.
  cbn [bind ret]. rewrite bind_get. rewrite Hyp. rewrite IH; [|done|intros z Hz; apply Hs; by right]. done.
Qed.

(** The result of taking [n] units from block [p], the successor of [x] *)
Definition takes (n x p : Z) (h : heap) : heap :=
  if hsize h p =? n then set_freep x (set_ptr x (hptr h p) h)
  else set_freep x (set_size (p + (hsize h p - n)) n (set_size p (hsize h p - n) h)).

Lemma malloc_take h n x p k : n <= hsize h p ->
  malloc_loop grow fuel n x p (S k) h = Ret (p + (hsize h p - n) + 1) (takes n x p h).
Proof.
  intros Hn. cbn [malloc_loop]. rewrite bind_get. rewrite (proj2 (Z.leb_le _ _)) by done. unfold takes.
  destruct (hsize h p =? n) eqn:E; bool_to_prop.
  - cbn [bind modify ret set_ptr set_freep]. f_equal. lia.
  - unfold bind, get, modify, ret. cbn [set_size hsize set_freep]. rewrite upd_same. f_equal; f_equal; lia.
Qed.

(** What an allocation of [n] units returns: a block of its own, of [n] units *)
Definition allocated (h : heap) (F A : list Z) (H : Z -> Prop) (n : Z) (o : outcome heap Z) : Prop :=
  exists q h' F', o = Ret (q + 1) h' /\ wf base h' F' (q :: A) H /\ coalesced h' F' /\ keeps A h h' /\ hsize h' q = n /\
    brk h' = brk h /\ (length F' <= length F)%nat.

Lemma takes_spec h F A H n x p : wf base h F A H -> coalesced h F -> x ∈ base :: F -> hptr h x = p -> p ∈ F -> 1 <= n <= hsize h p ->
  allocated h F A H n (Ret (p + (hsize h p - n) + 1) (takes n x p h)).
Proof.
  intros W Hc Hx Hxp Hp Hn. unfold takes. destruct (hsize h p =? n) eqn:E; bool_to_prop.
  - destruct (take_whole base h F A H x p W Hx Hxp Hp Hc) as (F' & W' & Hl & Hc' & Hk).
    exists p, (set_freep x (set_ptr x (hptr h p) h)), F'. split_and!; try done. f_equal. lia.
  - exists (p + (hsize h p - n)), (set_freep x (set_size (p + (hsize h p - n)) n (set_size p (hsize h p - n) h))), F.
    assert (Hlt : 1 <= n < hsize h p) by lia. pose proof (part_sizes base h F A H x p n W Hp Hlt) as (Hsq & _).
    split_and!; [done|by eapply part_wf|by eapply part_coalesced|by eapply part_keeps|done|done|done].
Qed.

(** The ring in the order of malloc's search: it ends at freep. *)
Lemma ring_visit h F A H : wf base h F A H -> exists V, V ++ [freep h] ≡ₚ base :: F /\ hptr h (freep h) = hd (freep h) V /\ chain (hptr h) V (freep h) /\
  freep h ∉ V.
Proof.
  intros W. pose proof (wf_freep _ _ _ _ _ W) as Hf. pose proof (wf_chain _ _ _ _ _ W) as C. pose proof (sorted_NoDup _ (wf_sorted _ _ _ _ _ W)) as N.
  apply list_elem_of_split in Hf as (X & Y & E). assert (Hrot : chain (hptr h) (freep h :: Y ++ X) (freep h)).
  { apply (chain_rotate _ _ _ _ base); [|by rewrite <- E]. destruct X; by injection E. }
  destruct Hrot as [H1 H2]. exists (Y ++ X). split_and!; [rewrite E; solve_Permutation|done|done|].
  rewrite E in N. assert (HP : X ++ freep h :: Y ≡ₚ freep h :: Y ++ X) by solve_Permutation. rewrite HP in N. by apply NoDup_cons in N as [N _].
Qed.

(** A block that is large enough is found before the search returns to freep. *)
Lemma malloc_finds h F A H n k : wf base h F A H -> coalesced h F -> 1 <= n -> (exists y, y ∈ F /\ n <= hsize h y) -> (length F < k)%nat ->
  allocated h F A H n (malloc_loop grow fuel n (freep h) (hptr h (freep h)) k h).
Proof.
  intros W Hc Hn (y & Hy & Hbig) Hk. destruct (ring_visit h F A H W) as (V & HP & Hf & CV & HfV). rewrite Hf.
  pose proof (wf_base _ _ _ _ _ W) as [_ B0].
  destruct (first_such (fun y => n <= hsize h y) (V ++ [freep h])) as (R1 & p & R2 & E & Hp & Hs).
  { exists y. split; [|done]. rewrite HP. by right. }
  assert (CV' : chain (hptr h) (V ++ [freep h]) (hptr h (freep h))) by (apply chain_app; by split_and!).
  rewrite E in CV', HP. apply chain_app in CV' as [C1 _]. cbn [hd] in C1.
  assert (HR1 : freep h ∉ R1).
  { intros Hin. destruct R2 as [|z R2 _] using rev_ind.
    - apply app_inj_tail in E as [-> _]. done.
    - rewrite app_comm_cons, app_assoc in E. apply app_inj_tail in E as [-> _]. apply HfV. apply elem_of_app. by left. }
  assert (Hhd : hd (freep h) V = hd p R1) by (destruct V as [|v V], R1 as [|r R1]; cbn [app hd] in *; congruence). rewrite Hhd.
  assert (Hin : p ∈ base :: F) by (rewrite <- HP; set_solver). apply elem_of_cons in Hin as [->|HpF]; [lia|].
  assert (Hk' : (length R1 < k)%nat) by (apply Permutation_length in HP; rewrite length_app in HP; simpl in HP; lia).
  replace k with (length R1 + S (k - length R1 - 1))%nat by lia. rewrite malloc_skip; [|done|].
  - rewrite malloc_take by done. apply takes_spec; try done.
    + assert (Hl := end_of_in R1 (freep h)). apply elem_of_cons in Hl as [->|Hl]; [apply W|]. rewrite <- HP. apply elem_of_app. by left.
    + apply end_of_next. split; [|done]. congruence.
  - intros z Hz. split; [specialize (Hs z Hz); lia|]. by intros ->.
Qed.

(** *** morecore *)

Lemma keeps_trans K K' h1 h2 h3 : (forall x, x ∈ K' -> x ∈ K) -> keeps K h1 h2 -> keeps K' h2 h3 -> keeps K' h1 h3.
Proof.
  intros HK [S1 C1] [S2 C2]. split.
  - intros x Hx. rewrite S2 by done. apply S1. by apply HK.
  - intros x u Hx Hu. destruct (C1 x u (HK x Hx) Hu) as [P1 Z1]. rewrite <- (S1 x) in Hu by (by apply HK).
    destruct (C2 x u Hx Hu) as [P2 Z2]. split; congruence.
Qed.

(** The heap extended by a block at its end *)
Lemma wf_extend h F A H n : wf base h F A H -> 1 <= n -> brk h + n <= 2 ^ 32 ->
  wf base (set_size (brk h) n (set_brk (brk h + n) h)) F (brk h :: A) (fun u => H u \/ brk h <= u < brk h + n).
Proof.
  intros [B C P S R K D N V] Hn Hb. set (b := brk h) in *. set (h' := set_size b n (set_brk (b + n) h)).
  assert (Hb' : hsize h' b = n) by apply upd_same. assert (Hnew : forall z, z ∈ F ++ A -> z <> b) by (intros z Hz ->; specialize (R b Hz); lia).
  assert (Hs : forall z, z ∈ F ++ A -> hsize h' z = hsize h z) by (intros z Hz; apply upd_other; by apply Hnew).
  assert (HP : F ++ b :: A ≡ₚ b :: F ++ A) by solve_Permutation. constructor; try done.
  - cbn [h' set_size set_brk hsize]. rewrite upd_other by lia. done.
  - intros z. rewrite HP. intros [->|Hz]%elem_of_cons; [rewrite Hb'; cbn; lia|]. rewrite Hs by done. specialize (R z Hz). cbn. lia.
  - cbn. lia.
  - intros x y. rewrite HP. intros [->|Hx]%elem_of_cons [->|Hy]%elem_of_cons Hxy; rewrite ?Hb', ?Hs by done; [done| | |by apply D].
    + specialize (R y Hy). lia.
    + specialize (R x Hx). lia.
  - rewrite HP. constructor; [|done]. intros Hin. by apply (Hnew b).
  - intros u. rewrite V. unfold inside. setoid_rewrite HP. split.
    + intros [(x & Hx & Hu)|Hu]; [exists x; rewrite Hs by done; split; [by right|done]|exists b; rewrite Hb'; split; [left|done]].
    + intros (x & [->|Hx]%elem_of_cons & Hu); [right; by rewrite Hb' in Hu|left; exists x; by rewrite Hs in Hu].
Qed.

Definition chunk (n : Z) : Z := if n <? 4096 then 4096 else n.

(** The operating system keeps the heap within the size the headers can express. *)
Hypothesis grow_bound : forall b n, grow b n = true -> b + n / 16 <= 2 ^ 32.

Lemma morecore_spec h F A H n : wf base h F A H -> coalesced h F -> 1 <= n -> n * 16 < 2 ^ 31 -> (length F < fuel)%nat ->
  if grow (brk h) (chunk n * 16) then
    exists F' h', morecore grow fuel n h = Ret (freep h') h' /\ freep h' <> 0 /\
      wf base h' F' A (fun u => H u \/ brk h <= u < brk h + chunk n) /\ coalesced h' F' /\ keeps A h h' /\ brk h' = brk h + chunk n /\
      (length F' <= S (length F))%nat /\ exists y, y ∈ F' /\ n <= hsize h' y
  else morecore grow fuel n h = Ret 0 h.
Proof.
  intros W Hc Hn Hn' Hfuel. assert (Hch : n <= chunk n /\ 4096 <= chunk n /\ chunk n * 16 < 2 ^ 31) by (unfold chunk; case_match; bool_to_prop; lia).
  assert (Hrun : morecore grow fuel n h = if grow (brk h) (chunk n * 16) then
    (modify (set_size (brk h) (chunk n)) ;;; free fuel (brk h + 1) ;;; get freep)%kernel (set_brk (brk h + chunk n) h) else Ret 0 h).
  { unfold morecore. fold (chunk n). unfold sbrk. rewrite s32_small by lia. pose proof (wf_brk _ _ _ _ _ W). pose proof (wf_base _ _ _ _ _ W).
    unfold bind at 1. rewrite bind_get. destruct (grow _ _); [|done]. cbn [bind modify ret]. rewrite (proj2 (Z.eqb_neq _ _)) by lia. by rewrite Z.div_mul by lia. }
  destruct (grow (brk h) (chunk n * 16)) eqn:Eg; [|done]. apply grow_bound in Eg. rewrite Z.div_mul in Eg by lia. rewrite Hrun.
  pose proof (wf_extend h F A H (chunk n) W ltac:(lia) Eg) as W1. set (h1 := set_size (brk h) (chunk n) (set_brk (brk h + chunk n) h)) in *.
  assert (Hsame : forall z, z < brk h -> hsize h1 z = hsize h z) by (intros z Hz; apply upd_other; lia).
  assert (Hlt : forall z, z ∈ F ++ A -> z < brk h) by (intros z Hz; pose proof (wf_range _ _ _ _ _ W z Hz); lia).
  assert (Hc1 : coalesced h1 F) by (intros x y Hx Hy; rewrite Hsame by (apply Hlt; set_solver); by apply Hc).
  destruct (free_spec base h1 F (brk h :: A) A _ (brk h) fuel W1 Hc1 ltac:(done) Hfuel) as (F' & h' & Hf & W' & Hc' & Hk & Hb & Hlen & y & Hy & Hbig).
  exists F', h'. split_and!; try done.
  - unfold bind at 1, modify. fold h1. rewrite (bind_ret_intro _ _ _ _ _ Hf). done.
  - pose proof (wf_freep _ _ _ _ _ W') as Hin. pose proof (wf_base _ _ _ _ _ W'). apply elem_of_cons in Hin as [->|Hin]; [lia|].
    pose proof (wf_range _ _ _ _ _ W' (freep h') ltac:(set_solver)). lia.
  - apply (keeps_trans A A _ h1); [done| |done]. split; [intros x Hx; apply Hsame, Hlt; set_solver|]. intros x u Hx Hu.
    pose proof (wf_range _ _ _ _ _ W x ltac:(set_solver)). split; [done|]. apply Hsame. lia.
  - exists y. split; [done|]. cbn [h1 set_size hsize] in Hbig. rewrite upd_same in Hbig. lia.
Qed.

(** *** malloc *)

Lemma wf_units h F A H H' : (forall u, H u <-> H' u) -> wf base h F A H -> wf base h F A H'.
Proof. intros HH [B C P S R K D N V]. constructor; try done. intros u. by rewrite <- HH, V. Qed.

(** Every node too small: the search asks for more memory, and goes on from there. *)
Lemma malloc_misses h F A H n k : wf base h F A H -> (forall y, y ∈ F -> hsize h y < n) -> 1 <= n ->
  malloc_loop grow fuel n (freep h) (hptr h (freep h)) (length F + S k) h =
  (let! p := morecore grow fuel n in
   if p =? 0 then ret 0 else let! next := get (fun h => hptr h p) in malloc_loop grow fuel n p next k) h.
Proof.
  intros W Hs Hn. destruct (ring_visit h F A H W) as (V & HP & Hf & CV & HfV). pose proof (wf_base _ _ _ _ _ W) as [_ B0].
  assert (Hsmall : forall y, y ∈ V ++ [freep h] -> hsize h y < n).
  { intros y. rewrite HP. intros [->|Hy]%elem_of_cons; [lia|by apply Hs]. }
  assert (Hlen : length F = length V) by (apply Permutation_length in HP; rewrite length_app in HP; simpl in HP; lia).
  rewrite Hf, Hlen, malloc_skip; [|done|intros y Hy; split; [apply Hsmall; set_solver|by intros ->]].
  cbn [malloc_loop]. rewrite bind_get. rewrite (proj2 (Z.leb_gt _ _)) by (apply Hsmall; set_solver). rewrite Z.eqb_refl.
  unfold bind. destruct (morecore grow fuel n h) as [p h'| | |]; [|done|done|done]. unfold ret. by destruct (p =? 0).
Qed.

(** The search of malloc, from a ring that is well formed *)
Definition served (b0 : Z) (h : heap) (F A : list Z) (n : Z) (o : outcome heap Z) : Prop :=
  exists r h' F', o = Ret r h' /\ coalesced h' F' /\ keeps A h h' /\ (length F' <= S (length F))%nat /\
    (r = 0 /\ h' = h /\ F' = F /\ (forall y, y ∈ F -> hsize h y < n) /\ grow (brk h) (chunk n * 16) = false \/
     exists q, r = q + 1 /\ wf base h' F' (q :: A) (fun u => b0 <= u < brk h') /\ hsize h' q = n /\ brk h <= brk h' /\
       (brk h' = brk h \/ forall y, y ∈ F -> hsize h y < n)).

Lemma malloc_search b0 h F A n : wf base h F A (fun u => b0 <= u < brk h) -> b0 <= brk h -> coalesced h F -> 1 <= n -> n * 16 < 2 ^ 31 ->
  (length F + 2 <= fuel)%nat -> served b0 h F A n (malloc_loop grow fuel n (freep h) (hptr h (freep h)) (fuel + fuel) h).
Proof.
  intros W Hb0 Hc Hn Hn' Hfuel. destruct (decide (Exists (fun y => n <= hsize h y) F)) as [Hbig|Hbig]; rewrite Exists_exists in Hbig.
  - destruct (malloc_finds h F A _ n (fuel + fuel) W Hc Hn Hbig ltac:(lia)) as (q & h' & F' & Ho & W' & Hc' & Hk & Hq & Hb & Hl).
    exists (q + 1), h', F'. split_and!; [done|done|done|lia|]. right. exists q. split_and!; [done|by rewrite Hb|done|lia|by left].
  - assert (Hs : forall y, y ∈ F -> hsize h y < n) by (intros y Hy; destruct (Z.lt_ge_cases (hsize h y) n); [done|exfalso; apply Hbig; exists y; split; [done|lia]]).
    replace (fuel + fuel)%nat with (length F + S (fuel + fuel - length F - 1))%nat by lia. rewrite (malloc_misses h F A _ n _ W Hs Hn).
    pose proof (morecore_spec h F A _ n W Hc Hn Hn' ltac:(lia)) as Hm. destruct (grow (brk h) (chunk n * 16)) eqn:Eg.
    + destruct Hm as (F1 & h1 & Hm & H0 & W1 & Hc1 & Hk1 & Hb1 & Hl1 & Hbig1). rewrite (bind_ret_intro _ _ _ _ _ Hm), (proj2 (Z.eqb_neq _ _)) by done. rewrite bind_get.
      destruct (malloc_finds h1 F1 A _ n (fuel + fuel - length F - 1) W1 Hc1 Hn Hbig1 ltac:(lia)) as (q & h' & F' & Ho & W' & Hc' & Hk & Hq & Hb & Hl).
      assert (0 <= chunk n) by (unfold chunk; case_match; bool_to_prop; lia).
      exists (q + 1), h', F'. split_and!; [done|done|by apply (keeps_trans A A _ h1)|lia|]. right. exists q. split_and!; [done| |done|lia|by right].
      eapply wf_units, W'. intros u. cbv beta. rewrite Hb, Hb1. lia.
    + rewrite (bind_ret_intro _ _ _ _ _ Hm). exists 0, h, F. split_and!; [done|done|by split|lia|]. left. done.
Qed.

Definition first_call (h : heap) : heap := set_size base 0 (set_ptr base base (set_freep base h)).

Lemma wf_first h : 0 < base -> base < brk h <= 2 ^ 32 -> wf base (first_call h) [] [] (fun u => brk h <= u < brk h).
Proof.
  intros Hb Hbr. constructor; cbn [first_call set_size set_ptr set_freep hptr hsize freep brk app hd chain]; rewrite ?upd_same; try done.
  - left.
  - constructor; constructor.
  - by intros x ?%elem_of_nil.
  - by intros x y ?%elem_of_nil.
  - constructor.
  - intros u. split; [lia|]. by intros (x & ?%elem_of_nil & _).
Qed.

Definition units (nbytes : Z) : Z := (nbytes + 15) / 16 + 1.

Lemma units_bounds nbytes : 0 <= nbytes < 2 ^ 31 - 31 -> 1 <= units nbytes /\ units nbytes * 16 < 2 ^ 31 /\ u32 ((nbytes + 16 - 1) / 16 + 1) = units nbytes.
Proof.
  intros Hn. unfold units. replace (nbytes + 16 - 1) with (nbytes + 15) by lia. pose proof (Z.div_mod (nbytes + 15) 16). pose proof (Z.mod_pos_bound (nbytes + 15) 16).
  split_and!; [lia|lia|]. apply u32_small. lia.
Qed.

Lemma malloc_ready h nbytes : 0 <= nbytes < 2 ^ 31 - 31 -> freep h <> 0 ->
  malloc base grow fuel nbytes h = malloc_loop grow fuel (units nbytes) (freep h) (hptr h (freep h)) (fuel + fuel) h.
Proof.
  intros Hn Hf. destruct (units_bounds nbytes Hn) as (_ & _ & Hu). unfold malloc. cbv zeta. rewrite Hu. unfold bind, get, ret.
  by rewrite (proj2 (Z.eqb_neq _ _)).
Qed.

Lemma malloc_first h nbytes : 0 < base -> freep h = 0 -> malloc base grow fuel nbytes h = malloc base grow fuel nbytes (first_call h).
Proof.
  intros Hb Hf. unfold malloc. cbv zeta. unfold bind, get, ret, modify. rewrite Hf. cbn [first_call set_size set_ptr set_freep freep].
  rewrite (proj2 (Z.eqb_neq base 0)) by lia. done.
Qed.

(** *** A program that uses malloc and free *)

(** [L]: the pointers the program has from malloc and not yet given to free, with
    the sizes it asked for; [k]: the calls so far; [b0]: the end of the program's own
    memory.  Between calls it writes into its blocks, and nowhere else. *)
Inductive client (b0 : Z) : nat -> heap -> list (Z * Z) -> Prop :=
| client_start h : freep h = 0 -> brk h = b0 -> base < b0 <= 2 ^ 32 -> client b0 0 h []
| client_malloc k h L nbytes r h' : client b0 k h L -> 0 <= nbytes < 2 ^ 31 - 31 -> malloc base grow fuel nbytes h = Ret r h' ->
    client b0 (S k) h' (if r =? 0 then L else (r, nbytes) :: L)
| client_free k h L1 r nbytes L2 h' : client b0 k h (L1 ++ (r, nbytes) :: L2) -> free fuel r h = Ret tt h' -> client b0 (S k) h' (L1 ++ L2)
| client_write k h L r nbytes u v w : client b0 k h L -> (r, nbytes) ∈ L -> r <= u < r + (nbytes + 15) / 16 ->
    client b0 k (set_ptr u v (set_size u w h)) L.

Definition header_of (b : Z * Z) : Z := Datatypes.fst b - 1.

Record ring_ok (b0 : Z) (h : heap) (F : list Z) (L : list (Z * Z)) : Prop := {
  ring_wf : wf base h F (map header_of L) (fun u => b0 <= u < brk h);
  ring_coalesced : coalesced h F;
  ring_brk : b0 <= brk h;
  ring_sizes : forall r nbytes, (r, nbytes) ∈ L -> hsize h (r - 1) = units nbytes }.

Definition heap_ok (b0 : Z) (k : nat) (h : heap) (L : list (Z * Z)) : Prop :=
  freep h = 0 /\ L = [] /\ brk h = b0 /\ base < b0 <= 2 ^ 32 \/ exists F, ring_ok b0 h F L /\ (length F <= k)%nat.

Lemma header_in r nbytes L : (r, nbytes) ∈ L -> r - 1 ∈ map header_of L.
Proof. intros Hin. apply list_elem_of_fmap. by exists (r, nbytes). Qed.

Lemma keeps_sizes h h' F L b0 : ring_ok b0 h F L -> keeps (map header_of L) h h' -> forall r nbytes, (r, nbytes) ∈ L -> hsize h' (r - 1) = units nbytes.
Proof. intros R [Hk _] r nbytes Hin. rewrite Hk by (by eapply header_in). by apply (ring_sizes _ _ _ _ R). Qed.

Hypothesis base_pos : 0 < base.

Lemma ring_freep b0 h F L : ring_ok b0 h F L -> freep h <> 0.
Proof.
  intros R. pose proof (wf_freep _ _ _ _ _ (ring_wf _ _ _ _ R)) as Hin. apply elem_of_cons in Hin as [->|Hin]; [lia|].
  pose proof (wf_range _ _ _ _ _ (ring_wf _ _ _ _ R) (freep h) ltac:(set_solver)). lia.
Qed.

(** malloc from a ring that is well formed: refused, or a block of the size asked for *)
Lemma malloc_ring b0 h F L nbytes : ring_ok b0 h F L -> 0 <= nbytes < 2 ^ 31 - 31 -> (length F + 2 <= fuel)%nat ->
  exists r h' F', malloc base grow fuel nbytes h = Ret r h' /\ keeps (map header_of L) h h' /\ (length F' <= S (length F))%nat /\
    (r = 0 /\ h' = h /\ F' = F /\ grow (brk h) (chunk (units nbytes) * 16) = false /\ (forall y, y ∈ F -> hsize h y < units nbytes) \/
     r <> 0 /\ ring_ok b0 h' F' ((r, nbytes) :: L) /\ (brk h' = brk h \/ forall y, y ∈ F -> hsize h y < units nbytes)).
Proof.
  intros R Hn Hfuel. destruct (units_bounds nbytes Hn) as (Hu1 & Hu2 & _). rewrite malloc_ready by (done || by eapply ring_freep).
  destruct (malloc_search b0 h F _ (units nbytes) (ring_wf _ _ _ _ R) (ring_brk _ _ _ _ R) (ring_coalesced _ _ _ _ R) Hu1 Hu2 Hfuel)
    as (r & h' & F' & Ho & Hc & Hk & Hl & [(-> & -> & -> & Hs & Hg)|(q & -> & W & Hq & Hb & Hs)]).
  - exists 0, h, F. split_and!; [done|done|lia|]. by left.
  - exists (q + 1), h', F'. split_and!; [done|done|done|]. right. pose proof (wf_range _ _ _ _ _ W q ltac:(set_solver)) as Rq. split_and!; [lia| |done].
    assert (Hh : header_of (q + 1, nbytes) = q) by (unfold header_of; simpl; lia). constructor; [by rewrite fmap_cons, Hh|done|pose proof (ring_brk _ _ _ _ R); lia|].
    intros r n [[= -> ->]|Hin]%elem_of_cons; [by replace (q + 1 - 1) with q by lia|by eapply keeps_sizes].
Qed.

Lemma free_ring b0 h F L1 r nbytes L2 : ring_ok b0 h F (L1 ++ (r, nbytes) :: L2) -> (length F < fuel)%nat ->
  exists h' F', free fuel r h = Ret tt h' /\ keeps (map header_of (L1 ++ L2)) h h' /\ (length F' <= S (length F))%nat /\ ring_ok b0 h' F' (L1 ++ L2).
Proof.
  intros R Hfuel. destruct (free_spec base h F _ (map header_of (L1 ++ L2)) _ (r - 1) fuel (ring_wf _ _ _ _ R) (ring_coalesced _ _ _ _ R)) as (F' & h' & Hf & W & Hc & Hk & Hb & Hl & _); [|done|].
  - rewrite !map_app. cbn [map]. solve_Permutation.
  - replace (r - 1 + 1) with r in Hf by lia. exists h', F'. split_and!; [done|done|done|]. constructor; [by rewrite Hb|done|rewrite Hb; exact (ring_brk _ _ _ _ R)|].
    intros r' n Hin. rewrite (proj1 Hk) by (by eapply header_in). apply (ring_sizes _ _ _ _ R). set_solver.
Qed.

(** The memory of a program's block: after its header, up to its end *)
Lemma block_units b0 h F L r nbytes : ring_ok b0 h F L -> (r, nbytes) ∈ L ->
  base < r - 1 /\ hsize h (r - 1) = (nbytes + 15) / 16 + 1 /\ r + (nbytes + 15) / 16 <= brk h.
Proof.
  intros R Hin. pose proof (ring_sizes _ _ _ _ R r nbytes Hin) as Hs. unfold units in Hs.
  pose proof (wf_range _ _ _ _ _ (ring_wf _ _ _ _ R) (r - 1) ltac:(apply elem_of_app; right; by eapply header_in)). lia.
Qed.

(** Writes inside a block do not reach the ring. *)
Lemma write_ring b0 h F L r nbytes u v w : ring_ok b0 h F L -> (r, nbytes) ∈ L -> r <= u < r + (nbytes + 15) / 16 ->
  ring_ok b0 (set_ptr u v (set_size u w h)) F L.
Proof.
  intros R Hin Hu. destruct (block_units b0 h F L r nbytes R Hin) as (Hb & Hs & Hbr). pose proof (ring_wf _ _ _ _ R) as W.
  assert (Hout : forall z, z ∈ base :: F ++ map header_of L -> z <> u).
  { intros z Hz ->. apply (not_inside base h F _ _ (r - 1) u W); [apply elem_of_app; right; by eapply header_in|done|lia|lia]. }
  constructor.
  - apply (wf_ext base h); [|done|pose proof (wf_brk _ _ _ _ _ W); cbn; lia|done].
    intros z Hz. cbn [set_ptr set_size hptr hsize]. by rewrite !upd_other by (by apply Hout).
  - intros x y Hx Hy. cbn [set_ptr set_size hsize]. rewrite upd_other by (apply Hout; set_solver). by apply (ring_coalesced _ _ _ _ R).
  - exact (ring_brk _ _ _ _ R).
  - intros r' n Hin'. cbn [set_ptr set_size hsize]. rewrite upd_other; [by apply (ring_sizes _ _ _ _ R)|]. apply Hout. right. apply elem_of_app. right. by eapply header_in.
Qed.

Lemma first_ring b0 h : freep h = 0 -> brk h = b0 -> base < b0 <= 2 ^ 32 -> ring_ok b0 (first_call h) [] [].
Proof.
  intros Hf <- Hb. constructor; [exact (wf_first h base_pos Hb)|by intros x y ?%elem_of_nil|done|by intros r n ?%elem_of_nil].
Qed.

(** malloc from any state of the allocator *)
Lemma malloc_any b0 k h L nbytes : heap_ok b0 k h L -> 0 <= nbytes < 2 ^ 31 - 31 -> (k + 2 <= fuel)%nat ->
  exists r h' F', malloc base grow fuel nbytes h = Ret r h' /\ keeps (map header_of L) h h' /\ (length F' <= S k)%nat /\
    (r = 0 /\ grow (brk h) (chunk (units nbytes) * 16) = false /\ ring_ok b0 h' F' L \/ r <> 0 /\ ring_ok b0 h' F' ((r, nbytes) :: L)).
Proof.
  intros [(Hf & -> & Hb & Hr)|(F & R & Hl)] Hn Hfuel.
  - rewrite malloc_first by done. pose proof (first_ring b0 h Hf Hb Hr) as R.
    destruct (malloc_ring b0 (first_call h) [] [] nbytes R Hn ltac:(simpl; lia)) as (r & h' & F' & Ho & _ & Hl & Hc).
    exists r, h', F'. split_and!; [done|by split; intros x; [|intros u] ; intros ?%elem_of_nil|simpl in Hl; lia|].
    destruct Hc as [(-> & -> & -> & Hg & _)|(H0 & R' & _)]; [by left|by right].
  - destruct (malloc_ring b0 h F L nbytes R Hn ltac:(lia)) as (r & h' & F' & Ho & Hk & Hl' & Hc). exists r, h', F'. split_and!; [done|done|lia|].
    destruct Hc as [(-> & -> & -> & Hg & _)|(H0 & R' & _)]; [by left|by right].
Qed.

Lemma client_ok b0 k h L : client b0 k h L -> (k + 1 <= fuel)%nat -> heap_ok b0 k h L.
Proof.
  induction 1 as [h Hf Hb Hr|k h L nbytes r h' _ IH Hn Ho|k h L1 r nbytes L2 h' _ IH Ho|k h L r nbytes u v w _ IH Hin Hu]; intros Hfuel.
  - by left.
  - destruct (malloc_any b0 k h L nbytes (IH ltac:(lia)) Hn ltac:(lia)) as (r' & h'' & F' & Ho' & _ & Hl & Hc). rewrite Ho in Ho'. injection Ho' as <- <-.
    right. exists F'. split; [|done]. destruct Hc as [(-> & _ & R)|(H0 & R)]; [done|]. by rewrite (proj2 (Z.eqb_neq _ _)).
  - destruct (IH ltac:(lia)) as [(_ & E & _)|(F & R & Hl)]; [by destruct L1|].
    destruct (free_ring b0 h F L1 r nbytes L2 R ltac:(lia)) as (h'' & F' & Ho' & _ & Hl' & R'). rewrite Ho in Ho'. injection Ho' as <-.
    right. exists F'. split; [done|lia].
  - destruct (IH ltac:(lia)) as [(_ & -> & _)|(F & R & Hl)]; [by apply elem_of_nil in Hin|]. right. exists F. split; [by eapply write_ring|done].
Qed.

(** What the program sees *)
Definition block (b : Z * Z) (u : Z) : Prop := Datatypes.fst b <= u < Datatypes.fst b + (Datatypes.snd b + 15) / 16.
Definition same_content (L : list (Z * Z)) (h h' : heap) : Prop :=
  forall b u, b ∈ L -> block b u -> hptr h' u = hptr h u /\ hsize h' u = hsize h u.
Definition apart (L : list (Z * Z)) : Prop := forall i j b c u, L !! i = Some b -> L !! j = Some c -> block b u -> block c u -> i = j.

Lemma ring_apart b0 h F L : ring_ok b0 h F L -> apart L.
Proof.
  intros R i j [r n] [r' n'] u Hi Hj Hu Hu'. pose proof (ring_wf _ _ _ _ R) as W.
  assert (HiL := list_elem_of_lookup_2 _ _ _ Hi). assert (HjL := list_elem_of_lookup_2 _ _ _ Hj).
  destruct (block_units b0 h F L r n R HiL) as (_ & Hs & _), (block_units b0 h F L r' n' R HjL) as (_ & Hs' & _). unfold block in *. simpl in *.
  destruct (decide (r = r')) as [<-|Hne].
  - pose proof (wf_nodup _ _ _ _ _ W) as N. apply NoDup_app in N as (_ & _ & N). eapply (NoDup_lookup _ i j (r - 1) N);
      rewrite list_lookup_fmap; [by rewrite Hi|by rewrite Hj].
  - destruct (wf_disj _ _ _ _ _ W (r - 1) (r' - 1)); [apply elem_of_app; right; by eapply header_in|apply elem_of_app; right; by eapply header_in|lia|lia|lia].
Qed.

Lemma keeps_content b0 h F L L' h' : ring_ok b0 h F L -> (forall b, b ∈ L' -> b ∈ L) -> keeps (map header_of L') h h' -> same_content L' h h'.
Proof.
  intros R HL [_ Hk] [r n] u Hin Hu. destruct (block_units b0 h F L r n R (HL _ Hin)) as (_ & Hs & _). unfold block in Hu. simpl in Hu.
  apply (Hk (r - 1) u); [by eapply header_in|]. lia.
Qed.

(** C7: malloc and free keep their contract with every program that frees what it
    was given and writes only inside its blocks.  After any such sequence of calls
    the blocks the program holds are apart from each other and lie in the heap; malloc
    returns, and its block is apart from all of them, or it is refused because the
    system does not extend the heap; free returns; neither changes the content of
    any other block; and the free list is an ordered ring whose blocks never touch and
    which, with the blocks of the program, partitions the heap. *)
Theorem malloc_free_correct b0 k h L : client b0 k h L -> (k + 2 <= fuel)%nat ->
  apart L /\ (forall b u, b ∈ L -> block b u -> b0 <= u < brk h) /\
  (forall nbytes, 0 <= nbytes < 2 ^ 31 - 31 -> exists r h', malloc base grow fuel nbytes h = Ret r h' /\ same_content L h h' /\
    (r = 0 /\ grow (brk h) (chunk (units nbytes) * 16) = false \/ r <> 0 /\ apart ((r, nbytes) :: L))) /\
  (forall L1 b L2, L = L1 ++ b :: L2 -> exists h', free fuel (Datatypes.fst b) h = Ret tt h' /\ same_content (L1 ++ L2) h h') /\
  (freep h <> 0 -> exists F, ring_ok b0 h F L).
Proof.
  intros Hcl Hfuel. pose proof (client_ok b0 k h L Hcl ltac:(lia)) as Hok.
  assert (Hring : L <> [] \/ freep h <> 0 -> exists F, ring_ok b0 h F L /\ (length F <= k)%nat) by (destruct Hok as [(? & ? & _)|?]; tauto).
  assert (Hempty : L = [] \/ L <> []) by (destruct L; [by left|by right]).
  split_and!.
  - destruct Hempty as [->|Hne]; [done|]. destruct Hring as (F & R & _); [by left|]. by eapply ring_apart.
  - intros [r n] u Hin Hu. destruct Hring as (F & R & _); [left; by intros ->; apply elem_of_nil in Hin|].
    apply (wf_cover _ _ _ _ _ (ring_wf _ _ _ _ R)). exists (r - 1). split; [apply elem_of_app; right; by eapply header_in|].
    destruct (block_units b0 h F L r n R Hin) as (_ & Hs & _). unfold inside, block in *. simpl in Hu. lia.
  - intros nbytes Hn. destruct (malloc_any b0 k h L nbytes Hok Hn Hfuel) as (r & h' & F' & Ho & Hk & _ & Hc). exists r, h'. split_and!; [done| |].
    + destruct Hempty as [->|Hne]; [by intros b u ?%elem_of_nil|]. destruct Hring as (F & R & _); [by left|]. by eapply keeps_content.
    + destruct Hc as [(-> & Hg & _)|(H0 & R)]; [by left|right]. split; [done|by eapply ring_apart].
  - intros L1 [r n] L2 ->. destruct Hring as (F & R & Hl); [left; by destruct L1|].
    destruct (free_ring b0 h F L1 r n L2 R ltac:(lia)) as (h' & F' & Ho & Hk & _). exists h'. split; [done|]. eapply keeps_content; [done| |done]. set_solver.
  - intros Hf. destruct Hring as (F & R & _); [by right|]. by exists F.
Qed.
End malloc.

(** A program that allocates two blocks, frees the first and fills the second *)
Definition heap_of {A} (o : outcome heap A) (h : heap) : heap := match o with Ret _ h' => h' | _ => h end.
Definition sys_grow (b n : Z) : bool := b + n / 16 <=? 2 ^ 20.
Definition heap0 : heap := MkHeap (fun _ => 0) (fun _ => 0) 0 1000.
Definition heap1 : heap := heap_of (malloc 100 sys_grow 10 40 heap0) heap0.
Definition heap2 : heap := heap_of (malloc 100 sys_grow 10 16 heap1) heap1.
Definition heap3 : heap := heap_of (free 10 5093 heap2) heap2.

Lemma malloc_free_correct_witness :
  client 100 sys_grow 10 1000 3 (set_ptr 5091 7 (set_size 5091 8 heap3)) [(5091, 16)] /\ freep (set_ptr 5091 7 (set_size 5091 8 heap3)) <> 0 /\
  exists F, ring_ok 100 1000 (set_ptr 5091 7 (set_size 5091 8 heap3)) F [(5091, 16)].
Proof.
  assert (Hcl : client 100 sys_grow 10 1000 3 (set_ptr 5091 7 (set_size 5091 8 heap3)) [(5091, 16)]).
  { apply (client_write _ _ _ _ _ _ _ 5091 16); [|left|split; [vm_compute; discriminate|vm_compute; reflexivity]].
    apply (client_free _ _ _ _ _ heap2 [(5091, 16)] 5093 40 []); [|reflexivity].
    apply (client_malloc _ _ _ _ _ heap1 [(5093, 40)] 16 5091); [|lia|reflexivity].
    apply (client_malloc _ _ _ _ _ heap0 [] 40 5093); [|lia|reflexivity]. apply client_start; [reflexivity|reflexivity|lia]. }
  assert (Hf : freep (set_ptr 5091 7 (set_size 5091 8 heap3)) <> 0) by (vm_compute; discriminate).
  split; [exact Hcl|]. split; [exact Hf|].
  apply (malloc_free_correct 100 sys_grow 10) with (k := 3%nat); [|lia|exact Hcl|lia|exact Hf].
  intros b n Hg. unfold sys_grow in Hg. bool_to_prop. lia.
Defined.
