(* ===== verification/Ulib.v ===== *)
(** The user library, [src/xv6-riscv/user/ulib.c].

    Memory is the process's, byte addressed; a loop that ends at a NUL takes fuel
    and gives [None] when there is none.  The pointer a routine returns is its first
    argument and is left out, strchr's apart.  [char] is unsigned on RISC-V. *)

From stdpp Require Import base list sets.
From S2P Require Import Prelude Memory KString.

(** ** The routines *)

(** while(( *s++ = *t++) != 0); *)
Fixpoint strcpy (m : mem) (s t : Z) (fuel : nat) : option mem :=
  match fuel with
  | O => None
  | S fuel =>
      let c := m t in
      let m := store8 m s c in
      if u8 c =? 0 then Some m else strcpy m (s + 1) (t + 1) fuel
  end.

(** while( *p && *p == *q) p++, q++; *)
Fixpoint strcmp (m : mem) (p q : Z) (fuel : nat) : option Z :=
  match fuel with
  | O => None
  | S fuel =>
      if (negb (m p =? 0) && (m p =? m q))%bool then strcmp m (p + 1) (q + 1) fuel
      else Some (u8 (m p) - u8 (m q))
  end.

Fixpoint ustrlen_loop (m : mem) (s n : Z) (fuel : nat) : option Z :=
  match fuel with
  | O => None
  | S fuel => if m (s + n) =? 0 then Some n else ustrlen_loop m s (n + 1) fuel
  end.
Definition ustrlen (m : mem) (s : Z) (fuel : nat) : option Z := ustrlen_loop m s 0 fuel.

Fixpoint umemset_loop (m : mem) (cdst c i : Z) (k : nat) : mem :=
  match k with
  | O => m
  | S k => umemset_loop (store8 m (cdst + i) c) cdst c (i + 1) k
  end.
Definition umemset (m : mem) (dst c n : Z) : mem := umemset_loop m dst c 0 (Z.to_nat n).

(** Some 0 is the null pointer. *)
Fixpoint ustrchr (m : mem) (s c : Z) (fuel : nat) : option Z :=
  match fuel with
  | O => None
  | S fuel =>
      if m s =? 0 then Some 0
      else if m s =? c then Some s
      else ustrchr m (s + 1) c fuel
  end.

(** [input]: the bytes that the calls read(0, &c, 1) will deliver; when there are
    none, read returns less than 1. *)
Fixpoint gets_loop (m : mem) (buf max i : Z) (input : list Z) : mem * Z * list Z :=
  if i + 1 <? max then
    match input with
    | [] => (m, i, [])
    | c :: input =>
        let m := store8 m (buf + i) c in
        if ((c =? 10) || (c =? 13))%bool then (m, i + 1, input) else gets_loop m buf max (i + 1) input
    end
  else (m, i, input).
Definition gets (m : mem) (buf max : Z) (input : list Z) : mem * list Z :=
  let '(m, i, input) := gets_loop m buf max 0 input in (store8 m (buf + i) 0, input).

(** while('0' <= *s && *s <= '9') n = n*10 + *s++ - '0'; *)
Fixpoint atoi_loop (m : mem) (s n : Z) (fuel : nat) : option Z :=
  match fuel with
  | O => None
  | S fuel =>
      if ((48 <=? m s) && (m s <=? 57))%bool then atoi_loop m (s + 1) (s32 (s32 (s32 (n * 10) + m s) - 48)) fuel
      else Some n
  end.
Definition atoi (m : mem) (s : Z) (fuel : nat) : option Z := atoi_loop m s 0 fuel.

(** while(n-- > 0) *dst++ = *src++;  and  while(n-- > 0) *--dst = *--src; *)
Fixpoint ucopy_up (m : mem) (dst src : Z) (n : nat) : mem :=
  match n with
  | O => m
  | S n => ucopy_up (store8 m dst (m src)) (dst + 1) (src + 1) n
  end.
Fixpoint ucopy_down (m : mem) (dst src : Z) (n : nat) : mem :=
  match n with
  | O => m
  | S n => ucopy_down (store8 m (dst - 1) (m (src - 1))) (dst - 1) (src - 1) n
  end.
Definition umemmove (m : mem) (vdst vsrc n : Z) : mem :=
  if vdst <? vsrc then ucopy_up m vdst vsrc (Z.to_nat n)
  else ucopy_down m (vdst + n) (vsrc + n) (Z.to_nat n).
Definition umemcpy (m : mem) (dst src n : Z) : mem := umemmove m dst src n.

Fixpoint umemcmp_loop (m : mem) (p1 p2 : Z) (n : nat) : Z :=
  match n with
  | O => 0
  | S n => if negb (m p1 =? m p2) then m p1 - m p2 else umemcmp_loop m (p1 + 1) (p2 + 1) n
  end.
Definition umemcmp (m : mem) (s1 s2 n : Z) : Z := umemcmp_loop m s1 s2 (Z.to_nat n).

(** ** Lemmas *)

Lemma ucopy_up_eq n : forall m d s, ucopy_up m d s n = copy_forward m d s n.
Proof. induction n as [|n IH]; intros; [done|]. apply IH. Qed.

Lemma ucopy_down_eq n : forall m d s, ucopy_down m d s n = copy_backward m d s n.
Proof. induction n as [|n IH]; intros; [done|]. apply IH. Qed.

Lemma umemmove_at m dst src n x : Memory.bytes m -> 0 <= n ->
  umemmove m dst src n x = if decide (dst <= x < dst + n) then m (src + (x - dst)) else m x.
Proof.
  intros Hb Hn. unfold umemmove. case_test; bool_to_prop.
  - rewrite ucopy_up_eq, copy_forward_at by (done || lia). rewrite Z2Nat.id by lia. done.
  - rewrite ucopy_down_eq, copy_backward_at by (done || lia). rewrite Z2Nat.id by lia. range_cases.
Qed.

(** The characters of two strings, compared with strncmp's reading of them *)
Lemma strcmp_eq m fuel : forall p q, Memory.bytes m -> (exists k, (k < fuel)%nat /\ m (p + Z.of_nat k) = 0) -> strcmp m p q fuel = Some (strncmp_loop m p q fuel).
Proof.
  induction fuel as [|fuel IH]; intros p q Hb (k & Hk & Hz); [lia|]. cbn [strcmp strncmp_loop].
  destruct (negb (m p =? 0) && (m p =? m q))%bool eqn:E; [|by rewrite !u8_small by apply Hb].
  apply IH; [done|]. destruct k as [|k]; [exfalso; rewrite Z.add_0_r in Hz; by rewrite Hz in E|].
  exists k. split; [lia|]. rewrite <- Hz. f_equal. lia.
Qed.

(** strcpy stores the string with its terminator and nothing else, wherever the
    destination does not reach into the source. *)
Lemma strcpy_spec bs : forall m s t fuel, Memory.bytes m -> cstring m t bs -> s + Z.of_nat (length bs) < t \/ t + Z.of_nat (length bs) < s ->
  (length bs < fuel)%nat ->
  exists m', strcpy m s t fuel = Some m' /\ forall x, m' x = if decide (s <= x <= s + Z.of_nat (length bs)) then m (t + (x - s)) else m x.
Proof.
  induction bs as [|b bs IH]; intros m s t fuel Hb [Hc Hz] Hd Hf; (destruct fuel as [|fuel]; [simpl in Hf; lia|]); cbn [strcpy]; rewrite u8_small by apply Hb.
  - cbn [length] in Hz. rewrite Z.add_0_r in Hz. rewrite Hz. exists (store8 m s 0). split; [done|]. intros x. cbn [length].
    case_decide; [|rewrite store8_other by lia; done]. assert (x = s) as -> by lia. rewrite store8_same. replace (t + (s - s)) with t by lia. by rewrite Hz.
  - destruct (Hc 0%nat b eq_refl) as [Hb0 Hmb]. rewrite Z.add_0_r in Hmb. rewrite Hmb, (proj2 (Z.eqb_neq _ _)) by done. cbn [length] in *.
    destruct (IH (store8 m s b) (s + 1) (t + 1) fuel) as (m' & E & Hm'); [by apply store8_bytes| | |lia|].
    + split; [intros i c Hi; destruct (Hc (S i) c Hi) as [? E]|]; [split; [done|]|]; rewrite store8_other by (try (apply lookup_lt_Some in Hi); lia);
        [rewrite <- E|rewrite <- Hz]; f_equal; lia.
    + lia.
    + exists m'. split; [done|]. intros x. rewrite Hm'. assert (Hbr : 0 <= b < 256) by (rewrite <- Hmb; apply Hb). unfold store8.
      repeat case_decide; repeat case_test; bool_to_prop; try lia; try done; try (f_equal; lia). rewrite u8_small by done. rewrite <- Hmb. f_equal. lia.
Qed.

Lemma strn_cstring m bs : forall t n, cstring m t bs -> (length bs < n)%nat -> strn m t n = bs.
Proof.
  induction bs as [|b bs IH]; intros t n [Hc Hz] Hn; (destruct n as [|n]; [simpl in Hn; lia|]); cbn [strn length] in *.
  - rewrite Z.add_0_r in Hz. by rewrite Hz.
  - destruct (Hc 0%nat b eq_refl) as [Hb Hm]. rewrite Z.add_0_r in Hm. rewrite Hm, (proj2 (Z.eqb_neq _ _)) by done. f_equal. apply IH; [|lia].
    split; [intros i c Hi; destruct (Hc (S i) c Hi) as [? <-]; split; [done|]|rewrite <- Hz]; f_equal; lia.
Qed.

(** The line that gets takes from its input: up to the first newline or return, at
    most [n] bytes *)
Fixpoint line_of (n : nat) (input : list Z) : list Z :=
  match n, input with
  | S n, c :: input => c :: (if ((c =? 10) || (c =? 13))%bool then [] else line_of n input)
  | _, _ => []
  end.

Lemma gets_loop_spec buf max n : forall m i input, Forall (fun c => 0 <= c < 256) input -> Z.to_nat (max - 1 - i) = n ->
  exists m', gets_loop m buf max i input = (m', i + Z.of_nat (length (line_of n input)), drop (length (line_of n input)) input) /\
    forall x, m' x = if decide (buf + i <= x < buf + i + Z.of_nat (length (line_of n input))) then rd (line_of n input) (x - buf - i) else m x.
Proof.
  induction n as [|n IH]; intros m i input Hin Hn.
  - exists m. split; [|intros x; rewrite decide_False by (simpl; lia); done]. unfold line_of. rewrite Z.add_0_r.
    destruct input; cbn [gets_loop]; by rewrite (proj2 (Z.ltb_ge _ _)) by lia.
  - destruct input as [|c input]; cbn [gets_loop line_of]; rewrite (proj2 (Z.ltb_lt _ _)) by lia.
    { exists m. split; [by rewrite Z.add_0_r|]. intros x. rewrite decide_False by (simpl; lia). done. }
    apply Forall_cons in Hin as [Hc Hin]. destruct ((c =? 10) || (c =? 13))%bool eqn:E.
    + exists (store8 m (buf + i) c). split; [done|]. intros x. cbn [length]. unfold store8. rewrite u8_small by done.
      case_decide; case_test; bool_to_prop; try lia. by replace (x - buf - i) with 0 by lia.
    + destruct (IH (store8 m (buf + i) c) (i + 1) input Hin ltac:(lia)) as (m' & -> & Hm'). exists m'. split; [f_equal; f_equal; cbn [length]; lia|].
      intros x. rewrite Hm'. cbn [length]. unfold store8. rewrite u8_small by done.
      repeat case_decide; repeat case_test; bool_to_prop; try lia; try done.
      * unfold rd. replace (Z.to_nat (x - buf - i)) with (S (Z.to_nat (x - buf - (i + 1)))) by lia. done.
      * by replace (x - buf - i) with 0 by lia.
Qed.

(** gets stores the line and a terminator inside its buffer, and takes the line from
    the input. *)
Lemma gets_reads_line m buf max input : 1 <= max -> Forall (fun c => 0 <= c < 256) input ->
  let line := line_of (Z.to_nat (max - 1)) input in
  exists m', gets m buf max input = (m', drop (length line) input) /\ (length line < Z.to_nat max)%nat /\
    m' (buf + Z.of_nat (length line)) = 0 /\
    (forall i, 0 <= i < Z.of_nat (length line) -> m' (buf + i) = rd line i) /\ (forall x, ~ buf <= x < buf + max -> m' x = m x).
Proof.
  intros Hmax Hin line. destruct (gets_loop_spec buf max _ m 0 input Hin eq_refl) as (m1 & E & Hm1). rewrite Z.sub_0_r in E, Hm1. fold line in E, Hm1.
  assert (Hl : (length line <= Z.to_nat (max - 1))%nat).
  { unfold line. clear. revert input. induction (Z.to_nat (max - 1)) as [|n IH]; intros [|c l]; simpl; try lia. destruct (_ || _)%bool; simpl; [lia|]. specialize (IH l). lia. }
  exists (store8 m1 (buf + Z.of_nat (length line)) 0). split_and!.
  - unfold gets. by rewrite E.
  - lia.
  - by rewrite store8_same.
  - intros i Hi. rewrite store8_other, Hm1, decide_True by lia. f_equal. lia.
  - intros x Hx. by rewrite store8_other, Hm1, decide_False by lia.
Qed.

(** ** Properties *)



