(* ===== verification/Printf.v ===== *)
(** Formatted output: [src/xv6-riscv/user/printf.c] and
    [src/xv6-riscv/kernel/printf.c].

    Both files have the same printint and printptr over their own digits and their
    own way to put a character.  A format is the list of its bytes before the NUL, the
    arguments are the words va_arg takes, and [m] is the memory %s reads from. *)

From stdpp Require Import base list strings.
From S2P Require Import Prelude Memory KString Spinlock Console ConsoleInv Ulib.

(** ** printint and printptr *)

Section print.
Context {S : Type} (putc : Z -> M S unit) (digits : list Z).

(** buf[i++] = c, for char buf[16]; past its end the C code would write over the
    stack. *)
Definition put_buf (buf : list Z) (i c : Z) : M S (list Z) :=
  if i <? 16 then ret (wr buf i c) else panic "printint: buf".

(** do { buf[i++] = digits[x % base]; } while((x /= base) != 0); *)
Fixpoint digit_loop (x base : Z) (buf : list Z) (i : Z) (fuel : nat) : M S (list Z * Z) :=
  match fuel with
  | O => out_of_fuel
  | Datatypes.S fuel =>
      let! buf := put_buf buf i (rd digits (x mod base)) in
      let x := x / base in
      if negb (x =? 0) then digit_loop x base buf (i + 1) fuel else ret (buf, i + 1)
  end.

(** while(--i >= 0) putc(buf[i]); *)
Fixpoint put_back (buf : list Z) (i : nat) : M S unit :=
  match i with
  | O => ret tt
  | Datatypes.S i => putc (rd buf (Z.of_nat i)) ;;; put_back buf i
  end.

Definition printint (xx base : Z) (sgn : bool) : M S unit :=
  let neg := (sgn && (xx <? 0))%bool in
  let x := if neg then u32 (- xx) else u32 xx in
  let! r := digit_loop x base (replicate 16 0) 0 33 in
  let '(buf, i) := r in
  let! r := if neg then let! buf := put_buf buf i 45 in ret (buf, i + 1) else ret (buf, i) in
  let '(buf, i) := r in
  put_back buf (Z.to_nat i).

(** for (i = 0; i < (sizeof(uint64) * 2); i++, x <<= 4) *)
Fixpoint ptr_loop (x : Z) (k : nat) : M S unit :=
  match k with
  | O => ret tt
  | Datatypes.S k => putc (rd digits (Z.shiftr x 60)) ;;; ptr_loop (u64 (Z.shiftl x 4)) k
  end.
Definition printptr (x : Z) : M S unit := putc 48 ;;; putc 120 ;;; ptr_loop x 16.

(** while( *s != 0) putc( *s++); *)
Fixpoint puts_loop (m : mem) (s : Z) (fuel : nat) : M S unit :=
  match fuel with
  | O => out_of_fuel
  | Datatypes.S fuel => if m s =? 0 then ret tt else putc (m s) ;;; puts_loop m (s + 1) fuel
  end.
Definition null_text : list Z := [40; 110; 117; 108; 108; 41].
Fixpoint puts_list (l : list Z) : M S unit :=
  match l with [] => ret tt | c :: l => putc c ;;; puts_list l end.
Definition puts (m : mem) (s : Z) (fuel : nat) : M S unit := if s =? 0 then puts_list null_text else puts_loop m s fuel.

(** va_arg *)
Definition va_arg (ap : list Z) : M S (Z * list Z) :=
  match ap with [] => panic "va_arg" | a :: ap => ret (a, ap) end.
End print.

(** ** user/printf.c *)

(** The bytes written, with their file descriptors *)
Definition uout : Type := list (Z * Z).
Definition udigits : list Z := [48; 49; 50; 51; 52; 53; 54; 55; 56; 57; 65; 66; 67; 68; 69; 70].

(** write(fd, &c, 1) *)
Definition uputc (fd c : Z) : M uout unit := modify (fun o => o ++ [(fd, u8 c)]).

Section vprintf.
Context (m : mem) (fuel : nat) (fd : Z).
Let put := uputc fd.

(** The conversion %c; the arguments left *)
Definition convert (c : Z) (ap : list Z) : M uout (list Z) :=
  if c =? 100 then let! a := va_arg ap in printint put udigits (s32 a.1) 10 true ;;; ret a.2
  else if c =? 108 then let! a := va_arg ap in printint put udigits (s32 a.1) 10 false ;;; ret a.2
  else if c =? 120 then let! a := va_arg ap in printint put udigits (s32 a.1) 16 false ;;; ret a.2
  else if c =? 112 then let! a := va_arg ap in printptr put udigits a.1 ;;; ret a.2
  else if c =? 115 then let! a := va_arg ap in puts put m a.1 fuel ;;; ret a.2
  else if c =? 99 then let! a := va_arg ap in put a.1 ;;; ret a.2
  else if c =? 37 then put c ;;; ret ap
  else put 37 ;;; put c ;;; ret ap.

(** [state]: a % has been read *)
Fixpoint vprintf_loop (fmt : list Z) (state : bool) (ap : list Z) : M uout unit :=
  match fmt with
  | [] => ret tt
  | c :: fmt =>
      if negb state then
        if c =? 37 then vprintf_loop fmt true ap else put c ;;; vprintf_loop fmt false ap
      else let! ap := convert c ap in vprintf_loop fmt false ap
  end.
Definition vprintf (fmt ap : list Z) : M uout unit := vprintf_loop fmt false ap.
End vprintf.

(** ** kernel/printf.c *)

Definition kdigits : list Z := [48; 49; 50; 51; 52; 53; 54; 55; 56; 57; 97; 98; 99; 100; 101; 102].

Section kprintf.
Context (m : mem) (fuel : nat).

(** The body of switch(c); the conversion x is signed here. *)
Definition kconvert (c : Z) (ap : list Z) : M cst (list Z) :=
  if c =? 100 then let! a := va_arg ap in printint consputc kdigits (s32 a.1) 10 true ;;; ret a.2
  else if c =? 120 then let! a := va_arg ap in printint consputc kdigits (s32 a.1) 16 true ;;; ret a.2
  else if c =? 112 then let! a := va_arg ap in printptr consputc kdigits a.1 ;;; ret a.2
  else if c =? 115 then let! a := va_arg ap in puts consputc m a.1 fuel ;;; ret a.2
  else if c =? 37 then consputc 37 ;;; ret ap
  else consputc 37 ;;; consputc c ;;; ret ap.

Fixpoint kprintf_loop (fmt : list Z) (ap : list Z) : M cst unit :=
  match fmt with
  | [] => ret tt
  | c :: fmt =>
      if negb (c =? 37) then consputc c ;;; kprintf_loop fmt ap
      else
        match fmt with
        | [] => ret tt
        | c :: fmt => let! ap := kconvert c ap in kprintf_loop fmt ap
        end
  end.

(** [locking]: pr.locking; [None]: a null format *)
Definition kprintf (locking : bool) (fmt : option (list Z)) (ap : list Z) : M cst unit :=
  (when locking then lock_acquire LPr) ;;;
  match fmt with
  | None => panic "null fmt"
  | Some fmt => kprintf_loop fmt ap ;;; when locking then lock_release LPr
  end.
End kprintf.
