(* ===== verification/PrintfSpec.v ===== *)
(** What formatted output prints (Printf): numbers as their numerals, which atoi of
    Ulib reads back, and formats as their expansion. *)

From stdpp Require Import base list strings.
From S2P Require Import Prelude Memory KString Spinlock Console ConsoleInv Ulib Printf.

(** ** Numerals *)

(** Digits of [x], least significant first *)
Fixpoint le_digits (base x : Z) (fuel : nat) : list Z :=
  match fuel with
  | O => []
  | S fuel => x mod base :: (if x / base =? 0 then [] else le_digits base (x / base) fuel)
  end.
Definition numeral (base x : Z) : list Z := reverse (le_digits base x 33).
Definition value (base : Z) (ds : list Z) : Z := foldl (fun n d => n * base + d) 0 ds.

Section numerals.
Context (base : Z).
Hypothesis Hbase : 2 <= base.

Lemma div_pow x k : 0 <= x < base ^ Z.of_nat (S k) -> 0 <= x / base < base ^ Z.of_nat k.
Proof.
  intros [Hx Hk]. rewrite Nat2Z.inj_succ, Z.pow_succ_r in Hk by lia. split; [apply Z.div_pos; lia|]. apply Z.div_lt_upper_bound; lia.
Qed.

Lemma le_digits_value fuel : forall x, 0 <= x < base ^ Z.of_nat fuel -> value base (reverse (le_digits base x fuel)) = x.
Proof.
  induction fuel as [|fuel IH]; intros x Hx; [simpl in Hx; cbn; lia|]. cbn [le_digits]. rewrite reverse_cons. unfold value. rewrite foldl_app. cbn [foldl].
  pose proof (div_pow x fuel Hx) as Hd. pose proof (Z.div_mod x base ltac:(lia)) as Hdm. case_test; bool_to_prop.
  - cbn. lia.
  - fold (value base (reverse (le_digits base (x / base) fuel))). rewrite IH by done. lia.
Qed.

Lemma le_digits_range fuel : forall x d, d ∈ le_digits base x fuel -> 0 <= d < base.
Proof.
  induction fuel as [|fuel IH]; intros x d; cbn [le_digits]; [by intros ?%elem_of_nil|]. intros [->|Hd]%elem_of_cons; [apply Z.mod_pos_bound; lia|].
  case_match; [by apply elem_of_nil in Hd|by apply IH in Hd].
Qed.

Lemma le_digits_length fuel k : forall x, (1 <= k)%nat -> 0 <= x < base ^ Z.of_nat k -> (length (le_digits base x fuel) <= k)%nat.
Proof.
  revert k. induction fuel as [|fuel IH]; intros k x Hk Hx; cbn [le_digits length]; [lia|]. destruct k as [|k]; [lia|]. pose proof (div_pow x k Hx) as Hd.
  case_test; bool_to_prop; cbn [length]; [lia|]. destruct k as [|k]; [change (Z.of_nat 0) with 0 in Hd; rewrite Z.pow_0_r in Hd; lia|].
  specialize (IH (S k) (x / base) ltac:(lia) Hd). lia.
Qed.

(** No leading zero *)
Lemma le_digits_top fuel : forall x, 0 < x < base ^ Z.of_nat fuel -> exists ds d, le_digits base x fuel = ds ++ [d] /\ d <> 0.
Proof.
  induction fuel as [|fuel IH]; intros x Hx; [simpl in Hx; lia|]. cbn [le_digits]. pose proof (div_pow x fuel ltac:(lia)) as Hd. pose proof (Z.div_mod x base ltac:(lia)).
  case_test; bool_to_prop.
  - exists [], (x mod base). split; [done|lia].
  - destruct (IH (x / base)) as (ds & d & -> & Hne); [lia|]. by exists (x mod base :: ds), d.
Qed.
End numerals.

(** ** Output *)

(** [emit l s]: state [s] after the bytes [l] have been put out; [ok]: output works *)
Class Output {S : Type} (putc : Z -> M S unit) (emit : list Z -> S -> S) (ok : S -> Prop) : Prop := {
  putc_emit c s : 0 <= c < 256 -> ok s -> putc c s = Ret tt (emit [c] s);
  emit_nil s : emit [] s = s;
  emit_app a b s : emit (a ++ b) s = emit b (emit a s);
  emit_ok l s : ok s -> ok (emit l s) }.

Definition uemit (fd : Z) (l : list Z) (o : uout) : uout := o ++ ((fun c => (fd, c)) <$> l).
Definition cemit (l : list Z) (s : cst) : cst := set_thr (thr s ++ l) s.

#[export] Instance user_output fd : Output (uputc fd) (uemit fd) (fun _ => True).
Proof.
  constructor.
  - intros c s Hc _. unfold uputc, modify, uemit. by rewrite u8_small.
  - intros s. unfold uemit. by rewrite fmap_nil, app_nil_r.
  - intros a b s. unfold uemit. by rewrite fmap_app, app_assoc.
  - done.
Qed.

#[export] Instance console_output : Output consputc cemit (fun s => panicked s = 0).
Proof.
  constructor.
  - intros c s Hc Hp. unfold consputc. rewrite (proj2 (Z.eqb_neq _ _)) by (unfold BACKSPACE; lia). unfold uartputc_sync, stop_if_panicked, bind, get.
    rewrite Hp. cbn [negb Z.eqb]. unfold write_THR, modify, ret, cemit. by rewrite u8_small.
  - intros s. unfold cemit. rewrite app_nil_r. by destruct s.
  - intros a b s. unfold cemit. cbn [set_thr thr]. by rewrite app_assoc.
  - done.
Qed.

Definition is_bytes (l : list Z) : Prop := Forall (fun c => 0 <= c < 256) l.

Section output.
Context {S : Type} {putc : Z -> M S unit} {emit : list Z -> S -> S} {ok : S -> Prop} `{!Output putc emit ok}.
Context (digits : list Z).
Hypothesis digits_bytes : is_bytes digits.

Lemma puts_list_emit l : forall s, is_bytes l -> ok s -> puts_list putc l s = Ret tt (emit l s).
Proof.
  induction l as [|c l IH]; intros s Hl Hs; cbn [puts_list]; [by rewrite emit_nil|]. apply Forall_cons in Hl as [Hc Hl].
  rewrite (bind_ret_intro _ _ _ _ _ (putc_emit c s Hc Hs)), IH by (done || by apply emit_ok). by rewrite (emit_app [c] l).
Qed.

Lemma put_back_emit buf i : forall s, (i <= length buf)%nat -> is_bytes buf -> ok s -> put_back putc buf i s = Ret tt (emit (reverse (take i buf)) s).
Proof.
  induction i as [|i IH]; intros s Hi Hb Hs; cbn [put_back]; [by rewrite emit_nil|].
  destruct (lookup_lt_is_Some_2 buf i Hi) as [c Hc]. assert (Er : rd buf (Z.of_nat i) = c) by (unfold rd; rewrite Nat2Z.id; by apply nth_lookup_Some).
  assert (Hcb : 0 <= c < 256) by (unfold is_bytes in Hb; rewrite Forall_lookup in Hb; by apply (Hb i)).
  rewrite Er, (bind_ret_intro _ _ _ _ _ (putc_emit c s Hcb Hs)), IH by (lia || done || by apply emit_ok).
  rewrite (take_S_r _ _ _ Hc), reverse_app. by rewrite (emit_app (reverse [c])).
Qed.

Lemma rd_byte (l : list Z) i : is_bytes l -> 0 <= rd l i < 256.
Proof.
  intros Hl. unfold rd. destruct (decide (Z.to_nat i < length l)%nat) as [Hi|Hi]; [|rewrite nth_overflow by lia; lia].
  destruct (lookup_lt_is_Some_2 l _ Hi) as [c Hc]. rewrite (nth_lookup_Some _ _ _ _ Hc). unfold is_bytes in Hl. rewrite Forall_lookup in Hl. by apply (Hl _ _ Hc).
Qed.

Lemma map_digit_bytes ds : is_bytes (rd digits <$> ds).
Proof. apply Forall_fmap, Forall_true. intros d. by apply rd_byte. Qed.

Lemma wr_next (buf pre : list Z) c : take (length pre) buf = pre -> (length pre < length buf)%nat ->
  take (length (pre ++ [c])) (wr buf (Z.of_nat (length pre)) c) = pre ++ [c].
Proof.
  intros Ht Hl. unfold wr. rewrite Nat2Z.id, length_app. cbn [length]. rewrite Nat.add_1_r, (take_S_r _ _ c).
  - by rewrite take_insert_ge, Ht by lia.
  - by apply list_lookup_insert_eq.
Qed.

Lemma wr_bytes (buf : list Z) i c : is_bytes buf -> 0 <= c < 256 -> is_bytes (wr buf i c).
Proof. intros Hb Hc. unfold wr. by apply Forall_insert. Qed.

(** The buffer after the loop over the digits *)
Lemma digit_loop_run base fuel : forall x buf pre (s : S), 2 <= base -> 0 <= x < base ^ Z.of_nat fuel ->
  length buf = 16%nat -> is_bytes buf -> take (length pre) buf = pre -> (length pre + length (le_digits base x fuel) <= 16)%nat -> (1 <= fuel)%nat ->
  exists buf', digit_loop digits x base buf (Z.of_nat (length pre)) fuel s =
      Ret (buf', Z.of_nat (length (pre ++ (rd digits <$> le_digits base x fuel)))) s /\
    length buf' = 16%nat /\ is_bytes buf' /\ take (length (pre ++ (rd digits <$> le_digits base x fuel))) buf' = pre ++ (rd digits <$> le_digits base x fuel).
Proof.
  induction fuel as [|fuel IH]; intros x buf pre s Hbase Hx Hl Hb Ht Hlen Hf; [lia|]. cbn [le_digits digit_loop] in *. cbn [length] in Hlen.
  unfold put_buf. rewrite (proj2 (Z.ltb_lt _ _)) by lia. cbn [bind ret]. set (c := rd digits (x mod base)).
  pose proof (wr_next buf pre c Ht ltac:(lia)) as Ht'. pose proof (wr_bytes buf (Z.of_nat (length pre)) c Hb (rd_byte _ _ digits_bytes)) as Hb'.
  assert (Hl' : length (wr buf (Z.of_nat (length pre)) c) = 16%nat) by by rewrite length_wr.
  assert (Hi : Z.of_nat (length pre) + 1 = Z.of_nat (length (pre ++ [c]))) by (rewrite length_app; simpl; lia). rewrite Hi.
  unfold bind, ret. destruct (x / base =? 0) eqn:E; cbn [negb].
  - eexists. split; [done|]. rewrite fmap_cons. fold c. done.
  - pose proof (div_pow base Hbase x fuel Hx) as Hd. bool_to_prop. destruct fuel as [|fuel]; [simpl in Hd; lia|].
    assert (Hle : (length (pre ++ [c]) + length (le_digits base (x / base) (Datatypes.S fuel)) <= 16)%nat) by (rewrite length_app; simpl in *; lia).
    destruct (IH (x / base) _ (pre ++ [c]) s Hbase Hd Hl' Hb' Ht' Hle ltac:(lia)) as (buf' & -> & H1 & H2 & H3). exists buf'.
    rewrite fmap_cons. fold c. rewrite <- app_assoc in *. cbn [app] in *. done.
Qed.

(** The text of an integer *)
Definition int_text (xx base : Z) (sgn : bool) : list Z :=
  (if (sgn && (xx <? 0))%bool then [45] else []) ++ (rd digits <$> numeral base (if (sgn && (xx <? 0))%bool then u32 (- xx) else u32 xx)).

Lemma printint_emit xx base sgn s : base = 10 \/ base = 16 -> ok s -> printint putc digits xx base sgn s = Ret tt (emit (int_text xx base sgn) s).
Proof.
  intros Hbase Hs. unfold printint, int_text, numeral. set (neg := (sgn && (xx <? 0))%bool). set (x := if neg then u32 (- xx) else u32 xx).
  assert (Hx : 0 <= x < 2 ^ 32) by (unfold x; destruct neg; apply u32_range). assert (Hb2 : 2 <= base) by lia.
  assert (Hx33 : 0 <= x < base ^ Z.of_nat 33).
  { split; [lia|]. apply Z.lt_le_trans with (2 ^ 32); [lia|]. transitivity (2 ^ 33); [lia|]. apply Z.pow_le_mono_l. lia. }
  assert (Hlen : (length (le_digits base x 33) <= 10)%nat) by (apply le_digits_length; [done|lia|]; destruct Hbase as [->| ->]; lia).
  destruct (digit_loop_run base 33 x (replicate 16 0) [] s Hb2 Hx33) as (buf & E & Hl & Hb & Ht); [done| |done|cbn [length]; lia|lia|].
  { apply Forall_replicate. lia. }
  cbn [length app] in E, Ht. change (Z.of_nat 0) with 0 in E. rewrite (bind_ret_intro _ _ _ _ _ E).
  set (ds := rd digits <$> le_digits base x 33) in *. assert (Hds : (length ds <= 10)%nat) by (unfold ds; by rewrite length_fmap).
  rewrite fmap_reverse. fold ds. clearbody ds. destruct neg.
  - unfold put_buf. rewrite (proj2 (Z.ltb_lt _ _)) by lia. unfold bind, ret.
    replace (Z.to_nat (Z.of_nat (length ds) + 1)) with (length (ds ++ [45])) by (rewrite length_app; simpl; lia).
    rewrite put_back_emit; [|rewrite length_wr, length_app; simpl; lia|by apply wr_bytes|done]. rewrite wr_next by (done || lia). by rewrite reverse_app.
  - unfold bind, ret. rewrite Nat2Z.id, put_back_emit by (done || lia). by rewrite Ht.
Qed.
End output.

(** ** atoi *)

Lemma s32_step n k : s32 (n + k * 2 ^ 32) = s32 n.
Proof. unfold s32. replace (n + k * 2 ^ 32 + 2 ^ 31) with (n + 2 ^ 31 + k * 2 ^ 32) by lia. by rewrite Z.mod_add by lia. Qed.

Lemma s32_near n : exists k, s32 n = n + k * 2 ^ 32.
Proof.
  exists (- ((n + 2 ^ 31) / 2 ^ 32)). unfold s32. pose proof (Z.div_mod (n + 2 ^ 31) (2 ^ 32) ltac:(lia)). lia.
Qed.

Lemma atoi_digit v d : s32 (s32 (s32 (s32 v * 10) + (48 + d)) - 48) = s32 (v * 10 + d).
Proof.
  destruct (s32_near v) as [k1 E1], (s32_near (s32 v * 10)) as [k2 E2], (s32_near (s32 (s32 v * 10) + (48 + d))) as [k3 E3].
  rewrite E3, E2, E1. replace (_ - 48) with (v * 10 + d + (k1 * 10 + k2 + k3) * 2 ^ 32) by lia. apply s32_step.
Qed.

(** atoi reads the digits up to the first character that is none, modulo 2^32. *)
Lemma atoi_digits m ds : forall s v fuel, (forall i d, ds !! i = Some d -> 0 <= d <= 9 /\ m (s + Z.of_nat i) = 48 + d) ->
  m (s + Z.of_nat (length ds)) < 48 \/ 57 < m (s + Z.of_nat (length ds)) -> (length ds < fuel)%nat ->
  atoi_loop m s (s32 v) fuel = Some (s32 (foldl (fun n d => n * 10 + d) v ds)).
Proof.
  induction ds as [|d ds IH]; intros s v fuel Hd Hend Hf; (destruct fuel as [|fuel]; [simpl in Hf; lia|]); cbn [atoi_loop length foldl] in *.
  - rewrite Z.add_0_r in Hend. destruct (Z.leb_spec 48 (m s)), (Z.leb_spec (m s) 57); cbn [andb]; lia || done.
  - destruct (Hd 0%nat d eq_refl) as [H9 Hm]. rewrite Z.add_0_r in Hm. rewrite Hm, (proj2 (Z.leb_le 48 _)), (proj2 (Z.leb_le _ 57)) by lia. cbn [andb].
    rewrite atoi_digit. apply IH; [|by replace (s + 1 + Z.of_nat (length ds)) with (s + Z.of_nat (S (length ds))) by lia|lia].
    intros i e Hi. destruct (Hd (S i) e Hi) as [? <-]. split; [done|]. f_equal. lia.
Qed.

Lemma decimal_digit d : 0 <= d < 10 -> rd udigits d = 48 + d /\ rd kdigits d = 48 + d.
Proof.
  intros Hd. assert (d = 0 \/ d = 1 \/ d = 2 \/ d = 3 \/ d = 4 \/ d = 5 \/ d = 6 \/ d = 7 \/ d = 8 \/ d = 9) as Hc by lia.
  repeat destruct Hc as [->|Hc]; try done. by subst.
Qed.

Lemma cstring_app_r m s l1 l2 : cstring m s (l1 ++ l2) -> cstring m (s + Z.of_nat (length l1)) l2.
Proof.
  intros [Hc Hz]. split.
  - intros i b Hi. destruct (Hc (length l1 + i)%nat b) as [? <-]; [by rewrite lookup_app_r, Nat.add_sub_swap, Nat.sub_diag by lia|]. split; [done|]. f_equal. lia.
  - rewrite <- Hz, length_app. f_equal. lia.
Qed.

Lemma atoi_numeral m s x fuel : 0 <= x < 2 ^ 32 -> cstring m s (rd udigits <$> numeral 10 x) -> (length (numeral 10 x) < fuel)%nat -> atoi m s fuel = Some (s32 x).
Proof.
  intros Hx [Hc Hz] Hf. unfold atoi. change 0 with (s32 0) at 1. rewrite (atoi_digits m (numeral 10 x)).
  - f_equal. f_equal. apply (le_digits_value 10 ltac:(lia) 33). split; [lia|]. change (Z.of_nat 33) with 33. lia.
  - intros i d Hi. assert (Hd : 0 <= d < 10).
    { apply (le_digits_range 10 ltac:(lia) 33 x). apply elem_of_reverse. by eapply list_elem_of_lookup_2. }
    split; [lia|]. destruct (Hc i (rd udigits d)) as [_ ->]; [by rewrite list_lookup_fmap, Hi|]. by apply decimal_digit.
  - rewrite length_fmap in Hz. rewrite Hz. lia.
  - done.
Qed.

Lemma udigits_bytes : is_bytes udigits.
Proof. repeat constructor; lia. Qed.
Lemma kdigits_bytes : is_bytes kdigits.
Proof. repeat constructor; lia. Qed.



(** ** Formats *)

(** The sixteen hexadecimal digits of a pointer *)
Fixpoint ptr_digits (x : Z) (k : nat) : list Z :=
  match k with
  | O => []
  | S k => Z.shiftr x 60 :: ptr_digits (u64 (Z.shiftl x 4)) k
  end.

Lemma ptr_digits_value k : forall x acc, (k <= 16)%nat -> 0 <= x < 2 ^ 64 ->
  foldl (fun n d => n * 16 + d) acc (ptr_digits x k) = acc * 16 ^ Z.of_nat k + x / 16 ^ (16 - Z.of_nat k).
Proof.
  induction k as [|k IH]; intros x acc Hk Hx; cbn [ptr_digits foldl].
  - rewrite Z.div_small by (change (16 - Z.of_nat 0) with 16; lia). simpl. lia.
  - rewrite IH by (lia || apply u64_range). unfold u64. rewrite Z.shiftr_div_pow2, Z.shiftl_mul_pow2 by lia.
    set (j := Z.of_nat k) in *. replace (Z.of_nat (S k)) with (j + 1) by lia.
    pose proof (Z.div_mod x (2 ^ 60) ltac:(lia)) as Hdm. pose proof (Z.mod_pos_bound x (2 ^ 60) ltac:(lia)) as Hr.
    set (h := x / 2 ^ 60) in *. set (r := x mod 2 ^ 60) in *. assert (Hh : 0 <= h < 16) by (split; [apply Z.div_pos; lia|apply Z.div_lt_upper_bound; lia]).
    assert (Em : (x * 2 ^ 4) mod 2 ^ 64 = r * 16).
    { rewrite Hdm. replace ((2 ^ 60 * h + r) * 2 ^ 4) with (r * 16 + h * 2 ^ 64) by lia. rewrite Z.mod_add by lia. apply Z.mod_small. lia. }
    assert (E1 : r * 16 / 16 ^ (16 - j) = r / 16 ^ (16 - (j + 1))).
    { replace (16 - j) with (Z.succ (16 - (j + 1))) by lia. rewrite Z.pow_succ_r by lia. rewrite (Z.mul_comm 16). apply Z.div_mul_cancel_r; [|lia]. pose proof (Z.pow_pos_nonneg 16 (16 - (j + 1))). lia. }
    assert (E2 : x / 16 ^ (16 - (j + 1)) = h * 16 ^ j + r / 16 ^ (16 - (j + 1))).
    { pose proof (Z.pow_pos_nonneg 16 (16 - (j + 1)) ltac:(lia) ltac:(lia)). rewrite Hdm. replace (2 ^ 60 * h) with (h * 16 ^ j * 16 ^ (16 - (j + 1))).
      - rewrite Z.add_comm, Z.div_add by lia. lia.
      - rewrite <- Z.mul_assoc, <- Z.pow_add_r by lia. replace (j + (16 - (j + 1))) with 15 by lia. lia. }
    rewrite Em, E1, E2, Z.pow_add_r, Z.pow_1_r by lia. lia.
Qed.

(** The text at a pointer; None when it has no end within [fuel] bytes *)
Fixpoint text_at (m : mem) (s : Z) (fuel : nat) : option (list Z) :=
  match fuel with
  | O => None
  | S fuel => if m s =? 0 then Some [] else l ← text_at m (s + 1) fuel; Some (m s :: l)
  end.
Definition str_text (m : mem) (s : Z) (fuel : nat) : option (list Z) := if s =? 0 then Some null_text else text_at m s fuel.

(** A table of conversions: the text for a conversion character and the arguments,
    with the arguments left *)
Definition table : Type := Z -> list Z -> option (list Z * list Z).

Definition take_arg (f : Z -> option (list Z)) (ap : list Z) : option (list Z * list Z) :=
  match ap with [] => None | a :: ap => t ← f a; Some (t, ap) end.

Section tables.
Context (m : mem) (fuel : nat).
Definition user_table : table := fun c ap =>
  if c =? 100 then take_arg (fun a => Some (int_text udigits (s32 a) 10 true)) ap
  else if c =? 108 then take_arg (fun a => Some (int_text udigits (s32 a) 10 false)) ap
  else if c =? 120 then take_arg (fun a => Some (int_text udigits (s32 a) 16 false)) ap
  else if c =? 112 then take_arg (fun a => Some (48 :: 120 :: (rd udigits <$> ptr_digits a 16))) ap
  else if c =? 115 then take_arg (fun a => str_text m a fuel) ap
  else if c =? 99 then take_arg (fun a => Some [u8 a]) ap
  else Some (if c =? 37 then [37] else [37; c], ap).
Definition kernel_table : table := fun c ap =>
  if c =? 100 then take_arg (fun a => Some (int_text kdigits (s32 a) 10 true)) ap
  else if c =? 120 then take_arg (fun a => Some (int_text kdigits (s32 a) 16 true)) ap
  else if c =? 112 then take_arg (fun a => Some (48 :: 120 :: (rd kdigits <$> ptr_digits a 16))) ap
  else if c =? 115 then take_arg (fun a => str_text m a fuel) ap
  else Some (if c =? 37 then [37] else [37; c], ap).
End tables.

(** A format with every % replaced; a lone % at its end prints nothing *)
Fixpoint expand (t : table) (fmt ap : list Z) : option (list Z) :=
  match fmt with
  | [] => Some []
  | c :: fmt =>
      if c =? 37 then
        match fmt with
        | [] => Some []
        | c :: fmt => r ← t c ap; rest ← expand t fmt r.2; Some (r.1 ++ rest)
        end
      else rest ← expand t fmt ap; Some (c :: rest)
  end.

Section printing.
Context {S : Type} {putc : Z -> M S unit} {emit : list Z -> S -> S} {ok : S -> Prop} `{!Output putc emit ok}.
Context (digits : list Z) (m : mem) (fuel : nat).
Hypothesis digits_bytes : is_bytes digits.
Hypothesis m_bytes : Memory.bytes m.

Lemma putc_then {A} c (k : M S A) s : 0 <= c < 256 -> ok s -> (putc c ;;; k)%kernel s = k (emit [c] s).
Proof. intros Hc Hs. by rewrite (bind_ret_intro _ _ _ _ _ (putc_emit c s Hc Hs)). Qed.

Lemma ptr_loop_emit k : forall x s, ok s -> ptr_loop putc digits x k s = Ret tt (emit (rd digits <$> ptr_digits x k) s).
Proof.
  induction k as [|k IH]; intros x s Hs; cbn [ptr_loop ptr_digits]; [by rewrite fmap_nil, emit_nil|].
  rewrite putc_then, IH by (done || by apply emit_ok || by apply rd_byte). by rewrite fmap_cons, <- (emit_app [_]).
Qed.

Lemma printptr_emit x s : ok s -> printptr putc digits x s = Ret tt (emit (48 :: 120 :: (rd digits <$> ptr_digits x 16)) s).
Proof.
  intros Hs. unfold printptr. rewrite !putc_then, ptr_loop_emit by (lia || done || by repeat apply emit_ok). by rewrite <- !emit_app.
Qed.

Lemma puts_emit a l s : str_text m a fuel = Some l -> ok s -> puts putc m a fuel s = Ret tt (emit l s).
Proof.
  unfold str_text, puts. case_test; [intros [= <-] Hs; apply puts_list_emit; [repeat constructor; lia|done]|]. clear E. revert a l s.
  induction fuel as [|f IH]; intros a l s Ht Hs; [done|]. cbn [text_at puts_loop] in *. destruct (m a =? 0); [injection Ht as <-; by rewrite emit_nil|].
  destruct (text_at m (a + 1) f) as [l'|] eqn:E; [|done]. injection Ht as <-. rewrite putc_then by (done || apply m_bytes).
  rewrite (IH _ l') by (done || by apply emit_ok). by rewrite <- (emit_app [_]).
Qed.

(** A conversion that takes an argument *)
Lemma arg_emit (f : Z -> option (list Z)) (g : Z -> M S unit) ap r s :
  (forall a t, f a = Some t -> g a s = Ret tt (emit t s)) -> take_arg f ap = Some r ->
  (let! a := va_arg ap in g a.1 ;;; ret a.2)%kernel s = Ret r.2 (emit r.1 s).
Proof.
  intros Hg. destruct ap as [|a ap]; [done|]. cbn [take_arg]. destruct (f a) as [t|] eqn:E; [|done]. intros [= <-].
  unfold va_arg, bind at 1, ret at 1. by rewrite (bind_ret_intro _ _ _ _ _ (Hg a t E)).
Qed.
End printing.

Ltac int_case p d Hd base sgn :=
  case_test; [apply (arg_emit _ (fun a => printint p d (s32 a) base sgn)); intros a t [= <-]; apply printint_emit; [exact Hd|lia|done]|].
Ltac ptr_case p d Hd :=
  case_test; [apply (arg_emit _ (fun a => printptr p d a)); intros a t [= <-]; apply printptr_emit; [exact Hd|done]|].
Ltac str_case p m fuel :=
  case_test; [apply (arg_emit _ (fun a => puts p m a fuel)); intros a t Ht; by apply puts_emit|].

Lemma convert_emit m fuel fd c ap r o : Memory.bytes m -> 0 <= c < 256 -> user_table m fuel c ap = Some r ->
  convert m fuel fd c ap o = Ret r.2 (uemit fd r.1 o).
Proof.
  intros Hm Hc. unfold user_table, convert.
  int_case (uputc fd) udigits udigits_bytes 10 true. int_case (uputc fd) udigits udigits_bytes 10 false.
  int_case (uputc fd) udigits udigits_bytes 16 false. ptr_case (uputc fd) udigits udigits_bytes. str_case (uputc fd) m fuel.
  case_test; [apply (arg_emit _ (uputc fd)); by intros a t [= <-]|].
  case_test; bool_to_prop; subst; intros [= <-]; rewrite !putc_then by (done || lia); unfold ret; cbn [Datatypes.fst Datatypes.snd]; by rewrite <- ?emit_app.
Qed.

Lemma kconvert_emit m fuel c ap r s : Memory.bytes m -> 0 <= c < 256 -> panicked s = 0 -> kernel_table m fuel c ap = Some r ->
  kconvert m fuel c ap s = Ret r.2 (cemit r.1 s).
Proof.
  intros Hm Hc Hp. unfold kernel_table, kconvert.
  int_case consputc kdigits kdigits_bytes 10 true. int_case consputc kdigits kdigits_bytes 16 true. ptr_case consputc kdigits kdigits_bytes. str_case consputc m fuel.
  case_test; bool_to_prop; subst; intros [= <-]; rewrite !putc_then by (done || lia); unfold ret; cbn [Datatypes.fst Datatypes.snd]; by rewrite <- ?emit_app.
Qed.

Lemma vprintf_expand m fuel fd n : forall fmt ap text o, (length fmt <= n)%nat -> Memory.bytes m -> is_bytes fmt -> expand (user_table m fuel) fmt ap = Some text ->
  vprintf m fuel fd fmt ap o = Ret tt (uemit fd text o).
Proof.
  unfold vprintf. induction n as [|n IH]; intros fmt ap text o Hn Hm Hf; (destruct fmt as [|c fmt]; cbn [expand vprintf_loop]; [intros [= <-]; by rewrite emit_nil|]).
  { simpl in Hn. lia. }
  apply Forall_cons in Hf as [Hc Hf]. cbn [length negb] in *. case_test.
  - destruct fmt as [|c' fmt]; [intros [= <-]; by rewrite emit_nil|]. apply Forall_cons in Hf as [Hc' Hf]. cbn [vprintf_loop negb length] in *.
    destruct (user_table m fuel c' ap) as [r|] eqn:Et; [|done]. cbn [mbind option_bind]. destruct (expand _ fmt r.2) as [rest|] eqn:Ee; [|done]. intros [= <-].
    rewrite (bind_ret_intro _ _ _ _ _ (convert_emit m fuel fd c' ap r o Hm Hc' Et)), (IH _ _ rest) by (done || lia). by rewrite emit_app.
  - destruct (expand _ fmt ap) as [rest|] eqn:Ee; [|done]. intros [= <-]. rewrite putc_then, (IH _ _ rest) by (done || lia). by rewrite <- (emit_app [_]).
Qed.

Lemma kprintf_expand m fuel n : forall fmt ap text s, (length fmt <= n)%nat -> Memory.bytes m -> is_bytes fmt -> panicked s = 0 -> expand (kernel_table m fuel) fmt ap = Some text ->
  kprintf_loop m fuel fmt ap s = Ret tt (cemit text s).
Proof.
  induction n as [|n IH]; intros fmt ap text s Hn Hm Hf Hp; (destruct fmt as [|c fmt]; cbn [expand kprintf_loop]; [intros [= <-]; by rewrite emit_nil|]).
  { simpl in Hn. lia. }
  apply Forall_cons in Hf as [Hc Hf]. cbn [length] in *. case_test; cbn [negb].
  - destruct fmt as [|c' fmt]; [intros [= <-]; by rewrite emit_nil|]. apply Forall_cons in Hf as [Hc' Hf]. cbn [length] in *.
    destruct (kernel_table m fuel c' ap) as [r|] eqn:Et; [|done]. cbn [mbind option_bind]. destruct (expand _ fmt r.2) as [rest|] eqn:Ee; [|done]. intros [= <-].
    rewrite (bind_ret_intro _ _ _ _ _ (kconvert_emit m fuel c' ap r s Hm Hc' Hp Et)), (IH _ _ rest) by (done || lia). by rewrite emit_app.
  - destruct (expand _ fmt ap) as [rest|] eqn:Ee; [|done]. intros [= <-]. rewrite putc_then, (IH _ _ rest) by (done || lia). by rewrite <- (emit_app [_]).
Qed.

(** printf prints the expansion of its format: text as it stands, each conversion
    replaced by the numeral, pointer, string or character its argument means, in order,
    an unknown conversion as it stands, and for %p sixteen digits whose value is the
    pointer.  It holds for user printf on any file descriptor, and for the kernel's,
    which gives its lock back and changes nothing else. *)
Theorem printf_expands m fuel fmt ap : Memory.bytes m -> is_bytes fmt ->
  (forall text fd o, expand (user_table m fuel) fmt ap = Some text -> vprintf m fuel fd fmt ap o = Ret tt (uemit fd text o)) /\
  (forall text locking s, expand (kernel_table m fuel) fmt ap = Some text -> panicked s = 0 -> LPr ∉ cheld s ->
     kprintf m fuel locking (Some fmt) ap s = Ret tt (cemit text s)) /\
  (forall x, 0 <= x < 2 ^ 64 -> value 16 (ptr_digits x 16) = x).
Proof.
  intros Hm Hf. split_and!.
  - intros text fd o He. by apply (vprintf_expand m fuel fd (length fmt)).
  - intros text locking s He Hp Hl. unfold kprintf. destruct locking.
    + assert (Hl' : LPr ∉ held s) by exact Hl. destruct (lock_pair LPr s Hl') as [Ha _]. rewrite (bind_ret_intro _ _ _ _ _ Ha).
      set (s1 := set_held (LPr :: held s) s). assert (Hp1 : panicked s1 = 0) by exact Hp.
      rewrite (bind_ret_intro _ _ _ _ _ (kprintf_expand m fuel (length fmt) fmt ap text s1 (le_n _) Hm Hf Hp1 He)).
      rewrite (lock_release_top LPr _ (cheld s)); [|done|done]. by destruct s.
    + unfold bind at 1, ret at 1. by rewrite (bind_ret_intro _ _ _ _ _ (kprintf_expand m fuel (length fmt) fmt ap text _ (le_n _) Hm Hf Hp He)).
  - intros x Hx. unfold value. rewrite ptr_digits_value by (done || lia). change (16 - Z.of_nat 16) with 0. rewrite Z.pow_0_r, Z.div_1_r. lia.
Qed.

(** "a=%d %s%%" *)
Lemma printf_expands_witness :
  let m := mem_of 100 [104; 105; 0] in let fmt := [97; 61; 37; 100; 32; 37; 115; 37; 37] in
  Memory.bytes m /\ is_bytes fmt /\ vprintf m 9 1 fmt [42; 100] [] = Ret tt (uemit 1 [97; 61; 52; 50; 32; 104; 105; 37] []).
Proof.
  intros m fmt. assert (Hm : Memory.bytes m) by apply mem_of_bytes. assert (Hf : is_bytes fmt) by (repeat constructor; lia).
  split; [exact Hm|]. split; [exact Hf|]. apply (printf_expands m 9 fmt [42; 100] Hm Hf). vm_compute. reflexivity.
Defined.
